(* ===== verification/_CoqProject ===== *)
-Q . S2P
Prelude.v
GoLib.v
Flags.v
Model.v
Policy.v
Sentinel.v
Envelope.v
Persistent.v
TurnWait.v
Ansi.v
Screen.v
Bus.v
Broker.v
Protocol.v
Trace.v
BrokerRun.v
Turns.v
SentinelLoop.v
Stream.v
EndToEnd.v
PeerFlags.v
Converse.v
FileSys.v
Store.v
StoreList.v
System.v
Postgres.v
Regex.v
Adapter.v
Provider.v
PtyPeers.v
MockAgent.v
Orchestrator.v
RunDisk.v
Process.v
Api.v
ApiStream.v
Served.v
RunProcess.v
ConverseRun.v
Commands.v
