(* ===== verification/Prelude.v ===== *)
(** * A Rocq model of vitis

    vitis runs command-line coding agents in pseudo-terminals: one prompt to one
    agent ([vitis run]), or a conversation of 2 to 16 agents that a broker moderates
    ([vitis converse]); both leave their turns in a store that [vitis peek] and an
    HTTP API ([vitis serve]) read.  This library models that program and proves the
    properties that make its parts, and their composition, correct.

    ** The parts, the files and the code

    - [Prelude], [GoLib]: bytes, strings, errors, 64-bit integers, [strings],
      [strconv], [unicode/utf8], [path/filepath], as far as the code uses them.
      Not the program's own code, so no theorem about the program is here.
    - [Flags]: package [flag], as far as the commands use it: the parser of an
      argument list, and the exact set of lists it accepts.
    - [Model]: the structs and constants of [internal/model].
    - [Policy]: [internal/conversation/policy], who speaks next.
    - [Sentinel], [SentinelLoop]: [internal/terminator/sentinel.go], the text
      functions and the goroutine over the bus.
    - [Envelope]: [envelope.go], [marker.go], [briefing.go], [style.go] of
      [internal/conversation].
    - [Bus]: [internal/bus] and [internal/bus/inproc]; [bus_op] is one whole call.
    - [Broker]: [internal/conversation/broker.go]; the record [BrokerDeps] is the
      Go struct, [Run], [loop], [startAllPeers], [finalize] and the rest are the
      methods of the same names, in a state monad over an abstract environment
      [BrokerEnv] (store, peers, bus, clock, random source) and a log of calls.
    - [Protocol], [BrokerRun]: the abstract protocol of the broker as a transition
      system, the proof that [Run] follows it, and what that entails.
    - [Trace], [Turns]: no code of their own.  [Trace] recovers what happened to a
      part of the broker's environment from the log of the calls of a run, for
      every environment that explains each call as a step of that part; [Turns]
      says what the calls of a run carry: its turns, their numbers, the messages.
    - [Stream]: [streamTurnsTo], the goroutine that writes the turns of [converse]
      as they come, beside all others that use the bus.
    - [EndToEnd]: the broker over the in-process bus with the sentinel terminator,
      as the commands put them together; an instance of [BrokerEnv].
    - [Persistent], [Ansi], [Screen]: [internal/peer/provider/persistent.go] and
      [ansi.go], [screen.go] of [internal/terminal].
    - [TurnWait]: how [ConverseTurn] of [persistent.go] waits: the waiter, the
      watcher and the pump as threads over the condition variable, each step one
      critical section; what a schedule must do for the turn to return.
    - [PeerFlags], [Converse]: [internal/cli/converse_npeer.go], [converse.go],
      [converse_npeer_run.go].
    - [FileSys]: package [os] over a tree of files with a schedule of faults, the
      JSON codec and [sort.Slice] as classes.
    - [Store], [StoreList]: [internal/store/file], [internal/store/v1compat].
    - [System]: the broker over the file store; an instance of [BrokerEnv] whose
      three store operations are those of [Store].
    - [RunDisk]: the single-shot run over the file store; an instance of [OrchEnv],
      with rules for reasoning on runs.
    - [PtyPeers]: the broker over provider transports, as the commands make them;
      an instance of [BrokerEnv] whose three operations on peers are those of
      [Provider], [Persistent] and [TurnWait]; with the transports it keeps a ledger
      of the processes started, of the calls of [Terminate], and of calls that would
      wait for ever.
    - [Served]: no code of its own; what the API serves of finished runs.
    - [RunProcess]: the single-shot run over the process of [Process] and the file
      store; an instance of [OrchEnv].
    - [ConverseRun]: what [ConverseCommand] and [runNPeerConverse] put together:
      the broker's environment made of [EndToEnd], [System] and [PtyPeers].
    - [Postgres]: [internal/store/postgres]; the statements and what they mean on
      the tables of the schema, over a pool whose laws are a class.
    - [Regex], [Adapter]: [internal/adapter] with [claudecode] and [codex].
    - [Provider]: [internal/peer/provider] (transport, spawner), [internal/peer/mock].
    - [Orchestrator]: [internal/orchestrator], [transcript.go], [internal/config],
      [env.go] and [ids.go] of [internal/util].
    - [MockAgent]: [internal/testutil/mockagent], the agent of the tests.
    - [Process]: [process.go] and [runtime.go] of [internal/terminal]: the child,
      the two goroutines that serve it, [Terminate] and the completion loop as
      atomic steps on one state; what [Spawn] hands to the kernel.
    - [Api], [ApiStream]: [internal/api].
    - [Commands]: the other files of [internal/cli] and [cmd/vitis]: every command
      from its arguments to the documents on stdout and the exit code.

    ** How they interact

    The command builds a broker over transports, bus, store and terminator.  The
    broker delivers an envelope to a transport, which writes it to a process and
    waits for a marker on a line of its own; the response is stored, published on
    the bus, checked by the terminator's goroutine, which publishes a verdict the
    broker drains, and routed by the policy.  The interfaces between components
    are classes and records: [BrokerEnv] (what the broker asks of its dependencies),
    [OrchEnv] (what a single-shot run asks), [Adapter], [StoreReader] (what the API
    asks of a store), [CmdEnv] (what the commands ask), [Pool], [JSON], [SortSlice].
    Theorems of a client hold for every instance; instances are given by the
    implementing components, and instances compose: [bus_env], [store_env] and
    [pty_env] each take the rest of the environment from another one, and each
    part is [Observed] by its own steps through the whole stack.  Compositions are proved in
    [ConverseRun] (a validated command, broker, bus, terminator, terminal peers,
    file store and API), [EndToEnd] (broker, bus and terminator), [Stream] (broker, bus and the
    streaming goroutine), [System] (broker and file store), [PtyPeers] (broker,
    terminal peers and file store), [RunDisk] (orchestrator and file store), [RunProcess] (the same with the
    child, its goroutines and the API),
    [Served] (a run, its files and the API), [MockAgent] (a peer's transport and
    an agent) and [Commands] (whole command lines).

    ** The theorems

    - Conversations ([BrokerRun]): a run returns and does not panic, whatever the
      environment; it refines the protocol; what it stores, publishes, delivers,
      starts and stops, and why it ends.
    - Peers ([Persistent], [TurnWait], [Provider], [Adapter]): the reply to an
      envelope is extracted exactly, however the output is cut; no wakeup of a
      waiting turn is lost, and a turn that has expired returns in every fair
      schedule; the command, its arguments and the environment of a peer are the
      operator's.
    - Routing, termination, the bus: grammar of the trailer, totality of routing,
      one verdict per marked turn, subscriptions as bounded queues; a conversation
      ends at the first turn that shows the sentinel ([EndToEnd]), provided that the
      terminator is scheduled within the window the broker waits for it; what the
      streaming goroutine writes, and when it is every turn ([Stream]).
    - Peers and the broker ([PtyPeers]): every process that a run started is
      terminated, and the turns stored are those the transports made.
    - The command over all its parts ([ConverseRun]): one run that returns, blocks
      in no call when the waits are fair, terminates every process it started, ends
      where the sentinel says, and is served as it was returned; a peer that no
      adapter serves is refused before any turn.
    - Storage ([Store], [StoreList]): atomic records under every fault, refinement
      of maps and logs, round trip of logs, pagination; a finished conversation is
      on disk ([System]), and so is a finished session ([RunDisk]); the server
      answers with them ([Served]); the two stores give the same sessions and turns, but
      for a count that is not positive and for turns whose line reaches 64 KiB
      ([Postgres]).
    - Single-shot runs ([Orchestrator], [Process]): books kept; under every
      interleaving the transcript is a prefix of what the child wrote and the exit
      is reported; the races that lose output or an exit code; the response, from
      the bytes of the child to the session that is served ([RunProcess]).
    - Commands ([Flags], [Commands]): the arguments accepted, and the exit codes
      with what they say of the run behind them.
    - The API ([Api], [ApiStream]): confinement to the store, pages, slots for
      streams taken without locks and given back when the client has left, streams
      that parse back.
    - Text ([Ansi], [Screen], [PeerFlags]): normalised output, an emulator that
      does not index out of range, flag values that parse back.
    Theorems whose name or text says so prove that the code does not do what a
    comment or its own purpose says; the manifest lists them as findings.

    ** Fuel and bounds

    [Broker.loop] recurses on the number of turns left; [Run] gives it
    [max 1 MaxTurns], which [Run_returns] shows to be enough.  The text functions
    with fuel ([norm_loop], [kv_loop], [find_loop], [fields_go], [tokens]) get the
    length of their input and a lemma beside each shows that more changes nothing
    or that the input shrinks at every step.  Schedules (wakeups of a turn, events
    of the completion loop, steps of goroutines, faults of the file system) are
    lists over which the theorems quantify, so they need no bound; liveness is
    stated with the number of steps that are enough ([wait_enabled], the potential
    of [ApiStream]).  [reverse_loop] gets the length of its list, and
    [reverse_loop_spec] shows that it suffices; the command [converse] gives the
    broker 500 rounds, the largest cap it accepts.  [stream_all] gets one step per
    message in the buffer and one to return ([streamed_turns] shows that the
    goroutine returns).  [int] is [Z] with [wrap64] where the
    code computes on untrusted values; elsewhere the values are bounded by
    validation and the bounds are theorems.

    ** What the liveness theorems rely on

    A model of one goroutine's run cannot say that others are scheduled, so this is
    said where it is used, by name: [fair_turn] and [turns_end] (the write of an
    envelope returns; once the context of a turn is done or its deadline has passed,
    the watcher is scheduled twice and then the waiter), [closes_end] (the pump of a
    process that was asked to terminate receives its exit or the end of its output),
    [fair_round] (every handler is scheduled, and a select whose client has left
    takes that case), and [bus_env] (the terminator's goroutine runs within the
    window in which the broker waits for control messages).

    ** Not modelled, and why

    What is outside the program is an interface with its documented laws: system
    calls (of which those on processes are steps of the child in [Process]),
    sockets and [net/http], [fsnotify], the JSON codec, the Postgres pool and the
    database behind it.  Messages on stderr are left out.  The command of
    [Commands] writes the streamed turns and the result as one sequence of
    documents; how the streaming goroutine interleaves with the run is [Stream].
    Data races: the code guards shared state with mutexes, and a critical
    section is one step.  The line discipline of a terminal is part of the bytes
    that a child makes readable, not a definition.  The [Location] of a redirect and
    the null of a nil slice in a database column are left out.  [cmd/screendebug] prints what [Screen] and [Ansi] give
    for a file, [util/json.go] and [util/executable.go] wrap one library call each;
    none of the three is modelled.
*)
From Stdlib Require Export Ascii String ZArith Lia QArith DecimalString.
From stdpp Require Export base gmap strings list sorting.
#[global] Open Scope list_scope.
#[global] Open Scope Z_scope.
#[global] Set Warnings "-notation-overridden".

(** ** Go strings

    A Go [string] (and a [\[\]byte]) is a finite sequence of bytes; the model
    uses [list ascii], so that stdpp's list library, its [EqDecision] and its
    [Countable] instances apply.  The scope [go_scope] gives literals. *)
Abbreviation gostring := (list ascii).

Inductive glit :=
| GNil
| GCons (c : ascii) (l : glit).

Fixpoint glit_of_bytes (l : list Byte.byte) : glit :=
  match l with
  | [] => GNil
  | c :: r => GCons (ascii_of_byte c) (glit_of_bytes r)
  end.

Fixpoint bytes_of_glit (l : glit) : list Byte.byte :=
  match l with
  | GNil => []
  | GCons c r => byte_of_ascii c :: bytes_of_glit r
  end.

Definition print_glit (l : glit) : option (list Byte.byte) :=
  match l with
  | GNil => None
  | _ => Some (bytes_of_glit l)
  end.

Declare Scope go_scope.
Delimit Scope go_scope with go.
#[global] Set Warnings "-via-type-mismatch".
String Notation list glit_of_bytes print_glit
  (via glit mapping [[nil] => GNil, [cons] => GCons]) : go_scope.
#[global] Open Scope go_scope.

(** Bytes that a literal cannot show. *)
Definition chr (z : Z) : ascii := ascii_of_N (Z.to_N z).
Definition ord (c : ascii) : Z := Z.of_N (N_of_ascii c).

Definition LF : ascii := "010".
Definition CR : ascii := "013".
Definition TAB : ascii := "009".
Definition SP : ascii := " ".
Definition DQ : ascii := "034".
Definition ESC : ascii := "027".
Definition BSL : ascii := "092".

Lemma ord_range c : 0 <= ord c < 256.
Proof. unfold ord. pose proof (N_ascii_bounded c). lia. Qed.

Lemma chr_ord c : chr (ord c) = c.
Proof. unfold chr, ord. rewrite N2Z.id. apply ascii_N_embedding. Qed.

Lemma ord_chr z : 0 <= z < 256 -> ord (chr z) = z.
Proof. intros H. unfold chr, ord. rewrite N_ascii_embedding; lia. Qed.

Lemma ord_inj c d : ord c = ord d -> c = d.
Proof. intros H. by rewrite <- (chr_ord c), H, chr_ord. Qed.

#[export] Instance ord_Inj : Inj (=) (=) ord.
Proof. intros c d. apply ord_inj. Qed.

(** Byte tests as booleans, so that they compute. *)
Definition ceq (c d : ascii) : bool := bool_decide (c = d).

Lemma ceq_true c d : ceq c d = true <-> c = d.
Proof. apply bool_decide_eq_true. Qed.

Lemma ceq_false c d : ceq c d = false <-> c <> d.
Proof. apply bool_decide_eq_false. Qed.

Lemma ceq_refl c : ceq c c = true.
Proof. by apply ceq_true. Qed.

(** ** Lists *)
Section Lists.
Context {A : Type}.

Fixpoint drop_while (f : A -> bool) (l : list A) : list A :=
  match l with
  | [] => []
  | x :: r => if f x then drop_while f r else l
  end.

(** The list without its longest suffix whose elements satisfy [f]. *)
Fixpoint drop_while_end (f : A -> bool) (l : list A) : list A :=
  match l with
  | [] => []
  | x :: r =>
      match drop_while_end f r with
      | [] => if f x then [] else [x]
      | r' => x :: r'
      end
  end.

Lemma drop_while_end_nil f (l : list A) :
  drop_while_end f l = [] <-> Forall (fun x => f x = true) l.
Proof.
  induction l as [|x l IH]; simpl; [done|].
  rewrite Forall_cons, <- IH.
  destruct (drop_while_end f l) eqn:E; [|naive_solver].
  destruct (f x); naive_solver.
Qed.

Lemma drop_while_end_app f (l k : list A) :
  Forall (fun x => f x = true) k -> drop_while_end f (l ++ k) = drop_while_end f l.
Proof.
  intros Hk. induction l as [|x l IH]; simpl.
  - by apply drop_while_end_nil.
  - by rewrite IH.
Qed.

(** What is removed is a suffix of elements satisfying [f]. *)
Lemma drop_while_end_spec f (l : list A) :
  exists k, l = drop_while_end f l ++ k /\ Forall (fun x => f x = true) k.
Proof.
  induction l as [|x l (k & Hl & Hk)]; simpl; [by exists []|].
  destruct (drop_while_end f l) as [|y r] eqn:E.
  - destruct (f x) eqn:Ex.
    + exists (x :: l). split; [done|]. constructor; [done|].
      by rewrite Hl.
    + exists l. split; [done|]. by rewrite Hl.
  - exists k. split; [|done]. rewrite Hl at 1. done.
Qed.

Lemma drop_while_end_last f (l : list A) x :
  last (drop_while_end f l) = Some x -> f x = false.
Proof.
  induction l as [|y l IH]; simpl; [done|].
  destruct (drop_while_end f l) as [|z r] eqn:E.
  - destruct (f y) eqn:Ey; simpl; [done|]. by intros [= ->].
  - rewrite last_cons_cons. exact IH.
Qed.

Lemma drop_while_end_idemp f (l : list A) :
  drop_while_end f (drop_while_end f l) = drop_while_end f l.
Proof.
  destruct (drop_while_end_spec f l) as (k & Hl & Hk).
  rewrite Hl at 2. by rewrite (drop_while_end_app _ _ _ Hk).
Qed.

Lemma drop_while_end_stop f (l : list A) x : f x = false -> drop_while_end f (l ++ [x]) = l ++ [x].
Proof.
  intros H. induction l as [|y l IH]; cbn; [by rewrite H|]. rewrite IH. by destruct (l ++ [x]) eqn:E; [destruct l|].
Qed.

Lemma drop_while_Forall f (l : list A) :
  Forall (fun x => f x = true) l -> drop_while f l = [].
Proof. induction 1 as [|x l Hx _ IH]; simpl; [done|]. by rewrite Hx. Qed.
End Lists.

(** A computation on the second component of a state. *)
Definition on_snd {T W A} (f : W -> A * W) (x : T * W) : A * (T * W) :=
  let '(a, w) := f (snd x) in (a, (fst x, w)).

(** A list in order of pairwise different keys is the only such one. *)
Lemma sorted_unique {A} (key : A -> Z) (l k : list A) :
  l ≡ₚ k -> NoDup (key <$> l) -> StronglySorted (fun x y => key x <= key y) l ->
  StronglySorted (fun x y => key x <= key y) k -> l = k.
Proof.
  intros Hp Hn Hl Hk. apply (StronglySorted_unique_strong (fun x y => key x <= key y)); [|done..].
  intros x y Hx Hy H1 H2. rewrite <- Hp in Hy.
  apply list_elem_of_lookup in Hx as [i Hi]. apply list_elem_of_lookup in Hy as [j Hj].
  assert (i = j) as ->; [|congruence]. apply (NoDup_lookup (key <$> l) i j (key x)); [done|..];
    rewrite list_lookup_fmap, ?Hi, ?Hj; cbn; f_equal; lia.
Qed.

(** ** Errors

    A Go [error] is kept as the tree of its wrapping, which is what
    [errors.Is] walks; [Error] is its message. *)
Inductive goerr :=
| ErrNew (msg : gostring)
| ErrCanceled
| ErrDeadlineExceeded
| ErrNotExist (msg : gostring)
| ErrWrapped (pre : gostring) (e : goerr).

#[export] Instance goerr_eq_dec : EqDecision goerr.
Proof. solve_decision. Defined.

Fixpoint Error (e : goerr) : gostring :=
  match e with
  | ErrNew m => m
  | ErrCanceled => "context canceled"
  | ErrDeadlineExceeded => "context deadline exceeded"
  | ErrNotExist m => m
  | ErrWrapped pre e => pre ++ Error e
  end.

(** [errors.Is(e, context.Canceled) || errors.Is(e, context.DeadlineExceeded)] *)
Fixpoint is_ctx_error (e : goerr) : bool :=
  match e with
  | ErrCanceled | ErrDeadlineExceeded => true
  | ErrWrapped _ e => is_ctx_error e
  | _ => false
  end.

(** [errors.Is(e, os.ErrNotExist)] *)
Fixpoint is_not_exist (e : goerr) : bool :=
  match e with
  | ErrNotExist _ => true
  | ErrWrapped _ e => is_not_exist e
  | _ => false
  end.

(** A Go pair [(A, error)]: exactly one of the two matters. *)
Inductive result (A : Type) :=
| Ok (a : A)
| Err (e : goerr).
Arguments Ok {A} a.
Arguments Err {A} e.

#[export] Instance result_eq_dec `{EqDecision A} : EqDecision (result A).
Proof. solve_decision. Defined.

#[export] Instance result_ret : MRet result := fun _ a => Ok a.
#[export] Instance result_bind : MBind result :=
  fun _ _ f m => match m with Ok a => f a | Err e => Err e end.

(** ** Tactics *)

(** Case analysis on every [match]/[if] scrutinee of the goal. *)
Ltac case_match_all := repeat (case_match; simplify_eq/=).

(** Destruct the scrutinee of the innermost [if] of a hypothesis or goal. *)
Ltac split_ifs :=
  repeat match goal with
  | |- context [if ?b then _ else _] => destruct b eqn:?
  | H : context [if ?b then _ else _] |- _ => destruct b eqn:?
  end.

(** Turn boolean facts into propositions. *)
Ltac bool_facts :=
  repeat match goal with
  | H : ceq _ _ = true |- _ => apply ceq_true in H; subst
  | H : ceq _ _ = false |- _ => apply ceq_false in H
  | H : bool_decide _ = true |- _ => apply bool_decide_eq_true in H
  | H : bool_decide _ = false |- _ => apply bool_decide_eq_false in H
  | H : _ && _ = true |- _ => apply andb_true_iff in H as [? ?]
  | H : _ || _ = false |- _ => apply orb_false_iff in H as [? ?]
  | H : negb _ = true |- _ => apply negb_true_iff in H
  | H : negb _ = false |- _ => apply negb_false_iff in H
  end.

Create HintDb vitis.
Create Rewrite HintDb vitis.
#[export] Hint Rewrite @length_app @length_map @length_drop @length_take : vitis.
#[export] Hint Resolve ord_range ceq_refl : vitis.
