(* ===== verification/GoLib.v ===== *)
(** * The part of Go's standard library that vitis uses

    [strings], [strconv], [unicode/utf8], [encoding/hex] and the arithmetic of
    Go's 64-bit [int].  Indices are [nat]; a Go result of -1 is [None]. *)
From S2P Require Import Prelude.

(** ** [int] *)
Definition MaxInt : Z := 2 ^ 63 - 1.
Definition MinInt : Z := - 2 ^ 63.

(** Two's-complement wrap-around of a 64-bit signed integer. *)
Definition wrap64 (z : Z) : Z := (z + 2 ^ 63) mod 2 ^ 64 - 2 ^ 63.

Definition is_int (z : Z) : Prop := MinInt <= z <= MaxInt.

Lemma wrap64_is_int z : is_int (wrap64 z).
Proof.
  unfold is_int, wrap64, MinInt, MaxInt.
  pose proof (Z.mod_pos_bound (z + 2 ^ 63) (2 ^ 64) ltac:(lia)). lia.
Qed.

Lemma wrap64_id z : is_int z -> wrap64 z = z.
Proof.
  unfold is_int, wrap64, MinInt, MaxInt. intros H.
  rewrite Z.mod_small; lia.
Qed.

(** ** [strings] *)

Fixpoint HasPrefix (s prefix : gostring) : bool :=
  match prefix, s with
  | [], _ => true
  | p :: prefix', c :: s' => ceq c p && HasPrefix s' prefix'
  | _ :: _, [] => false
  end.

Definition HasSuffix (s suffix : gostring) : bool := HasPrefix (rev s) (rev suffix).

Definition TrimPrefix (s prefix : gostring) : gostring :=
  if HasPrefix s prefix then drop (length prefix) s else s.

(** [strings.Index] and [bytes.Index]: the first occurrence of [sep]. *)
Fixpoint Index (s sep : gostring) : option nat :=
  if HasPrefix s sep then Some 0%nat
  else match s with
       | [] => None
       | _ :: s' => S <$> Index s' sep
       end.

Definition Contains (s sub : gostring) : bool :=
  match Index s sub with Some _ => true | None => false end.

(** [strings.Split] for a one-byte separator. *)
Fixpoint SplitByte (sep : ascii) (s : gostring) : list gostring :=
  match s with
  | [] => [[]]
  | c :: s' =>
      if ceq c sep then [] :: SplitByte sep s'
      else match SplitByte sep s' with
           | l :: ls => (c :: l) :: ls
           | [] => [[c]]
           end
  end.

(** [strings.Split] for any non-empty separator: [skip] counts the bytes of the
    current occurrence that are still to be passed over. *)
Fixpoint split_go (sep : gostring) (skip : nat) (acc s : gostring) : list gostring :=
  match s with
  | [] => [rev acc]
  | c :: s' =>
      match skip with
      | S k => split_go sep k acc s'
      | O =>
          if HasPrefix s sep then rev acc :: split_go sep (length sep - 1) [] s'
          else split_go sep 0 (c :: acc) s'
      end
  end.

Definition Split (s sep : gostring) : list gostring := split_go sep 0 [] s.

Fixpoint Join (l : list gostring) (sep : gostring) : gostring :=
  match l with
  | [] => []
  | [x] => x
  | x :: r => x ++ sep ++ Join r sep
  end.

(** [strings.SplitN(s, ";", 2)] and [strings.Cut]: at the first separator. *)
Fixpoint Cut (s : gostring) (sep : ascii) : gostring * gostring * bool :=
  match s with
  | [] => ([], [], false)
  | c :: s' =>
      if ceq c sep then ([], s', true)
      else let '(a, b, ok) := Cut s' sep in (c :: a, b, ok)
  end.

(** [strings.ReplaceAll] for a non-empty [old]. *)
Fixpoint replace_go (old new : gostring) (skip : nat) (s : gostring) : gostring :=
  match s with
  | [] => []
  | c :: s' =>
      match skip with
      | S k => replace_go old new k s'
      | O =>
          if HasPrefix s old then new ++ replace_go old new (length old - 1) s'
          else c :: replace_go old new 0 s'
      end
  end.

Definition ReplaceAll (s old new : gostring) : gostring := replace_go old new 0 s.

(** [strings.TrimRight] and [strings.TrimLeft] for an ASCII cutset. *)
Definition in_cutset (cutset : gostring) (c : ascii) : bool :=
  existsb (ceq c) cutset.

Definition TrimRight (s cutset : gostring) : gostring :=
  drop_while_end (in_cutset cutset) s.

Definition TrimLeft (s cutset : gostring) : gostring :=
  drop_while (in_cutset cutset) s.

(** [strings.TrimSpace]: [unicode.IsSpace] holds of the one-byte code points
    below, of U+0085 and U+00A0 (two bytes) and of U+1680, U+2000-U+200A,
    U+2028, U+2029, U+202F, U+205F and U+3000 (three bytes). *)
Definition space1 (c : ascii) : bool :=
  let n := ord c in (n =? 32) || ((9 <=? n) && (n <=? 13)).

Definition space2 (c d : ascii) : bool :=
  (ord c =? 194) && ((ord d =? 133) || (ord d =? 160)).

Definition space3 (c d e : ascii) : bool :=
  let x := ord c in let y := ord d in let z := ord e in
  ((x =? 225) && (y =? 154) && (z =? 128))
  || ((x =? 226) && (y =? 128)
      && (((128 <=? z) && (z <=? 138)) || (z =? 168) || (z =? 169) || (z =? 175)))
  || ((x =? 226) && (y =? 129) && (z =? 159))
  || ((x =? 227) && (y =? 128) && (z =? 128)).

Section TrimGen.
Variables (s1 : ascii -> bool) (s2 : ascii -> ascii -> bool)
          (s3 : ascii -> ascii -> ascii -> bool).

Fixpoint trim_gen (s : gostring) : gostring :=
  match s with
  | [] => []
  | c :: r =>
      if s1 c then trim_gen r
      else match r with
           | [] => s
           | d :: r2 =>
               if s2 c d then trim_gen r2
               else match r2 with
                    | [] => s
                    | e :: r3 => if s3 c d e then trim_gen r3 else s
                    end
           end
  end.
End TrimGen.

Definition trim_space_left : gostring -> gostring := trim_gen space1 space2 space3.

(** From the right the bytes of an encoding come last first. *)
Definition trim_space_rev : gostring -> gostring :=
  trim_gen space1 (fun c d => space2 d c) (fun c d e => space3 e d c).

Definition TrimSpace (s : gostring) : gostring :=
  rev (trim_space_rev (rev (trim_space_left s))).

(** [strings.ToLower] on the code points whose lower case is ASCII: the ASCII
    letters, U+0130 and U+212A; every other code point keeps a non-ASCII lower
    case, which no test of the program looks at, and stays as it is. *)
Definition lower1 (c : ascii) : ascii :=
  let n := ord c in if (65 <=? n) && (n <=? 90) then chr (n + 32) else c.

Fixpoint ToLower (s : gostring) : gostring :=
  match s with
  | [] => []
  | c :: r =>
      match r with
      | d :: r2 =>
          if (ord c =? 196) && (ord d =? 176) then "i"%char :: ToLower r2
          else match r2 with
               | e :: r3 =>
                   if (ord c =? 226) && (ord d =? 132) && (ord e =? 170)
                   then "k"%char :: ToLower r3
                   else lower1 c :: ToLower r
               | [] => lower1 c :: ToLower r
               end
      | [] => [lower1 c]
      end
  end.

(** ** [strconv] *)
Definition is_digit (c : ascii) : bool := (48 <=? ord c) && (ord c <=? 57).

Fixpoint digits_val (acc : Z) (s : gostring) : option Z :=
  match s with
  | [] => Some acc
  | c :: r => if is_digit c then digits_val (acc * 10 + (ord c - 48)) r else None
  end.

(** [strconv.Atoi]: an optional sign, then at least one digit, in range. *)
Definition Atoi (s : gostring) : option Z :=
  let '(neg, ds) :=
    match s with
    | "+"%char :: r => (false, r)
    | "-"%char :: r => (true, r)
    | _ => (false, s)
    end in
  match ds with
  | [] => None
  | _ =>
      n ← digits_val 0 ds;
      let v := if neg then - n else n in
      if (MinInt <=? v) && (v <=? MaxInt) then Some v else None
  end.

(** [fmt]'s [%d]. *)
Definition Itoa (z : Z) : gostring :=
  String.list_ascii_of_string (NilZero.string_of_int (Z.to_int z)).

(** ** [unicode/utf8] *)
Definition RuneError : Z := 65533.

Definition cont (lo hi : Z) (c : ascii) : bool := (lo <=? ord c) && (ord c <=? hi).

(** [utf8.DecodeRune]: the first code point and its width in bytes. *)
Definition DecodeRune (s : gostring) : Z * nat :=
  match s with
  | [] => (RuneError, 0%nat)
  | c :: r =>
      let p := ord c in
      if p <? 128 then (p, 1%nat)
      else if (194 <=? p) && (p <=? 223) then
        match r with
        | d :: _ =>
            if cont 128 191 d then ((p - 192) * 64 + (ord d - 128), 2%nat)
            else (RuneError, 1%nat)
        | _ => (RuneError, 1%nat)
        end
      else if (224 <=? p) && (p <=? 239) then
        let lo := if p =? 224 then 160 else 128 in
        let hi := if p =? 237 then 159 else 191 in
        match r with
        | d :: e :: _ =>
            if cont lo hi d && cont 128 191 e
            then ((p - 224) * 4096 + (ord d - 128) * 64 + (ord e - 128), 3%nat)
            else (RuneError, 1%nat)
        | _ => (RuneError, 1%nat)
        end
      else if (240 <=? p) && (p <=? 244) then
        let lo := if p =? 240 then 144 else 128 in
        let hi := if p =? 244 then 143 else 191 in
        match r with
        | d :: e :: f :: _ =>
            if cont lo hi d && cont 128 191 e && cont 128 191 f
            then ((p - 240) * 262144 + (ord d - 128) * 4096
                  + (ord e - 128) * 64 + (ord f - 128), 4%nat)
            else (RuneError, 1%nat)
        | _ => (RuneError, 1%nat)
        end
      else (RuneError, 1%nat)
  end.

(** The bytes of a code point, as [string(\[\]rune)] writes them; a value that
    is not a code point is written as U+FFFD. *)
Definition EncodeRune (z : Z) : gostring :=
  let z := if ((0 <=? z) && (z <? 55296)) || ((57344 <=? z) && (z <? 1114112))
           then z else RuneError in
  if z <? 128 then [chr z]
  else if z <? 2048 then [chr (192 + z / 64); chr (128 + z mod 64)]
  else if z <? 65536 then
    [chr (224 + z / 4096); chr (128 + z / 64 mod 64); chr (128 + z mod 64)]
  else
    [chr (240 + z / 262144); chr (128 + z / 4096 mod 64);
     chr (128 + z / 64 mod 64); chr (128 + z mod 64)].

(** ** [encoding/hex] *)
Definition hex_digit (n : Z) : ascii := if n <? 10 then chr (48 + n) else chr (87 + n).

Definition EncodeToString (raw : gostring) : gostring :=
  raw ≫= (fun c => [hex_digit (ord c / 16); hex_digit (ord c mod 16)]).

Lemma Forall_hex (P : ascii -> Prop) raw :
  (forall n, 0 <= n < 16 -> P (hex_digit n)) -> Forall P (EncodeToString raw).
Proof.
  intros H. apply Forall_bind, Forall_true. intros c. pose proof (ord_range c).
  repeat constructor; apply H; [|by apply Z.mod_pos_bound].
  split; [apply Z.div_pos|apply Z.div_lt_upper_bound]; lia.
Qed.

Lemma length_hex raw : length (EncodeToString raw) = (2 * length raw)%nat.
Proof. unfold EncodeToString. induction raw as [|c raw IH]; [done|]. cbn in *. lia. Qed.

(** ** Lemmas on [strings] *)

Lemma HasPrefix_spec s p : HasPrefix s p = true <-> exists t, s = p ++ t.
Proof.
  revert s. induction p as [|c p IH]; intros [|d s]; simpl.
  - naive_solver.
  - naive_solver.
  - split; [done|]. by intros [? ?].
  - rewrite andb_true_iff, ceq_true, IH. naive_solver.
Qed.

Lemma HasPrefix_app p t : HasPrefix (p ++ t) p = true.
Proof. apply HasPrefix_spec. eauto. Qed.

Lemma HasSuffix_spec s p : HasSuffix s p = true <-> exists t, s = t ++ p.
Proof.
  unfold HasSuffix. rewrite HasPrefix_spec. split; intros [t Ht].
  - exists (rev t). rewrite <- (rev_involutive s), Ht, rev_app_distr.
    by rewrite rev_involutive.
  - exists (rev t). by rewrite Ht, rev_app_distr.
Qed.

Lemma Index_nil s : Index s [] = Some 0%nat.
Proof. by destruct s. Qed.

Lemma Index_Some s p i :
  Index s p = Some i ->
  HasPrefix (drop i s) p = true /\ (i <= length s)%nat
  /\ forall j, (j < i)%nat -> HasPrefix (drop j s) p = false.
Proof.
  revert i. induction s as [|c s IH]; intros i; cbn [Index];
    destruct (HasPrefix _ p) eqn:E; intros Hi; simplify_eq/=.
  - split_and!; [done|lia|lia].
  - split_and!; [done|lia|lia].
  - destruct (Index s p) as [k|] eqn:Ek; simplify_eq/=.
    destruct (IH k eq_refl) as (H1 & H2 & H3). split_and!; [done|lia|].
    intros [|j] Hj; [done|]. apply H3. lia.
Qed.

Lemma Index_None s p :
  Index s p = None -> forall j, HasPrefix (drop j s) p = false.
Proof.
  induction s as [|c s IH]; cbn [Index]; destruct (HasPrefix _ p) eqn:E; intros Hi j;
    simplify_eq/=.
  - by rewrite drop_nil.
  - destruct (Index s p) eqn:Ek; simplify_eq/=. destruct j as [|j]; [done|]. by apply IH.
Qed.

Lemma Index_first s p i :
  HasPrefix (drop i s) p = true -> (i <= length s)%nat ->
  (forall j, (j < i)%nat -> HasPrefix (drop j s) p = false) ->
  Index s p = Some i.
Proof.
  intros Hi _ Hlt. destruct (Index s p) as [k|] eqn:E.
  - apply Index_Some in E as (H1 & H2 & H3).
    destruct (lt_eq_lt_dec i k) as [[?|?]|?]; [|by subst|].
    + rewrite H3 in Hi by done. done.
    + rewrite Hlt in H1 by done. done.
  - rewrite (Index_None _ _ E i) in Hi. done.
Qed.

Lemma SplitByte_nonnil sep s : SplitByte sep s <> [].
Proof. destruct s as [|c s]; simpl; [done|]. case_match_all; done. Qed.

Lemma SplitByte_app sep a b :
  SplitByte sep (a ++ sep :: b) = SplitByte sep a ++ SplitByte sep b.
Proof.
  induction a as [|c a IH]; simpl.
  - by rewrite ceq_refl.
  - destruct (ceq c sep); [by rewrite IH|]. rewrite IH.
    destruct (SplitByte sep a) eqn:E; [by apply SplitByte_nonnil in E|done].
Qed.

Lemma SplitByte_no_sep sep s : sep ∉ s -> SplitByte sep s = [s].
Proof.
  induction s as [|c s IH]; intros Hn; simpl; [done|].
  replace (ceq c sep) with false by (symmetry; apply ceq_false; set_solver).
  by rewrite IH by set_solver.
Qed.

Lemma SplitByte_lines sep s : Forall (fun l => sep ∉ l) (SplitByte sep s).
Proof.
  induction s as [|c s IH]; simpl.
  - constructor; [set_solver|done].
  - destruct (ceq c sep) eqn:E; [constructor; [set_solver|done]|].
    destruct (SplitByte sep s) as [|l ls]; bool_facts.
    + constructor; [set_solver|done].
    + apply Forall_cons in IH as [H1 H2]. constructor; [set_solver|done].
Qed.

Lemma Join_cons x l sep : l <> [] -> Join (x :: l) sep = x ++ sep ++ Join l sep.
Proof. by destruct l. Qed.

(** Splitting loses nothing. *)
Lemma Join_SplitByte sep s : Join (SplitByte sep s) [sep] = s.
Proof.
  induction s as [|c s IH]; simpl; [done|].
  destruct (ceq c sep) eqn:E.
  - rewrite Join_cons by apply SplitByte_nonnil. bool_facts. simpl. by f_equal.
  - destruct (SplitByte sep s) as [|l ls] eqn:El; [by apply SplitByte_nonnil in El|].
    destruct ls as [|l' ls]; simpl in *; by f_equal.
Qed.

(** Conversely the pieces are recovered from a join of separator-free pieces. *)
Lemma SplitByte_Join sep ls :
  ls <> [] -> Forall (fun l => sep ∉ l) ls -> SplitByte sep (Join ls [sep]) = ls.
Proof.
  intros Hne Hf. induction Hf as [|l ls Hl Hf IH]; [done|].
  destruct ls as [|l' ls].
  - simpl. by apply SplitByte_no_sep.
  - rewrite Join_cons by done. cbn [app].
    rewrite SplitByte_app, (SplitByte_no_sep _ _ Hl), IH by done. done.
Qed.

(** ** Lemmas on trimming *)

Lemma in_cutset_spec cs c : in_cutset cs c = true <-> c ∈ cs.
Proof.
  unfold in_cutset. rewrite existsb_exists. split.
  - intros (x & Hx & E). bool_facts. by apply list_elem_of_In.
  - intros Hx. exists c. rewrite <- list_elem_of_In. by rewrite ceq_refl.
Qed.

Lemma drop_while_end_rev {A} (f : A -> bool) l :
  drop_while_end f l = rev (drop_while f (rev l)).
Proof.
  induction l as [|x l IH] using rev_ind; [done|].
  rewrite rev_app_distr. simpl. destruct (f x) eqn:E.
  - rewrite drop_while_end_app by (by constructor). done.
  - simpl. rewrite rev_involutive. clear IH. induction l as [|y l IH]; simpl; [by rewrite E|].
    rewrite IH. by destruct l.
Qed.

Lemma trim_space_rev_ws k s :
  Forall (fun c => space1 c = true) k -> trim_space_rev (k ++ s) = trim_space_rev s.
Proof.
  unfold trim_space_rev. induction 1 as [|c k Hc _ IH]; [done|]. simpl. by rewrite Hc.
Qed.

Lemma trim_space_left_ws k s :
  Forall (fun c => space1 c = true) k -> trim_space_left (k ++ s) = trim_space_left s.
Proof.
  unfold trim_space_left. induction 1 as [|c k Hc _ IH]; [done|]. simpl. by rewrite Hc.
Qed.

(** Appending blanks at the end changes nothing that is not already blank. *)
Lemma trim_gen_app_ws s1 s2 s3 k s :
  Forall (fun c => s1 c = true) k ->
  (forall c d, s1 d = true -> s2 c d = false) ->
  (forall c d e, s1 d = true \/ s1 e = true -> s3 c d e = false) ->
  trim_gen s1 s2 s3 (s ++ k) =
    match trim_gen s1 s2 s3 s with [] => [] | t => t ++ k end.
Proof.
  intros Hk H2 H3. induction s as [s IH] using (induction_ltof1 _ (@length ascii)).
  unfold ltof in IH.
  assert (trim_gen s1 s2 s3 k = []) as Hkn.
  { clear -Hk. induction Hk as [|c k Hc _ IH]; [done|]. simpl. by rewrite Hc. }
  destruct s as [|c [|d [|e s]]]; cbn [app].
  - done.
  - cbn. destruct (s1 c); [done|]. inversion Hk as [|d k' Hd Hk']; [done|]; subst.
    rewrite H2 by done. inversion Hk' as [|e k'' He Hk'']; [done|]; subst.
    by rewrite H3 by eauto.
  - cbn. destruct (s1 c).
    { apply (IH [d]). simpl. lia. }
    destruct (s2 c d); [done|]. inversion Hk as [|e k' He Hk']; [done|]; subst.
    by rewrite H3 by eauto.
  - pose proof (IH (d :: e :: s) ltac:(simpl; lia)) as I1.
    pose proof (IH (e :: s) ltac:(simpl; lia)) as I2.
    pose proof (IH s ltac:(simpl; lia)) as I3.
    cbn [app] in I1, I2. cbn. cbn in I1, I2.
    destruct (s1 c); [exact I1|]. destruct (s2 c d); [exact I2|].
    destruct (s3 c d e); [exact I3|]. done.
Qed.

Lemma space2_ascii c d : space1 d = true -> space2 c d = false.
Proof.
  unfold space1, space2. intros H. apply andb_false_intro2.
  rewrite orb_true_iff, andb_true_iff in H. lia.
Qed.

Lemma space3_ascii c d e : space1 d = true \/ space1 e = true -> space3 c d e = false.
Proof.
  unfold space1, space3. cbv zeta. rewrite !orb_true_iff, !andb_true_iff.
  intros H. lia.
Qed.

(** Trailing ASCII blanks are invisible to [TrimSpace]. *)
Lemma TrimSpace_app_ws s k :
  Forall (fun c => space1 c = true) k -> TrimSpace (s ++ k) = TrimSpace s.
Proof.
  intros Hk. unfold TrimSpace, trim_space_left.
  rewrite (trim_gen_app_ws _ _ _ k s Hk space2_ascii space3_ascii).
  destruct (trim_gen space1 space2 space3 s) eqn:E; [done|].
  rewrite rev_app_distr, trim_space_rev_ws; [done|].
  apply Forall_forall. intros x Hx. rewrite Forall_forall in Hk. apply Hk.
  apply list_elem_of_In, in_rev. by apply list_elem_of_In.
Qed.

Lemma TrimSpace_ws k : Forall (fun c => space1 c = true) k -> TrimSpace k = [].
Proof. intros Hk. by rewrite <- (app_nil_l k), TrimSpace_app_ws. Qed.

Lemma TrimSpace_TrimRight s cs :
  forallb space1 cs = true -> TrimSpace (TrimRight s cs) = TrimSpace s.
Proof.
  intros Hcs. unfold TrimRight.
  destruct (drop_while_end_spec (in_cutset cs) s) as (k & Hs & Hk).
  rewrite Hs at 2. rewrite TrimSpace_app_ws; [done|].
  eapply Forall_impl; [exact Hk|]. intros c Hc. apply in_cutset_spec in Hc.
  rewrite forallb_forall in Hcs. apply Hcs. by apply list_elem_of_In.
Qed.

(** Appending text to a split string extends its last piece. *)
Lemma SplitByte_extend sep t k :
  exists ls l k0 rest,
    SplitByte sep t = ls ++ [l] /\ SplitByte sep k = k0 :: rest
    /\ SplitByte sep (t ++ k) = ls ++ (l ++ k0) :: rest.
Proof.
  destruct (SplitByte sep k) as [|k0 rest] eqn:Ek; [by apply SplitByte_nonnil in Ek|].
  induction t as [|c t (ls & l & k1 & rest1 & H1 & [= <- <-] & H3)]; cbn [SplitByte app].
  - exists [], [], k0, rest. by rewrite Ek.
  - destruct (ceq c sep).
    + exists ([] :: ls), l, k0, rest. rewrite H1, H3. done.
    + rewrite H1, H3. destruct ls as [|l' ls]; cbn [app].
      * by exists [], (c :: l), k0, rest.
      * by exists ((c :: l') :: ls), l, k0, rest.
Qed.

Lemma SplitByte_piece_chars sep s l c : l ∈ SplitByte sep s -> c ∈ l -> c ∈ s.
Proof.
  revert l. induction s as [|d s IH]; intros l; cbn [SplitByte].
  - intros ->%list_elem_of_singleton. set_solver.
  - destruct (ceq d sep).
    + intros [->|Hl]%elem_of_cons; set_solver.
    + destruct (SplitByte sep s) as [|x xs] eqn:E; [by apply SplitByte_nonnil in E|].
      intros [->|Hl]%elem_of_cons; set_solver.
Qed.

Lemma ReplaceAll_absent s old new : Contains s old = false -> ReplaceAll s old new = s.
Proof.
  unfold Contains, ReplaceAll. destruct (Index s old) eqn:E; [done|]. intros _.
  pose proof (Index_None _ _ E) as H. clear E. induction s as [|c s IH]; [done|].
  cbn [replace_go]. rewrite (H 0%nat : HasPrefix (c :: s) old = false). f_equal.
  apply IH. intros j. apply (H (S j)).
Qed.

(** ** [path/filepath] on Unix *)

(** One path element; [out] holds the cleaned elements, last first. *)
Definition clean_step (rooted : bool) (out : list gostring) (c : gostring) : list gostring :=
  if bool_decide (c = []) || bool_decide (c = ".") then out
  else if bool_decide (c = "..") then
    match out with
    | [] => if rooted then [] else [c]
    | x :: r => if bool_decide (x = "..") then c :: out else r
    end
  else c :: out.

(** [filepath.Clean] *)
Definition Clean (path : gostring) : gostring :=
  let rooted := HasPrefix path "/" in
  let out := rev (foldl (clean_step rooted) [] (SplitByte "/" path)) in
  if rooted then "/" ++ Join out "/"
  else match out with [] => "." | _ => Join out "/" end.

(** [filepath.Join] *)
Definition JoinPath (elems : list gostring) : gostring :=
  match filter (fun e => e <> []) elems with
  | [] => []
  | es => Clean (Join es "/")
  end.

Example Clean_examples :
  Clean <$> ["a//b/../c/."; "/../x"; "../../y"; ""; "./logs"; "/"] = ["a/c"; "/x"; "../../y"; "."; "logs"; "/"].
Proof. vm_compute. reflexivity. Qed.

(** ** Lemmas on paths

    A cleaned path is given by whether it is rooted and by its elements, last
    first. *)
Definition clean_path (p : gostring) : bool * list gostring :=
  let r := HasPrefix p "/" in (r, foldl (clean_step r) [] (SplitByte "/" p)).

Definition render_path (x : bool * list gostring) : gostring :=
  let '(r, out) := x in
  if r then "/" ++ Join (rev out) "/" else match out with [] => "." | _ => Join (rev out) "/" end.

Lemma Clean_render p : Clean p = render_path (clean_path p).
Proof.
  unfold Clean, clean_path, render_path. destruct (HasPrefix p "/"); [done|].
  destruct (foldl _ _ _) as [|x l]; [done|]. cbn [rev].
  destruct (rev l ++ [x]) eqn:E; [by apply app_nil in E as [_ ?]|]. done.
Qed.

Fixpoint clean_ok (rooted : bool) (out : list gostring) : Prop :=
  match out with
  | [] => True
  | x :: r => "/"%char ∉ x /\ x <> [] /\ x <> "."
              /\ (x = ".." -> rooted = false /\ match r with [] => True | y :: _ => y = ".." end)
              /\ clean_ok rooted r
  end.

Lemma clean_step_ok rooted out c :
  "/"%char ∉ c -> clean_ok rooted out -> clean_ok rooted (clean_step rooted out c).
Proof.
  intros Hc Hok. unfold clean_step. destruct (bool_decide (c = [])) eqn:E1; [done|].
  destruct (bool_decide (c = ".")) eqn:E2; [done|]. cbn [orb]. bool_facts.
  destruct (bool_decide (c = "..")) eqn:E3; bool_facts.
  2: { cbn [clean_ok]. by split_and!. }
  subst c. destruct out as [|x out].
  - destruct rooted; [done|]. cbn [clean_ok]. by split_and!.
  - case_bool_decide as Ex; [|by apply Hok]. subst x.
    assert (rooted = false) as -> by by apply Hok.
    change (clean_ok false (".." :: ".." :: out)) with
      ("/"%char ∉ ".." /\ ".."%go <> [] /\ ".."%go <> "." /\ (".."%go = ".." -> false = false /\ ".."%go = "..")
       /\ clean_ok false (".." :: out)). by split_and!.
Qed.

Lemma clean_path_ok p : clean_ok (fst (clean_path p)) (snd (clean_path p)).
Proof.
  unfold clean_path. cbn. pose proof (SplitByte_lines "/" p) as Hl.
  assert (clean_ok (HasPrefix p "/") []) as H0 by done.
  revert H0. generalize (@nil gostring) as acc. revert Hl. generalize (SplitByte "/" p) as ls.
  induction ls as [|l ls IH]; intros Hl acc H0; [done|]. apply Forall_cons in Hl as [Hl Hls].
  cbn [foldl]. apply IH; [done|]. by apply clean_step_ok.
Qed.

Lemma clean_fold rooted out :
  clean_ok rooted out -> foldl (clean_step rooted) [] (rev out) = out.
Proof.
  induction out as [|x out IH]; [done|]. intros (H1 & H2 & H3 & H4 & Hok). cbn [rev].
  rewrite foldl_app, IH by done. cbn [foldl]. unfold clean_step.
  rewrite bool_decide_false, (bool_decide_false (x = ".")) by done. cbn [orb].
  case_bool_decide as Hx; [|done]. destruct (H4 Hx) as [-> Hr]. subst x.
  destruct out as [|y out]; [done|]. by rewrite bool_decide_true.
Qed.

Lemma clean_ok_no_slash rooted out : clean_ok rooted out -> Forall (fun x => "/"%char ∉ x) out.
Proof. induction out as [|x out IH]; [constructor|]. intros (H & _ & _ & _ & ?). constructor; auto. Qed.

Lemma split_join_rev rooted out :
  clean_ok rooted out -> out <> [] -> SplitByte "/" (Join (rev out) "/") = rev out.
Proof.
  intros Hok Hne. apply SplitByte_Join.
  - intros H. by rewrite <- (rev_involutive out), H in Hne.
  - apply Forall_forall. intros x Hx%list_elem_of_In. apply in_rev, list_elem_of_In in Hx. revert x Hx.
    apply Forall_forall. by eapply clean_ok_no_slash.
Qed.

Lemma Join_head_slash rooted out : clean_ok rooted out -> HasPrefix (Join (rev out) "/") "/" = false.
Proof.
  intros Hok. destruct (HasPrefix (Join (rev out) "/") "/") eqn:E; [|done].
  apply HasPrefix_spec in E as [t Ht].
  destruct (decide (out = [])) as [->|Hne]; [done|].
  pose proof (split_join_rev _ _ Hok Hne) as Hs. rewrite Ht in Hs. cbn in Hs.
  assert ([] ∈ out) as Hin.
  { rewrite <- (rev_involutive out), <- Hs. apply list_elem_of_In, in_rev.
    rewrite rev_involutive. by left. }
  clear -Hok Hin. induction out as [|x out IH]; [by apply elem_of_nil in Hin|].
  destruct Hok as (_ & H & _ & _ & Hok). apply elem_of_cons in Hin as [<-|Hin]; [done|auto].
Qed.

(** Cleaning what was cleaned changes nothing. *)
Lemma clean_path_render rooted out :
  clean_ok rooted out -> clean_path (render_path (rooted, out)) = (rooted, out).
Proof.
  intros Hok. unfold clean_path, render_path. destruct rooted.
  - rewrite (HasPrefix_app "/"). cbv zeta. f_equal.
    change (SplitByte "/" ("/" ++ Join (rev out) "/")) with ([] :: SplitByte "/" (Join (rev out) "/")).
    cbn [foldl]. destruct (decide (out = [])) as [->|Hne]; [done|].
    rewrite (split_join_rev _ _ Hok Hne). change (clean_step true [] []) with (@nil gostring).
    by apply clean_fold.
  - destruct (decide (out = [])) as [->|Hne]; [done|].
    assert (match out with [] => "." | _ => Join (rev out) "/" end = Join (rev out) "/") as ->
      by by destruct out.
    rewrite (Join_head_slash _ _ Hok). cbv zeta. f_equal. rewrite (split_join_rev _ _ Hok Hne).
    by apply clean_fold.
Qed.

Lemma render_path_inj r out r' out' :
  clean_ok r out -> clean_ok r' out' -> render_path (r, out) = render_path (r', out') ->
  r = r' /\ out = out'.
Proof.
  intros H1 H2 H. apply (f_equal clean_path) in H. rewrite !clean_path_render in H by done.
  by injection H.
Qed.

(** An element that [Clean] keeps. *)
Definition plain (f : gostring) : Prop := "/"%char ∉ f /\ f <> [] /\ f <> "." /\ f <> "..".

Lemma clean_path_app p f :
  p <> [] -> plain f ->
  clean_path (p ++ "/" ++ f) = (fst (clean_path p), f :: snd (clean_path p)).
Proof.
  intros Hp (H1 & H2 & H3 & H4). unfold clean_path.
  assert (HasPrefix (p ++ "/" ++ f) "/" = HasPrefix p "/") as ->
    by (destruct p as [|c p]; [done|]; cbn; by destruct (p ++ _), p).
  cbn [fst snd]. f_equal.
  change (p ++ "/" ++ f) with (p ++ "/"%char :: f). rewrite SplitByte_app, foldl_app.
  rewrite (SplitByte_no_sep "/" f) by done. cbn [foldl]. unfold clean_step at 1.
  by rewrite !bool_decide_false by done.
Qed.

Lemma JoinPath_plain p f :
  p <> [] -> plain f -> JoinPath [p; f] = render_path (fst (clean_path p), f :: snd (clean_path p)).
Proof.
  intros Hp Hf. pose proof Hf as (_ & Hne & _). unfold JoinPath.
  rewrite !filter_cons, !decide_True by done. cbn [filter]. rewrite filter_nil.
  change (Join [p; f] "/") with (p ++ "/" ++ f). by rewrite Clean_render, clean_path_app.
Qed.

Lemma plain_clean_ok r out f : plain f -> clean_ok r out -> clean_ok r (f :: out).
Proof. intros (H1 & H2 & H3 & H4) Hok. cbn. by split_and!. Qed.

Lemma JoinPath_nonempty p f : p <> [] -> plain f -> JoinPath [p; f] <> [].
Proof.
  intros Hp Hf H. rewrite JoinPath_plain in H by done.
  assert (clean_path [] = (false, [])) as H0 by done. rewrite <- H in H0.
  rewrite clean_path_render in H0; [by destruct Hf|]. apply plain_clean_ok; [done|apply clean_path_ok].
Qed.

Lemma JoinPath_plain2 p d f :
  p <> [] -> plain d -> plain f ->
  JoinPath [JoinPath [p; d]; f]
  = render_path (fst (clean_path p), f :: d :: snd (clean_path p)).
Proof.
  intros Hp Hd Hf. rewrite JoinPath_plain by (try done; by apply JoinPath_nonempty).
  rewrite (JoinPath_plain p d) by done.
  rewrite clean_path_render by (apply plain_clean_ok; [done|apply clean_path_ok]). done.
Qed.

Lemma Join_snoc l x : l <> [] -> Join (l ++ [x]) "/" = Join l "/" ++ "/" ++ x.
Proof.
  intros Hl. induction l as [|y l IH]; [done|]. destruct l as [|z l]; [done|].
  change ((y :: z :: l) ++ [x]) with (y :: ((z :: l) ++ [x])).
  rewrite Join_cons by done. rewrite IH by done. rewrite (Join_cons y) by done.
  by rewrite <- !app_assoc.
Qed.

Lemma render_path_suffix r out f k :
  render_path (r, f :: out) ++ k = render_path (r, (f ++ k) :: out).
Proof.
  unfold render_path. cbn [rev].
  assert (forall g, Join (rev out ++ [g]) "/"
    = match out with [] => g | _ => Join (rev out) "/" ++ "/" ++ g end) as HJ.
  { intros g. destruct out as [|y out]; [done|]. apply Join_snoc. cbn [rev].
    by destruct (rev out). }
  rewrite !HJ. destruct r, out; by rewrite <- ?app_assoc.
Qed.

(** ** [strings.Fields] *)
Definition space_head (s : gostring) : bool := negb (bool_decide (trim_space_left s = s)).

Fixpoint until_space (s : gostring) : gostring :=
  match s with
  | [] => []
  | c :: r => if space_head s then [] else c :: until_space r
  end.

(** Every round takes at least one byte. *)
Fixpoint fields_go (fuel : nat) (s : gostring) : list gostring :=
  match fuel with
  | O => []
  | S fuel =>
      let s := trim_space_left s in
      match s with
      | [] => []
      | _ => until_space s :: fields_go fuel (drop (length (until_space s)) s)
      end
  end.

Definition Fields (s : gostring) : list gostring := fields_go (S (length s)) s.

Example Fields_example : Fields " a  bc
d " = ["a"; "bc"; "d"].
Proof. vm_compute. reflexivity. Qed.

(** A missing key of a Go map reads as the zero value. *)
Definition map_get (m : gmap gostring gostring) (k : gostring) : gostring := default [] (m !! k).
