(* ===== verification/Flags.v ===== *)
(** * Command line flags: what the commands use of [flag] and [strconv]

    A flag set is a list of flags, each a name, whether it is boolean, and how
    it changes the variables.  [Parse] is [FlagSet.Parse]: the arguments up to
    the first that is not a flag, in the four spellings [-n v], [--n v], [-n=v]
    and [--n=v].  [ParseInt] is [strconv.ParseInt] with base 0 and 64 bits. *)
From S2P Require Import Prelude GoLib.

(** ** [strconv] *)
Definition ParseBool (s : gostring) : option bool :=
  if bool_decide (s ∈ (["1"; "t"; "T"; "TRUE"; "true"; "True"] : list gostring)) then Some true
  else if bool_decide (s ∈ (["0"; "f"; "F"; "FALSE"; "false"; "False"] : list gostring)) then Some false
  else None.

(** The base a literal's prefix asks for, and what follows the prefix. *)
Definition int_base (s : gostring) : Z * gostring :=
  match s with
  | "0"%char :: c :: (_ :: _) as r =>
      if ceq (lower1 c) "b" then (2, drop 2 s)
      else if ceq (lower1 c) "o" then (8, drop 2 s)
      else if ceq (lower1 c) "x" then (16, drop 2 s)
      else (8, drop 1 s)
  | "0"%char :: r => (8, r)
  | _ => (10, s)
  end.

Definition is_hex_letter (c : ascii) : bool := (97 <=? ord (lower1 c)) && (ord (lower1 c) <=? 122).

Definition digit_of (c : ascii) : option Z :=
  if is_digit c then Some (ord c - 48)
  else if is_hex_letter c then Some (ord (lower1 c) - 87)
  else None.

Fixpoint base_digits (base acc : Z) (s : gostring) : option Z :=
  match s with
  | [] => Some acc
  | c :: s =>
      if ceq c "_" then base_digits base acc s
      else match digit_of c with
           | Some d => if d <? base then base_digits base (acc * base + d) s else None
           | None => None
           end
  end.

(** [underscoreOK]: underscores stand between digits, the prefix being one. *)
Fixpoint underscore_go (hex : bool) (saw : ascii) (s : gostring) : bool :=
  match s with
  | [] => negb (ceq saw "_")
  | c :: s =>
      if is_digit c || (hex && is_hex_letter c && (ord (lower1 c) <=? 102)) then underscore_go hex "0" s
      else if ceq c "_" then ceq saw "0" && underscore_go hex "_" s
      else negb (ceq saw "_") && underscore_go hex "!" s
  end.

Definition underscoreOK (s : gostring) : bool :=
  match s with
  | "0"%char :: c :: r =>
      if ceq (lower1 c) "b" || ceq (lower1 c) "o" || ceq (lower1 c) "x"
      then underscore_go (ceq (lower1 c) "x") "0" r else underscore_go false "^" s
  | _ => underscore_go false "^" s
  end.

Definition ParseInt (s : gostring) : option Z :=
  let '(neg, ds) :=
    match s with
    | "+"%char :: r => (false, r)
    | "-"%char :: r => (true, r)
    | _ => (false, s)
    end in
  if bool_decide (ds = []) then None
  else
    let '(base, rest) := int_base ds in
    n ← base_digits base 0 rest;
    let v := if neg then - n else n in
    if (negb (bool_decide ("_"%char ∈ rest)) || underscoreOK ds) && (MinInt <=? v) && (v <=? MaxInt)
    then Some v else None.

Lemma ParseInt_examples :
  ParseInt "42" = Some 42 /\ ParseInt "-7" = Some (-7) /\ ParseInt "0x1F" = Some 31 /\ ParseInt "010" = Some 8
  /\ ParseInt "1_000" = Some 1000 /\ ParseInt "1__0" = None /\ ParseInt "0" = Some 0 /\ ParseInt "08" = None
  /\ ParseInt "0_7" = Some 7 /\ ParseInt "_1" = None /\ ParseInt "9223372036854775808" = None
  /\ ParseInt "0x" = None /\ ParseInt "" = None /\ ParseInt "12a" = None.
Proof. by vm_compute. Qed.

(** ** [flag] *)
Inductive flag_error :=
| FlagSyntax (arg : gostring)
| FlagHelp
| FlagUndefined (name : gostring)
| FlagNeedsArgument (name : gostring)
| FlagInvalid (name value : gostring).

Record flag (S : Type) := Flag {
  f_name : gostring;
  f_bool : bool;
  f_set : gostring -> S -> option S;
}.
Arguments Flag {S}.
Arguments f_name {S}.
Arguments f_bool {S}.
Arguments f_set {S}.

(** What an argument is to [parseOne]. *)
Inductive flag_arg :=
| ArgPlain
| ArgTerminator
| ArgBad
| ArgFlag (name : gostring) (value : option gostring).

(** The name and value of a flag without its dashes; its first byte is not the
    equals sign. *)
Definition split_flag (s : gostring) : flag_arg :=
  match s with
  | [] => ArgBad
  | c :: r =>
      if ceq c "-" || ceq c "=" then ArgBad
      else match Cut r "=" with
           | (n, v, true) => ArgFlag (c :: n) (Some v)
           | _ => ArgFlag s None
           end
  end.

Definition classify_arg (s : gostring) : flag_arg :=
  match s with
  | "-"%char :: "-"%char :: [] => ArgTerminator
  | "-"%char :: "-"%char :: r => split_flag r
  | "-"%char :: (_ :: _) as r => split_flag (drop 1 s)
  | _ => ArgPlain
  end.

Section Parse.
Context {S : Type}.
Variable fs : list (flag S).

Definition lookup_flag (name : gostring) : option (flag S) := List.find (fun f => bool_decide (f_name f = name)) fs.

Fixpoint Parse (args : list gostring) (st : S) : flag_error + (S * list gostring) :=
  match args with
  | [] => inr (st, [])
  | s :: rest =>
      match classify_arg s with
      | ArgPlain => inr (st, args)
      | ArgTerminator => inr (st, rest)
      | ArgBad => inl (FlagSyntax s)
      | ArgFlag name value =>
          match lookup_flag name with
          | None => inl (if bool_decide (name = "help") || bool_decide (name = "h")
                         then FlagHelp else FlagUndefined name)
          | Some f =>
              if f_bool f then
                let v := default "true" value in
                match f_set f v st with
                | Some st => Parse rest st
                | None => inl (FlagInvalid name v)
                end
              else
                match value with
                | Some v =>
                    match f_set f v st with
                    | Some st => Parse rest st
                    | None => inl (FlagInvalid name v)
                    end
                | None =>
                    match rest with
                    | [] => inl (FlagNeedsArgument name)
                    | v :: rest =>
                        match f_set f v st with
                        | Some st => Parse rest st
                        | None => inl (FlagInvalid name v)
                        end
                    end
                end
          end
      end
  end.
End Parse.

(** [fs.StringVar], [fs.IntVar], [fs.BoolVar]: the variable's new value. *)
Definition StringVar {S} (name : gostring) (set : gostring -> S -> S) : flag S :=
  Flag name false (fun v st => Some (set v st)).
Definition IntVar {S} (name : gostring) (set : Z -> S -> S) : flag S :=
  Flag name false (fun v st => n ← ParseInt v; Some (set n st)).
Definition BoolVar {S} (name : gostring) (set : bool -> S -> S) : flag S :=
  Flag name true (fun v st => b ← ParseBool v; Some (set b st)).
Definition Var {S} (name : gostring) (set : gostring -> S -> option S) : flag S := Flag name false set.

(** ** The language of arguments *)

(** A setting of a flag as it is spelled: with its value after an equals sign, as
    the next argument, or alone when it is boolean. *)
Inductive setting :=
| Joined (double : bool) (name value : gostring)
| Separate (double : bool) (name value : gostring)
| Bare (double : bool) (name : gostring).

Definition set_name (s : setting) : gostring :=
  match s with Joined _ n _ | Separate _ n _ | Bare _ n => n end.
Definition set_value (s : setting) : gostring :=
  match s with Joined _ _ v | Separate _ _ v => v | Bare _ _ => "true" end.

Definition dashes (double : bool) : gostring := if double then "--" else "-".

Definition render_setting (s : setting) : list gostring :=
  match s with
  | Joined d n v => [dashes d ++ n ++ "=" ++ v]
  | Separate d n v => [dashes d ++ n; v]
  | Bare d n => [dashes d ++ n]
  end.

Definition name_ok (n : gostring) : Prop :=
  "="%char ∉ n /\ match n with [] => False | c :: _ => c <> "-"%char end.

(** The value of the last setting of a flag. *)
Definition last_value (name : gostring) (l : list setting) : option gostring :=
  last (omap (fun s => if bool_decide (set_name s = name) then Some (set_value s) else None) l).

Section Language.
Context {S : Type}.
Variable fs : list (flag S).

Definition setting_ok (s : setting) : Prop :=
  name_ok (set_name s) /\ exists f, lookup_flag fs (set_name s) = Some f
  /\ match s with Joined _ _ _ => True | Separate _ _ _ => f_bool f = false | Bare _ _ => f_bool f = true end.

Definition apply_setting (s : setting) (st : S) : option S :=
  f ← lookup_flag fs (set_name s); f_set f (set_value s) st.

Fixpoint apply_settings (l : list setting) (st : S) : option S :=
  match l with
  | [] => Some st
  | s :: l => st ← apply_setting s st; apply_settings l st
  end.

(** Where the flags end: before a plain argument, or after a terminator. *)
Definition flags_end (tail rest : list gostring) : Prop :=
  tail = "--" :: rest \/ tail = rest /\ match rest with [] => True | a :: _ => classify_arg a = ArgPlain end.

Lemma Cut_absent (sep : ascii) s : sep ∉ s -> Cut s sep = (s, [], false).
Proof.
  induction s as [|c s IH]; intros H; cbn [Cut]; [done|].
  rewrite not_elem_of_cons in H. destruct H as [Hc H]. rewrite (IH H).
  by rewrite (proj2 (ceq_false _ _)) by congruence.
Qed.

Lemma Cut_sep (sep : ascii) s v : sep ∉ s -> Cut (s ++ sep :: v) sep = (s, v, true).
Proof.
  induction s as [|c s IH]; intros H; cbn [Cut app]; [by rewrite ceq_refl|].
  rewrite not_elem_of_cons in H. destruct H as [Hc H]. rewrite (IH H).
  by rewrite (proj2 (ceq_false _ _)) by congruence.
Qed.

Lemma Cut_spec (sep : ascii) s : forall n v b, Cut s sep = (n, v, b) ->
  sep ∉ n /\ if b then s = n ++ sep :: v else s = n /\ v = [].
Proof.
  induction s as [|c s IH]; intros n v b H; cbn [Cut] in H.
  { injection H as <- <- <-. split; [apply not_elem_of_nil|done]. }
  destruct (ceq c sep) eqn:E.
  { injection H as <- <- <-. apply ceq_true in E as ->. split; [apply not_elem_of_nil|done]. }
  apply ceq_false in E. destruct (Cut s sep) as [[n' v'] b'] eqn:Ec. injection H as <- <- <-.
  destruct (IH _ _ _ eq_refl) as [H1 H2]. split; [rewrite not_elem_of_cons; split; congruence|].
  destruct b'; [by rewrite H2|]. destruct H2 as [-> ->]. done.
Qed.

Lemma split_flag_ok n : name_ok n -> split_flag n = ArgFlag n None
  /\ forall v, split_flag (n ++ "=" ++ v) = ArgFlag n (Some v).
Proof.
  intros [Heq Hd]. destruct n as [|c n]; [done|]. apply not_elem_of_cons in Heq as [Hc Heq].
  cbn [split_flag app]. rewrite (proj2 (ceq_false c "-")), (proj2 (ceq_false c "=")) by congruence. cbn [orb].
  split; [by rewrite Cut_absent|]. intros v. by rewrite (Cut_sep "="%char n v).
Qed.

Lemma split_flag_inv s n value : split_flag s = ArgFlag n value ->
  name_ok n /\ s = n ++ match value with Some v => "=" ++ v | None => [] end.
Proof.
  destruct s as [|c r]; cbn [split_flag]; [done|].
  destruct (ceq c "-") eqn:E1; [done|]. destruct (ceq c "=") eqn:E2; [done|]. cbn [orb].
  apply ceq_false in E1, E2. destruct (Cut r "=") as [[m v] b] eqn:Ec.
  apply Cut_spec in Ec as [Hm Hb].
  destruct b; intros [= <- <-].
  - rewrite Hb. split; [|done]. split; [rewrite not_elem_of_cons; split; congruence|done].
  - destruct Hb as [-> _]. rewrite app_nil_r. split; [|done]. split; [rewrite not_elem_of_cons; split; congruence|done].
Qed.

Lemma classify_render d n v : name_ok n ->
  classify_arg (dashes d ++ n) = ArgFlag n None /\ classify_arg (dashes d ++ n ++ "=" ++ v) = ArgFlag n (Some v).
Proof.
  intros H. destruct (split_flag_ok n H) as [H1 H2]. specialize (H2 v). destruct n as [|c n]; [by destruct H|].
  destruct H as [_ Hc]. destruct d; cbn [dashes app classify_arg].
  - done.
  - destruct c as [[] [] [] [] [] [] [] []]; try done; try (split; assumption); destruct n; done.
Qed.

Lemma split_flag_flag s : split_flag s <> ArgTerminator.
Proof. unfold split_flag. repeat case_match; done. Qed.

Lemma classify_terminator a : classify_arg a = ArgTerminator -> a = "--".
Proof.
  intros H. destruct a as [|c a]; [done|]. destruct (decide (c = "-"%char)) as [->|Hc].
  2: { exfalso. by destruct c as [[] [] [] [] [] [] [] []]. }
  destruct a as [|c' a]; [done|]. destruct (decide (c' = "-"%char)) as [->|Hc].
  - destruct a as [|c' a]; [done|]. by apply (split_flag_flag (c' :: a)) in H.
  - exfalso. apply (split_flag_flag (c' :: a)). by destruct c' as [[] [] [] [] [] [] [] []].
Qed.

Lemma classify_inv a n value : classify_arg a = ArgFlag n value ->
  name_ok n /\ exists d, a = dashes d ++ n ++ match value with Some v => "=" ++ v | None => [] end.
Proof.
  intros H. assert (exists d s, a = dashes d ++ s /\ split_flag s = ArgFlag n value) as (d & s & -> & Hs).
  { destruct a as [|c a]; [done|]. destruct (decide (c = "-"%char)) as [->|Hc].
    2: { exfalso. by destruct c as [[] [] [] [] [] [] [] []]. }
    destruct a as [|c' a]; [done|]. destruct (decide (c' = "-"%char)) as [->|Hc].
    - destruct a as [|c' a]; [done|]. exists true, (c' :: a). done.
    - exists false, (c' :: a). split; [done|]. by destruct c' as [[] [] [] [] [] [] [] []]. }
  apply split_flag_inv in Hs as [H1 ->]. eauto.
Qed.

Lemma Parse_setting s args st : setting_ok s ->
  Parse fs (render_setting s ++ args) st
  = match apply_setting s st with
    | Some st => Parse fs args st
    | None => inl (FlagInvalid (set_name s) (set_value s))
    end.
Proof.
  intros (Hn & f & Hf & Hs). unfold apply_setting. rewrite Hf. cbn [mbind option_bind].
  destruct s as [d n v|d n v|d n]; cbn [render_setting set_name set_value app] in *;
    pose proof (proj1 (classify_render d n [] Hn)) as H1;
    pose proof (fun v => proj2 (classify_render d n v Hn)) as H2; cbn [app] in H2; cbn [Parse]; rewrite ?H1, ?H2, Hf.
  - change (default "true" (Some v)) with v. destruct (f_bool f); by destruct (f_set f v st).
  - rewrite Hs. by destruct (f_set f v st).
  - rewrite Hs. change (default "true" None) with ("true" : gostring). by destruct (f_set f _ st).
Qed.

Lemma Parse_end tail rest st : flags_end tail rest -> Parse fs tail st = inr (st, rest).
Proof.
  intros [->|[-> H]]; [done|]. destruct rest as [|a rest]; cbn [Parse]; [done|]. by rewrite H.
Qed.

Lemma Parse_complete l tail rest st st' :
  Forall setting_ok l -> apply_settings l st = Some st' -> flags_end tail rest ->
  Parse fs (concat (render_setting <$> l) ++ tail) st = inr (st', rest).
Proof.
  intros Hl. revert st. induction Hl as [|s l Hs Hl IH]; intros st H Ht; cbn [apply_settings] in H.
  - injection H as ->. by apply Parse_end.
  - cbn [fmap list_fmap concat]. rewrite <- app_assoc, Parse_setting by done.
    destruct (apply_setting s st) as [st1|]; [|done]. by apply IH.
Qed.

Lemma Parse_sound_go n args st st' rest : (length args < n)%nat ->
  Parse fs args st = inr (st', rest) ->
  exists l tail, args = concat (render_setting <$> l) ++ tail /\ Forall setting_ok l
  /\ apply_settings l st = Some st' /\ flags_end tail rest.
Proof.
  revert args st. induction n as [|n IH]; intros args st Hlen H; [lia|].
  destruct args as [|a args]; cbn [Parse] in H.
  { injection H as <- <-. exists [], []. split_and!; try done. right. done. }
  cbn [length] in Hlen. destruct (classify_arg a) as [| | |name value] eqn:Ea; [| |done|].
  { injection H as <- <-. exists [], (a :: args). split_and!; try done. right. done. }
  { injection H as <- <-. exists [], (a :: args). split_and!; try done. left. f_equal.
    by apply classify_terminator. }
  pose proof (classify_inv _ _ _ Ea) as (Hn & d & Hd).
  destruct (lookup_flag fs name) as [f|] eqn:Ef; [|by destruct (_ || _)].
  assert (forall s args', set_name s = name -> a :: args = render_setting s ++ args' ->
      (length args' < n)%nat -> setting_ok s ->
      match apply_setting s st with
      | Some st1 => Parse fs args' st1
      | None => inl (FlagInvalid (set_name s) (set_value s))
      end = inr (st', rest) ->
      exists l tail, a :: args = concat (render_setting <$> l) ++ tail /\ Forall setting_ok l
      /\ apply_settings l st = Some st' /\ flags_end tail rest) as step.
  { intros s args' Hs Hargs Hlen' Hok Hp. destruct (apply_setting s st) as [st1|] eqn:E1; [|done].
    destruct (IH _ _ Hlen' Hp) as (l & tail & H1 & H2 & H3 & H4). exists (s :: l), tail.
    split_and!; [|by constructor|cbn [apply_settings]; by rewrite E1|done].
    rewrite Hargs, H1. cbn [fmap list_fmap concat]. by rewrite app_assoc. }
  destruct (f_bool f) eqn:Eb.
  - destruct value as [v|]; [eapply (step (Joined d name v) args)|eapply (step (Bare d name) args)];
      try done; try lia; try (cbn; by rewrite Hd, ?app_nil_r);
      try (split; [done|by exists f]);
      unfold apply_setting; cbn [set_name set_value]; rewrite Ef; cbn [mbind option_bind]; exact H.
  - destruct value as [v|].
    + eapply (step (Joined d name v) args); try done; try lia; try (cbn; by rewrite Hd);
        try (split; [done|by exists f]).
      unfold apply_setting; cbn [set_name set_value]; rewrite Ef; cbn [mbind option_bind]; exact H.
    + destruct args as [|v args]; [done|]. cbn [length] in Hlen.
      eapply (step (Separate d name v) args); try done; try lia; try (cbn; by rewrite Hd, app_nil_r);
        try (split; [done|by exists f]).
      unfold apply_setting; cbn [set_name set_value]; rewrite Ef; cbn [mbind option_bind]; exact H.
Qed.

(** The arguments [Parse] accepts are the spellings of settings, each applied in
    turn, up to where the flags end. *)
Lemma Parse_exact args st st' rest :
  Parse fs args st = inr (st', rest) <->
  exists l tail, args = concat (render_setting <$> l) ++ tail /\ Forall setting_ok l
  /\ apply_settings l st = Some st' /\ flags_end tail rest.
Proof.
  split; [by apply (Parse_sound_go (Datatypes.S (length args))); lia|].
  intros (l & tail & -> & H1 & H2 & H3). by apply Parse_complete.
Qed.

(** The variable of a flag, when no other flag changes it, holds the value of its
    last setting. *)
Lemma settings_value {A} (get : S -> A) (parse : gostring -> option A) (name : gostring) l st st' :
  (forall s st st', apply_setting s st = Some st' ->
     if bool_decide (set_name s = name) then parse (set_value s) = Some (get st') else get st' = get st) ->
  apply_settings l st = Some st' ->
  match last_value name l with Some v => parse v = Some (get st') | None => get st' = get st end.
Proof.
  intros Hget. revert st. induction l as [|s l IH]; intros st H; cbn [apply_settings] in H.
  { by injection H as ->. }
  destruct (apply_setting s st) as [st1|] eqn:E; [|done]. cbn in H. apply Hget in E. apply IH in H.
  unfold last_value in *. cbn [omap list_omap]. case_bool_decide as Hs.
  - rewrite last_cons. destruct (last _) as [v|]; [done|]. by rewrite H.
  - destruct (last _) as [v|]; [done|]. by rewrite H.
Qed.
End Language.
