(* ===== verification/Model.v ===== *)
(** * The data types of [internal/model]

    One record per Go struct, with the Go field names, and one constant per Go
    constant.  Go's string-based enumerations are open types (any string read
    from JSON is a value), so they stay strings here.  Times are nanoseconds
    since the epoch; a zero [time.Time] is [None] in the fields the code tests
    with [IsZero].  Confidences are decimal constants of the source that the
    code copies and never computes with; they are rationals. *)
From S2P Require Import Prelude GoLib.

Abbreviation time := Z.
Abbreviation confidence := Q.

(** ** Statuses, errors *)
Abbreviation RunStatus := gostring.
Abbreviation ConversationStatus := gostring.
Abbreviation ErrorCode := gostring.
Abbreviation TurnReason := gostring.
Abbreviation VerdictDecision := gostring.
Abbreviation PeerSlot := gostring.
Abbreviation PeerID := gostring.

Definition RunRunning : RunStatus := "running".
Definition RunCompleted : RunStatus := "completed".
Definition RunBlockedOnInput : RunStatus := "blocked_on_input".
Definition RunPermissionPrompt : RunStatus := "permission_prompt".
Definition RunAuthRequired : RunStatus := "auth_required".
Definition RunRateLimited : RunStatus := "rate_limited".
Definition RunInterrupted : RunStatus := "interrupted".
Definition RunTimeout : RunStatus := "timeout".
Definition RunPartial : RunStatus := "partial".
Definition RunCrashed : RunStatus := "crashed".
Definition RunFailed : RunStatus := "error".

Definition RunStatus_IsTerminal (s : RunStatus) : bool :=
  existsb (fun x => bool_decide (s = x))
    [RunCompleted; RunBlockedOnInput; RunPermissionPrompt; RunAuthRequired;
     RunRateLimited; RunInterrupted; RunTimeout; RunPartial; RunCrashed; RunFailed].

Definition ConvRunning : ConversationStatus := "running".
Definition ConvCompletedSentinel : ConversationStatus := "completed_sentinel".
Definition ConvCompletedJudge : ConversationStatus := "completed_judge".
Definition ConvMaxTurnsHit : ConversationStatus := "max_turns_hit".
Definition ConvPeerCrashed : ConversationStatus := "peer_crashed".
Definition ConvPeerBlocked : ConversationStatus := "peer_blocked".
Definition ConvTimeout : ConversationStatus := "timeout".
Definition ConvInterrupted : ConversationStatus := "interrupted".
Definition ConvError : ConversationStatus := "error".

Definition ErrorConfig : ErrorCode := "E_CONFIG".
Definition ErrorSpawn : ErrorCode := "E_SPAWN".
Definition ErrorPromptIO : ErrorCode := "E_PROMPT_IO".
Definition ErrorTimeout : ErrorCode := "E_TIMEOUT".
Definition ErrorExtract : ErrorCode := "E_EXTRACT".
Definition ErrorStore : ErrorCode := "E_STORE".
Definition ErrorRuntime : ErrorCode := "E_RUNTIME".
Definition ErrorProvider : ErrorCode := "E_PROVIDER".
Definition ErrorInput : ErrorCode := "E_INPUT".
Definition ErrorNotFound : ErrorCode := "E_NOT_FOUND".
Definition ErrorInternal : ErrorCode := "E_INTERNAL".

Record RunError := {
  RE_Code : ErrorCode;
  RE_Message : gostring;
}.

(** [RunError.Error]; the nil receiver prints as the empty string. *)
Definition RunError_Error (e : option RunError) : gostring :=
  match e with
  | None => []
  | Some e => RE_Code e ++ ": " ++ RE_Message e
  end.

(** ** Peer ids and slots *)
Definition is_lower (c : ascii) : bool := (97 <=? ord c) && (ord c <=? 122).

(** The class [\[a-z0-9_-\]]. *)
Definition id_char (c : ascii) : bool :=
  is_lower c || is_digit c || ceq c "_" || ceq c "-".

(** [^\[a-z\]\[a-z0-9_-\]{0,31}$], the pattern of [peerIDRegex]. *)
Definition peerIDRegex (s : gostring) : bool :=
  match s with
  | c :: r => is_lower c && forallb id_char r && (length r <=? 31)%nat
  | [] => false
  end.

Definition ErrInvalidPeerID : goerr :=
  ErrNew "invalid peer id: must match ^[a-z][a-z0-9_-]{0,31}$".

Definition PeerID_Validate (p : PeerID) : option goerr :=
  if peerIDRegex p then None else Some ErrInvalidPeerID.

Definition PeerIDFromSlot (s : PeerSlot) : PeerID := s.

Definition PeerSlotA : PeerSlot := "a".
Definition PeerSlotB : PeerSlot := "b".

Definition PeerSlot_Other (s : PeerSlot) : PeerSlot :=
  if bool_decide (s = PeerSlotA) then PeerSlotB else PeerSlotA.

(** ** Conversations *)
Record PeerSpec := {
  URI : gostring;
  Options : gmap gostring gostring;
}.

Definition zeroPeerSpec : PeerSpec := {| URI := []; Options := ∅ |}.

Record PeerParticipant := {
  PP_ID : PeerID;
  PP_Spec : PeerSpec;
}.

Definition TurnReasonOpener : TurnReason := "opener".
Definition TurnReasonAddressed : TurnReason := "addressed".
Definition TurnReasonFallbackRoundRobin : TurnReason := "fallback_roundrobin".
Definition TurnReasonEnd : TurnReason := "end".

Record TerminatorSpec := {
  TS_Kind : gostring;
  TS_Sentinel : gostring;
  TS_JudgeURI : gostring;
}.

Record Conversation := {
  C_ID : gostring;
  SchemaVersion : Z;
  CreatedAt : time;
  C_EndedAt : option time;
  C_Status : ConversationStatus;
  MaxTurns : Z;
  PerTurnTimeout : Z;
  OverallTimeout : Z;
  C_Terminator : TerminatorSpec;
  C_Peers : list PeerParticipant;
  Seeds : gmap PeerID gostring;
  OpenerID : PeerID;
  C_PeerA : PeerSpec;
  C_PeerB : PeerSpec;
  SeedA : gostring;
  SeedB : gostring;
  Opener : PeerSlot;
  TurnsConsumed : Z;
  C_ReplyStyle : gostring;
}.

Definition Second : Z := 1000000000.

(** [time.Duration(c.PerTurnTimeout) * time.Second], in 64 bits. *)
Definition PerTurnTimeoutDuration (c : Conversation) : Z :=
  wrap64 (PerTurnTimeout c * Second).

Definition OverallTimeoutDuration (c : Conversation) : Z :=
  wrap64 (OverallTimeout c * Second).

(** Assignments to the fields the code assigns to. *)
Section ConversationUpdates.
Variable c : Conversation.

Definition with_v2 (sv : Z) (ps : list PeerParticipant) (sd : gmap PeerID gostring)
    (op : PeerID) : Conversation :=
  {| C_ID := C_ID c; SchemaVersion := sv; CreatedAt := CreatedAt c;
     C_EndedAt := C_EndedAt c; C_Status := C_Status c; MaxTurns := MaxTurns c;
     PerTurnTimeout := PerTurnTimeout c; OverallTimeout := OverallTimeout c;
     C_Terminator := C_Terminator c; C_Peers := ps; Seeds := sd; OpenerID := op;
     C_PeerA := C_PeerA c; C_PeerB := C_PeerB c; SeedA := SeedA c; SeedB := SeedB c;
     Opener := Opener c; TurnsConsumed := TurnsConsumed c;
     C_ReplyStyle := C_ReplyStyle c |}.

Definition with_lifecycle (created : time) (ended : option time)
    (status : ConversationStatus) (consumed : Z) : Conversation :=
  {| C_ID := C_ID c; SchemaVersion := SchemaVersion c; CreatedAt := created;
     C_EndedAt := ended; C_Status := status; MaxTurns := MaxTurns c;
     PerTurnTimeout := PerTurnTimeout c; OverallTimeout := OverallTimeout c;
     C_Terminator := C_Terminator c; C_Peers := C_Peers c; Seeds := Seeds c;
     OpenerID := OpenerID c; C_PeerA := C_PeerA c; C_PeerB := C_PeerB c;
     SeedA := SeedA c; SeedB := SeedB c; Opener := Opener c;
     TurnsConsumed := consumed; C_ReplyStyle := C_ReplyStyle c |}.

Definition set_schema_version (v : Z) : Conversation :=
  with_v2 v (C_Peers c) (Seeds c) (OpenerID c).
Definition set_created (t : time) : Conversation :=
  with_lifecycle t (C_EndedAt c) (C_Status c) (TurnsConsumed c).
Definition set_ended (t : option time) : Conversation :=
  with_lifecycle (CreatedAt c) t (C_Status c) (TurnsConsumed c).
Definition set_status (s : ConversationStatus) : Conversation :=
  with_lifecycle (CreatedAt c) (C_EndedAt c) s (TurnsConsumed c).
Definition set_consumed (n : Z) : Conversation :=
  with_lifecycle (CreatedAt c) (C_EndedAt c) (C_Status c) n.
End ConversationUpdates.

Record ConversationPatch := {
  CP_Status : option ConversationStatus;
  CP_EndedAt : option time;
  CP_TurnsConsumed : option Z;
}.

Record ConversationTurn := {
  T_ConversationID : gostring;
  T_Index : Z;
  T_From : PeerSlot;
  T_FromID : PeerID;
  T_ToID : PeerID;
  T_Reason : TurnReason;
  T_NextIDParsed : option PeerID;
  T_FallbackUsed : bool;
  T_Envelope : gostring;
  T_Response : gostring;
  T_MarkerToken : gostring;
  T_StartedAt : time;
  T_EndedAt : time;
  T_CompletionConfidence : confidence;
  T_ParserConfidence : confidence;
  T_Warnings : list gostring;
}.

(** The routing fields of a turn, the only ones assigned after delivery. *)
Definition with_routing (t : ConversationTurn) (from to : PeerID) (reason : TurnReason)
    (parsed : option PeerID) (fb : bool) : ConversationTurn :=
  {| T_ConversationID := T_ConversationID t; T_Index := T_Index t; T_From := T_From t;
     T_FromID := from; T_ToID := to; T_Reason := reason; T_NextIDParsed := parsed;
     T_FallbackUsed := fb; T_Envelope := T_Envelope t; T_Response := T_Response t;
     T_MarkerToken := T_MarkerToken t; T_StartedAt := T_StartedAt t;
     T_EndedAt := T_EndedAt t; T_CompletionConfidence := T_CompletionConfidence t;
     T_ParserConfidence := T_ParserConfidence t; T_Warnings := T_Warnings t |}.

Definition DecisionContinue : VerdictDecision := "continue".
Definition DecisionTerminate : VerdictDecision := "terminate".

Record Verdict := {
  V_ConversationID : gostring;
  V_Decision : VerdictDecision;
  V_Reason : gostring;
  V_Status : ConversationStatus;
}.

Record Envelope := {
  E_ConversationID : gostring;
  E_TurnIndex : Z;
  E_MaxTurns : Z;
  E_From : PeerSlot;
  E_FromID : PeerID;
  E_ToID : PeerID;
  E_Body : gostring;
  E_MarkerToken : gostring;
  E_IncludeBriefing : bool;
  E_Briefing : gostring;
}.

(** ** Single-shot sessions *)
Record Turn := {
  TU_SessionID : gostring;
  TU_Index : Z;
  TU_Role : gostring;
  TU_Content : gostring;
  TU_CreatedAt : time;
}.

Record Session := {
  S_ID : gostring;
  S_Provider : gostring;
  S_Status : RunStatus;
  S_StartedAt : time;
  S_EndedAt : option time;
  S_DurationMs : option Z;
  S_ExitCode : option Z;
  S_ParserConfidence : option confidence;
  S_ObservationConfidence : option confidence;
  S_AuthMode : gostring;
  S_BlockedReason : option gostring;
  S_BytesCaptured : option Z;
  S_Warnings : list gostring;
  S_TerminalCols : option Z;
  S_TerminalRows : option Z;
}.

(** [SP_Warnings] is [None] for a nil slice, which the update skips. *)
Record SessionPatch := {
  SP_Status : option RunStatus;
  SP_EndedAt : option time;
  SP_DurationMs : option Z;
  SP_ExitCode : option Z;
  SP_ParserConfidence : option confidence;
  SP_ObservationConfidence : option confidence;
  SP_AuthMode : option gostring;
  SP_BlockedReason : option gostring;
  SP_BytesCaptured : option Z;
  SP_Warnings : option (list gostring);
  SP_TerminalCols : option Z;
  SP_TerminalRows : option Z;
}.

Record SessionFilter := {
  SF_Status : option RunStatus;
  SF_Limit : Z;
  SF_Offset : Z;
}.

Record ConversationFilter := {
  CF_Status : option ConversationStatus;
  CF_Limit : Z;
  CF_Offset : Z;
}.

Record RunRequest := {
  RR_Provider : gostring;
  RR_Prompt : gostring;
  RR_PromptFile : gostring;
  RR_TimeoutSec : Z;
  RR_Cwd : gostring;
  RR_EnvFile : gostring;
  RR_LogBackend : gostring;
  RR_LogPath : gostring;
  RR_DatabaseURL : gostring;
  RR_PeekLast : Z;
  RR_DebugRaw : bool;
  RR_TerminalCols : Z;
  RR_TerminalRows : Z;
  RR_HomeDir : gostring;
  RR_Model : gostring;
  RR_ReasoningEffort : gostring;
}.

Record ResultMeta := {
  M_DurationMs : Z;
  M_ExitCode : option Z;
  M_ParserConfidence : confidence;
  M_ObservationConfidence : confidence;
  M_BytesCaptured : Z;
  M_BlockedReason : option gostring;
  M_Warnings : list gostring;
}.

Record RunResult := {
  R_SessionID : gostring;
  R_Provider : gostring;
  R_Status : RunStatus;
  R_Response : gostring;
  R_Peek : list Turn;
  R_Meta : ResultMeta;
  R_Error : option RunError;
}.

(** ** Terminal events *)
Definition StreamEventInput : gostring := "stdin".
Definition StreamEventOutput : gostring := "pty".

Record StreamEvent := {
  SE_Timestamp : time;
  SE_Kind : gostring;
  SE_Data : gostring;
}.

Record StoredStreamEvent := {
  SSE_SessionID : gostring;
  SSE_Timestamp : time;
  SSE_Kind : gostring;
  SSE_Data : gostring;
}.

Record ExitResult := {
  X_Code : Z;
  X_Err : option goerr;
}.

#[export] Instance Q_eq_dec : EqDecision Q.
Proof. solve_decision. Defined.
#[export] Instance PeerSpec_eq_dec : EqDecision PeerSpec.
Proof. solve_decision. Defined.
#[export] Instance PeerParticipant_eq_dec : EqDecision PeerParticipant.
Proof. solve_decision. Defined.
#[export] Instance TerminatorSpec_eq_dec : EqDecision TerminatorSpec.
Proof. solve_decision. Defined.
#[export] Instance Conversation_eq_dec : EqDecision Conversation.
Proof. solve_decision. Defined.
#[export] Instance ConversationTurn_eq_dec : EqDecision ConversationTurn.
Proof. solve_decision. Defined.
#[export] Instance Verdict_eq_dec : EqDecision Verdict.
Proof. solve_decision. Defined.
#[export] Instance Envelope_eq_dec : EqDecision Envelope.
Proof. solve_decision. Defined.
#[export] Instance Turn_eq_dec : EqDecision Turn.
Proof. solve_decision. Defined.
#[export] Instance Session_eq_dec : EqDecision Session.
Proof. solve_decision. Defined.

(** ** Facts about ids *)

Lemma PeerID_Validate_length p : PeerID_Validate p = None -> (1 <= length p <= 32)%nat.
Proof.
  unfold PeerID_Validate, peerIDRegex. destruct p as [|c r]; [done|].
  split_ifs; [|done]. intros _. bool_facts. simpl.
  match goal with H : (_ <=? _)%nat = true |- _ => apply Nat.leb_le in H end. lia.
Qed.

Lemma id_char_not_special c : id_char c = true -> c <> LF /\ c <> ">"%char /\ c <> ","%char.
Proof. intros H. repeat split; intros ->; vm_compute in H; discriminate. Qed.

Lemma is_lower_id_char c : is_lower c = true -> id_char c = true.
Proof. unfold id_char. by intros ->. Qed.

Lemma peerIDRegex_chars p : peerIDRegex p = true -> Forall (fun c => id_char c = true) p.
Proof.
  destruct p as [|c r]; [done|]. simpl. intros H. bool_facts.
  constructor; [by apply is_lower_id_char|].
  apply Forall_forall. intros x Hx.
  match goal with H : forallb _ _ = true |- _ => rewrite forallb_forall in H; apply H end.
  by apply list_elem_of_In.
Qed.
