(* ===== verification/Policy.v ===== *)
(** * Turn-ordering policies ([internal/conversation/policy])

    The trailer parser, the round-robin successor, [AddressedPolicy] and the
    interface [TurnPolicy] the broker is written against. *)
From S2P Require Import Prelude GoLib Model.

Record Decision := {
  D_Next : PeerID;
  D_Parsed : option PeerID;
  D_FallbackUsed : bool;
}.

(** What an implementation of the Go interface must do: on a non-empty peer
    list, return (not panic) and choose a declared peer.  [None] is a panic. *)
Class TurnPolicy := {
  policy_Next : PeerID -> gostring -> list PeerID -> option Decision;
  policy_Next_valid current reply peers :
    peers <> [] ->
    exists d, policy_Next current reply peers = Some d /\ D_Next d ∈ peers;
}.

(** ** [roundRobinAfter] *)

(** The loop of [roundRobinAfter]; [i] is the index of the head of the
    remaining peers. *)
Fixpoint round_robin_loop (current : PeerID) (peers : list PeerID) (i : nat)
    (rest : list PeerID) : option PeerID :=
  match rest with
  | [] => peers !! 0%nat
  | p :: rest' =>
      if bool_decide (p = current) then peers !! ((i + 1) mod length peers)%nat
      else round_robin_loop current peers (S i) rest'
  end.

Definition roundRobinAfter (current : PeerID) (peers : list PeerID) : option PeerID :=
  match peers with
  | [] => None
  | _ => round_robin_loop current peers 0 peers
  end.

(** ** [parseNextTrailer] *)

Definition trailer_ws : gostring := SP :: TAB :: [CR].

(** The last line that is not blank, right-trimmed; the empty string if none. *)
Fixpoint last_nonblank (lines_rev : list gostring) : gostring :=
  match lines_rev with
  | [] => []
  | l :: r =>
      let trimmed := TrimRight l trailer_ws in
      if bool_decide (trimmed = []) then last_nonblank r else trimmed
  end.

(** RE2's [\s]: tab, line feed, form feed, carriage return, space. *)
Definition re_space (c : ascii) : bool :=
  let n := ord c in (n =? 32) || (n =? 9) || (n =? 10) || (n =? 12) || (n =? 13).

Fixpoint take_while (f : ascii -> bool) (s : gostring) : gostring :=
  match s with
  | [] => []
  | c :: r => if f c then c :: take_while f r else []
  end.

(** [nextTrailerRegex.FindStringSubmatch], group 1.  An id is followed by
    blanks and [>>], none of which is an id character, so the only way to match
    is to take the longest run of id characters. *)
Definition nextTrailerRegex (s : gostring) : option PeerID :=
  if HasPrefix s "<<NEXT:" then
    let r := drop_while re_space (drop 7 s) in
    let id := take_while id_char r in
    let tail := drop_while re_space (drop (length id) r) in
    if peerIDRegex id && bool_decide (tail = ">>") then Some id else None
  else None.

Definition endTrailerRegex (s : gostring) : bool := bool_decide (s = "<<END>>").

Definition parseNextTrailer (reply : gostring) : option PeerID :=
  let last := last_nonblank (rev (SplitByte LF reply)) in
  if bool_decide (last = []) then None
  else if endTrailerRegex last then None
  else nextTrailerRegex last.

(** ** [AddressedPolicy] *)
Definition AddressedPolicy_Next (current : PeerID) (reply : gostring)
    (peers : list PeerID) : option Decision :=
  let parsed := parseNextTrailer reply in
  let fallback :=
    n ← roundRobinAfter current peers;
    Some {| D_Next := n; D_Parsed := parsed; D_FallbackUsed := true |} in
  match parsed with
  | Some id =>
      if bool_decide (id <> current) && bool_decide (id ∈ peers)
      then Some {| D_Next := id; D_Parsed := parsed; D_FallbackUsed := false |}
      else fallback
  | None => fallback
  end.

(** ** Lemmas *)

Lemma round_robin_loop_spec current peers i rest :
  peers <> [] ->
  drop i peers = rest ->
  exists p, round_robin_loop current peers i rest = Some p /\ p ∈ peers.
Proof.
  intros Hne. revert i. induction rest as [|q rest IH]; intros i Hd; simpl.
  - destruct peers as [|p peers]; [done|]. exists p. split; [done|]. set_solver.
  - assert (i < length peers)%nat as Hi.
    { assert (length (drop i peers) = S (length rest)) by (by rewrite Hd).
      rewrite length_drop in *. lia. }
    case_bool_decide.
    + destruct (lookup_lt_is_Some_2 peers ((i + 1) mod length peers)) as [p Hp].
      { apply Nat.mod_upper_bound. lia. }
      exists p. split; [done|]. by eapply list_elem_of_lookup_2.
    + apply IH. rewrite <- Nat.add_1_r, <- drop_drop, Hd. done.
Qed.

Lemma roundRobinAfter_valid current peers :
  peers <> [] -> exists p, roundRobinAfter current peers = Some p /\ p ∈ peers.
Proof.
  intros Hne. unfold roundRobinAfter. destruct peers as [|p ps] eqn:E; [done|].
  rewrite <- E in *. apply round_robin_loop_spec; [done|]. by rewrite drop_0.
Qed.

Lemma round_robin_loop_at current peers i rest k :
  rest !! k = Some current ->
  (forall j, (j < k)%nat -> rest !! j <> Some current) ->
  round_robin_loop current peers i rest = peers !! ((i + k + 1) mod length peers)%nat.
Proof.
  revert i k. induction rest as [|q rest IH]; intros i k Hk Hlt; [done|]. simpl.
  destruct k as [|k].
  - simplify_eq/=. rewrite bool_decide_true by done. by rewrite Nat.add_0_r.
  - rewrite bool_decide_false.
    + rewrite (IH (S i) k); [f_equal; f_equal; lia|done|].
      intros j Hj. apply (Hlt (S j)). lia.
    + intros ->. by apply (Hlt 0%nat); [lia|].
Qed.

Lemma round_robin_loop_absent current peers i rest :
  current ∉ rest -> round_robin_loop current peers i rest = peers !! 0%nat.
Proof.
  revert i. induction rest as [|q rest IH]; intros i Hn; simpl; [done|].
  rewrite bool_decide_false by set_solver. apply IH. set_solver.
Qed.

Lemma take_while_spec f s :
  Forall (fun c => f c = true) (take_while f s) /\
  s = take_while f s ++ drop (length (take_while f s)) s /\
  (forall c, head (drop (length (take_while f s)) s) = Some c -> f c = false).
Proof.
  induction s as [|c s IH]; simpl; [done|].
  destruct (f c) eqn:E; simpl.
  - destruct IH as (H1 & H2 & H3). split_and!; [by constructor|by f_equal|done].
  - split_and!; [done|done|]. intros d. by intros [= ->].
Qed.

Lemma take_while_app f s t :
  Forall (fun c => f c = true) s ->
  (forall c, head t = Some c -> f c = false) ->
  take_while f (s ++ t) = s.
Proof.
  intros Hs Ht. induction Hs as [|c s Hc _ IH]; simpl.
  - destruct t as [|d t]; simpl; [done|]. by rewrite (Ht d).
  - by rewrite Hc, IH.
Qed.

Lemma AddressedPolicy_Next_valid current reply peers :
  peers <> [] ->
  exists d, AddressedPolicy_Next current reply peers = Some d /\ D_Next d ∈ peers.
Proof.
  intros Hne. destruct (roundRobinAfter_valid current peers Hne) as (p & Hp & Hin).
  unfold AddressedPolicy_Next. rewrite Hp. simpl.
  destruct (parseNextTrailer reply) as [id|]; [|by eexists].
  destruct (bool_decide (id ≠ current) && bool_decide (id ∈ peers)) eqn:E; [|by eexists].
  bool_facts. by eexists.
Qed.

#[export] Instance AddressedPolicy : TurnPolicy := {|
  policy_Next := AddressedPolicy_Next;
  policy_Next_valid := AddressedPolicy_Next_valid;
|}.

(** ** The trailer grammar *)

(** The language of [nextTrailerRegex], written as a concatenation. *)
Definition is_trailer (s : gostring) (id : PeerID) : Prop :=
  exists w1 w2, s = "<<NEXT:" ++ w1 ++ id ++ w2 ++ ">>"
  /\ Forall (fun c => re_space c = true) w1
  /\ Forall (fun c => re_space c = true) w2
  /\ peerIDRegex id = true.

Lemma id_char_not_space c : id_char c = true -> re_space c = false.
Proof.
  unfold id_char, is_lower, is_digit, re_space. cbv zeta. intros H.
  rewrite !orb_true_iff, !andb_true_iff, !ceq_true in H.
  destruct H as [[[H|H]| ->]| ->]; [lia|lia|done|done].
Qed.

Lemma re_space_not_id c : re_space c = true -> id_char c = false.
Proof.
  intros H. destruct (id_char c) eqn:E; [|done].
  by rewrite (id_char_not_space _ E) in H.
Qed.

Lemma drop_while_spec f (s : gostring) :
  exists w, s = w ++ drop_while f s /\ Forall (fun c => f c = true) w
  /\ forall c, head (drop_while f s) = Some c -> f c = false.
Proof.
  induction s as [|c s (w & H1 & H2 & H3)]; simpl; [by exists []|].
  destruct (f c) eqn:E.
  - exists (c :: w). split_and!; [simpl; congruence|by constructor|done].
  - exists []. split_and!; [done|done|]. intros d. by intros [= ->].
Qed.

Lemma drop_while_app f (w s : gostring) :
  Forall (fun c => f c = true) w ->
  (forall c, head s = Some c -> f c = false) ->
  drop_while f (w ++ s) = s.
Proof.
  intros Hw Hs. induction Hw as [|c w Hc _ IH]; simpl; [|by rewrite Hc].
  destruct s as [|d s]; simpl; [done|]. by rewrite (Hs d).
Qed.

Lemma nextTrailerRegex_spec s id : nextTrailerRegex s = Some id <-> is_trailer s id.
Proof.
  unfold nextTrailerRegex, is_trailer. split.
  - destruct (HasPrefix s "<<NEXT:") eqn:Hp; [|done].
    apply HasPrefix_spec in Hp as [t ->]. rewrite drop_app_length' by done. cbv zeta.
    destruct (drop_while_spec re_space t) as (w1 & H1 & H2 & _).
    set (r := drop_while re_space t) in *.
    destruct (take_while_spec id_char r) as (_ & H3 & _).
    set (i := take_while id_char r) in *. split_ifs; [|done]. intros [= <-]. bool_facts.
    destruct (drop_while_spec re_space (drop (length i) r)) as (w2 & H4 & H5 & _).
    exists w1, w2. split_and!; [|done|done|done].
    rewrite H1, H3, H4. repeat f_equal. done.
  - intros (w1 & w2 & -> & Hw1 & Hw2 & Hid).
    rewrite HasPrefix_app, drop_app_length' by done. cbv zeta.
    pose proof (peerIDRegex_chars _ Hid) as Hc.
    rewrite drop_while_app; [|done|].
    2: { destruct id as [|c id]; [done|]. intros d [= <-].
         apply Forall_cons in Hc as [Hc _]. by apply id_char_not_space. }
    rewrite (take_while_app _ id).
    2: done.
    2: { destruct w2 as [|c w2]; simpl; [by intros ? [= <-]|]. intros d [= <-].
         apply Forall_cons in Hw2 as [? _]. by apply re_space_not_id. }
    rewrite drop_app_length, drop_while_app; [|done|by intros ? [= <-]].
    by rewrite Hid, bool_decide_true.
Qed.

Lemma is_trailer_not_end s id : is_trailer s id -> s <> [] /\ endTrailerRegex s = false.
Proof.
  intros (w1 & w2 & -> & _). split; [done|]. by apply bool_decide_eq_false.
Qed.

(** A line of blanks, for the search of the last line. *)
Definition blank_line (l : gostring) : Prop := TrimRight l trailer_ws = [].

Lemma last_nonblank_spec ls :
  Forall blank_line ls /\ last_nonblank ls = []
  \/ exists after line before, ls = after ++ line :: before /\ Forall blank_line after
     /\ last_nonblank ls = TrimRight line trailer_ws /\ last_nonblank ls <> [].
Proof.
  induction ls as [|l ls IH]; simpl; [by left|]. unfold blank_line in *.
  case_bool_decide as E.
  - destruct IH as [[H1 H2]|(after & line & before & H1 & H2 & H3 & H4)].
    + left. split; [by constructor|done].
    + right. exists (l :: after), line, before.
      split_and!; [simpl; congruence|by constructor|done|done].
  - right. exists [], l, ls. done.
Qed.

Lemma last_nonblank_app after line before :
  Forall blank_line after -> TrimRight line trailer_ws <> [] ->
  last_nonblank (after ++ line :: before) = TrimRight line trailer_ws.
Proof.
  intros Ha Hl. induction Ha as [|l after Hb _ IH]; simpl.
  - by rewrite bool_decide_false.
  - by rewrite bool_decide_true.
Qed.

(** ** Properties *)

(** C16: the trailer parser accepts exactly the documented grammar: it returns an
    id when, and only when, the last line of the reply that is not blank is,
    after right-trimming, [<<NEXT:], blanks, a well-formed peer id, blanks and
    [>>].  In particular [<<END>>] on that line yields no id. *)
Theorem parseNextTrailer_grammar reply id :
  parseNextTrailer reply = Some id <->
  exists before line after,
    SplitByte LF reply = before ++ line :: after
    /\ Forall blank_line after
    /\ is_trailer (TrimRight line trailer_ws) id.
Proof.
  unfold parseNextTrailer. split.
  - case_bool_decide as E; [done|]. destruct (endTrailerRegex _); [done|].
    intros H%nextTrailerRegex_spec.
    destruct (last_nonblank_spec (rev (SplitByte LF reply)))
      as [[_ ?]|(after & line & before & H1 & H2 & H3 & _)]; [done|].
    exists (rev before), line, (rev after). split_and!.
    + rewrite <- (rev_involutive (SplitByte LF reply)), H1, rev_app_distr. simpl.
      by rewrite <- app_assoc.
    + by apply Forall_rev.
    + by rewrite <- H3.
  - intros (before & line & after & Hs & Ha & Ht).
    destruct (is_trailer_not_end _ _ Ht) as [Hne Hend].
    rewrite Hs, rev_app_distr. simpl. rewrite <- app_assoc. simpl.
    rewrite last_nonblank_app; [|by apply Forall_rev|done].
    rewrite bool_decide_false by done. rewrite Hend. by apply nextTrailerRegex_spec.
Qed.

(** C17: [AddressedPolicy.Next] is total on a non-empty peer list, and its
    decision is one of two: the parsed trailer's id, exactly when it names a
    declared peer other than the current one, or the round-robin successor with
    [FallbackUsed]; [Parsed] always reports the trailer. *)
Theorem AddressedPolicy_Next_spec current reply peers :
  peers <> [] ->
  exists d, AddressedPolicy_Next current reply peers = Some d
  /\ D_Parsed d = parseNextTrailer reply
  /\ D_Next d ∈ peers
  /\ (D_FallbackUsed d = false <->
        exists id, parseNextTrailer reply = Some id /\ id <> current /\ id ∈ peers)
  /\ (D_FallbackUsed d = false -> Some (D_Next d) = parseNextTrailer reply)
  /\ (D_FallbackUsed d = true -> Some (D_Next d) = roundRobinAfter current peers).
Proof.
  intros Hne. destruct (roundRobinAfter_valid current peers Hne) as (p & Hp & Hin).
  unfold AddressedPolicy_Next. rewrite Hp. simpl.
  destruct (parseNextTrailer reply) as [id|].
  - destruct (bool_decide (id ≠ current) && bool_decide (id ∈ peers)) eqn:E.
    + bool_facts. eexists; split_and!; naive_solver.
    + apply andb_false_iff in E.
      eexists; split_and!; [done|done|done| |done|done]. simpl. split; [done|].
      intros (? & [= <-] & ? & ?). by destruct E as [E|E]; bool_facts.
  - eexists; split_and!; [done|done|done| |done|done]. simpl. split; [done|naive_solver].
Qed.

Example AddressedPolicy_Next_spec_witness :
  exists d, AddressedPolicy_Next "alice" "hi
<<NEXT: carol>>" ["alice"; "bob"; "carol"] = Some d /\ D_Next d ∈ ["alice"; "bob"; "carol"].
Proof.
  destruct (AddressedPolicy_Next_spec "alice" "hi
<<NEXT: carol>>" ["alice"; "bob"; "carol"] ltac:(discriminate))
    as (d & H1 & _ & H2 & _).
  exists d. split; assumption.
Defined.

(** Round robin visits the declared peers cyclically: in a list without
    duplicates the successor of the peer at position [i] is the peer at
    position [i+1] modulo the number of peers, and an undeclared peer is
    followed by the first one. *)
Theorem roundRobinAfter_cyclic peers i p :
  NoDup peers ->
  peers !! i = Some p ->
  roundRobinAfter p peers = peers !! ((i + 1) mod length peers)%nat
  /\ forall q, q ∉ peers -> roundRobinAfter q peers = peers !! 0%nat.
Proof.
  intros Hnd Hi. unfold roundRobinAfter.
  destruct peers as [|x ps] eqn:E; [done|]. rewrite <- E in *. split.
  - rewrite (round_robin_loop_at _ _ _ _ i); [done|done|].
    intros j Hj Hj'. pose proof (NoDup_lookup _ _ _ _ Hnd Hi Hj'). lia.
  - intros q Hq. by apply round_robin_loop_absent.
Qed.

Example roundRobinAfter_cyclic_witness :
  roundRobinAfter "b" ["a"; "b"] = Some "a" /\ roundRobinAfter "z" ["a"; "b"] = Some "a".
Proof.
  destruct (roundRobinAfter_cyclic ["a"; "b"] 1 "b"
    ltac:(apply (bool_decide_unpack _); vm_compute; exact I) eq_refl) as [H1 H2].
  split; [rewrite H1; reflexivity|].
  apply H2. apply (bool_decide_unpack _); vm_compute; exact I.
Defined.
