(* ===== verification/Sentinel.v ===== *)
(** * The sentinel scanner ([internal/terminator/sentinel.go])

    The two pure functions of the sentinel terminator: recognising the token on
    a line of its own, and cutting a response at it.  The goroutine that applies
    them to the bus is in [SentinelLoop]. *)
From S2P Require Import Prelude GoLib Model.

Definition defaultSentinel : gostring := "<<END>>".

(** [NewSentinel]: the token the terminator watches for. *)
Definition NewSentinel (token : gostring) : gostring :=
  if bool_decide (token = []) then defaultSentinel else token.

(** A line that consists of the token and blanks. *)
Definition sentinel_line (token line : gostring) : bool :=
  bool_decide (TrimSpace line = token).

Definition containsOnOwnLine (s token : gostring) : bool :=
  if bool_decide (token = []) then false
  else existsb (sentinel_line token) (SplitByte LF s).

(** The loop of [StripSentinel]: the lines before the sentinel line. *)
Fixpoint strip_loop (token : gostring) (lines : list gostring) : list gostring :=
  match lines with
  | [] => []
  | line :: r => if sentinel_line token line then [] else line :: strip_loop token r
  end.

Definition strip_cutset : gostring := SP :: TAB :: CR :: [LF].

Definition StripSentinel (response token : gostring) : gostring :=
  let token := NewSentinel token in
  let lines := SplitByte LF response in
  let out := strip_loop token lines in
  if (length out =? length lines)%nat then response
  else TrimRight (Join out [LF]) strip_cutset.

(** ** Lemmas *)

Lemma NewSentinel_nonempty token : NewSentinel token <> [].
Proof. unfold NewSentinel. by case_bool_decide. Qed.

Lemma NewSentinel_idemp token : NewSentinel (NewSentinel token) = NewSentinel token.
Proof.
  unfold NewSentinel at 1. rewrite bool_decide_false; [done|apply NewSentinel_nonempty].
Qed.

Lemma strip_loop_prefix token lines :
  exists r, lines = strip_loop token lines ++ r
  /\ Forall (fun l => sentinel_line token l = false) (strip_loop token lines)
  /\ (r = [] \/ exists l r', r = l :: r' /\ sentinel_line token l = true).
Proof.
  induction lines as [|l ls (r & H1 & H2 & H3)]; simpl.
  - exists []. split_and!; [done|by apply Forall_nil|by left].
  - destruct (sentinel_line token l) eqn:E.
    + exists (l :: ls). split_and!; [done|done|]. right. eauto.
    + exists r. split_and!; [simpl; congruence|by constructor|done].
Qed.

Lemma strip_loop_all token lines :
  existsb (sentinel_line token) lines = false -> strip_loop token lines = lines.
Proof.
  induction lines as [|l ls IH]; simpl; [done|]. intros H. bool_facts.
  match goal with H : sentinel_line _ _ = false |- _ => rewrite H end.
  by rewrite IH.
Qed.

Lemma strip_loop_length token lines :
  (length (strip_loop token lines) =? length lines)%nat
    = negb (existsb (sentinel_line token) lines).
Proof.
  destruct (existsb (sentinel_line token) lines) eqn:E.
  - destruct (strip_loop_prefix token lines) as (r & H1 & H2 & H3).
    apply Nat.eqb_neq. rewrite H1 at 2. rewrite length_app.
    destruct H3 as [->|(l & r' & -> & _)]; [|simpl; lia].
    rewrite app_nil_r in H1. rewrite <- H1 in H2.
    apply existsb_exists in E as (x & Hx & Ex). rewrite Forall_forall in H2.
    rewrite H2 in Ex by (by apply list_elem_of_In). done.
  - rewrite strip_loop_all by done. apply Nat.eqb_refl.
Qed.

Lemma StripSentinel_not_found response token :
  containsOnOwnLine response (NewSentinel token) = false ->
  StripSentinel response token = response.
Proof.
  unfold StripSentinel, containsOnOwnLine.
  rewrite bool_decide_false by apply NewSentinel_nonempty.
  intros H. by rewrite strip_loop_length, H.
Qed.

Lemma StripSentinel_found response token :
  containsOnOwnLine response (NewSentinel token) = true ->
  StripSentinel response token =
    TrimRight (Join (strip_loop (NewSentinel token) (SplitByte LF response)) [LF])
      strip_cutset.
Proof.
  unfold StripSentinel, containsOnOwnLine.
  rewrite bool_decide_false by apply NewSentinel_nonempty.
  intros H. by rewrite strip_loop_length, H.
Qed.

(** Right-trimming a text only blanks its last lines. *)
Lemma trimmed_line_of ls l :
  Forall (fun l => LF ∉ l) ls -> ls <> [] ->
  l ∈ SplitByte LF (TrimRight (Join ls [LF]) strip_cutset) ->
  exists l', l' ∈ ls /\ TrimSpace l' = TrimSpace l.
Proof.
  intros Hlf Hne Hl. pose proof (SplitByte_Join LF ls Hne Hlf) as Hls. unfold TrimRight in Hl.
  destruct (drop_while_end_spec (in_cutset strip_cutset) (Join ls [LF])) as (k & Hj & Hk).
  rewrite Hj in Hls. set (t := drop_while_end _ _) in *. clearbody t.
  destruct (SplitByte_extend LF t k) as (ls0 & l0 & k0 & rest & Ht & Hk0 & Htk).
  rewrite Ht in Hl. rewrite Hls in Htk. clear Hls Hlf Hne Hj. subst ls.
  apply elem_of_app in Hl as [Hl| ->%list_elem_of_singleton]; [exists l; split; [apply elem_of_app; by left|done]|].
  exists (l0 ++ k0). split; [apply elem_of_app; right; left|]. apply TrimSpace_app_ws, Forall_forall.
  intros c Hc. rewrite Forall_forall in Hk.
  assert (c ∈ k) as Hck by (eapply SplitByte_piece_chars; [rewrite Hk0; left|done]).
  specialize (Hk c Hck). apply in_cutset_spec in Hk. unfold strip_cutset in Hk.
  repeat (apply elem_of_cons in Hk as [->|Hk]; [done|]). by apply not_elem_of_nil in Hk.
Qed.

Lemma trimmed_lines_not_sentinel token ls :
  token <> [] -> Forall (fun l => LF ∉ l) ls ->
  Forall (fun l => sentinel_line token l = false) ls ->
  containsOnOwnLine (TrimRight (Join ls [LF]) strip_cutset) token = false.
Proof.
  intros Htok Hlf Hs. unfold containsOnOwnLine. rewrite bool_decide_false by done.
  destruct (decide (ls = [])) as [->|Hne].
  { change (TrimRight (Join [] [LF]) strip_cutset) with (@nil ascii).
    cbn [SplitByte existsb]. unfold sentinel_line.
    change (TrimSpace []) with (@nil ascii).
    by rewrite bool_decide_false by congruence. }
  apply not_true_is_false. rewrite existsb_exists. intros (l & Hl & El).
  apply list_elem_of_In in Hl.
  destruct (trimmed_line_of ls l Hlf Hne Hl) as (l' & Hl' & E).
  rewrite Forall_forall in Hs. specialize (Hs l' Hl'). unfold sentinel_line in *.
  rewrite E in Hs. congruence.
Qed.

Lemma no_sentinel_left response token :
  containsOnOwnLine (StripSentinel response token) (NewSentinel token) = false.
Proof.
  destruct (containsOnOwnLine response (NewSentinel token)) eqn:E.
  - rewrite (StripSentinel_found _ _ E).
    destruct (strip_loop_prefix (NewSentinel token) (SplitByte LF response))
      as (r & Hr & Hf & _).
    pose proof (SplitByte_lines LF response) as Hl. rewrite Hr in Hl.
    apply Forall_app in Hl as [Hl _].
    apply trimmed_lines_not_sentinel; [apply NewSentinel_nonempty|done|done].
  - by rewrite StripSentinel_not_found.
Qed.

(** ** Properties *)

(** After [StripSentinel] no line of the text is the sentinel any more, so
    the token never reaches the next peer; a text without the sentinel is not
    touched, and stripping twice is stripping once. *)
Theorem StripSentinel_removes response token :
  containsOnOwnLine (StripSentinel response token) (NewSentinel token) = false
  /\ StripSentinel (StripSentinel response token) token = StripSentinel response token
  /\ (containsOnOwnLine response (NewSentinel token) = false ->
      StripSentinel response token = response).
Proof.
  pose proof (no_sentinel_left response token) as H.
  split_and!; [done|by apply StripSentinel_not_found|apply StripSentinel_not_found].
Qed.

(** [StripSentinel] cuts: when the text has a sentinel line, what is kept is
    the text before the first such line, right-trimmed, and nothing that
    follows it. *)
Theorem StripSentinel_cuts before line after token :
  LF ∉ line ->
  sentinel_line (NewSentinel token) line = true ->
  containsOnOwnLine before (NewSentinel token) = false ->
  StripSentinel (before ++ LF :: line ++ LF :: after) token = TrimRight before strip_cutset
  /\ StripSentinel (before ++ LF :: line) token = TrimRight before strip_cutset.
Proof.
  intros Hlf Hl Hb.
  assert (forall rest, strip_loop (NewSentinel token)
    (SplitByte LF before ++ line :: rest) = SplitByte LF before) as Hloop.
  { intros rest. unfold containsOnOwnLine in Hb.
    rewrite bool_decide_false in Hb by apply NewSentinel_nonempty.
    induction (SplitByte LF before) as [|x xs IH]; simpl in *; [by rewrite Hl|].
    bool_facts. match goal with H : sentinel_line _ x = false |- _ => rewrite H end.
    by rewrite IH. }
  assert (forall s rest, SplitByte LF s = SplitByte LF before ++ line :: rest ->
    StripSentinel s token = TrimRight before strip_cutset) as Hgen.
  { intros s rest Hs. rewrite StripSentinel_found.
    - by rewrite Hs, Hloop, Join_SplitByte.
    - unfold containsOnOwnLine. rewrite bool_decide_false by apply NewSentinel_nonempty.
      rewrite Hs, existsb_app. simpl. rewrite Hl. by rewrite orb_true_r. }
  split.
  - eapply Hgen. rewrite SplitByte_app. f_equal.
    rewrite SplitByte_app, SplitByte_no_sep by done. done.
  - eapply Hgen. rewrite SplitByte_app, (SplitByte_no_sep _ line) by done. done.
Qed.

Example StripSentinel_cuts_witness :
  StripSentinel "ok
 <<END>>
bye" [] = "ok".
Proof.
  destruct (StripSentinel_cuts "ok" " <<END>>" "bye" []) as [H _].
  - apply (bool_decide_unpack _). vm_compute. exact I.
  - vm_compute. reflexivity.
  - vm_compute. reflexivity.
  - etransitivity; [exact H|]. vm_compute. reflexivity.
Defined.
