(* ===== verification/Envelope.v ===== *)
(** * Envelopes and briefings ([internal/conversation])

    The marker token, the briefing, the reply styles and the envelope builder:
    pure text, byte for byte what the code writes to a peer. *)
From S2P Require Import Prelude GoLib Model.

(** ** [marker.go] *)
Definition MarkerPrefix : gostring := "TURN_END_".
Definition markerSuffixBytes : nat := 6.

(** [NewMarkerToken], given the six bytes that [rand.Read] returned. *)
Definition NewMarkerToken (buf : gostring) : gostring :=
  MarkerPrefix ++ EncodeToString buf.

Definition ContainsMarker (body token : gostring) : bool :=
  if bool_decide (body = []) || bool_decide (token = []) then false
  else Contains body token.

Definition StripMarkerAndAfter (body token : gostring) : gostring * bool :=
  if bool_decide (token = []) then (body, false)
  else match Index body token with
       | None => (body, false)
       | Some idx => (take idx body, true)
       end.

(** ** [style.go] *)
Abbreviation ReplyStyle := gostring.

Definition StyleNormal : ReplyStyle := "normal".
Definition StyleCavemanLite : ReplyStyle := "caveman-lite".
Definition StyleCavemanFull : ReplyStyle := "caveman-full".
Definition StyleCavemanUltra : ReplyStyle := "caveman-ultra".

Definition IsValidStyle (s : gostring) : bool :=
  existsb (fun x => bool_decide (s = x))
    [StyleNormal; StyleCavemanLite; StyleCavemanFull; StyleCavemanUltra].

Definition styleInstructionsCavemanShared : gostring :=
  "

REPLY STYLE — caveman mode (token-efficient, technical accuracy preserved):

Drop: filler words (just/really/basically/actually/simply), pleasantries
(sure/certainly/of course/happy to), hedging (might/could/perhaps/I think).
Keep: technical terms exact, code blocks unchanged, error messages quoted
verbatim, security warnings full-length, irreversible-action confirmations
full-length, multi-step sequences clear.

Pattern: " ++ [DQ] ++ "[thing] [action] [reason]. [next step]." ++ [DQ] ++ "

Bad:  " ++ [DQ] ++ "Sure! I'd be happy to help. The issue is most likely caused by..." ++ [DQ] ++ "
Good: " ++ [DQ] ++ "Bug in auth middleware. Token expiry uses < not <=. Fix:" ++ [DQ] ++ "

Code/commits/PRs: write normal prose. Resume caveman after.".

Definition styleInstructionsCavemanLite : gostring :=
  styleInstructionsCavemanShared ++ "

Intensity: LITE. Drop fluff and hedging but keep articles (a/an/the) and
full sentences. Professional but tight. No " ++ [DQ] ++ "I'd recommend" ++ [DQ] ++ " — just say what
to do.
".

Definition styleInstructionsCavemanFull : gostring :=
  styleInstructionsCavemanShared ++ "

Intensity: FULL. Drop articles, use sentence fragments, prefer short
synonyms (big not extensive, fix not " ++ [DQ] ++ "implement a solution for" ++ [DQ] ++ "). Telegraphic
style, but every technical claim still verifiable.
".

Definition styleInstructionsCavemanUltra : gostring :=
  styleInstructionsCavemanShared ++ "

Intensity: ULTRA. Maximum compression. Abbreviate freely (DB, auth, config,
req, res, fn, impl). Strip conjunctions. Use arrows for causality (X → Y).
One word when one word does the job. Reserve full sentences only for
warnings and irreversible actions.
".

Definition RenderStyleInstructions (style : ReplyStyle) : gostring :=
  if bool_decide (style = StyleCavemanLite) then styleInstructionsCavemanLite
  else if bool_decide (style = StyleCavemanFull) then styleInstructionsCavemanFull
  else if bool_decide (style = StyleCavemanUltra) then styleInstructionsCavemanUltra
  else [].

(** ** [briefing.go] *)
Record BriefingInput := {
  BI_Slot : PeerSlot;
  BI_MaxTurns : Z;
  BI_Terminator : TerminatorSpec;
  BI_Style : ReplyStyle;
}.

Definition RenderBriefing (i : BriefingInput) : gostring :=
  "You are participating in a multi-turn conversation with another AI agent through Vitis.
The other agent's messages will be delivered to you as plain text wrapped in a header
line indicating the turn number and sender. You should reply as if speaking to a
collaborator.

" ++ "You are: peer-" ++ BI_Slot i ++ ".
" ++ "Maximum turns in this conversation: " ++ Itoa (BI_MaxTurns i) ++ ".

" ++
  (if bool_decide (TS_Kind (BI_Terminator i) = "sentinel") then
     let sentinel := if bool_decide (TS_Sentinel (BI_Terminator i) = []) then "<<END>>"
                     else TS_Sentinel (BI_Terminator i) in
     "When you believe the conversation has reached its goal or natural end, end your final
" ++ "reply with the literal token " ++ sentinel ++
     " on its own line BEFORE the turn-end marker.

"
   else []) ++
  "After every reply, you MUST output a per-turn marker token as instructed in the
incoming message. This marker tells the broker your turn is complete. If you forget
the marker, your turn will time out.
" ++ RenderStyleInstructions (BI_Style i).

(** ** [envelope.go] *)
Definition seedFor (conv : Conversation) (slot : PeerSlot) : gostring :=
  if bool_decide (slot = PeerSlotA) then SeedA conv else SeedB conv.

Definition renderBody (conversationID : gostring) (turnIndex maxTurns : Z)
    (fromLabel content marker : gostring) : gostring :=
  "[conversation: " ++ conversationID ++ "  turn " ++ Itoa turnIndex ++ " of "
  ++ Itoa maxTurns ++ "  from: " ++ fromLabel ++ "]
" ++ content ++ (if HasSuffix content [LF] then [] else [LF]) ++ [LF]
  ++ "When you finish your reply, output the token " ++ marker ++ " on its own line.
".

Definition BuildEnvelopeTurn1 (conv : Conversation) (slot : PeerSlot) (marker : gostring)
    : Envelope :=
  let briefing := RenderBriefing
    {| BI_Slot := slot; BI_MaxTurns := MaxTurns conv;
       BI_Terminator := C_Terminator conv; BI_Style := C_ReplyStyle conv |} in
  let seed := seedFor conv slot in
  let seedBody := renderBody (C_ID conv) 1 (MaxTurns conv) "seed" seed marker in
  {| E_ConversationID := C_ID conv; E_TurnIndex := 1; E_MaxTurns := MaxTurns conv;
     E_From := "seed"; E_FromID := []; E_ToID := [];
     E_Body := briefing ++ LF :: LF :: seedBody; E_MarkerToken := marker;
     E_IncludeBriefing := true; E_Briefing := briefing |}.

Definition BuildEnvelopeTurnN (conv : Conversation) (turnIndex : Z) (from : PeerSlot)
    (previousResponse marker : gostring) : Envelope :=
  {| E_ConversationID := C_ID conv; E_TurnIndex := turnIndex; E_MaxTurns := MaxTurns conv;
     E_From := from; E_FromID := []; E_ToID := [];
     E_Body := renderBody (C_ID conv) turnIndex (MaxTurns conv) ("peer-" ++ from)
                 previousResponse marker;
     E_MarkerToken := marker; E_IncludeBriefing := false; E_Briefing := [] |}.
