(* ===== verification/Persistent.v ===== *)
(** * The persistent PTY process ([internal/peer/provider/persistent.go])

    Finding the per-turn marker on a line of its own, removing the PTY's echo of
    the envelope, and the turn loop over the output pump. *)
From S2P Require Import Prelude GoLib Model.

(** [64 << 20] *)
Definition maxBufferBytes : Z := Z.shiftl 64 20.

(** ** [findLineAnchoredMarker] *)
Definition is_hws (c : ascii) : bool := ceq c SP || ceq c TAB || ceq c CR.

Definition isHorizontalWhitespace (b : gostring) : bool := forallb is_hws b.

(** [for lineStart > 0 && buf\[lineStart-1\] != LF: lineStart--] *)
Fixpoint line_start (buf : gostring) (n : nat) : nat :=
  match n with
  | O => O
  | S k => if bool_decide (buf !! k = Some LF) then S k else line_start buf k
  end.

(** The bytes up to the next newline, or up to the end. *)
Fixpoint until_lf (s : gostring) : gostring :=
  match s with
  | [] => []
  | c :: r => if ceq c LF then [] else c :: until_lf r
  end.

Fixpoint find_loop (fuel : nat) (buf marker : gostring) (offset : nat) : option nat :=
  match fuel with
  | O => None
  | S fuel =>
      match Index (drop offset buf) marker with
      | None => None
      | Some rel =>
          let absIdx := (offset + rel)%nat in
          let lineStart := line_start buf absIdx in
          let before := drop lineStart (take absIdx buf) in
          let after := until_lf (drop (absIdx + length marker) buf) in
          if isHorizontalWhitespace before && isHorizontalWhitespace after
          then Some absIdx
          else find_loop fuel buf marker (absIdx + length marker)
      end
  end.

(** Every round moves [offset] past a non-empty marker, so [length buf + 1]
    rounds are enough. *)
Definition findLineAnchoredMarker (buf markerBytes : gostring) : option nat :=
  match markerBytes with
  | [] => None
  | _ => find_loop (S (length buf)) buf markerBytes 0
  end.

(** ** [stripEnvelopeEcho] *)
Definition echo_ws (c : ascii) : bool := ceq c LF || ceq c CR || ceq c SP || ceq c TAB.

Definition bytesIndex (haystack needle : gostring) : option nat :=
  match needle with
  | [] => None
  | _ => if (length haystack <? length needle)%nat then None else Index haystack needle
  end.

Definition stripEnvelopeEcho (captured marker : gostring) : gostring :=
  match captured with
  | [] => captured
  | _ =>
      let needle := "output the token " ++ marker in
      match bytesIndex captured needle with
      | None => captured
      | Some echoStart =>
          let rest := drop (echoStart + length needle) captured in
          let tail := drop (length (until_lf rest)) rest in
          let tail := match tail with [] => [] | _ :: t => t end in
          drop_while_end echo_ws (drop_while echo_ws tail)
      end
  end.

(** ** The process *)
Record PersistentProcess := {
  buffer : gostring;
  cursor : nat;
  exited : bool;
  exit : ExitResult;
  pumpDone : bool;
  closed : bool;
}.

Definition NewPersistentProcess : PersistentProcess :=
  {| buffer := []; cursor := 0; exited := false; exit := {| X_Code := 0; X_Err := None |};
     pumpDone := false; closed := false |}.

(** What one round of the pump's [select] receives. *)
Inductive pump_event :=
| PumpOutput (data : gostring)
| PumpOutputClosed
| PumpDone (res : option ExitResult).

(** One round of [pump]; after [return] the goroutine is gone and nothing more
    reaches the buffer. *)
Definition pump_step (p : PersistentProcess) (ev : pump_event) : PersistentProcess :=
  if pumpDone p then p
  else match ev with
  | PumpOutput data =>
      {| buffer := buffer p ++ data; cursor := cursor p; exited := exited p;
         exit := exit p; pumpDone := false; closed := closed p |}
  | PumpOutputClosed =>
      {| buffer := buffer p; cursor := cursor p; exited := true; exit := exit p;
         pumpDone := true; closed := closed p |}
  | PumpDone res =>
      {| buffer := buffer p; cursor := cursor p; exited := true;
         exit := match res with Some r => r | None => exit p end;
         pumpDone := true; closed := closed p |}
  end.

Definition reset_buffer (p : PersistentProcess) : PersistentProcess :=
  {| buffer := []; cursor := 0; exited := exited p; exit := exit p;
     pumpDone := pumpDone p; closed := closed p |}.

(** One pass through the body of the loop of [ConverseTurn], up to [cond.Wait]:
    [ctx_err] is [ctx.Err()] and [late] is [!time.Now().Before(deadline)] at
    that moment.  [None] means that the pass goes on to wait. *)
Definition converse_check (p : PersistentProcess) (marker timeout : gostring)
    (ctx_err : option goerr) (late : bool) : option (result gostring * PersistentProcess) :=
  let tail := drop (cursor p) (buffer p) in
  let found :=
    if (cursor p <? length (buffer p))%nat then findLineAnchoredMarker tail marker
    else None in
  match found with
  | Some idx => Some (Ok (stripEnvelopeEcho (take idx tail) marker), reset_buffer p)
  | None =>
      if (cursor p <? length (buffer p))%nat && (maxBufferBytes <? Z.of_nat (length tail)) then
        Some (Err (ErrNew ("persistent process: buffer overflow (" ++
                           Itoa (Z.of_nat (length tail)) ++ " bytes) waiting for marker")), p)
      else if exited p then
        Some (Err (ErrNew ("process exited (code=" ++ Itoa (X_Code (exit p)) ++
                           ") before marker observed")), p)
      else match ctx_err with
      | Some e => Some (Err e, p)
      | None =>
          if late then
            Some (Err (ErrNew ("turn timeout after " ++ timeout ++
                               " waiting for marker " ++ marker)), p)
          else None
      end
  end.

(** Between two passes the pump may have handled any number of events. *)
Record wakeup := {
  w_events : list pump_event;
  w_ctx : option goerr;
  w_late : bool;
}.

(** The loop over a schedule of passes; [None] when it is still waiting at the
    end of the schedule. *)
Fixpoint converse_loop (p : PersistentProcess) (marker timeout : gostring)
    (ws : list wakeup) : option (result gostring * PersistentProcess) :=
  match ws with
  | [] => None
  | w :: ws =>
      let p := fold_left pump_step (w_events w) p in
      match converse_check p marker timeout (w_ctx w) (w_late w) with
      | Some r => Some r
      | None => converse_loop p marker timeout ws
      end
  end.

(** [ConverseTurn]: [write_err] is the error of writing the envelope. *)
Definition ConverseTurn (p : PersistentProcess) (marker timeout : gostring)
    (write_err : option goerr) (ws : list wakeup)
    : option (result gostring * PersistentProcess) :=
  if bool_decide (marker = []) then
    Some (Err (ErrNew "persistent process: empty marker token"), p)
  else match write_err with
  | Some e => Some (Err (ErrWrapped "write envelope: " e), p)
  | None => converse_loop p marker timeout ws
  end.

(** [Close]: the grace period in milliseconds passed to [Terminate], if the
    process is asked to terminate at all. *)
Definition Close (p : PersistentProcess) (grace : Z) : PersistentProcess * option Z :=
  if closed p then (p, None)
  else
    let grace := if grace <=? 0 then Second else grace in
    ({| buffer := buffer p; cursor := cursor p; exited := exited p; exit := exit p;
        pumpDone := pumpDone p; closed := true |}, Some (Z.quot grace 1000000)).

Definition drainAvailable (p : PersistentProcess) : gostring * PersistentProcess :=
  if (length (buffer p) <=? cursor p)%nat then ([], p)
  else
    (drop (cursor p) (buffer p),
     {| buffer := buffer p; cursor := length (buffer p); exited := exited p;
        exit := exit p; pumpDone := pumpDone p; closed := closed p |}).

(** ** Occurrences of the marker *)

(** A marker that the line anchoring is meant for: not empty, and without
    blanks and newlines. *)
Definition marker_ok (m : gostring) : Prop :=
  m <> [] /\ Forall (fun c => is_hws c = false /\ c <> LF) m.

Definition blank (s : gostring) : Prop := isHorizontalWhitespace s = true.

(** A line that is the marker and blanks. *)
Definition marker_line (m l : gostring) : Prop :=
  exists b c, l = b ++ m ++ c /\ blank b /\ blank c.

Definition occurs (m s : gostring) : Prop := exists x y, s = x ++ m ++ y.

Lemma blank_app s t : blank (s ++ t) <-> blank s /\ blank t.
Proof. unfold blank, isHorizontalWhitespace. by rewrite forallb_app, andb_true_iff. Qed.

Lemma blank_Forall s : blank s <-> Forall (fun c => is_hws c = true) s.
Proof.
  unfold blank, isHorizontalWhitespace. rewrite forallb_forall, Forall_forall.
  by setoid_rewrite list_elem_of_In.
Qed.

Lemma blank_no_lf s : blank s -> LF ∉ s.
Proof. rewrite blank_Forall, Forall_forall. intros H Hin. by specialize (H _ Hin). Qed.

Lemma occurs_split m a c b :
  m <> [] -> c ∉ m -> occurs m (a ++ c :: b) -> occurs m a \/ occurs m b.
Proof.
  intros Hne Hc (x & y & H). revert a H. induction x as [|d x IH]; intros a H.
  - simpl in H. left. exists []. revert a H. induction m as [|e m IHm]; intros a H; [done|].
    destruct a as [|e' a]; simpl in H; [injection H as -> _; set_solver|].
    injection H as -> H.
    destruct m as [|f m]; [by exists a|].
    destruct (IHm ltac:(done) ltac:(set_solver) a H) as [z Hz].
    exists z. simpl in *. by f_equal.
  - destruct a as [|e a]; simpl in H; injection H as -> H.
    + right. by exists x, y.
    + destruct (IH a H) as [(x' & y' & ->)|?]; [left|by right]. by exists (d :: x'), y'.
Qed.

Lemma occurs_length m s : occurs m s -> (length m <= length s)%nat.
Proof. intros (x & y & ->). rewrite !length_app. lia. Qed.

Lemma occurs_app_l m a b : occurs m a -> occurs m (a ++ b).
Proof. intros (x & y & ->). exists x, (y ++ b). by rewrite <- !app_assoc. Qed.

Lemma occurs_app_r m a b : occurs m b -> occurs m (a ++ b).
Proof. intros (x & y & ->). exists (a ++ x), y. by rewrite <- !app_assoc. Qed.

Lemma until_lf_spec s :
  (LF ∉ until_lf s) /\ exists d, s = until_lf s ++ d /\ (d = [] \/ exists d', d = LF :: d').
Proof.
  induction s as [|c s (H1 & d & H2 & H3)]; simpl; [split; [set_solver|]; exists []; eauto|].
  destruct (ceq c LF) eqn:E; bool_facts.
  - split; [set_solver|]. exists (LF :: s). eauto.
  - split; [set_solver|]. exists d. split; [simpl; congruence|done].
Qed.

Lemma until_lf_app s d :
  LF ∉ s -> (d = [] \/ exists d', d = LF :: d') -> until_lf (s ++ d) = s.
Proof.
  intros Hs Hd. induction s as [|c s IH]; cbn [app until_lf].
  - destruct Hd as [->|[d' ->]]; [done|]. cbn [app until_lf]. by rewrite ceq_refl.
  - replace (ceq c LF) with false by (symmetry; apply ceq_false; set_solver).
    by rewrite IH by set_solver.
Qed.

Lemma last_line_unique a b a2 b2 :
  LF ∉ b -> LF ∉ b2 -> a ++ b = a2 ++ b2 ->
  (a = [] \/ exists w, a = w ++ [LF]) -> (a2 = [] \/ exists w, a2 = w ++ [LF]) ->
  b = b2.
Proof.
  assert (forall u v, LF ∉ v -> (u = [] \/ exists w, u = w ++ [LF]) ->
    last (SplitByte LF (u ++ v)) = Some v) as H.
  { intros u v Hv [->|[w ->]]; [by rewrite (SplitByte_no_sep _ v)|].
    rewrite <- app_assoc. simpl. by rewrite SplitByte_app, (SplitByte_no_sep _ v), last_snoc. }
  intros Hb Hb2 E Ha Ha2. pose proof (H a b Hb Ha) as H1. rewrite E, H in H1 by done.
  congruence.
Qed.

Lemma line_start_decomp buf n :
  (n <= length buf)%nat ->
  exists a b, take n buf = a ++ b /\ length a = line_start buf n /\ (LF ∉ b)
  /\ (a = [] \/ exists a', a = a' ++ [LF]).
Proof.
  induction n as [|n IH]; intros Hn.
  - exists [], []. split_and!; [by rewrite take_0|done|set_solver|by left].
  - destruct (lookup_lt_is_Some_2 buf n) as [c Hc]; [lia|]. simpl line_start.
    rewrite (take_S_r _ _ _ Hc), Hc. case_bool_decide as E.
    + simplify_eq. exists (take n buf ++ [LF]), []. split_and!.
      * by rewrite app_nil_r.
      * rewrite length_app, length_take. simpl. lia.
      * set_solver.
      * eauto.
    + destruct IH as (a & b & H1 & H2 & H3 & H4); [lia|].
      exists a, (b ++ [c]). split_and!; [by rewrite H1, app_assoc|done| |done].
      assert (c <> LF) by congruence. set_solver.
Qed.

(** An occurrence alone on its line, at byte [i]. *)
Definition anchored (buf m : gostring) (i : nat) : Prop :=
  exists a b c d, buf = a ++ b ++ m ++ c ++ d /\ i = (length a + length b)%nat
  /\ blank b /\ blank c
  /\ (a = [] \/ exists a', a = a' ++ [LF]) /\ (d = [] \/ exists d', d = LF :: d').

Lemma anchored_test buf m i :
  HasPrefix (drop i buf) m = true -> (i <= length buf)%nat ->
  isHorizontalWhitespace (drop (line_start buf i) (take i buf))
  && isHorizontalWhitespace (until_lf (drop (i + length m) buf)) = true <->
  anchored buf m i.
Proof.
  intros [t Ht]%HasPrefix_spec Hi.
  destruct (line_start_decomp buf i Hi) as (a & b & H1 & H2 & H3 & H4).
  assert (buf = a ++ b ++ m ++ t) as Hbuf.
  { by rewrite <- (take_drop i buf), Ht, H1, <- app_assoc. }
  assert (i = (length a + length b)%nat) as Hib.
  { rewrite <- length_app, <- H1, length_take. lia. }
  rewrite H1, <- H2, drop_app_length, andb_true_iff.
  replace (drop (i + length m) buf) with t.
  2: { rewrite Hbuf, !app_assoc, drop_app_length'; [done|]. rewrite !length_app. lia. }
  destruct (until_lf_spec t) as (H5 & d & H6 & H7). split.
  - intros [Hb Hc]. exists a, b, (until_lf t), d. split_and!; try done.
    by rewrite <- H6.
  - intros (a2 & b2 & c2 & d2 & Hb2 & Hi2 & Hbb & Hcb & Ha2 & Hd2).
    assert (take i buf = a2 ++ b2) as E1.
    { rewrite Hb2, Hi2, app_assoc, take_app_length'; [done|]. by rewrite length_app. }
    assert (t = c2 ++ d2) as E2.
    { rewrite Hbuf in Hb2. rewrite (app_assoc a), (app_assoc a2) in Hb2.
      apply app_inj_1 in Hb2 as [_ Hb2]; [by apply app_inv_head in Hb2|].
      rewrite !length_app. lia. }
    rewrite H1 in E1. apply blank_no_lf in Hbb as Hb2lf.
    pose proof (last_line_unique _ _ _ _ H3 Hb2lf E1 H4 Ha2) as ->.
    rewrite E2, until_lf_app by (done || by apply blank_no_lf). done.
Qed.

Lemma prefix_lookup buf m i k :
  HasPrefix (drop i buf) m = true -> (k < length m)%nat -> buf !! (i + k)%nat = m !! k.
Proof.
  intros [t Ht]%HasPrefix_spec Hk. rewrite <- lookup_drop, Ht. by apply lookup_app_l.
Qed.

Lemma not_anchored_inside buf m i j :
  marker_ok m -> HasPrefix (drop i buf) m = true -> (i < j < i + length m)%nat ->
  ~ anchored buf m j.
Proof.
  intros [Hne Hm] Hp Hj (a & b & c & d & Hbuf & -> & Hb & _ & Ha & _).
  rewrite Forall_lookup in Hm. destruct (decide (length a <= i)%nat) as [Hi|Hi].
  - destruct (lookup_lt_is_Some_2 m 0) as [x Hx]; [lia|].
    pose proof (prefix_lookup _ _ _ 0 Hp ltac:(lia)) as E. rewrite Hx, Nat.add_0_r in E.
    rewrite Hbuf, lookup_app_r, lookup_app_l in E by lia.
    apply blank_Forall in Hb. rewrite Forall_lookup in Hb.
    apply Hb in E. apply Hm in Hx. by destruct Hx; congruence.
  - destruct Ha as [->|[a' ->]]; [simpl in Hi; lia|]. rewrite length_app in *. simpl in *.
    destruct (lookup_lt_is_Some_2 m (length a' - i)) as [x Hx]; [lia|].
    pose proof (prefix_lookup _ _ _ (length a' - i) Hp ltac:(lia)) as E.
    replace (i + (length a' - i))%nat with (length a') in E by lia.
    rewrite Hbuf, <- !app_assoc in E. cbn [app] in E.
    rewrite list_lookup_middle in E by done.
    rewrite Hx in E. simplify_eq. by destruct (Hm _ _ Hx).
Qed.

Lemma anchored_prefix buf m i : anchored buf m i -> HasPrefix (drop i buf) m = true.
Proof.
  intros (a & b & c & d & -> & -> & _). rewrite app_assoc, drop_app_length'.
  - apply HasPrefix_app.
  - by rewrite length_app.
Qed.

Lemma find_loop_spec buf m fuel offset :
  marker_ok m -> (length buf < offset + fuel)%nat -> (offset <= length buf)%nat ->
  (forall j, (j < offset)%nat -> ~ anchored buf m j) ->
  match find_loop fuel buf m offset with
  | Some i => anchored buf m i /\ forall j, (j < i)%nat -> ~ anchored buf m j
  | None => forall j, ~ anchored buf m j
  end.
Proof.
  intros Hm. revert offset. induction fuel as [|fuel IH]; intros offset Hf Ho Hlt; [lia|].
  cbn [find_loop]. destruct (Index (drop offset buf) m) as [rel|] eqn:E.
  - apply Index_Some in E as (E1 & E2 & E3). rewrite drop_drop in E1.
    rewrite length_drop in E2. cbv zeta.
    assert (forall j, (j < offset + rel)%nat -> ~ anchored buf m j) as Hlt'.
    { intros j Hj Hanc. destruct (decide (j < offset)%nat) as [?|?]; [by eapply Hlt|].
      apply anchored_prefix in Hanc. specialize (E3 (j - offset)%nat ltac:(lia)).
      rewrite drop_drop in E3. replace (offset + (j - offset))%nat with j in E3 by lia.
      congruence. }
    pose proof (anchored_test buf m (offset + rel) E1 ltac:(lia)) as Ht.
    assert (offset + rel + length m <= length buf)%nat as Hend.
    { apply HasPrefix_spec in E1 as [t Et]. apply (f_equal length) in Et.
      rewrite length_drop, length_app in Et. destruct Hm as [Hne _].
      destruct m; [done|]. simpl in *. lia. }
    assert (0 < length m)%nat as Hpos by (destruct Hm as [? _]; destruct m; [done|simpl; lia]).
    destruct (_ && _) eqn:Eb; [by split; [apply Ht|]|].
    apply IH; [lia|lia|].
    intros j Hj Hanc. destruct (decide (j < offset + rel)%nat) as [?|?]; [by eapply Hlt'|].
    destruct (decide (j = offset + rel)%nat) as [->|?]; [by apply Ht in Hanc|].
    by eapply (not_anchored_inside _ _ (offset + rel) j); [done|done|lia|].
  - intros j Hanc. destruct (decide (j < offset)%nat) as [?|?]; [by eapply Hlt|].
    apply anchored_prefix in Hanc. pose proof (Index_None _ _ E (j - offset)%nat) as H.
    rewrite drop_drop in H. replace (offset + (j - offset))%nat with j in H by lia.
    congruence.
Qed.

(** The bytes of complete lines. *)
Definition lines_bytes (ls : list gostring) : gostring := ls ≫= (fun l => l ++ [LF]).

Lemma Join_lines_bytes ls : ls <> [] -> Join ls [LF] ++ [LF] = lines_bytes ls.
Proof.
  unfold lines_bytes. induction ls as [|l ls IH]; intros Hne; [done|].
  destruct ls as [|l' ls]; cbn [mbind list_bind].
  - by rewrite app_nil_r.
  - rewrite Join_cons, <- !app_assoc by done. f_equal. cbn [app]. f_equal.
    rewrite IH by done. cbn [mbind list_bind]. by rewrite <- app_assoc.
Qed.

Lemma lines_bytes_split s :
  (s = [] \/ exists s', s = s' ++ [LF]) ->
  exists ls, s = lines_bytes ls /\ forall t, SplitByte LF (s ++ t) = ls ++ SplitByte LF t.
Proof.
  intros [->|[s' ->]]; [by exists []|]. exists (SplitByte LF s'). split.
  - rewrite <- (Join_SplitByte LF s') at 1. apply Join_lines_bytes, SplitByte_nonnil.
  - intros t. rewrite <- app_assoc. cbn [app]. apply SplitByte_app.
Qed.

Lemma lines_bytes_cases ls :
  lines_bytes ls = [] \/ exists s', lines_bytes ls = s' ++ [LF].
Proof.
  induction ls as [|l ls IH] using rev_ind; [by left|]. right. unfold lines_bytes.
  rewrite bind_app. cbn [mbind list_bind]. rewrite app_nil_r, app_assoc. eauto.
Qed.

Lemma SplitByte_rest d :
  (d = [] \/ exists d', d = LF :: d') ->
  exists after, forall l, LF ∉ l -> SplitByte LF (l ++ d) = l :: after.
Proof.
  intros [->|[d' ->]].
  - exists []. intros l Hl. by rewrite app_nil_r, SplitByte_no_sep.
  - exists (SplitByte LF d'). intros l Hl. by rewrite SplitByte_app, (SplitByte_no_sep _ l).
Qed.

Lemma marker_ok_no_lf m : marker_ok m -> LF ∉ m.
Proof.
  intros [_ Hm] Hin. rewrite Forall_forall in Hm. by destruct (Hm _ Hin).
Qed.

(** An anchored occurrence is a marker line, and conversely. *)
Lemma anchored_lines buf m i :
  marker_ok m ->
  anchored buf m i <->
  exists before b c after, SplitByte LF buf = before ++ (b ++ m ++ c) :: after
  /\ blank b /\ blank c /\ i = (length (lines_bytes before) + length b)%nat.
Proof.
  intros Hm. pose proof (marker_ok_no_lf _ Hm) as Hlf. split.
  - intros (a & b & c & d & -> & -> & Hb & Hc & Ha & Hd).
    destruct (lines_bytes_split a Ha) as (before & -> & Hsplit).
    destruct (SplitByte_rest d Hd) as [after Hafter].
    exists before, b, c, after. split_and!; try done.
    rewrite Hsplit, (app_assoc m), (app_assoc b), Hafter; [done|].
    apply blank_no_lf in Hb, Hc. set_solver.
  - intros (before & b & c & after & Hs & Hb & Hc & ->).
    pose proof (Join_SplitByte LF buf) as Hj. rewrite Hs in Hj.
    exists (lines_bytes before), b, c, (match after with [] => [] | _ => LF :: Join after [LF] end).
    split_and!; [|done|done|done|apply lines_bytes_cases|destruct after; eauto].
    rewrite <- Hj. clear Hj Hs. induction before as [|l before IH].
    + cbn [app lines_bytes mbind list_bind]. destruct after as [|x after].
      * cbn. by rewrite app_nil_r.
      * rewrite Join_cons, <- !app_assoc by done. done.
    + cbn [app]. rewrite Join_cons by (by destruct before). rewrite IH.
      unfold lines_bytes. cbn [mbind list_bind].
      by rewrite <- !app_assoc.
Qed.

Lemma find_lines buf m :
  marker_ok m ->
  match findLineAnchoredMarker buf m with
  | Some i =>
      exists before b c after, SplitByte LF buf = before ++ (b ++ m ++ c) :: after
      /\ blank b /\ blank c /\ i = (length (lines_bytes before) + length b)%nat
      /\ Forall (fun l => ~ marker_line m l) before
  | None => Forall (fun l => ~ marker_line m l) (SplitByte LF buf)
  end.
Proof.
  intros Hm. unfold findLineAnchoredMarker.
  destruct m as [|m0 m'] eqn:Em; [by destruct Hm|]. rewrite <- Em in *.
  pose proof (find_loop_spec buf m (S (length buf)) 0 Hm ltac:(lia) ltac:(lia) ltac:(lia)) as H.
  destruct (find_loop _ _ _ _) as [i|].
  - destruct H as [Hi Hlt]. apply (anchored_lines _ _ _ Hm) in Hi
      as (before & b & c & after & H1 & H2 & H3 & H4).
    exists before, b, c, after. split_and!; try done. apply Forall_forall.
    intros l Hl (b' & c' & -> & Hb' & Hc'). apply list_elem_of_split in Hl as (x & y & ->).
    apply (Hlt (length (lines_bytes x) + length b')%nat).
    + rewrite H4. unfold lines_bytes. rewrite bind_app. cbn [mbind list_bind].
      rewrite !length_app. destruct m; [done|]. simpl. lia.
    + apply (anchored_lines _ _ _ Hm). eexists x, b', c', _. split_and!; [|done|done|done].
      rewrite H1, <- app_assoc. done.
  - apply Forall_forall. intros l Hl (b & c & -> & Hb & Hc).
    apply list_elem_of_split in Hl as (x & y & Hs).
    apply (H (length (lines_bytes x) + length b)%nat).
    apply (anchored_lines _ _ _ Hm). by eexists x, b, c, _.
Qed.

Lemma find_first m s before b c after :
  marker_ok m -> SplitByte LF s = before ++ (b ++ m ++ c) :: after ->
  blank b -> blank c -> Forall (fun l => ~ marker_line m l) before ->
  findLineAnchoredMarker s m = Some (length (lines_bytes before) + length b)%nat.
Proof.
  intros Hm Hs Hb Hc Hf. pose proof (find_lines s m Hm) as H.
  destruct (findLineAnchoredMarker s m) as [i|].
  - destruct H as (before' & b' & c' & after' & Hs' & Hb' & Hc' & -> & Hf').
    rewrite Hs in Hs'.
    assert (before = before' /\ b ++ m ++ c = b' ++ m ++ c') as [-> E].
    { clear Hs. revert before' Hs' Hf'. induction Hf as [|l before Hl Hf IH];
        intros [|l' before'] Hs' Hf'; simpl in Hs'; injection Hs' as E1 E2.
      - done.
      - apply Forall_cons in Hf' as [Hf' _]. destruct Hf'. rewrite <- E1. by exists b, c.
      - destruct Hl. rewrite E1. by exists b', c'.
      - apply Forall_cons in Hf' as [_ Hf']. destruct (IH before' E2 Hf') as [-> ?].
        by subst. }
    do 2 f_equal. clear -Hm E Hb Hb'. revert b' E Hb'.
    apply blank_Forall in Hb. destruct Hm as [Hne Hm]. destruct m as [|x m]; [done|].
    apply Forall_cons in Hm as [[Hx _] _].
    induction Hb as [|y b Hy Hb IH]; intros [|z b'] E Hb'; simpl in *; try done.
    + injection E as -> _. apply blank_Forall, Forall_cons in Hb' as [? _]. congruence.
    + injection E as -> _. congruence.
    + injection E as -> E. f_equal. apply IH; [done|].
      apply blank_Forall, Forall_cons in Hb' as [_ Hb']. by apply blank_Forall.
  - rewrite Hs in H. apply Forall_app in H as [_ H]. apply Forall_cons in H as [H _].
    destruct H. by exists b, c.
Qed.

Lemma find_none m s :
  marker_ok m -> Forall (fun l => ~ marker_line m l) (SplitByte LF s) ->
  findLineAnchoredMarker s m = None.
Proof.
  intros Hm Hf. pose proof (find_lines s m Hm) as H.
  destruct (findLineAnchoredMarker s m) as [i|]; [|done].
  destruct H as (before & b & c & after & Hs & Hb & Hc & _ & _). rewrite Hs in Hf.
  apply Forall_app in Hf as [_ H]. apply Forall_cons in H as [H _].
  destruct H. by exists b, c.
Qed.

Lemma marker_line_occurs m l : marker_line m l -> occurs m l.
Proof. intros (b & c & -> & _). by exists b, c. Qed.

Lemma occurs_line m s l : l ∈ SplitByte LF s -> occurs m l -> occurs m s.
Proof.
  intros (x & y & Hs)%list_elem_of_split Ho. pose proof (Join_SplitByte LF s) as Hj.
  rewrite Hs in Hj. rewrite <- Hj. clear Hs Hj. induction x as [|l' x IH]; cbn [app].
  - destruct y as [|l' y]; [done|]. rewrite Join_cons by done. by apply occurs_app_l.
  - rewrite Join_cons by (by destruct x). by apply occurs_app_r, occurs_app_r.
Qed.

Lemma fresh_lines m s :
  ~ occurs m s -> Forall (fun l => ~ marker_line m l) (SplitByte LF s).
Proof.
  intros Hn. apply Forall_forall. intros l Hl Hml. apply Hn.
  by eapply occurs_line, marker_line_occurs.
Qed.

(** Every byte of a marker line is a blank or a byte of the marker. *)
Lemma marker_line_bytes m l c : marker_line m l -> c ∈ l -> is_hws c = true \/ c ∈ m.
Proof.
  intros (b & d & -> & Hb & Hd). apply blank_Forall in Hb, Hd.
  rewrite Forall_forall in Hb, Hd. rewrite !elem_of_app. naive_solver.
Qed.

(** ** Properties *)

(** [findLineAnchoredMarker] is the scan of the buffer line by line: it
    returns the offset of the marker in the first line that consists of the
    marker and blanks, and -1 when no line does.  A marker inside a longer line,
    such as the echoed instruction, is never reported and never hides a later
    one. *)
Theorem findLineAnchoredMarker_lines buf m :
  marker_ok m ->
  match findLineAnchoredMarker buf m with
  | Some i =>
      exists before b c after, SplitByte LF buf = before ++ (b ++ m ++ c) :: after
      /\ blank b /\ blank c /\ i = (length (lines_bytes before) + length b)%nat
      /\ Forall (fun l => ~ marker_line m l) before
  | None => Forall (fun l => ~ marker_line m l) (SplitByte LF buf)
  end.
Proof. exact (find_lines buf m). Qed.

Definition demo_marker : gostring := "TURN_END_00ff00ff00ff".

Lemma demo_marker_ok : marker_ok demo_marker.
Proof.
  split; [done|].
  apply (bool_decide_unpack (Forall (fun c => is_hws c = false /\ c <> LF) demo_marker)).
  vm_compute. exact I.
Defined.

Example findLineAnchoredMarker_lines_witness :
  findLineAnchoredMarker ("output the token " ++ demo_marker ++ ".
hi
 " ++ demo_marker ++ [LF]) demo_marker = Some 44%nat
  /\ exists before b c after,
       SplitByte LF ("output the token " ++ demo_marker ++ ".
hi
 " ++ demo_marker ++ [LF]) = before ++ (b ++ demo_marker ++ c) :: after.
Proof.
  split; [vm_compute; reflexivity|].
  pose proof (findLineAnchoredMarker_lines ("output the token " ++ demo_marker ++ ".
hi
 " ++ demo_marker ++ [LF]) demo_marker demo_marker_ok) as H.
  replace (findLineAnchoredMarker _ demo_marker) with (Some 44%nat) in H
    by (vm_compute; reflexivity).
  destruct H as (before & b & c & after & H & _). exists before, b, c, after. exact H.
Defined.

(** ** One turn, from the bytes of the terminal to the response *)

Definition trim_echo_ws (s : gostring) : gostring :=
  drop_while_end echo_ws (drop_while echo_ws s).

Lemma trim_echo_ws_app s k :
  Forall (fun c => echo_ws c = true) k -> trim_echo_ws (s ++ k) = trim_echo_ws s.
Proof.
  intros Hk. unfold trim_echo_ws. induction s as [|c s IH]; cbn [app drop_while].
  - by rewrite drop_while_Forall.
  - destruct (echo_ws c) eqn:E; [done|].
    change (c :: s ++ k) with ((c :: s) ++ k). by apply drop_while_end_app.
Qed.

Section Turn.
Context (m pre q R : gostring).
Context (Hm : marker_ok m) (Ho : "o"%char ∉ m) (Hlen : (17 < length m)%nat).
Context (Hpre : ~ occurs m pre) (Hq : LF ∉ q) (HR : ~ occurs m R).

Let needle : gostring := "output the token " ++ m.

(** The echo of an envelope: it ends with the marker instruction. *)
Definition turn_echo : gostring := pre ++ "output the token " ++ m ++ q ++ [LF].

Lemma fresh_instruction k :
  (length k < length m)%nat -> ~ occurs m (pre ++ "output the token " ++ k).
Proof.
  intros Hk Hocc. destruct Hm as [Hne Hch].
  assert (SP ∉ m) as Hsp.
  { intros Hin. rewrite Forall_forall in Hch. by destruct (Hch _ Hin). }
  apply (occurs_split m pre "o"%char) in Hocc as [?|Hocc]; [done| |done|done].
  apply (occurs_split m "utput the token" SP) in Hocc as [Hocc|Hocc]; [| |done|done];
    apply occurs_length in Hocc; simpl in Hocc; lia.
Qed.

Lemma needle_first z :
  Index (pre ++ needle ++ z) needle = Some (length pre).
Proof.
  apply Index_first.
  - rewrite drop_app_length. apply HasPrefix_app.
  - rewrite length_app. lia.
  - intros j Hj. apply not_true_is_false. intros [t Ht]%HasPrefix_spec.
    apply (fresh_instruction (take (length m - 1) m)).
    { rewrite length_take. lia. }
    set (n := (length pre + 17 + (length m - 1))%nat).
    assert (take n (pre ++ needle ++ z) = pre ++ "output the token " ++ take (length m - 1) m)
      as <-.
    { unfold needle, n. rewrite <- !app_assoc.
      rewrite take_app_ge by lia. f_equal. rewrite take_app_ge by (cbn; lia). f_equal.
      rewrite take_app_le by (cbn; lia). f_equal. cbn. lia. }
    set (D := pre ++ needle ++ z) in *.
    assert (D = (take j D ++ "output the token ") ++ m ++ t) as ->.
    { rewrite <- (take_drop j D) at 1. rewrite Ht. unfold needle. by rewrite <- !app_assoc. }
    assert (length (take j D ++ "output the token ") = j + 17)%nat as Hx.
    { rewrite length_app, length_take. unfold D. rewrite length_app. cbn [length]. lia. }
    eexists _, _. rewrite take_app_ge by (rewrite Hx; unfold n; lia). f_equal.
    rewrite take_app_ge by (rewrite Hx; unfold n; lia). done.
Qed.

Lemma strip_echo rest :
  stripEnvelopeEcho (turn_echo ++ rest) m = trim_echo_ws rest.
Proof.
  assert (turn_echo ++ rest = pre ++ needle ++ (q ++ LF :: rest)) as E.
  { unfold turn_echo, needle. by rewrite <- !app_assoc. }
  unfold stripEnvelopeEcho. fold needle.
  destruct (turn_echo ++ rest) as [|x xs] eqn:Ex.
  { destruct pre; discriminate E. }
  rewrite E. cbv zeta.
  assert (bytesIndex (pre ++ needle ++ q ++ LF :: rest) needle = Some (length pre)) as ->.
  { unfold bytesIndex. destruct needle as [|n0 n1] eqn:En; [by destruct m|].
    rewrite <- En in *. rewrite (proj2 (Nat.ltb_ge _ _)).
    - apply needle_first.
    - rewrite !length_app. lia. }
  rewrite (app_assoc pre), (drop_app_length' (pre ++ needle)) by (by rewrite length_app).
  rewrite until_lf_app by eauto. by rewrite drop_app_length.
Qed.
(** What the terminal produces for one turn: the echo, the reply, the marker on
    a line of its own, and whatever follows. *)
Definition turn_output (tail : gostring) : gostring := turn_echo ++ R ++ LF :: m ++ tail.

Lemma occurs_prefix s P y : P ++ y = s -> ~ occurs m s -> ~ occurs m P.
Proof. intros <- Hs Hp. by apply Hs, occurs_app_l. Qed.

Lemma prefix_of_app (P z A B : gostring) :
  P ++ z = A ++ B -> (length P <= length A)%nat -> exists y, P ++ y = A.
Proof.
  intros E Hl. exists (drop (length P) A).
  apply (f_equal (take (length P))) in E. rewrite take_app_length in E.
  rewrite take_app_le in E by done. rewrite E at 1. apply take_drop.
Qed.

Lemma suffix_of_app (P z A B : gostring) :
  P ++ z = A ++ B -> (length A <= length P)%nat -> exists P', P = A ++ P' /\ P' ++ z = B.
Proof.
  intros E Hl. exists (drop (length A) P).
  assert (P = A ++ drop (length A) P) as Hp.
  { apply (f_equal (take (length A))) in E. rewrite take_app_length in E.
    rewrite take_app_le in E by done. rewrite <- E at 1. by rewrite take_drop. }
  split; [done|]. rewrite Hp, <- app_assoc in E. by apply app_inv_head in E.
Qed.

Lemma instruction_lines q' :
  LF ∉ q' -> Forall (fun l => ~ marker_line m l) (SplitByte LF (pre ++ needle ++ q')).
Proof.
  intros Hq'. destruct (SplitByte_extend LF pre (needle ++ q')) as (ls & l & k0 & rest & H1 & H2 & ->).
  assert (LF ∉ needle ++ q') as Hnl.
  { unfold needle. pose proof (marker_ok_no_lf _ Hm).
    rewrite !not_elem_of_app. split_and!; [|done|done].
    apply (bool_decide_unpack _). vm_compute. exact I. }
  rewrite (SplitByte_no_sep _ _ Hnl) in H2. injection H2 as <- <-.
  pose proof (fresh_lines m pre Hpre) as Hf. rewrite H1 in Hf.
  apply Forall_app in Hf as [Hf _]. apply Forall_app. split; [done|].
  apply Forall_cons. split; [|by apply Forall_nil]. intros Hml.
  assert ("o"%char ∈ l ++ needle ++ q') as Hin.
  { apply elem_of_app. right. apply elem_of_app. left. unfold needle. left. }
  by destruct (marker_line_bytes _ _ _ Hml Hin).
Qed.

Lemma echo_lines t :
  SplitByte LF (turn_echo ++ t) = SplitByte LF (pre ++ needle ++ q) ++ SplitByte LF t.
Proof.
  replace (turn_echo ++ t) with ((pre ++ needle ++ q) ++ LF :: t).
  - apply SplitByte_app.
  - unfold turn_echo, needle. by rewrite <- !app_assoc.
Qed.

Lemma reply_fresh k : (length k < length m)%nat -> ~ occurs m (R ++ LF :: k).
Proof.
  intros Hk Hocc. pose proof (marker_ok_no_lf _ Hm). destruct Hm as [Hne _].
  apply occurs_split in Hocc as [?|Hocc]; [done| |done|done].
  apply occurs_length in Hocc. lia.
Qed.

(** A strict prefix of [A ++ m] is a prefix of [A] and all but the last byte of
    the marker. *)
Lemma short_prefix_fresh P A B :
  (exists z, P ++ z = (A ++ m) ++ B) -> (length P < length (A ++ m))%nat ->
  ~ occurs m (A ++ take (length m - 1) m) -> ~ occurs m P.
Proof.
  intros [z Hz] Hl. destruct (prefix_of_app P z (A ++ m) B Hz) as [y Hy]; [lia|].
  assert (0 < length m)%nat as Hpos by lia.
  apply (occurs_prefix _ _ (drop (length P) (A ++ take (length m - 1) m))).
  rewrite length_app in Hl.
  assert (take (length P) (A ++ take (length m - 1) m) = P) as E.
  { replace (A ++ take (length m - 1) m) with (take (length A + length m - 1) (A ++ m)).
    - rewrite take_take, Nat.min_l by lia. by rewrite <- Hy, take_app_length.
    - rewrite take_app_ge by lia. f_equal. f_equal. lia. }
  rewrite <- E at 1. apply take_drop.
Qed.

Lemma turn_prefix_none P z tail :
  P ++ z = turn_output tail ->
  (length P < length (turn_echo ++ R ++ LF :: m))%nat ->
  findLineAnchoredMarker P m = None.
Proof.
  intros E Hl. apply find_none; [done|]. unfold turn_output, turn_echo in E.
  destruct (decide (length P < length (pre ++ needle))%nat) as [H1|H1].
  - apply fresh_lines, (short_prefix_fresh P (pre ++ "output the token ")
      (q ++ [LF] ++ R ++ LF :: m ++ tail)).
    + exists z. rewrite E. by rewrite <- !app_assoc.
    + by rewrite <- app_assoc.
    + rewrite <- app_assoc. apply fresh_instruction. rewrite length_take. lia.
  - destruct (decide (length P < length turn_echo)%nat) as [H2|H2].
    + destruct (suffix_of_app P z (pre ++ needle) (q ++ [LF] ++ R ++ LF :: m ++ tail))
        as (q' & -> & E'); [|lia|].
      { rewrite E. unfold needle. by rewrite <- !app_assoc. }
      rewrite <- app_assoc. apply instruction_lines.
      destruct (prefix_of_app q' z q ([LF] ++ R ++ LF :: m ++ tail) E') as [y Hy].
      { unfold turn_echo, needle in *. rewrite !length_app in *. cbn [length] in *. lia. }
      intros Hin. apply Hq. rewrite <- Hy. apply elem_of_app. by left.
    + destruct (suffix_of_app P z turn_echo (R ++ LF :: m ++ tail)) as (P' & -> & E');
        [done|lia|].
      rewrite echo_lines. apply Forall_app. split; [by apply instruction_lines|].
      apply fresh_lines, (short_prefix_fresh P' (R ++ [LF]) tail).
      * exists z. rewrite E'. by rewrite <- !app_assoc.
      * rewrite !length_app in *. cbn [length] in *. lia.
      * rewrite <- app_assoc. apply reply_fresh. rewrite length_take. lia.
Qed.

Lemma turn_complete_found c :
  blank (until_lf c) ->
  findLineAnchoredMarker (turn_output c) m = Some (length (turn_echo ++ R ++ [LF])).
Proof.
  intros Hc. destruct (until_lf_spec c) as (H1 & d & H2 & H3).
  destruct (SplitByte_rest d H3) as [after Hafter].
  assert (SplitByte LF (turn_output c) =
    (SplitByte LF (pre ++ needle ++ q) ++ SplitByte LF R) ++ ([] ++ m ++ until_lf c) :: after)
    as Hs.
  { unfold turn_output. rewrite echo_lines, <- app_assoc, SplitByte_app. do 2 f_equal.
    rewrite H2 at 1. rewrite app_assoc, Hafter; [done|].
    rewrite not_elem_of_app. split; [by apply marker_ok_no_lf|done]. }
  rewrite (find_first _ _ _ _ _ _ Hm Hs); [|done|done|].
  - f_equal. rewrite Nat.add_0_r. f_equal. unfold lines_bytes.
    rewrite bind_app. fold (lines_bytes (SplitByte LF R)).
    fold (lines_bytes (SplitByte LF (pre ++ needle ++ q))).
    rewrite <- !Join_lines_bytes by apply SplitByte_nonnil.
    rewrite !Join_SplitByte. unfold turn_echo, needle. by rewrite <- !app_assoc.
  - apply Forall_app. split; [by apply instruction_lines|by apply fresh_lines].
Qed.

(** ** The loop *)

(** A schedule on which nothing but output happens. *)
Definition quiet (w : wakeup) : Prop :=
  w_ctx w = None /\ w_late w = false
  /\ Forall (fun ev => exists d, ev = PumpOutput d) (w_events w).

Definition event_data (ev : pump_event) : gostring :=
  match ev with PumpOutput d => d | _ => [] end.

Definition schedule_output (ws : list wakeup) : gostring :=
  ws ≫= (fun w => w_events w ≫= event_data).

(** A process between two turns: nothing unread, still running. *)
Definition idle_with (p : PersistentProcess) (buf : gostring) : Prop :=
  buffer p = buf /\ cursor p = 0%nat /\ exited p = false /\ pumpDone p = false.

Lemma pump_outputs evs p buf :
  Forall (fun ev => exists d, ev = PumpOutput d) evs -> idle_with p buf ->
  idle_with (fold_left pump_step evs p) (buf ++ (evs ≫= event_data)).
Proof.
  intros Hf. revert p buf. induction Hf as [|ev evs [d ->] _ IH]; intros p buf Hp.
  - cbn [fold_left mbind list_bind]. by rewrite app_nil_r.
  - cbn [fold_left mbind list_bind event_data]. rewrite app_assoc. apply IH.
    destruct Hp as (<- & Hc & He & Hd). unfold idle_with, pump_step. by rewrite Hd.
Qed.

Lemma converse_check_idle p buf timeout :
  idle_with p buf -> Z.of_nat (length buf) <= maxBufferBytes ->
  converse_check p m timeout None false =
    match findLineAnchoredMarker buf m with
    | Some idx => Some (Ok (stripEnvelopeEcho (take idx buf) m), reset_buffer p)
    | None => None
    end.
Proof.
  intros (<- & Hc & He & _) Hmax. unfold converse_check. rewrite Hc, He, drop_0.
  destruct (0 <? length (buffer p))%nat eqn:E.
  - destruct (findLineAnchoredMarker _ _); [done|].
    by rewrite (proj2 (Z.ltb_ge _ _)).
  - apply Nat.ltb_ge in E. destruct (buffer p); [|simpl in E; lia].
    rewrite find_none; [done|done|]. apply fresh_lines. intros Ho'%occurs_length.
    simpl in Ho'. lia.
Qed.

Lemma converse_loop_extracts ws timeout tail p buf :
  Forall quiet ws -> idle_with p buf ->
  buf ++ schedule_output ws = turn_output tail ->
  (length buf < length (turn_echo ++ R ++ LF :: m))%nat ->
  blank (until_lf tail) ->
  Z.of_nat (length (turn_output tail)) <= maxBufferBytes ->
  exists p', converse_loop p m timeout ws = Some (Ok (trim_echo_ws R), p')
  /\ idle_with p' [].
Proof.
  intros Hqs. revert p buf. induction Hqs as [|w ws (Hctx & Hlate & Hev) _ IH];
    intros p buf Hp Hout Hl Hb Hmax.
  - exfalso. apply (f_equal length) in Hout. unfold turn_output in Hout.
    rewrite !length_app in *. cbn [length mbind list_bind schedule_output] in *.
    rewrite length_app in Hout. lia.
  - cbn [converse_loop]. rewrite Hctx, Hlate.
    pose proof (pump_outputs _ _ _ Hev Hp) as Hp'.
    unfold schedule_output in Hout. cbn [mbind list_bind] in Hout.
    fold (schedule_output ws) in Hout. rewrite app_assoc in Hout.
    set (buf' := buf ++ _) in *. set (p2 := fold_left _ _ _) in *.
    assert (length buf' <= length (turn_output tail))%nat as Hle.
    { rewrite <- Hout, length_app. lia. }
    rewrite (converse_check_idle _ _ _ Hp') by lia.
    destruct (decide (length buf' < length (turn_echo ++ R ++ LF :: m))%nat) as [Hs|Hs].
    + rewrite (turn_prefix_none _ _ _ Hout Hs). by apply (IH _ buf').
    + destruct (suffix_of_app buf' (schedule_output ws) (turn_echo ++ R ++ LF :: m) tail)
        as (c & Hbuf & Hc); [|lia|].
      { rewrite Hout. unfold turn_output. by rewrite <- !app_assoc. }
      assert (buf' = turn_output c) as ->.
      { rewrite Hbuf. unfold turn_output. by rewrite <- !app_assoc. }
      assert (blank (until_lf c)) as Hbc.
      { rewrite <- Hc in Hb. clear -Hb. induction c as [|x c IHc]; [done|].
        cbn [until_lf app] in *. destruct (ceq x LF); [done|].
        apply (blank_app [x]) in Hb as [Hx Hb]. apply (blank_app [x]). split; [done|].
        by apply IHc. }
      rewrite turn_complete_found by done. eexists. split.
      * do 3 f_equal. unfold turn_output.
        replace (turn_echo ++ R ++ LF :: m ++ c) with ((turn_echo ++ R ++ [LF]) ++ m ++ c)
          by (by rewrite <- !app_assoc).
        rewrite take_app_length, strip_echo.
        apply trim_echo_ws_app. by apply Forall_cons.
      * destruct Hp' as (_ & _ & He & Hd). unfold idle_with. simpl. done.
Qed.
End Turn.

Lemma turn_extracts m pre q R tail p timeout ws :
  marker_ok m -> "o"%char ∉ m -> (17 < length m)%nat ->
  ~ occurs m pre -> LF ∉ q -> ~ occurs m R ->
  idle_with p [] -> Forall quiet ws ->
  schedule_output ws = turn_output m pre q R tail ->
  blank (until_lf tail) ->
  Z.of_nat (length (turn_output m pre q R tail)) <= maxBufferBytes ->
  exists p', ConverseTurn p m timeout None ws = Some (Ok (trim_echo_ws R), p')
  /\ idle_with p' [].
Proof.
  intros Hm Ho Hlen Hpre Hq HR Hp Hws Hout Hb Hmax. unfold ConverseTurn.
  destruct Hm as [Hne Hm]. rewrite bool_decide_false by done.
  apply (converse_loop_extracts m pre q R) with (buf := []) (tail := tail); try done.
  rewrite !length_app. cbn [length]. lia.
Qed.

(** One turn of a persistent peer.  Suppose the terminal echoes the envelope
    (which ends with the marker instruction), the peer answers [R] and prints the
    marker on a line of its own, in any number of chunks and with the loop waking
    up at any moments.  Then [ConverseTurn] returns, it returns exactly [R]
    without its surrounding blanks (no byte of the echo, none of what follows the
    marker), and the buffer is empty again for the next turn. *)
Theorem ConverseTurn_extracts_reply m pre q R tail p timeout ws :
  marker_ok m -> "o"%char ∉ m -> (17 < length m)%nat ->
  ~ occurs m pre -> LF ∉ q -> ~ occurs m R ->
  idle_with p [] -> Forall quiet ws ->
  schedule_output ws = turn_output m pre q R tail ->
  blank (until_lf tail) ->
  Z.of_nat (length (turn_output m pre q R tail)) <= maxBufferBytes ->
  exists p', ConverseTurn p m timeout None ws = Some (Ok (trim_echo_ws R), p')
  /\ idle_with p' [].
Proof. apply turn_extracts. Qed.

Lemma occurs_dec_false m s : Contains s m = false -> ~ occurs m s.
Proof.
  unfold Contains. destruct (Index s m) eqn:E; [done|]. intros _ (x & y & ->).
  pose proof (Index_None _ _ E (length x)) as H.
  rewrite drop_app_length, HasPrefix_app in H. done.
Qed.

Example ConverseTurn_extracts_reply_witness :
  exists p', ConverseTurn NewPersistentProcess demo_marker "5m0s" None
    [{| w_events := [PumpOutput ("hello
output the token " ++ demo_marker ++ " on its own line.
 re"); PumpOutput "ply"]; w_ctx := None; w_late := false |};
     {| w_events := [PumpOutput (LF :: demo_marker ++ [CR; LF])];
        w_ctx := None; w_late := false |}] = Some (Ok "reply", p')
  /\ idle_with p' [].
Proof.
  apply (ConverseTurn_extracts_reply demo_marker "hello
" " on its own line." " reply" [CR; LF]).
  - exact demo_marker_ok.
  - apply (bool_decide_unpack _). vm_compute. exact I.
  - vm_compute. lia.
  - apply occurs_dec_false. vm_compute. reflexivity.
  - apply (bool_decide_unpack _). vm_compute. exact I.
  - apply occurs_dec_false. vm_compute. reflexivity.
  - repeat split.
  - repeat (apply List.Forall_cons || apply List.Forall_nil || split || (eexists; reflexivity)).
  - vm_compute. reflexivity.
  - vm_compute. reflexivity.
  - vm_compute. discriminate.
Defined.

(** The pump races the exit of the process.  A process that answers, prints
    its marker and exits leaves both a chunk of output and an exit result for
    the pump's [select]; if the pump takes the output first the reply is
    returned, and if it takes the exit first it stops reading and the same turn
    fails, its reply lost. *)
Theorem pump_exit_race m R code timeout :
  marker_ok m -> ~ occurs m R ->
  let chunk := PumpOutput (R ++ LF :: m ++ [LF]) in
  let done := PumpDone (Some {| X_Code := code; X_Err := None |}) in
  let run evs := ConverseTurn NewPersistentProcess m timeout None
                   [{| w_events := evs; w_ctx := None; w_late := false |}] in
  (exists r p, run [chunk; done] = Some (Ok r, p))
  /\ (exists e p, run [done; chunk] = Some (Err e, p)).
Proof.
  intros Hm HR chunk dn run. pose proof Hm as [Hne _]. unfold run, ConverseTurn.
  rewrite bool_decide_false by done. split.
  - cbn [converse_loop w_events fold_left w_ctx w_late]. unfold converse_check.
    cbn -[findLineAnchoredMarker stripEnvelopeEcho Nat.ltb app]. rewrite app_nil_l.
    assert (SplitByte LF (R ++ LF :: m ++ [LF]) = SplitByte LF R ++ ([] ++ m ++ []) :: [[]])
      as Hs.
    { rewrite SplitByte_app. f_equal. rewrite SplitByte_app, SplitByte_no_sep.
      - by rewrite app_nil_r.
      - by apply marker_ok_no_lf. }
    rewrite drop_0, (find_first _ _ _ _ _ _ Hm Hs); [|done|done|by apply fresh_lines].
    rewrite (proj2 (Nat.ltb_lt _ _)); [by eexists _, _|].
    rewrite length_app. simpl. lia.
  - cbn. by eexists _, _.
Qed.

Example pump_exit_race_witness :
  exists e p, ConverseTurn NewPersistentProcess demo_marker "5m0s" None
    [{| w_events := [PumpDone (Some {| X_Code := 0; X_Err := None |});
                     PumpOutput ("hi" ++ LF :: demo_marker ++ [LF])];
        w_ctx := None; w_late := false |}] = Some (Err e, p).
Proof.
  apply (pump_exit_race demo_marker "hi" 0 "5m0s" demo_marker_ok).
  apply occurs_dec_false. vm_compute. reflexivity.
Defined.
