(* ===== verification/TurnWait.v ===== *)
(** * Waiting for a turn ([internal/peer/provider/persistent.go])

    [ConverseTurn] waits on a condition variable that two other goroutines
    signal: the pump of the process, and a watcher that waits for the context,
    for the deadline or for the end of the turn.  Here the three are threads; a
    step is one critical section of the process' mutex, or what a thread does
    outside of it, and a schedule is any list of steps.  The passes of a schedule
    are those of [converse_loop] ([turn_run_passes]); no wakeup is lost
    ([turn_step_ok]); and a turn whose context is done or whose deadline has
    passed returns as soon as the watcher and then the waiter have been scheduled
    ([fair_turn_returns]). *)
From S2P Require Import Prelude GoLib Model Persistent.

(** Where [ConverseTurn] is: about to take the mutex, in [cond.Wait], or back. *)
Inductive waiter_at :=
| AtLock
| Parked
| Returned (r : result gostring).

(** Where the watcher is: in its [select], about to broadcast, or gone. *)
Inductive watcher_at :=
| InSelect
| Firing
| Gone.

(** A turn after its envelope was written. *)
Record turn_state := {
  ts_process : PersistentProcess;
  ts_waiter : waiter_at;
  ts_watcher : watcher_at;
  ts_ctx : option goerr;
  ts_now : time;
}.

(** The steps: a round of the pump; the waiter, from the mutex to [cond.Wait] or
    [return]; the watcher; the watcher seeing [stopWatch]; the context; the
    clock.  A thread that cannot move stays where it is. *)
Inductive turn_label :=
| LPump (ev : pump_event)
| LWaiter
| LWatcher
| LStopWatch
| LCtx (e : goerr)
| LTick (now : time).

#[export] Instance waiter_at_dec (w : waiter_at) : Decision (w = Parked).
Proof. destruct w; [right|left|right]; done. Defined.

(** [cond.Broadcast] *)
Definition broadcast (w : waiter_at) : waiter_at :=
  match w with Parked => AtLock | _ => w end.

Section Turn.
Variables (marker timeout : gostring) (deadline : time).

(** [ctx.Err() != nil], [!time.Now().Before(deadline)] *)
Definition late (st : turn_state) : bool := negb (ts_now st <? deadline).
Definition expired (st : turn_state) : bool := bool_decide (is_Some (ts_ctx st)) || late st.

Definition turn_step (st : turn_state) (l : turn_label) : turn_state :=
  match l with
  | LPump ev =>
      {| ts_process := pump_step (ts_process st) ev;
         ts_waiter := if pumpDone (ts_process st) then ts_waiter st else broadcast (ts_waiter st);
         ts_watcher := ts_watcher st; ts_ctx := ts_ctx st; ts_now := ts_now st |}
  | LWaiter =>
      match ts_waiter st with
      | AtLock =>
          match converse_check (ts_process st) marker timeout (ts_ctx st) (late st) with
          | Some (r, p) => {| ts_process := p; ts_waiter := Returned r; ts_watcher := ts_watcher st;
                              ts_ctx := ts_ctx st; ts_now := ts_now st |}
          | None => {| ts_process := ts_process st; ts_waiter := Parked; ts_watcher := ts_watcher st;
                       ts_ctx := ts_ctx st; ts_now := ts_now st |}
          end
      | _ => st
      end
  | LWatcher =>
      match ts_watcher st with
      | InSelect =>
          if expired st then
            {| ts_process := ts_process st; ts_waiter := ts_waiter st; ts_watcher := Firing;
               ts_ctx := ts_ctx st; ts_now := ts_now st |}
          else st
      | Firing => {| ts_process := ts_process st; ts_waiter := broadcast (ts_waiter st); ts_watcher := Gone;
                     ts_ctx := ts_ctx st; ts_now := ts_now st |}
      | Gone => st
      end
  | LStopWatch =>
      match ts_waiter st, ts_watcher st with
      | Returned _, InSelect => {| ts_process := ts_process st; ts_waiter := ts_waiter st; ts_watcher := Gone;
                                   ts_ctx := ts_ctx st; ts_now := ts_now st |}
      | _, _ => st
      end
  | LCtx e =>
      {| ts_process := ts_process st; ts_waiter := ts_waiter st; ts_watcher := ts_watcher st;
         ts_ctx := match ts_ctx st with Some e => Some e | None => Some e end; ts_now := ts_now st |}
  | LTick now =>
      {| ts_process := ts_process st; ts_waiter := ts_waiter st; ts_watcher := ts_watcher st;
         ts_ctx := ts_ctx st; ts_now := Z.max (ts_now st) now |}
  end.

(** The turn over a schedule; [None] when it has not returned at its end. *)
Fixpoint turn_run (st : turn_state) (ls : list turn_label) : option (result gostring * PersistentProcess) :=
  match ls with
  | [] => None
  | l :: ls =>
      let st := turn_step st l in
      match ts_waiter st with
      | Returned r => Some (r, ts_process st)
      | _ => turn_run st ls
      end
  end.

(** The passes of the waiter, each with what the pump did since the last. *)
Fixpoint turn_passes (st : turn_state) (evs : list pump_event) (ls : list turn_label) : list wakeup :=
  match ls with
  | [] => []
  | l :: ls =>
      match l, ts_waiter st with
      | LPump ev, _ => turn_passes (turn_step st l) (evs ++ [ev]) ls
      | LWaiter, AtLock =>
          {| w_events := evs; w_ctx := ts_ctx st; w_late := late st |} :: turn_passes (turn_step st l) [] ls
      | _, _ => turn_passes (turn_step st l) evs ls
      end
  end.

Definition not_returned (st : turn_state) : Prop :=
  match ts_waiter st with Returned _ => False | _ => True end.

(** What the watcher, the context and the clock do to a turn. *)
Lemma turn_step_aside st l :
  (forall ev, l <> LPump ev) -> l <> LWaiter ->
  ts_process (turn_step st l) = ts_process st /\ (not_returned st -> not_returned (turn_step st l)).
Proof.
  unfold not_returned. intros H1 H2. destruct l; try done; cbn [turn_step].
  - by edestruct H1.
  - destruct (ts_watcher st); [destruct (expired st); done| |done]. split; [done|]. by destruct (ts_waiter st) eqn:E; cbn; rewrite ?E.
  - destruct (ts_waiter st) eqn:E, (ts_watcher st); cbn; by rewrite ?E.
Qed.

(** The threads do what the loop does on their passes. *)
Lemma turn_run_passes ls st evs p0 :
  not_returned st -> ts_process st = fold_left pump_step evs p0 ->
  turn_run st ls = converse_loop p0 marker timeout (turn_passes st evs ls).
Proof.
  revert st evs p0. induction ls as [|l ls IH]; intros st evs p0 Hr Hp; [done|].
  assert (forall evs, not_returned (turn_step st l) -> ts_process (turn_step st l) = fold_left pump_step evs p0 ->
    turn_run st (l :: ls) = converse_loop p0 marker timeout (turn_passes (turn_step st l) evs ls)) as Hgo.
  { intros evs' Hn Hp'. rewrite <- (IH _ _ _ Hn Hp'). unfold not_returned in Hn. cbn [turn_run].
    by destruct (ts_waiter (turn_step st l)). }
  assert ((forall ev, l <> LPump ev) -> l <> LWaiter ->
    turn_run st (l :: ls) = converse_loop p0 marker timeout (turn_passes (turn_step st l) evs ls)) as Haside.
  { intros H1 H2. destruct (turn_step_aside st l H1 H2) as [E Hn]. apply Hgo; [by apply Hn|by rewrite E]. }
  destruct l; try by apply Haside.
  - apply Hgo; cbn; [|by rewrite fold_left_app, <- Hp].
    unfold not_returned in *. cbn. by destruct (pumpDone _), (ts_waiter st).
  - unfold not_returned in Hr. cbn [turn_passes]. destruct (ts_waiter st) eqn:E; [|apply Hgo|done].
    + cbn [turn_run turn_step converse_loop w_events w_ctx w_late]. rewrite E, <- Hp.
      destruct (converse_check _ _ _ _ _) as [[r p]|]; cbn [ts_waiter ts_process]; [done|]. by apply IH.
    + unfold not_returned. cbn [turn_step]. by rewrite E, E.
    + cbn [turn_step]. by rewrite E.
Qed.

(** ** No lost wakeup *)

(** Until the turn has expired the watcher stays in its [select]; while the turn
    is in [cond.Wait], the watcher has not broadcast yet, and nothing that the
    pump did was left unseen. *)
Record turn_ok (st : turn_state) : Prop := {
  tk_watch : not_returned st -> expired st = false -> ts_watcher st = InSelect;
  tk_parked : ts_waiter st = Parked -> ts_watcher st <> Gone;
  tk_seen : ts_waiter st = Parked -> converse_check (ts_process st) marker timeout None false = None;
}.

Lemma check_more p ctx lt :
  converse_check p marker timeout ctx lt = None -> converse_check p marker timeout None false = None.
Proof. unfold converse_check. repeat case_match; done. Qed.

Lemma check_expired p ctx lt :
  bool_decide (is_Some ctx) || lt = true -> is_Some (converse_check p marker timeout ctx lt).
Proof.
  unfold converse_check. intros H. destruct ctx, lt; cbn in H; try done; repeat case_match; by eexists.
Qed.

Lemma expired_step st l : expired st = true -> expired (turn_step st l) = true.
Proof.
  unfold expired, late. rewrite !orb_true_iff, !negb_true_iff, !bool_decide_eq_true, !Z.ltb_ge.
  intros H. destruct l; cbn [turn_step]; try done; cbn; repeat case_match; cbn; try done.
  - destruct (ts_ctx st); [by left|left; by eexists].
  - destruct H as [H|H]; [by left|right; lia].
Qed.

Lemma turn_step_ok st l : turn_ok st -> turn_ok (turn_step st l).
Proof.
  intros Hok. pose proof Hok as [H1 H2 H3]. unfold not_returned in *. destruct l.
  - split; cbn.
    + intros Hn. apply H1. revert Hn. by destruct (pumpDone (ts_process st)), (ts_waiter st).
    + intros H. apply H2. revert H. by destruct (pumpDone (ts_process st)), (ts_waiter st).
    + unfold pump_step. destruct (pumpDone (ts_process st)) eqn:E; [done|]. by destruct (ts_waiter st).
  - cbn [turn_step]. destruct (ts_waiter st) eqn:E; [|exact Hok|exact Hok].
    destruct (converse_check _ _ _ (ts_ctx st) _) as [[r p]|] eqn:Ec; [by split|]. split.
    + intros _ Hx. by apply H1.
    + intros _. cbn. rewrite H1; [done..|]. apply not_true_iff_false. intros Hx.
      apply (check_expired (ts_process st)) in Hx as [? Hx]. congruence.
    + intros _. by eapply check_more.
  - cbn [turn_step]. destruct (ts_watcher st) eqn:E; [destruct (expired st) eqn:Ex| |exact Hok].
    + split; try done. cbn. intros _ Hx. change (expired st = false) in Hx. congruence.
    + exact Hok.
    + split; cbn.
      * intros Hn Hx. assert (Firing = InSelect) by (apply H1; [unfold not_returned in Hn; cbn in Hn; by destruct (ts_waiter st)|done]). done.
      * by destruct (ts_waiter st).
      * by destruct (ts_waiter st).
  - cbn [turn_step]. destruct (ts_waiter st) eqn:E, (ts_watcher st) eqn:E2; try exact Hok.
    split; unfold not_returned; cbn; by rewrite ?E.
  - split; cbn; try done. intros Hn Hx. apply H1; [done|]. apply not_true_iff_false. intros Ht.
    apply (expired_step st (LCtx e)) in Ht. cbn in Ht. congruence.
  - split; cbn; try done. intros Hn Hx. apply H1; [done|]. apply not_true_iff_false. intros Ht.
    apply (expired_step st (LTick now)) in Ht. cbn in Ht. congruence.
Qed.

(** ** A turn that has expired returns *)

(** What is still needed of the scheduler. *)
Definition needs (st : turn_state) : list turn_label :=
  match ts_watcher st with
  | InSelect => [LWatcher; LWatcher; LWaiter]
  | Firing => [LWatcher; LWaiter]
  | Gone => [LWaiter]
  end.

Lemma needs_step st l k ls : not_returned (turn_step st l) -> turn_ok st -> expired st = true -> needs st = k ->
  k `sublist_of` l :: ls -> needs (turn_step st l) `sublist_of` ls.
Proof.
  intros Hn [H1 H2 H3] Hx <- Hs. unfold not_returned, needs in *.
  assert (forall a r, a :: r `sublist_of` l :: ls -> a <> l -> a :: r `sublist_of` ls) as Hskip.
  { intros a r Hsub Hne. inversion Hsub; subst; [done|done]. }
  assert (forall a r, a :: r `sublist_of` l :: ls -> r `sublist_of` ls) as Htake.
  { intros a r Hsub. apply sublist_cons_r in Hsub as [Hsub|(? & ? & ?)]; [|simplify_eq; done].
    etrans; [|exact Hsub]. by apply sublist_cons. }
  destruct l; cbn [turn_step] in *.
  - cbn. destruct (ts_watcher st); by apply Hskip in Hs.
  - destruct (ts_waiter st) eqn:E; cbn in *.
    + assert (is_Some (converse_check (ts_process st) marker timeout (ts_ctx st) (late st))) as [[r p] Ec]
        by by apply check_expired. by rewrite Ec in Hn.
    + destruct (ts_watcher st) eqn:E2; [by apply Hskip in Hs..|]. by destruct (H2 eq_refl).
    + by rewrite E in Hn.
  - rewrite Hx in *. destruct (ts_watcher st) eqn:E; cbn; rewrite ?E.
    + by apply Htake in Hs.
    + by apply Htake in Hs.
    + by apply Hskip in Hs.
  - destruct (ts_waiter st) eqn:E; [| |by destruct (ts_watcher st) eqn:E2; cbn in Hn; rewrite ?E in Hn].
    all: destruct (ts_watcher st) eqn:E2; by apply Hskip in Hs.
  - cbn. destruct (ts_watcher st); by apply Hskip in Hs.
  - cbn. destruct (ts_watcher st); by apply Hskip in Hs.
Qed.

Lemma expired_returns ls st :
  not_returned st -> turn_ok st -> expired st = true -> needs st `sublist_of` ls -> is_Some (turn_run st ls).
Proof.
  revert st. induction ls as [|l ls IH]; intros st Hn Hok Hx Hs.
  - exfalso. apply sublist_nil_r in Hs. unfold needs in Hs. by destruct (ts_watcher st).
  - cbn [turn_run]. destruct (ts_waiter (turn_step st l)) eqn:E; [| |by eexists].
    all: assert (not_returned (turn_step st l)) by (unfold not_returned; by rewrite E).
    all: apply IH; [done|by apply turn_step_ok|by apply expired_step|by eapply needs_step].
Qed.

Lemma turn_run_app a b st : not_returned st -> turn_ok st ->
  is_Some (turn_run st a)
  \/ turn_run st (a ++ b) = turn_run (fold_left turn_step a st) b
     /\ not_returned (fold_left turn_step a st) /\ turn_ok (fold_left turn_step a st).
Proof.
  revert st. induction a as [|l a IH]; intros st Hn Hok; [by right|]. cbn [turn_run app fold_left].
  destruct (ts_waiter (turn_step st l)) eqn:E; [| |left; by eexists].
  all: apply IH; [unfold not_returned; by rewrite E|by apply turn_step_ok].
Qed.

Lemma turn_run_prefix a b st : is_Some (turn_run st a) -> is_Some (turn_run st (a ++ b)).
Proof.
  revert st. induction a as [|l a IH]; intros st [? H]; [done|]. cbn [turn_run app] in *.
  destruct (ts_waiter _); [| |by eexists]; apply IH; by eexists.
Qed.
End Turn.

(** ** Fair schedules *)

(** A step after which the turn has expired. *)
Definition expires (deadline : time) (l : turn_label) : Prop :=
  match l with LCtx _ => True | LTick now => deadline <= now | _ => False end.

(** At some point the context is done or the deadline passes; after that the
    watcher is scheduled twice, and then the waiter once. *)
Definition fair_turn (deadline : time) (ls : list turn_label) : Prop :=
  exists a l b, ls = a ++ l :: b /\ expires deadline l /\ [LWatcher; LWatcher; LWaiter] `sublist_of` b.

(** When the envelope was written. *)
Definition turn_start (p : PersistentProcess) (written : time) : turn_state :=
  {| ts_process := p; ts_waiter := AtLock; ts_watcher := InSelect; ts_ctx := None; ts_now := written |}.

Lemma turn_start_ok marker timeout deadline p written : turn_ok marker timeout deadline (turn_start p written).
Proof. by split. Qed.

Lemma expires_expired marker timeout deadline st l :
  expires deadline l -> expired deadline (turn_step marker timeout deadline st l) = true.
Proof.
  unfold expired, late. rewrite orb_true_iff, negb_true_iff, bool_decide_eq_true, Z.ltb_ge.
  destruct l; cbn; try done.
  - intros _. left. destruct (ts_ctx st); by eexists.
  - intros H. right. lia.
Qed.

Lemma needs_few st : needs st `sublist_of` [LWatcher; LWatcher; LWaiter].
Proof.
  unfold needs. destruct (ts_watcher st); [done|by apply sublist_cons|].
  by do 2 apply sublist_cons.
Qed.

(** No schedule that is fair leaves a turn waiting. *)
Lemma fair_turn_returns marker timeout deadline p written ls : fair_turn deadline ls ->
  is_Some (turn_run marker timeout deadline (turn_start p written) ls).
Proof.
  intros (a & l & b & -> & Hl & Hb).
  replace (a ++ l :: b) with ((a ++ [l]) ++ b) by (by rewrite <- app_assoc).
  destruct (turn_run_app marker timeout deadline (a ++ [l]) b (turn_start p written)) as [H|(E & Hn & Hok)];
    [done|apply turn_start_ok|by apply turn_run_prefix|].
  rewrite E. apply expired_returns; [done|done| |].
  - rewrite fold_left_app. by apply expires_expired.
  - etrans; [apply needs_few|done].
Qed.

(** [ConverseTurn] in its threads is [ConverseTurn] in its passes. *)
Definition passes (p : PersistentProcess) (marker timeout : gostring) (written deadline : time) (ls : list turn_label)
    : list wakeup := turn_passes marker timeout deadline (turn_start p written) [] ls.

Lemma passes_run p marker timeout written deadline ls :
  converse_loop p marker timeout (passes p marker timeout written deadline ls)
  = turn_run marker timeout deadline (turn_start p written) ls.
Proof. symmetry. by apply turn_run_passes. Qed.
