(* ===== verification/Ansi.v ===== *)
(** * Linear normalisation of PTY output ([internal/terminal/ansi.go]) *)
From S2P Require Import Prelude GoLib Model.

(** The bytes at which the CSI loop stops. *)
Definition is_letter (c : ascii) : bool :=
  let n := ord c in ((65 <=? n) && (n <=? 90)) || ((97 <=? n) && (n <=? 122)).

(** The inner loop for [ESC \[] and the outer [i++]: what follows the first
    letter. *)
Fixpoint skip_csi (s : gostring) : gostring :=
  match s with
  | [] => []
  | c :: r => if is_letter c then r else skip_csi r
  end.

(** The inner loop for [ESC \]]: what follows BEL or [ESC \ ]. *)
Fixpoint skip_osc (s : gostring) : gostring :=
  match s with
  | [] => []
  | c :: r =>
      if ord c =? 7 then r
      else match r with
           | d :: r2 => if ceq c ESC && ceq d BSL then r2 else skip_osc r
           | [] => []
           end
  end.

(** The default case: the bytes that are written out. *)
Definition visible (c : ascii) : bool :=
  ceq c TAB || ceq c LF || ((32 <=? ord c) && negb (ord c =? 127)).

Fixpoint norm_loop (fuel : nat) (data : gostring) : gostring :=
  match fuel with
  | O => []
  | S fuel =>
      match data with
      | [] => []
      | b :: r =>
          if ceq b ESC then
            match r with
            | [] => norm_loop fuel r
            | c :: r2 =>
                if ceq c "[" then norm_loop fuel (skip_csi r2)
                else if ceq c "]" then norm_loop fuel (skip_osc r2)
                else norm_loop fuel r2
            end
          else if ceq b CR then
            match r with
            | c :: _ => if ceq c LF then norm_loop fuel r else LF :: norm_loop fuel r
            | [] => LF :: norm_loop fuel r
            end
          else if ord b =? 0 then norm_loop fuel r
          else if visible b then b :: norm_loop fuel r
          else norm_loop fuel r
      end
  end.

(** Every round of the outer loop consumes a byte. *)
Definition NormalizePTYText (raw : gostring) : gostring :=
  ReplaceAll (norm_loop (length raw) raw) [CR; LF] [LF].

(** ** Lemmas *)

Lemma skip_csi_length s : (length (skip_csi s) <= length s)%nat.
Proof. induction s as [|c s IH]; simpl; [done|]. destruct (is_letter c); simpl; lia. Qed.

Lemma skip_osc_length s : (length (skip_osc s) <= length s)%nat.
Proof.
  induction s as [|c s IH]; cbn [skip_osc]; [done|]. destruct (ord c =? 7); [simpl; lia|].
  destruct s as [|d s]; [simpl; lia|]. destruct (_ && _); cbn [length] in *; lia.
Qed.

(** More fuel than bytes changes nothing. *)
Lemma norm_loop_fuel f g data :
  (length data <= f)%nat -> (length data <= g)%nat -> norm_loop f data = norm_loop g data.
Proof.
  revert g data. induction f as [|f IH]; intros g data Hf Hg.
  - destruct data; [|simpl in Hf; lia]. by destruct g.
  - destruct data as [|b r]; [by destruct g|]. destruct g as [|g]; [simpl in Hg; lia|].
    simpl in Hf, Hg. cbn [norm_loop]. destruct (ceq b ESC).
    + destruct r as [|c r2]; [apply IH; simpl in *; lia|]. simpl in Hf, Hg.
      pose proof (skip_csi_length r2). pose proof (skip_osc_length r2).
      destruct (ceq c "["); [apply IH; lia|]. destruct (ceq c "]"); apply IH; lia.
    + assert (norm_loop f r = norm_loop g r) as -> by (apply IH; lia). done.
Qed.

Lemma norm_loop_visible f data : Forall (fun c => visible c = true) (norm_loop f data).
Proof.
  revert data. induction f as [|f IH]; intros data; cbn [norm_loop]; [by apply Forall_nil|].
  destruct data as [|b r]; [by apply Forall_nil|].
  destruct (ceq b ESC); [case_match; [done|]; split_ifs; done|].
  destruct (ceq b CR).
  { case_match; [by constructor|]. split_ifs; [done|by constructor]. }
  destruct (ord b =? 0); [done|]. destruct (visible b) eqn:E; [by constructor|done].
Qed.

Lemma visible_not_control c :
  visible c = true -> ceq c ESC = false /\ ceq c CR = false /\ (ord c =? 0) = false.
Proof.
  intros H. split_and!; [..|apply Z.eqb_neq; intros E];
    [apply ceq_false; intros ->; done|apply ceq_false; intros ->; done|].
  rewrite <- (chr_ord c), E in H. done.
Qed.

Lemma visible_no_crlf s :
  Forall (fun c => visible c = true) s -> Contains s [CR; LF] = false.
Proof.
  intros Hs. unfold Contains. destruct (Index s [CR; LF]) as [i|] eqn:E; [|done].
  apply Index_Some in E as ([t Ht]%HasPrefix_spec & _ & _). exfalso.
  assert (CR ∈ s) as Hin.
  { rewrite <- (take_drop i s), Ht. apply elem_of_app. right. left. }
  rewrite Forall_forall in Hs. by specialize (Hs _ Hin).
Qed.

(** The final [ReplaceAll] never finds anything to replace. *)
Lemma NormalizePTYText_loop raw f :
  (length raw <= f)%nat -> NormalizePTYText raw = norm_loop f raw.
Proof.
  intros Hf. unfold NormalizePTYText. rewrite ReplaceAll_absent.
  - by apply norm_loop_fuel.
  - apply visible_no_crlf, norm_loop_visible.
Qed.

Lemma norm_loop_plain s rest f :
  Forall (fun c => visible c = true) s -> (length s + length rest <= f)%nat ->
  norm_loop f (s ++ rest) = s ++ norm_loop f rest.
Proof.
  intros Hs. revert f. induction Hs as [|c s Hc _ IH]; intros f Hf; [done|].
  simpl in Hf. destruct f as [|f]; [lia|]. cbn [app norm_loop].
  destruct (visible_not_control _ Hc) as (-> & -> & ->). rewrite Hc, IH by lia. f_equal.
  f_equal. apply (norm_loop_fuel f (S f)); lia.
Qed.

Lemma skip_csi_params params final rest :
  Forall (fun c => is_letter c = false) params -> is_letter final = true ->
  skip_csi (params ++ final :: rest) = rest.
Proof.
  intros Hp Hf. induction Hp as [|c params Hc _ IH]; simpl; [by rewrite Hf|by rewrite Hc].
Qed.

(** ** Properties *)

(** The normalised text is plain: every byte is a tab, a newline or a
    printable byte (so no escape, carriage return or NUL survives), plain text is
    left alone, and normalising twice is normalising once. *)
Theorem NormalizePTYText_plain raw :
  Forall (fun c => visible c = true) (NormalizePTYText raw)
  /\ NormalizePTYText (NormalizePTYText raw) = NormalizePTYText raw
  /\ (Forall (fun c => visible c = true) raw -> NormalizePTYText raw = raw).
Proof.
  assert (forall s, Forall (fun c => visible c = true) s -> NormalizePTYText s = s) as Hid.
  { intros s Hs. rewrite (NormalizePTYText_loop s (length s)) by done.
    rewrite <- (app_nil_r s) at 2. rewrite norm_loop_plain by (simpl; lia || done).
    destruct (length s); by rewrite app_nil_r. }
  assert (Forall (fun c => visible c = true) (NormalizePTYText raw)) as Hv.
  { rewrite (NormalizePTYText_loop raw (length raw)) by done. apply norm_loop_visible. }
  split_and!; [done|by apply Hid|apply Hid].
Qed.

(** A control sequence [ESC \[ params final] whose final byte is a letter
    disappears without touching the text on either side; one whose final byte is
    not a letter (such as the [~] of a bracketed paste) is not recognised as
    ended, and everything up to and including the next letter of the text is
    dropped with it. *)
Theorem NormalizePTYText_csi text params final rest :
  Forall (fun c => visible c = true) text ->
  Forall (fun c => is_letter c = false) params ->
  is_letter final = true ->
  NormalizePTYText (text ++ ESC :: "[" ++ params ++ final :: rest)
    = text ++ NormalizePTYText rest.
Proof.
  intros Ht Hp Hf.
  set (raw := text ++ ESC :: "[" ++ params ++ final :: rest).
  rewrite (NormalizePTYText_loop raw (S (length raw))) by lia.
  rewrite (NormalizePTYText_loop rest (length raw)) by
    (unfold raw; rewrite !length_app; simpl; rewrite length_app; simpl; lia).
  unfold raw at 2. rewrite norm_loop_plain; [|done|].
  - f_equal. cbn [norm_loop app]. rewrite !ceq_refl. by rewrite skip_csi_params.
  - unfold raw. rewrite !length_app. lia.
Qed.

(** The bracketed-paste bracket: the tilde ends the sequence for a terminal, the
    normaliser takes the letter after it. *)
Example NormalizePTYText_csi_witness :
  NormalizePTYText ("ok " ++ ESC :: "[31m" ++ "red") = "ok red"
  /\ NormalizePTYText (ESC :: "[" ++ "200~" ++ "h" ++ "ello") = "ello".
Proof.
  split.
  - apply (NormalizePTYText_csi "ok " "31" "m" "red");
      [..|reflexivity]; apply Forall_forall; intros x Hx;
      repeat (apply elem_of_cons in Hx as [->|Hx]; [reflexivity|]);
      by apply not_elem_of_nil in Hx.
  - apply (NormalizePTYText_csi [] "200~" "h" "ello");
      [..|reflexivity]; apply Forall_forall; intros x Hx;
      repeat (apply elem_of_cons in Hx as [->|Hx]; [reflexivity|]);
      by apply not_elem_of_nil in Hx.
Defined.
