(* ===== verification/Screen.v ===== *)
(** * The screen emulator ([internal/terminal/screen.go])

    A VT100 screen buffer with scroll regions.  Operations live in [option]:
    [None] is a Go run-time panic (an index or slice bound out of range).  Rows
    are values: the scroll operations move row slices, but they leave no two
    indices of [s.rows] on one backing array, since every vacated index gets a
    fresh row.  [int] arithmetic wraps at 64 bits. *)
From S2P Require Import Prelude GoLib Model.

Abbreviation rune := Z.
Abbreviation row := (list rune).

Record Screen := {
  cols : Z;
  height : Z;
  rows : list row;
  curRow : Z;
  curCol : Z;
  saved : Z * Z;
  scrollTop : Z;
  scrollBot : Z;
}.

Definition NewScreen (cols height : Z) : Screen :=
  let cols := if cols <=? 0 then 80 else cols in
  {| cols := cols; height := height; rows := []; curRow := 0; curCol := 0;
     saved := (0, 0); scrollTop := 0;
     scrollBot := if 0 <? height then height - 1 else 0 |}.

Definition set_cursor (s : Screen) (r c : Z) : Screen :=
  {| cols := cols s; height := height s; rows := rows s; curRow := r; curCol := c;
     saved := saved s; scrollTop := scrollTop s; scrollBot := scrollBot s |}.

Definition set_rows (s : Screen) (rs : list row) : Screen :=
  {| cols := cols s; height := height s; rows := rs; curRow := curRow s;
     curCol := curCol s; saved := saved s; scrollTop := scrollTop s;
     scrollBot := scrollBot s |}.

Definition set_saved (s : Screen) (p : Z * Z) : Screen :=
  {| cols := cols s; height := height s; rows := rows s; curRow := curRow s;
     curCol := curCol s; saved := p; scrollTop := scrollTop s; scrollBot := scrollBot s |}.

Definition set_region (s : Screen) (top bot : Z) : Screen :=
  {| cols := cols s; height := height s; rows := rows s; curRow := curRow s;
     curCol := curCol s; saved := saved s; scrollTop := top; scrollBot := bot |}.

(** ** Indexed access with Go's bounds checks *)
Definition zlen {A} (l : list A) : Z := Z.of_nat (length l).

Definition at_ {A} (l : list A) (i : Z) : option A :=
  if (0 <=? i) && (i <? zlen l) then l !! Z.to_nat i else None.

Definition set_at {A} (l : list A) (i : Z) (x : A) : option (list A) :=
  if (0 <=? i) && (i <? zlen l) then Some (<[Z.to_nat i := x]> l) else None.

(** [for j := from; j < to; j++ { l\[j\] = x }] *)
Definition fill {A} (l : list A) (from to : Z) (x : A) : option (list A) :=
  if to <=? from then Some l
  else if (0 <=? from) && (to <=? zlen l)
       then Some (take (Z.to_nat from) l ++ replicate (Z.to_nat (to - from)) x
                  ++ drop (Z.to_nat to) l)
       else None.

(** [for j := from; j < to; j++ { s.rows\[r\]\[j\] = SP }] *)
Definition blank_cells (rs : list row) (r from to : Z) : option (list row) :=
  if to <=? from then Some rs
  else l ← at_ rs r; l' ← fill l from to 32; set_at rs r l'.

Definition newBlankRow (s : Screen) : row := replicate (Z.to_nat (cols s)) 32.

Definition ensureRow (s : Screen) (r : Z) : Screen :=
  set_rows s (rows s ++ replicate (Z.to_nat (r + 1 - zlen (rows s))) (newBlankRow s)).

Definition writeRune (s : Screen) (r : rune) : option Screen :=
  let s := if curRow s <? 0 then set_cursor s 0 (curCol s) else s in
  let s := ensureRow s (curRow s) in
  rs ← (if (0 <=? curCol s) && (curCol s <? cols s) then
          l ← at_ (rows s) (curRow s);
          l' ← set_at l (curCol s) r;
          set_at (rows s) (curRow s) l'
        else Some (rows s));
  let s := set_rows s rs in
  let c := wrap64 (curCol s + 1) in
  Some (if cols s <=? c then set_cursor s (wrap64 (curRow s + 1)) 0
        else set_cursor s (curRow s) c).

(** ** Scrolling *)

(** [for i := i0; ...; i += d { rows\[top+i\] = rows\[top+i+off\] }], [cnt] times. *)
Fixpoint shift_rows (cnt : nat) (i d off : Z) (rs : list row) : option (list row) :=
  match cnt with
  | O => Some rs
  | S cnt =>
      l ← at_ rs (i + off);
      rs' ← set_at rs i l;
      shift_rows cnt (i + d) d off rs'
  end.

Definition doScrollUp (s : Screen) (n : Z) : option Screen :=
  if (n <=? 0) || (height s =? 0) then Some s
  else
    let s := ensureRow s (scrollBot s) in
    let regionSize := scrollBot s - scrollTop s + 1 in
    let n := if regionSize <=? n then regionSize else n in
    rs ← shift_rows (Z.to_nat (regionSize - n)) (scrollTop s) 1 n (rows s);
    rs ← fill rs (scrollTop s + (regionSize - n)) (scrollTop s + regionSize) (newBlankRow s);
    Some (set_rows s rs).

Definition doScrollDown (s : Screen) (n : Z) : option Screen :=
  if (n <=? 0) || (height s =? 0) then Some s
  else
    let s := ensureRow s (scrollBot s) in
    let regionSize := scrollBot s - scrollTop s + 1 in
    let n := if regionSize <=? n then regionSize else n in
    rs ← shift_rows (Z.to_nat (regionSize - n)) (scrollTop s + regionSize - 1) (-1) (- n)
           (rows s);
    rs ← fill rs (scrollTop s) (scrollTop s + n) (newBlankRow s);
    Some (set_rows s rs).

(** ** CSI parameters *)
Definition clamp (v lo hi : Z) : Z := if v <? lo then lo else if hi <? v then hi else v.

Definition parseOne (params : gostring) (def : Z) : Z :=
  let p := TrimLeft params "?" in
  let p := match Index p ";" with Some idx => take idx p | None => p end in
  if bool_decide (p = []) then def
  else match Atoi p with
       | Some v => if v =? 0 then def else v
       | None => def
       end.

(** A field of [parseTwo]: a positive number, or the default. *)
Definition pos_or (p : gostring) (def : Z) : Z :=
  match Atoi p with
  | Some v => if 0 <? v then v else def
  | None => def
  end.

Definition parseTwo (params : gostring) (defA defB : Z) : Z * Z :=
  let '(a, b, _) := Cut params ";" in (pos_or a defA, pos_or b defB).

(** [copy(row\[c:\], row\[e:\])]: a move inside one slice. *)
Definition copy_within (l : row) (c e : Z) : option row :=
  if (0 <=? c) && (c <=? zlen l) && (0 <=? e) && (e <=? zlen l) then
    let c := Z.to_nat c in let e := Z.to_nat e in
    let src := take (length l - c) (drop e l) in
    Some (take c l ++ src ++ drop (c + length src) l)
  else None.

(** [for row := from; row < len(s.rows); row++]: blank whole rows. *)
Definition blank_row (l : row) : row := replicate (length l) 32.

Definition blank_rows (rs : list row) (from to : Z) : option (list row) :=
  if to <=? from then Some rs
  else if (0 <=? from) && (to <=? zlen rs)
       then Some (take (Z.to_nat from) rs
                  ++ (blank_row <$> take (Z.to_nat (to - from)) (drop (Z.to_nat from) rs))
                  ++ drop (Z.to_nat to) rs)
       else None.

(** ED, [ESC \[ n J] *)
Definition erase_display (s : Screen) (n : Z) : option Screen :=
  let len := zlen (rows s) in
  if n =? 0 then
    if curRow s <? len then
      rs ← blank_cells (rows s) (curRow s) (curCol s) (cols s);
      rs ← blank_rows rs (curRow s + 1) len;
      Some (set_rows s rs)
    else Some s
  else if n =? 1 then
    rs ← blank_rows (rows s) 0 (Z.min (curRow s) len);
    rs ← (if curRow s <? len
          then blank_cells rs (curRow s) 0 (Z.min (curCol s + 1) (cols s))
          else Some rs);
    Some (set_rows s rs)
  else if (n =? 2) || (n =? 3) then Some (set_rows s (blank_row <$> rows s))
  else Some s.

(** EL, [ESC \[ n K] *)
Definition erase_line (s : Screen) (n : Z) : option Screen :=
  if curRow s <? zlen (rows s) then
    if n =? 0 then
      rs ← blank_cells (rows s) (curRow s) (curCol s) (cols s); Some (set_rows s rs)
    else if n =? 1 then
      rs ← blank_cells (rows s) (curRow s) 0 (Z.min (curCol s + 1) (cols s));
      Some (set_rows s rs)
    else if n =? 2 then
      l ← at_ (rows s) (curRow s);
      rs ← set_at (rows s) (curRow s) (blank_row l);
      Some (set_rows s rs)
    else Some s
  else Some s.

(** DCH, [ESC \[ n P] *)
Definition delete_chars (s : Screen) (n : Z) : option Screen :=
  if curRow s <? zlen (rows s) then
    l ← at_ (rows s) (curRow s);
    let end_ := Z.min (wrap64 (curCol s + n)) (cols s) in
    l ← copy_within l (curCol s) end_;
    l ← fill l (Z.max 0 (wrap64 (cols s - n))) (cols s) 32;
    rs ← set_at (rows s) (curRow s) l;
    Some (set_rows s rs)
  else Some s.

(** DECSTBM, [ESC \[ top ; bot r] *)
Definition set_margins (s : Screen) (params : gostring) : Screen :=
  if 0 <? height s then
    let '(top, bot) := parseTwo params 1 (height s) in
    let top := clamp (top - 1) 0 (height s - 1) in
    let bot := clamp (bot - 1) 0 (height s - 1) in
    let s := if bot <=? top then set_region s 0 (height s - 1) else set_region s top bot in
    set_cursor s 0 0
  else s.

Definition handleCSI (s : Screen) (params : gostring) (final : ascii) : option Screen :=
  let n := parseOne params 1 in
  let r := curRow s in
  let c := curCol s in
  if ceq final "H" || ceq final "f" then
    let '(row, col) := parseTwo params 1 1 in
    Some (set_cursor s (clamp (row - 1) 0 65535) (clamp (col - 1) 0 (cols s - 1)))
  else if ceq final "A" then Some (set_cursor s (Z.max 0 (wrap64 (r - n))) c)
  else if ceq final "B" then Some (set_cursor s (wrap64 (r + n)) c)
  else if ceq final "C" then Some (set_cursor s r (Z.min (cols s - 1) (wrap64 (c + n))))
  else if ceq final "D" then Some (set_cursor s r (Z.max 0 (wrap64 (c - n))))
  else if ceq final "E" then Some (set_cursor s (wrap64 (r + n)) 0)
  else if ceq final "F" then Some (set_cursor s (Z.max 0 (wrap64 (r - n))) 0)
  else if ceq final "G" then
    Some (set_cursor s r (clamp (wrap64 (n - 1)) 0 (cols s - 1)))
  else if ceq final "d" then Some (set_cursor s (clamp (wrap64 (n - 1)) 0 65535) c)
  else if ceq final "J" then erase_display s (parseOne params 0)
  else if ceq final "K" then erase_line s (parseOne params 0)
  else if ceq final "P" then delete_chars s n
  else if ceq final "s" then Some (set_saved s (r, c))
  else if ceq final "u" then Some (set_cursor s (fst (saved s)) (snd (saved s)))
  else if ceq final "r" then Some (set_margins s params)
  else if ceq final "S" then doScrollUp s n
  else if ceq final "T" then doScrollDown s n
  else Some s.

(** ** [Write]: one iteration of the byte loop *)
Inductive token :=
| TSkip
| TCSI (params : gostring) (final : ascii)
| TCR
| TLF
| TBS
| TRune (r : rune).

(** The parameter bytes of a CSI sequence are those below 0x40. *)
Fixpoint span_params (s : gostring) : gostring * gostring :=
  match s with
  | [] => ([], [])
  | c :: r =>
      if ord c <? 64 then let '(p, q) := span_params r in (c :: p, q) else ([], s)
  end.

Fixpoint osc_rest (s : gostring) : gostring :=
  match s with
  | [] => []
  | c :: r =>
      if ord c =? 7 then r
      else match r with
           | d :: r2 => if ceq c ESC && ceq d BSL then r2 else osc_rest r
           | [] => []
           end
  end.

(** What the bytes at the head of the data ask for, and the data after them. *)
Definition next_token (b : ascii) (r : gostring) : token * gostring :=
  if ceq b ESC then
    match r with
    | [] => (TSkip, [])
    | c :: r2 =>
        if ceq c "[" then
          let '(params, q) := span_params r2 in
          match q with
          | [] => (TSkip, [])
          | final :: q => (TCSI params final, q)
          end
        else if ceq c "]" then (TSkip, osc_rest r2)
        else if ceq c "(" || ceq c ")" then (TSkip, drop 1 r2)
        else (TSkip, r2)
    end
  else if ceq b CR then (TCR, r)
  else if ceq b LF then (TLF, r)
  else if ord b =? 8 then (TBS, r)
  else if ord b <? 32 then (TSkip, r)
  else
    let '(ru, size) := DecodeRune (b :: r) in
    if (ru =? RuneError) && (size =? 1)%nat then (TSkip, r)
    else (TRune ru, drop (size - 1) r).

Definition apply_token (s : Screen) (t : token) : option Screen :=
  match t with
  | TSkip => Some s
  | TCSI params final => handleCSI s params final
  | TCR => Some (set_cursor s (curRow s) 0)
  | TLF =>
      if (0 <? height s) && (curRow s =? scrollBot s) then doScrollUp s 1
      else Some (set_cursor s (wrap64 (curRow s + 1)) (curCol s))
  | TBS => Some (if 0 <? curCol s then set_cursor s (curRow s) (curCol s - 1) else s)
  | TRune r => writeRune s r
  end.

(** The tokens of the data; every token takes at least one byte. *)
Fixpoint tokens (fuel : nat) (data : gostring) : list token :=
  match fuel, data with
  | S fuel, b :: r => let '(t, q) := next_token b r in t :: tokens fuel q
  | _, _ => []
  end.

Definition apply_tokens (s : Screen) (ts : list token) : option Screen :=
  foldl (fun o t => s ← o; apply_token s t) (Some s) ts.

Definition Write (s : Screen) (data : gostring) : option Screen :=
  apply_tokens s (tokens (length data) data).

(** ** [Lines], [Content] *)
Definition row_string (l : row) : gostring := l ≫= EncodeRune.

Definition Lines (s : Screen) : list gostring :=
  drop_while_end (fun l => bool_decide (l = []))
    ((fun l => TrimRight (row_string l) [SP]) <$> rows s).

Definition Content (s : Screen) : gostring := Join (Lines s) [LF].

(** ** Lemmas on indexed access *)

Lemma at_Some {A} (l : list A) i : 0 <= i < zlen l -> exists x, at_ l i = Some x /\ l !! Z.to_nat i = Some x.
Proof.
  unfold at_, zlen. intros H. rewrite (proj2 (andb_true_iff _ _)) by lia.
  destruct (lookup_lt_is_Some_2 l (Z.to_nat i)) as [x Hx]; [lia|]. eauto.
Qed.

Lemma set_at_Some {A} (l : list A) i x :
  0 <= i < zlen l -> set_at l i x = Some (<[Z.to_nat i := x]> l).
Proof. unfold set_at. intros H. by rewrite (proj2 (andb_true_iff _ _)) by lia. Qed.

Lemma fill_Some {A} (l : list A) from to x :
  0 <= from -> to <= zlen l ->
  exists l', fill l from to x = Some l' /\ zlen l' = zlen l.
Proof.
  unfold fill, zlen. intros H1 H2. destruct (Z.leb_spec to from); [by eexists|].
  rewrite (proj2 (andb_true_iff _ _)) by lia. eexists. split; [done|].
  rewrite !length_app, length_take, length_replicate, length_drop. lia.
Qed.

Lemma at_Forall {A} (P : A -> Prop) (l : list A) i x :
  Forall P l -> at_ l i = Some x -> P x.
Proof.
  unfold at_. intros HP. destruct (_ && _); [|done]. rewrite Forall_lookup in HP. apply HP.
Qed.

Lemma take_insert_S {A} (l : list A) i x :
  (i < length l)%nat -> take (S i) (<[i:=x]> l) = take i l ++ [x].
Proof.
  intros H. rewrite (take_S_r _ _ x) by by apply list_lookup_insert_eq.
  by rewrite take_insert_ge by lia.
Qed.

(** The upward move of a block of rows is a [copy]. *)
Lemma shift_rows_up cnt i off (rs : list row) :
  0 <= i -> 0 < off -> i + off + Z.of_nat cnt <= zlen rs ->
  shift_rows cnt i 1 off rs =
    Some (take (Z.to_nat i) rs ++ take cnt (drop (Z.to_nat (i + off)) rs)
          ++ drop (Z.to_nat i + cnt) rs).
Proof.
  unfold zlen. revert i rs. induction cnt as [|cnt IH]; intros i rs Hi Ho Hl.
  - cbn [shift_rows]. rewrite take_0, Nat.add_0_r. cbn [app]. by rewrite take_drop.
  - cbn [shift_rows]. destruct (at_Some rs (i + off)) as (l & -> & Hl'); [unfold zlen; lia|].
    cbn [mbind option_bind]. rewrite set_at_Some by (unfold zlen; lia).
    cbn [mbind option_bind]. rewrite IH by (rewrite ?length_insert; lia).
    replace (Z.to_nat (i + 1)) with (S (Z.to_nat i)) by lia.
    rewrite take_insert_S by lia. rewrite !drop_insert_lt by lia.
    rewrite <- app_assoc. do 2 f_equal.
    rewrite (drop_S rs l (Z.to_nat (i + off))) by done. cbn [app take]. f_equal.
    f_equal; f_equal; [f_equal; lia|lia].
Qed.

Lemma shift_rows_down cnt i off (rs : list row) :
  0 <= i + 1 - Z.of_nat cnt - off -> 0 < off -> i < zlen rs ->
  shift_rows cnt i (-1) (- off) rs =
    Some (take (Z.to_nat (i + 1) - cnt) rs
          ++ take cnt (drop (Z.to_nat (i + 1) - cnt - Z.to_nat off) rs)
          ++ drop (Z.to_nat (i + 1)) rs).
Proof.
  unfold zlen. revert i rs. induction cnt as [|cnt IH]; intros i rs Hi Ho Hl.
  - cbn [shift_rows]. rewrite take_0, Nat.sub_0_r. cbn [app]. by rewrite take_drop.
  - cbn [shift_rows]. destruct (at_Some rs (i + - off)) as (l & -> & Hl'); [unfold zlen; lia|].
    cbn [mbind option_bind]. rewrite set_at_Some by (unfold zlen; lia).
    cbn [mbind option_bind]. rewrite IH by (rewrite ?length_insert; lia).
    set (k := (Z.to_nat (i + 1) - S cnt)%nat).
    assert (Z.to_nat (i + -1 + 1) - cnt = k)%nat as -> by (unfold k; lia).
    assert (Z.to_nat (i + -1 + 1) = Z.to_nat i) as -> by lia.
    assert (Z.to_nat (i + 1) = S (Z.to_nat i)) as -> by lia.
    rewrite take_insert_ge by (unfold k; lia). f_equal. f_equal.
    replace (drop (Z.to_nat i) (<[Z.to_nat i:=l]> rs)) with (l :: drop (S (Z.to_nat i)) rs).
    2: { symmetry. rewrite (drop_S _ l) by (apply list_lookup_insert_eq; lia).
         by rewrite drop_insert_lt by lia. }
    change (l :: drop (S (Z.to_nat i)) rs) with ([l] ++ drop (S (Z.to_nat i)) rs).
    rewrite app_assoc. f_equal.
    assert (Z.to_nat i = k + cnt)%nat as Eik by (unfold k; lia).
    rewrite (take_S_r _ cnt l).
    + f_equal. rewrite !skipn_firstn_comm || idtac.
      apply list_eq. intros j. destruct (decide (j < cnt)%nat).
      * rewrite !lookup_take_lt by lia. rewrite !lookup_drop, list_lookup_insert_ne by lia. done.
      * rewrite !lookup_take_ge by lia. done.
    + rewrite lookup_drop, <- Hl'. f_equal. unfold k in *. lia.
Qed.

(** ** The screen invariant *)

(** [B] bounds the rows the cursor has reached. *)
Record screen_ok (B : Z) (s : Screen) : Prop := {
  ok_cols : 0 < cols s < 2 ^ 31;
  ok_height : - 2 ^ 31 < height s < 2 ^ 31;
  ok_rows : Forall (fun l => zlen l = cols s) (rows s);
  ok_row : 0 <= curRow s <= B;
  ok_col : 0 <= curCol s < cols s;
  ok_saved : 0 <= fst (saved s) <= B /\ 0 <= snd (saved s) < cols s;
  ok_region : 0 <= scrollTop s <= scrollBot s /\ scrollBot s <= Z.max 0 (height s - 1);
}.

Lemma zlen_replicate {A} n (x : A) : 0 <= n -> zlen (replicate (Z.to_nat n) x) = n.
Proof. intros H. unfold zlen. rewrite length_replicate. lia. Qed.

Lemma NewScreen_ok c h :
  c < 2 ^ 31 -> - 2 ^ 31 < h < 2 ^ 31 -> screen_ok 0 (NewScreen c h).
Proof.
  intros Hc Hh. unfold NewScreen.
  assert (0 < (if c <=? 0 then 80 else c) < 2 ^ 31) as Hcols by (destruct (Z.leb_spec c 0); lia).
  constructor; cbn [cols height rows curRow curCol saved scrollTop scrollBot fst snd]; try lia.
  - by apply Forall_nil.
  - destruct (Z.ltb_spec 0 h); lia.
Qed.

Lemma screen_ok_weaken B B' s : B <= B' -> screen_ok B s -> screen_ok B' s.
Proof. intros HB []. constructor; try done; lia. Qed.

Lemma set_cursor_ok B s r c :
  screen_ok B s -> 0 <= r <= B -> 0 <= c < cols s -> screen_ok B (set_cursor s r c).
Proof. intros [] Hr Hc. constructor; cbn; try done; lia. Qed.

Lemma set_rows_ok B s rs :
  screen_ok B s -> Forall (fun l => zlen l = cols s) rs -> screen_ok B (set_rows s rs).
Proof. intros [] Hr. by constructor. Qed.

Lemma ensureRow_ok B s r : screen_ok B s -> screen_ok B (ensureRow s r).
Proof.
  intros Hok. apply set_rows_ok; [done|]. apply Forall_app. split; [apply Hok|].
  apply Forall_replicate. unfold newBlankRow. apply zlen_replicate.
  pose proof (ok_cols _ _ Hok). lia.
Qed.

Lemma ensureRow_length s r : r < zlen (rows (ensureRow s r)).
Proof.
  unfold ensureRow, zlen. cbn [rows set_rows]. rewrite length_app, length_replicate. lia.
Qed.

Lemma set_at_ok {A} (P : A -> Prop) l i x l' :
  Forall P l -> P x -> set_at l i x = Some l' -> Forall P l' /\ zlen l' = zlen l.
Proof.
  unfold set_at. destruct (_ && _); [|done]. intros Hl Hx [= <-].
  split; [by apply Forall_insert|]. unfold zlen. by rewrite length_insert.
Qed.

Lemma blank_cells_ok B s from to :
  screen_ok B s -> 0 <= from -> to <= cols s -> curRow s < zlen (rows s) ->
  forall rs, Forall (fun l => zlen l = cols s) rs -> zlen rs = zlen (rows s) ->
  exists rs', blank_cells rs (curRow s) from to = Some rs'
  /\ Forall (fun l => zlen l = cols s) rs' /\ zlen rs' = zlen (rows s).
Proof.
  intros Hok Hf Ht Hr rs Hrs Hlen. unfold blank_cells.
  destruct (Z.leb_spec to from); [by eexists|].
  pose proof (ok_row _ _ Hok). destruct (at_Some rs (curRow s)) as (l & E & _); [lia|].
  rewrite E. cbn [mbind option_bind]. pose proof (at_Forall _ _ _ _ Hrs E) as Hl. cbn in Hl.
  destruct (fill_Some l from to 32) as (l' & -> & Hl'); [lia|lia|]. cbn [mbind option_bind].
  rewrite set_at_Some by lia. eexists. split; [done|]. split.
  - apply Forall_insert; [done|congruence].
  - unfold zlen in *. by rewrite length_insert.
Qed.

Lemma blank_row_zlen l : zlen (blank_row l) = zlen l.
Proof. unfold zlen, blank_row. by rewrite length_replicate. Qed.

Lemma blank_rows_ok (P : row -> Prop) rs from to :
  (forall l, P l -> P (blank_row l)) -> Forall P rs -> 0 <= from -> to <= zlen rs ->
  exists rs', blank_rows rs from to = Some rs' /\ Forall P rs' /\ zlen rs' = zlen rs.
Proof.
  intros HP Hrs Hf Ht. unfold blank_rows. destruct (Z.leb_spec to from); [by eexists|].
  rewrite (proj2 (andb_true_iff _ _)) by lia. eexists. split; [done|]. split.
  - repeat apply Forall_app_2; [by apply Forall_take| |by apply Forall_drop].
    apply Forall_fmap. eapply Forall_impl; [by apply Forall_take, Forall_drop|]. exact HP.
  - unfold zlen in *. rewrite !length_app, length_fmap, !length_take, !length_drop. lia.
Qed.

Lemma writeRune_ok B s r :
  screen_ok B s -> B < 2 ^ 62 ->
  exists s', writeRune s r = Some s' /\ screen_ok (B + 1) s'.
Proof.
  intros Hok HB. unfold writeRune. pose proof (ok_row _ _ Hok) as Hr.
  rewrite (proj2 (Z.ltb_ge _ _)) by lia. cbv zeta.
  pose proof (ensureRow_ok _ _ (curRow s) Hok) as Hok2.
  pose proof (ensureRow_length s (curRow s)) as Hlen.
  set (s2 := ensureRow s (curRow s)) in *.
  change (curRow s) with (curRow s2) in Hlen, Hr. clearbody s2.
  pose proof (ok_col _ _ Hok2) as Hc. pose proof (ok_cols _ _ Hok2) as Hcs.
  rewrite (proj2 (andb_true_iff _ _)) by lia.
  destruct (at_Some (rows s2) (curRow s2)) as (l & E & _); [lia|]. rewrite E.
  cbn [mbind option_bind]. pose proof (at_Forall _ _ _ _ (ok_rows _ _ Hok2) E) as Hl.
  cbn in Hl. rewrite set_at_Some by lia. cbn [mbind option_bind].
  rewrite set_at_Some by lia. cbn [mbind option_bind].
  eexists. split; [done|]. cbn [curRow curCol cols set_rows].
  rewrite !wrap64_id by (unfold is_int, MinInt, MaxInt; lia).
  apply (screen_ok_weaken B (B + 1)) in Hok2; [|lia].
  assert (Forall (fun x => zlen x = cols s2)
    (<[Z.to_nat (curRow s2):=<[Z.to_nat (curCol s2):=r]> l]> (rows s2))) as Hf.
  { apply Forall_insert; [apply Hok2|]. unfold zlen in *. by rewrite length_insert. }
  destruct (Z.leb_spec (cols s2) (curCol s2 + 1)); apply set_cursor_ok; cbn; try lia;
    by apply set_rows_ok.
Qed.

(** ** Scrolling, functionally *)

Definition region_rows (s : Screen) : list row := rows (ensureRow s (scrollBot s)).

Lemma fill_blank {A} (rs : list A) (from to : Z) b :
  0 <= from <= to -> to <= zlen rs ->
  fill rs from to b = Some (take (Z.to_nat from) rs ++ replicate (Z.to_nat (to - from)) b
                            ++ drop (Z.to_nat to) rs).
Proof.
  intros H1 H2. unfold fill. destruct (Z.leb_spec to from).
  - replace to with from by lia. rewrite Z.sub_diag. change (replicate (Z.to_nat 0) b) with (@nil A).
    by rewrite app_nil_l, take_drop.
  - by rewrite (proj2 (andb_true_iff _ _)) by lia.
Qed.

Lemma doScrollUp_rows B s n :
  screen_ok B s -> 0 < n -> height s <> 0 ->
  let top := Z.to_nat (scrollTop s) in
  let size := Z.to_nat (scrollBot s - scrollTop s + 1) in
  let k := (Z.to_nat n `min` size)%nat in
  let R := region_rows s in
  doScrollUp s n = Some (set_rows s
    (take top R ++ take (size - k) (drop (top + k) R) ++ replicate k (newBlankRow s)
     ++ drop (top + size) R)).
Proof.
  intros Hok Hn Hh top size k R. pose proof (ok_region _ _ Hok) as [Hreg _].
  pose proof (ensureRow_length s (scrollBot s)) as HR.
  change (rows (ensureRow s (scrollBot s))) with R in HR.
  unfold doScrollUp. rewrite (proj2 (orb_false_iff _ _)) by (split; lia). cbv zeta.
  change (rows (ensureRow s (scrollBot s))) with R.
  change (scrollBot (ensureRow s (scrollBot s))) with (scrollBot s).
  change (scrollTop (ensureRow s (scrollBot s))) with (scrollTop s).
  change (newBlankRow (ensureRow s (scrollBot s))) with (newBlankRow s).
  set (sz := scrollBot s - scrollTop s + 1) in *.
  set (m := if sz <=? n then sz else n).
  assert (m = Z.of_nat k) as Hm by (unfold m, k, size; destruct (Z.leb_spec sz n); lia).
  assert (Z.of_nat top = scrollTop s) as Htop by (unfold top; lia).
  assert (Z.of_nat size = sz) as Hsz by (unfold size; lia).
  assert (sz = scrollBot s - scrollTop s + 1) as Hsz0 by done.
  assert (0 < k <= size)%nat as Hk by (unfold k, size; lia).
  assert (Z.of_nat (top + size) <= Z.of_nat (length R)) as HL by (unfold zlen in HR; lia).
  clearbody m sz k top size. rewrite Hm, <- Htop, <- Hsz.
  rewrite shift_rows_up by (unfold zlen; lia). cbn [mbind option_bind].
  rewrite fill_blank.
  2: lia.
  2: { unfold zlen. rewrite !length_app, !length_take, !length_drop. lia. }
  cbn [mbind option_bind]. do 2 f_equal.
  replace (Z.to_nat (Z.of_nat size - Z.of_nat k)) with (size - k)%nat by lia.
  rewrite Nat2Z.id.
  replace (Z.to_nat (Z.of_nat top + (Z.of_nat size - Z.of_nat k))) with (top + (size - k))%nat by lia.
  replace (Z.to_nat (Z.of_nat top + Z.of_nat k)) with (top + k)%nat by lia.
  replace (Z.to_nat (Z.of_nat top + Z.of_nat size -
    (Z.of_nat top + (Z.of_nat size - Z.of_nat k)))) with k by lia.
  replace (Z.to_nat (Z.of_nat top + Z.of_nat size)) with (top + size)%nat by lia.
  assert (length (take top R) = top) as L1 by (rewrite length_take; lia).
  assert (length (take (size - k) (drop (top + k) R)) = size - k)%nat as L2
    by (rewrite length_take, length_drop; lia).
  rewrite (app_assoc (take top R)), take_app_length' by (rewrite length_app; lia).
  rewrite drop_app_ge by (rewrite length_app; lia). rewrite length_app, L1, L2.
  rewrite drop_drop, <- app_assoc. do 4 f_equal. lia.
Qed.

Lemma doScrollDown_rows B s n :
  screen_ok B s -> 0 < n -> height s <> 0 ->
  let top := Z.to_nat (scrollTop s) in
  let size := Z.to_nat (scrollBot s - scrollTop s + 1) in
  let k := (Z.to_nat n `min` size)%nat in
  let R := region_rows s in
  doScrollDown s n = Some (set_rows s
    (take top R ++ replicate k (newBlankRow s) ++ take (size - k) (drop top R)
     ++ drop (top + size) R)).
Proof.
  intros Hok Hn Hh top size k R. pose proof (ok_region _ _ Hok) as [Hreg _].
  pose proof (ensureRow_length s (scrollBot s)) as HR.
  change (rows (ensureRow s (scrollBot s))) with R in HR.
  unfold doScrollDown. rewrite (proj2 (orb_false_iff _ _)) by (split; lia). cbv zeta.
  change (rows (ensureRow s (scrollBot s))) with R.
  change (scrollBot (ensureRow s (scrollBot s))) with (scrollBot s).
  change (scrollTop (ensureRow s (scrollBot s))) with (scrollTop s).
  change (newBlankRow (ensureRow s (scrollBot s))) with (newBlankRow s).
  set (sz := scrollBot s - scrollTop s + 1) in *.
  set (m := if sz <=? n then sz else n).
  assert (m = Z.of_nat k) as Hm by (unfold m, k, size; destruct (Z.leb_spec sz n); lia).
  assert (Z.of_nat top = scrollTop s) as Htop by (unfold top; lia).
  assert (Z.of_nat size = sz) as Hsz by (unfold size; lia).
  assert (sz = scrollBot s - scrollTop s + 1) as Hsz0 by done.
  assert (0 < k <= size)%nat as Hk by (unfold k, size; lia).
  assert (Z.of_nat (top + size) <= Z.of_nat (length R)) as HL by (unfold zlen in HR; lia).
  clearbody m sz k top size. rewrite Hm, <- Htop, <- Hsz.
  rewrite shift_rows_down by (unfold zlen; lia). cbn [mbind option_bind].
  rewrite fill_blank.
  2: lia.
  2: { unfold zlen. rewrite !length_app, !length_take, !length_drop. lia. }
  cbn [mbind option_bind]. do 2 f_equal. rewrite Nat2Z.id.
  replace (Z.to_nat (Z.of_nat size - Z.of_nat k)) with (size - k)%nat by lia.
  replace (Z.to_nat (Z.of_nat top + Z.of_nat size - 1 + 1)) with (top + size)%nat by lia.
  replace (Z.to_nat (Z.of_nat top + Z.of_nat k - Z.of_nat top)) with k by lia.
  replace (Z.to_nat (Z.of_nat top + Z.of_nat k)) with (top + k)%nat by lia.
  rewrite Nat2Z.id. replace (top + size - (size - k) - k)%nat with top by lia.
  replace (top + size - (size - k))%nat with (top + k)%nat by lia.
  rewrite take_app_le by (rewrite length_take; lia). rewrite take_take, Nat.min_l by lia.
  do 2 f_equal. rewrite drop_app_length' by (rewrite length_take; lia). done.
Qed.

(** ** Every sequence with sane parameters keeps the screen well formed *)

(** A numeric parameter that is not negative and stays far from the overflow. *)
Definition csi_ok (params : gostring) : bool :=
  (0 <=? parseOne params 0) && (parseOne params 0 <=? 2 ^ 31).

Definition token_ok (t : token) : bool :=
  match t with TCSI params _ => csi_ok params | _ => true end.

Lemma parseOne_1 params :
  parseOne params 1 = if parseOne params 0 =? 0 then 1 else parseOne params 0.
Proof.
  unfold parseOne. destruct (bool_decide _); [done|]. destruct (Atoi _) as [v|]; [|done].
  destruct (Z.eqb_spec v 0) as [->|Hv]; [done|]. by rewrite (proj2 (Z.eqb_neq v 0)).
Qed.

Lemma csi_ok_bounds params :
  csi_ok params = true -> 0 <= parseOne params 0 <= 2 ^ 31 /\ 1 <= parseOne params 1 <= 2 ^ 31.
Proof.
  unfold csi_ok. intros H. bool_facts. rewrite parseOne_1.
  destruct (Z.eqb_spec (parseOne params 0) 0); lia.
Qed.

Lemma clamp_range v lo hi : lo <= hi -> lo <= clamp v lo hi <= hi.
Proof. unfold clamp. intros. destruct (Z.ltb_spec v lo), (Z.ltb_spec hi v); lia. Qed.

Lemma scroll_rows_ok B s n :
  screen_ok B s -> 0 < n ->
  (exists s', doScrollUp s n = Some s' /\ screen_ok B s')
  /\ (exists s', doScrollDown s n = Some s' /\ screen_ok B s').
Proof.
  intros Hok Hn. destruct (decide (height s = 0)) as [Hh|Hh].
  - unfold doScrollUp, doScrollDown. rewrite Hh, orb_true_r. split; by exists s.
  - rewrite (doScrollUp_rows B), (doScrollDown_rows B) by done.
    pose proof (ok_rows _ _ (ensureRow_ok _ _ (scrollBot s) Hok)) as HR.
    assert (zlen (newBlankRow s) = cols s) as Hb
      by (apply zlen_replicate; pose proof (ok_cols _ _ Hok); lia).
    split; (eexists; split; [done|]); apply set_rows_ok; try done;
      repeat (apply Forall_app; split);
      auto using Forall_take, Forall_drop, Forall_replicate.
Qed.

Lemma erase_display_ok B s n :
  screen_ok B s -> B < 2 ^ 62 -> exists s', erase_display s n = Some s' /\ screen_ok B s'.
Proof.
  intros Hok HB. pose proof (ok_row _ _ Hok). pose proof (ok_col _ _ Hok).
  pose proof (ok_rows _ _ Hok) as Hrs. unfold erase_display. cbv zeta.
  assert (forall l, zlen l = cols s -> zlen (blank_row l) = cols s) as Hb
    by (intros l <-; apply blank_row_zlen).
  destruct (n =? 0); [|destruct (n =? 1)].
  - destruct (Z.ltb_spec (curRow s) (zlen (rows s))); [|eauto].
    destruct (blank_cells_ok B s (curCol s) (cols s) Hok ltac:(lia) ltac:(lia) ltac:(done)
                (rows s) Hrs eq_refl) as (rs & -> & Hrs1 & L1). cbn [mbind option_bind].
    destruct (blank_rows_ok _ rs (curRow s + 1) (zlen (rows s)) Hb Hrs1) as (rs2 & -> & Hrs2 & _);
      [lia|lia|]. cbn [mbind option_bind]. eauto using set_rows_ok.
  - destruct (blank_rows_ok _ (rows s) 0 (Z.min (curRow s) (zlen (rows s))) Hb Hrs)
      as (rs & -> & Hrs1 & L1); [lia|lia|]. cbn [mbind option_bind].
    destruct (Z.ltb_spec (curRow s) (zlen (rows s))); [|eauto using set_rows_ok].
    destruct (blank_cells_ok B s 0 (Z.min (curCol s + 1) (cols s)) Hok ltac:(lia) ltac:(lia)
                ltac:(done) rs Hrs1 L1) as (rs2 & -> & Hrs2 & _).
    cbn [mbind option_bind]. eauto using set_rows_ok.
  - destruct (_ || _); [|eauto]. eexists. split; [done|]. apply set_rows_ok; [done|].
    apply Forall_fmap. eapply Forall_impl; [exact Hrs|exact Hb].
Qed.

Lemma erase_line_ok B s n :
  screen_ok B s -> exists s', erase_line s n = Some s' /\ screen_ok B s'.
Proof.
  intros Hok. pose proof (ok_row _ _ Hok). pose proof (ok_col _ _ Hok).
  pose proof (ok_rows _ _ Hok) as Hrs. unfold erase_line.
  destruct (Z.ltb_spec (curRow s) (zlen (rows s))); [|eauto].
  destruct (n =? 0); [|destruct (n =? 1); [|destruct (n =? 2); [|eauto]]].
  - destruct (blank_cells_ok B s (curCol s) (cols s) Hok ltac:(lia) ltac:(lia) ltac:(done)
                (rows s) Hrs eq_refl) as (rs & -> & Hrs1 & _).
    cbn [mbind option_bind]. eauto using set_rows_ok.
  - destruct (blank_cells_ok B s 0 (Z.min (curCol s + 1) (cols s)) Hok ltac:(lia) ltac:(lia)
                ltac:(done) (rows s) Hrs eq_refl) as (rs & -> & Hrs1 & _).
    cbn [mbind option_bind]. eauto using set_rows_ok.
  - destruct (at_Some (rows s) (curRow s)) as (l & E & _); [lia|]. rewrite E.
    cbn [mbind option_bind]. rewrite set_at_Some by lia. cbn [mbind option_bind].
    eexists. split; [done|]. apply set_rows_ok; [done|]. apply Forall_insert; [done|].
    rewrite blank_row_zlen. exact (at_Forall _ _ _ _ Hrs E).
Qed.

Lemma copy_within_Some l c e :
  0 <= c <= zlen l -> 0 <= e <= zlen l -> exists l', copy_within l c e = Some l' /\ zlen l' = zlen l.
Proof.
  unfold copy_within, zlen. intros Hc He. rewrite !(proj2 (andb_true_iff _ _)) by lia.
  eexists. split; [done|].
  rewrite !length_app, !length_drop, !length_take, !length_drop. lia.
Qed.

Lemma delete_chars_ok B s n :
  screen_ok B s -> 1 <= n <= 2 ^ 31 -> exists s', delete_chars s n = Some s' /\ screen_ok B s'.
Proof.
  intros Hok Hn. pose proof (ok_row _ _ Hok). pose proof (ok_col _ _ Hok).
  pose proof (ok_cols _ _ Hok). pose proof (ok_rows _ _ Hok) as Hrs. unfold delete_chars.
  destruct (Z.ltb_spec (curRow s) (zlen (rows s))); [|eauto].
  destruct (at_Some (rows s) (curRow s)) as (l & E & _); [lia|]. rewrite E.
  cbn [mbind option_bind]. pose proof (at_Forall _ _ _ _ Hrs E) as Hl. cbn in Hl.
  rewrite !wrap64_id by (unfold is_int, MinInt, MaxInt; lia). cbv zeta.
  destruct (copy_within_Some l (curCol s) (Z.min (curCol s + n) (cols s))) as (l1 & -> & Hl1);
    [lia|lia|]. cbn [mbind option_bind].
  destruct (fill_Some l1 (Z.max 0 (cols s - n)) (cols s) 32) as (l2 & -> & Hl2); [lia|lia|].
  cbn [mbind option_bind]. rewrite set_at_Some by lia. cbn [mbind option_bind].
  eexists. split; [done|]. apply set_rows_ok; [done|]. apply Forall_insert; [done|lia].
Qed.

Lemma set_margins_ok B s params : screen_ok B s -> screen_ok B (set_margins s params).
Proof.
  intros Hok. unfold set_margins. destruct (Z.ltb_spec 0 (height s)); [|done].
  destruct (parseTwo _ _ _) as [top bot]. cbv zeta.
  pose proof (clamp_range (top - 1) 0 (height s - 1) ltac:(lia)).
  pose proof (clamp_range (bot - 1) 0 (height s - 1) ltac:(lia)).
  pose proof (ok_row _ _ Hok). pose proof (ok_cols _ _ Hok).
  apply set_cursor_ok; [|lia|destruct (_ <=? _); cbn; lia].
  destruct Hok. destruct (Z.leb_spec (clamp (bot - 1) 0 (height s - 1))
    (clamp (top - 1) 0 (height s - 1))); constructor; cbn; try done; lia.
Qed.

Lemma handleCSI_ok B s params final :
  screen_ok B s -> B + 2 ^ 31 < 2 ^ 62 -> csi_ok params = true ->
  exists s', handleCSI s params final = Some s' /\ screen_ok (B + 2 ^ 31) s'.
Proof.
  intros Hok HB Hp. apply csi_ok_bounds in Hp as [H0 H1].
  pose proof (ok_row _ _ Hok) as Hr. pose proof (ok_col _ _ Hok) as Hc.
  pose proof (ok_cols _ _ Hok) as Hcs. pose proof (ok_saved _ _ Hok) as Hs.
  assert (forall o, (exists s', o = Some s' /\ screen_ok B s') ->
                    exists s', o = Some s' /\ screen_ok (B + 2 ^ 31) s') as Weak.
  { intros o (s' & -> & Hs'). exists s'. split; [done|].
    eapply screen_ok_weaken; [|exact Hs']. lia. }
  assert (screen_ok (B + 2 ^ 31) s) as Hok' by (eapply screen_ok_weaken; [|exact Hok]; lia).
  unfold handleCSI. cbv zeta.
  set (n := parseOne params 1) in *. set (n0 := parseOne params 0) in *. clearbody n n0.
  rewrite ?wrap64_id by (unfold is_int, MinInt, MaxInt; lia).
  repeat case_match; try (by eexists);
    try (eexists; split; [reflexivity|]; apply set_cursor_ok; [done| |];
         repeat match goal with |- context [clamp ?v ?a ?b] =>
           pose proof (clamp_range v a b ltac:(lia)); generalize dependent (clamp v a b); intros
         end; lia);
    apply Weak.
  - by apply erase_display_ok; [|lia].
  - by apply erase_line_ok.
  - by apply delete_chars_ok.
  - eexists. split; [done|]. destruct Hok. constructor; cbn; try done; lia.
  - eexists. split; [done|]. by apply set_margins_ok.
  - apply scroll_rows_ok; [done|lia].
  - apply scroll_rows_ok; [done|lia].
Qed.

Lemma apply_token_ok B s t :
  screen_ok B s -> B + 2 ^ 31 < 2 ^ 62 -> token_ok t = true ->
  exists s', apply_token s t = Some s' /\ screen_ok (B + 2 ^ 31) s'.
Proof.
  intros Hok HB Ht. pose proof (ok_row _ _ Hok). pose proof (ok_col _ _ Hok).
  assert (screen_ok (B + 2 ^ 31) s) as Hok' by (eapply screen_ok_weaken; [|exact Hok]; lia).
  destruct t as [|params final| | | |r]; cbn [apply_token token_ok] in *.
  - by eexists.
  - by apply handleCSI_ok.
  - eexists. split; [done|]. by apply set_cursor_ok; [|lia|lia].
  - case_match; [apply scroll_rows_ok; [done|lia]|]. eexists. split; [done|].
    rewrite wrap64_id by (unfold is_int, MinInt, MaxInt; lia). apply set_cursor_ok; [done|lia|lia].
  - eexists. split; [done|]. destruct (Z.ltb_spec 0 (curCol s)); [|done].
    apply set_cursor_ok; [done|lia|lia].
  - destruct (writeRune_ok B s r Hok) as (s' & -> & Hs'); [lia|]. eexists. split; [done|].
    eapply screen_ok_weaken; [|exact Hs']. lia.
Qed.

Lemma apply_tokens_cons s t ts s' :
  apply_token s t = Some s' -> apply_tokens s (t :: ts) = apply_tokens s' ts.
Proof. unfold apply_tokens. cbn [foldl mbind option_bind]. by intros ->. Qed.

Lemma apply_tokens_ok ts B s :
  screen_ok B s -> B + 2 ^ 31 * zlen ts < 2 ^ 62 -> forallb token_ok ts = true ->
  exists s', apply_tokens s ts = Some s' /\ screen_ok (B + 2 ^ 31 * zlen ts) s'.
Proof.
  revert B s. induction ts as [|t ts IH]; intros B s Hok HB Hts.
  - exists s. split; [done|]. eapply screen_ok_weaken; [|exact Hok]. unfold zlen; cbn; lia.
  - cbn [forallb] in Hts. apply andb_true_iff in Hts as [Ht Hts].
    assert (zlen (t :: ts) = zlen ts + 1) as E by (unfold zlen; cbn [length]; lia).
    rewrite E in HB |- *. assert (0 <= zlen ts) by (unfold zlen; lia).
    destruct (apply_token_ok B s t) as (s1 & H1 & Hs1); [done|lia|done|].
    rewrite (apply_tokens_cons _ _ _ _ H1).
    destruct (IH _ _ Hs1) as (s2 & H2 & Hs2); [lia|done|].
    exists s2. split; [done|]. by replace (B + 2 ^ 31 * (zlen ts + 1)) with
      (B + 2 ^ 31 + 2 ^ 31 * zlen ts) by lia.
Qed.

Lemma next_token_shorter b r t q : next_token b r = (t, q) -> (length q <= length r)%nat.
Proof.
  assert (forall s p q', span_params s = (p, q') -> (length q' <= length s)%nat) as Hsp.
  { induction s as [|c s IH]; cbn; intros p q' E; [by injection E as <- <-|].
    destruct (_ <? 64); [|by injection E as <- <-].
    destruct (span_params s) as [p1 q1] eqn:E1. injection E as <- <-. specialize (IH _ _ eq_refl). lia. }
  assert (forall s, (length (osc_rest s) <= length s)%nat) as Hosc.
  { induction s as [|c s IH]; cbn; [done|]. destruct (_ =? 7); [lia|].
    destruct s as [|d s]; [cbn; lia|]. destruct (_ && _); cbn in *; lia. }
  unfold next_token. destruct (ceq b ESC).
  - destruct r as [|c r2]; [intros [= <- <-]; done|]. destruct (ceq c "[").
    + destruct (span_params r2) as [p q1] eqn:E1. apply Hsp in E1.
      destruct q1 as [|f q1]; intros [= <- <-]; cbn in *; lia.
    + destruct (ceq c "]"); [intros [= <- <-]; specialize (Hosc r2); cbn; lia|].
      destruct (_ || _); intros [= <- <-]; cbn; rewrite ?length_drop; lia.
  - repeat (case_match; [by intros [= <- <-]|]).
    destruct (DecodeRune _) as [ru size]. destruct (_ && _); intros [= <- <-]; [done|].
    rewrite length_drop. lia.
Qed.

Lemma tokens_length fuel data : (length (tokens fuel data) <= fuel)%nat.
Proof.
  revert data. induction fuel as [|fuel IH]; intros [|b r]; cbn; try lia.
  destruct (next_token b r) as [t q]. cbn. specialize (IH q). lia.
Qed.

(** C18: Screen safety.  A byte stream whose CSI parameters are not negative and
    below 2^31 never makes the emulator index out of range, whatever else it
    contains, and leaves a well-formed screen: every row has [cols] cells, the
    cursor is a cell of the grid, the scroll region is inside the screen. *)
Theorem Write_never_panics (B : Z) (s : Screen) (data : gostring)
    (Hok : screen_ok B s)
    (Hsize : B + 2 ^ 31 * zlen data < 2 ^ 62)
    (Hpar : forallb token_ok (tokens (length data) data) = true) :
  exists s', Write s data = Some s' /\ screen_ok (B + 2 ^ 31 * zlen data) s'.
Proof.
  unfold Write. pose proof (tokens_length (length data) data) as HL.
  assert (zlen (tokens (length data) data) <= zlen data) as HL' by (unfold zlen; lia).
  destruct (apply_tokens_ok (tokens (length data) data) B s Hok ltac:(lia) Hpar) as (s' & -> & Hs').
  exists s'. split; [done|]. eapply screen_ok_weaken; [|exact Hs']. lia.
Qed.

Definition demo_stream : gostring :=
  "ab" ++ ESC :: "[2;3H" ++ "xyz" ++ [CR; LF] ++ "tail" ++ ESC :: "[1K" ++ ESC :: "[2J" ++ "end".

Lemma Write_never_panics_witness :
  exists s', Write (NewScreen 10 3) demo_stream = Some s'
  /\ screen_ok (0 + 2 ^ 31 * zlen demo_stream) s'.
Proof.
  apply (Write_never_panics 0 (NewScreen 10 3) demo_stream).
  - apply NewScreen_ok; lia.
  - vm_compute. reflexivity.
  - vm_compute. reflexivity.
Defined.

(** Screen panics.  Without that bound the emulator can fail: a negative
    parameter moves the cursor below 0 ([CUF -5] then an erase-line, [CUD -5]
    then an erase-line), and a parameter at the limit of [int] wraps the row
    of the cursor around (the next erase-line indexes row -2^63). *)
Theorem Write_can_panic :
  Write (NewScreen 10 3) ("x" ++ ESC :: "[-5C" ++ ESC :: "[K") = None
  /\ Write (NewScreen 10 3) ("x" ++ ESC :: "[-5B" ++ ESC :: "[K") = None
  /\ Write (NewScreen 10 3) ("x" ++ [LF] ++ ESC :: "[9223372036854775807B" ++ ESC :: "[K") = None.
Proof. repeat split; vm_compute; reflexivity. Qed.

(** Scrolling.  SU moves the region's rows up by [n] (at most its size) and
    blanks the rows that appear at its bottom; SD is the mirror image.  Rows
    outside the scroll region, the cursor and the region stay as they were. *)
Theorem doScroll_spec (B : Z) (s : Screen) (n : Z)
    (Hok : screen_ok B s) (Hn : 0 < n) (Hh : height s <> 0) :
  let top := Z.to_nat (scrollTop s) in
  let size := Z.to_nat (scrollBot s - scrollTop s + 1) in
  let k := (Z.to_nat n `min` size)%nat in
  let R := region_rows s in
  let blank := replicate k (newBlankRow s) in
  doScrollUp s n = Some (set_rows s
    (take top R ++ take (size - k) (drop (top + k) R) ++ blank ++ drop (top + size) R))
  /\ doScrollDown s n = Some (set_rows s
    (take top R ++ blank ++ take (size - k) (drop top R) ++ drop (top + size) R)).
Proof. split; [by apply (doScrollUp_rows B)|by apply (doScrollDown_rows B)]. Qed.

Lemma doScroll_spec_witness :
  let s := set_region (NewScreen 4 5) 1 3 in
  doScrollUp s 2 = Some (set_rows s
    (take 1 (region_rows s) ++ take 1 (drop 3 (region_rows s)) ++ replicate 2 (newBlankRow s)
     ++ drop 4 (region_rows s))).
Proof.
  cbv zeta. apply (doScroll_spec 0 (set_region (NewScreen 4 5) 1 3) 2); [|lia|discriminate].
  destruct (NewScreen_ok 4 5); [lia|lia|]. constructor; cbn in *; try done; lia.
Defined.

(** ** Plain text *)

Definition printable (c : ascii) : bool := (32 <=? ord c) && (ord c <=? 126).

Lemma printable_token c r : printable c = true -> next_token c r = (TRune (ord c), r).
Proof.
  unfold printable, next_token. intros H. bool_facts.
  assert (forall d, ord d < 32 -> ceq c d = false) as Hne.
  { intros d Hd. apply ceq_false. intros ->. lia. }
  rewrite !Hne by (vm_compute; reflexivity).
  rewrite (proj2 (Z.eqb_neq (ord c) 8)) by lia. rewrite (proj2 (Z.ltb_ge (ord c) 32)) by lia.
  assert (DecodeRune (c :: r) = (ord c, 1%nat)) as ->.
  { unfold DecodeRune. cbv zeta. rewrite (proj2 (Z.ltb_lt (ord c) 128)) by lia. done. }
  rewrite (proj2 (Z.eqb_neq (ord c) RuneError)) by (unfold RuneError; lia). cbn. by rewrite drop_0.
Qed.

Lemma tokens_printable l r fuel :
  forallb printable l = true ->
  tokens (length l + fuel) (l ++ r) = (TRune ∘ ord <$> l) ++ tokens fuel r.
Proof.
  induction l as [|c l IH]; [done|]. cbn [forallb]. intros H. apply andb_true_iff in H as [Hc Hl].
  cbn [length app Nat.add tokens fmap list_fmap]. by rewrite (printable_token _ _ Hc), IH.
Qed.

(** The row of [w] cells that shows the text [l]. *)
Definition pad (w : Z) (l : gostring) : row :=
  (ord <$> l) ++ replicate (Z.to_nat w - length l) 32.

(** The screen that has shown the full lines [ls] and the start [p] of the next:
    its last rows may not exist yet. *)
Definition shows (s0 : Screen) (ls : list gostring) (p : gostring) (s : Screen) : Prop :=
  exists rs j, s = set_cursor (set_rows s0 rs) (zlen ls) (zlen p)
  /\ rs ++ replicate j (newBlankRow s0) = pad (cols s0) <$> (ls ++ [p])
  /\ (j = 0%nat \/ p = []).

Lemma pad_nil s0 : pad (cols s0) [] = newBlankRow s0.
Proof. unfold pad, newBlankRow. cbn. by rewrite Nat.sub_0_r. Qed.

Lemma pad_insert w p c :
  zlen p < w -> <[length p := ord c]> (pad w p) = pad w (p ++ [c]).
Proof.
  unfold pad, zlen. intros H. rewrite fmap_app, <- app_assoc.
  rewrite <- (length_fmap ord p) at 1. rewrite insert_app_r_alt, length_fmap, Nat.sub_diag by
    (rewrite length_fmap; lia).
  f_equal. rewrite length_app. cbn [length fmap list_fmap app].
  destruct (Z.to_nat w - length p)%nat eqn:E; [lia|]. cbn [replicate insert list_insert].
  do 2 f_equal. lia.
Qed.

Lemma shows_rune s0 ls p c s :
  shows s0 ls p s -> zlen p + 1 < cols s0 < 2 ^ 31 ->
  exists s', writeRune s (ord c) = Some s' /\ shows s0 ls (p ++ [c]) s'.
Proof.
  intros (rs & j & -> & Hrs & Hj) Hw. unfold writeRune.
  cbn [curRow curCol set_cursor set_rows].
  assert (0 <= zlen ls) by (unfold zlen; lia). assert (0 <= zlen p) by (unfold zlen; lia).
  rewrite (proj2 (Z.ltb_ge (zlen ls) 0)) by lia. cbv zeta.
  unfold ensureRow. cbn [curRow curCol cols rows set_cursor set_rows].
  assert (zlen rs + Z.of_nat j = zlen ls + 1) as HL.
  { apply (f_equal length) in Hrs. unfold zlen. rewrite !length_app, length_replicate,
      length_fmap, length_app in Hrs. cbn in Hrs. lia. }
  rewrite (proj2 (andb_true_iff _ _)) by lia.
  replace (Z.to_nat (zlen ls + 1 - zlen rs)) with j by lia.
  change (newBlankRow (set_cursor (set_rows s0 rs) (zlen ls) (zlen p))) with (newBlankRow s0).
  rewrite Hrs.
  assert (zlen (pad (cols s0) <$> ls ++ [p]) = zlen ls + 1) as HL2
    by (unfold zlen; rewrite length_fmap, length_app; cbn; lia).
  assert (Z.to_nat (zlen ls) = length ls) as Els by (unfold zlen; lia).
  destruct (at_Some (pad (cols s0) <$> ls ++ [p]) (zlen ls)) as (l & -> & Hl); [lia|].
  rewrite Els, fmap_app, lookup_app_r, length_fmap, Nat.sub_diag in Hl by (rewrite length_fmap; lia).
  injection Hl as <-. cbn [mbind option_bind].
  assert (zlen (pad (cols s0) p) = cols s0) as Hp.
  { unfold zlen, pad in *. rewrite length_app, length_fmap, length_replicate. lia. }
  rewrite set_at_Some by lia. cbn [mbind option_bind]. rewrite set_at_Some by lia.
  cbn [mbind option_bind]. rewrite wrap64_id by (unfold is_int, MinInt, MaxInt; lia).
  rewrite (proj2 (Z.leb_gt _ _)) by lia.
  eexists. split; [reflexivity|]. eexists _, 0%nat. split; [|split; [|by left]].
  { unfold set_cursor, set_rows. cbn. f_equal. unfold zlen. rewrite length_app. cbn. lia. }
  cbn [replicate]. rewrite app_nil_r, Els. replace (Z.to_nat (zlen p)) with (length p)
    by (unfold zlen; lia).
  rewrite pad_insert by lia. rewrite !fmap_app. cbn [fmap list_fmap].
  rewrite insert_app_r_alt by (rewrite length_fmap; lia). by rewrite length_fmap, Nat.sub_diag.
Qed.

Lemma shows_runes s0 ls p l s ts :
  shows s0 ls p s -> zlen (p ++ l) < cols s0 < 2 ^ 31 ->
  exists s', apply_tokens s ((TRune ∘ ord <$> l) ++ ts) = apply_tokens s' ts
  /\ shows s0 ls (p ++ l) s'.
Proof.
  revert p s. induction l as [|c l IH]; intros p s Hs Hw.
  - rewrite app_nil_r. by exists s.
  - destruct (shows_rune _ _ _ c _ Hs) as (s1 & H1 & Hs1).
    { unfold zlen in *. rewrite length_app in Hw. cbn [length] in Hw. lia. }
    destruct (IH _ _ Hs1) as (s2 & H2 & Hs2).
    { unfold zlen in *. rewrite !length_app in *. cbn [length] in *. lia. }
    exists s2. cbn [fmap list_fmap app compose]. rewrite (apply_tokens_cons _ _ _ s1) by done.
    split; [done|]. by rewrite <- app_assoc in Hs2.
Qed.

Lemma shows_newline s0 ls p s :
  shows s0 ls p s -> scrollBot s0 = height s0 - 1 \/ height s0 <= 0 ->
  height s0 <= 0 \/ zlen ls + 1 < height s0 -> zlen ls < 2 ^ 31 ->
  exists s', apply_tokens s [TCR; TLF] = Some s' /\ shows s0 (ls ++ [p]) [] s'.
Proof.
  intros (rs & j & -> & Hrs & Hj) Hb Hh Hl. unfold apply_tokens.
  cbn [foldl mbind option_bind apply_token set_cursor curRow curCol height scrollBot set_rows].
  assert (0 <= zlen ls) by (unfold zlen; lia).
  assert ((0 <? height s0) && (zlen ls =? scrollBot s0) = false) as ->.
  { apply andb_false_iff. destruct Hh as [Hh|Hh]; [left; apply Z.ltb_ge; lia|right].
    apply Z.eqb_neq. lia. }
  rewrite wrap64_id by (unfold is_int, MinInt, MaxInt; lia).
  eexists. split; [reflexivity|]. exists rs, (S j). split; [|split; [|by right]].
  - unfold set_cursor, set_rows. cbn. f_equal. unfold zlen. rewrite length_app. cbn. lia.
  - rewrite replicate_S_end, app_assoc, Hrs, !fmap_app. cbn [fmap list_fmap].
    by rewrite pad_nil.
Qed.

Definition line_ok (w : Z) (l : gostring) : bool := forallb printable l && (zlen l <? w).

Lemma apply_tokens_app s ts ts' s' :
  apply_tokens s ts = Some s' -> apply_tokens s (ts ++ ts') = apply_tokens s' ts'.
Proof. unfold apply_tokens. rewrite foldl_app. by intros ->. Qed.

Lemma shows_text s0 l lines ls s fuel :
  shows s0 ls [] s -> scrollBot s0 = height s0 - 1 \/ height s0 <= 0 -> cols s0 < 2 ^ 31 ->
  height s0 <= 0 \/ zlen (ls ++ l :: lines) <= height s0 -> zlen (ls ++ l :: lines) < 2 ^ 31 ->
  forallb (line_ok (cols s0)) (l :: lines) = true ->
  (length (Join (l :: lines) [CR; LF]) <= fuel)%nat ->
  exists s' ls' p, apply_tokens s (tokens fuel (Join (l :: lines) [CR; LF])) = Some s'
  /\ shows s0 ls' p s' /\ ls' ++ [p] = ls ++ l :: lines.
Proof.
  intros Hs Hb Hcols. revert l ls s fuel Hs. induction lines as [|m lines IH];
    intros l ls s fuel Hs Hh Hn Hok Hf; cbn [forallb] in Hok.
  - apply andb_true_iff in Hok as [Hl _]. unfold line_ok in Hl. bool_facts.
    cbn [Join] in *. destruct (shows_runes s0 ls [] l s [] Hs) as (s' & H1 & H2);
      [rewrite app_nil_l; lia|].
    exists s', ls, l. split; [|done]. rewrite <- (app_nil_r l) at 1.
    replace fuel with (length l + (fuel - length l))%nat by lia.
    rewrite tokens_printable by done.
    replace (tokens _ []) with (@nil token) by by destruct (fuel - length l)%nat.
    rewrite H1. done.
  - apply andb_true_iff in Hok as [Hl Hok]. unfold line_ok in Hl. bool_facts.
    assert (zlen (ls ++ l :: m :: lines) = zlen ls + 2 + zlen lines) as E
      by (unfold zlen; rewrite length_app; cbn; lia). rewrite E in Hh, Hn.
    assert (0 <= zlen lines /\ 0 <= zlen ls) as [? ?] by (unfold zlen; lia).
    change (Join (l :: m :: lines) [CR; LF]) with (l ++ CR :: LF :: Join (m :: lines) [CR; LF]) in *.
    rewrite length_app in Hf. cbn [length] in Hf.
    replace fuel with (length l + S (S (fuel - length l - 2)))%nat by lia.
    rewrite tokens_printable by done.
    match goal with |- context [tokens (S (S ?k)) (CR :: LF :: ?r)] =>
      change (tokens (S (S k)) (CR :: LF :: r)) with ([TCR; TLF] ++ tokens k r) end.
    destruct (shows_runes s0 ls [] l s ([TCR; TLF] ++ tokens (fuel - length l - 2)
      (Join (m :: lines) [CR; LF])) Hs) as (s1 & -> & Hs1); [rewrite app_nil_l; lia|].
    destruct (shows_newline _ _ _ _ Hs1) as (s2 & HNL & Hs2); [done|lia|lia|].
    rewrite (apply_tokens_app _ _ _ _ HNL).
    assert ((ls ++ [[] ++ l]) ++ m :: lines = ls ++ l :: m :: lines) as El by (rewrite <- app_assoc; reflexivity).
    rewrite <- El. apply IH; [done|rewrite El, E; lia|rewrite El, E; lia|cbn [forallb]; by apply andb_true_iff|lia].
Qed.

Lemma row_string_ord l : forallb printable l = true -> row_string (ord <$> l) = l.
Proof.
  unfold row_string. induction l as [|c l IH]; [done|]. cbn [forallb]. intros H.
  apply andb_true_iff in H as [Hc Hl]. unfold printable in Hc. bool_facts.
  cbn [fmap list_fmap mbind list_bind]. rewrite IH by done. unfold EncodeRune.
  assert ((0 <=? ord c) && (ord c <? 55296) = true) as -> by lia. cbn [orb].
  rewrite (proj2 (Z.ltb_lt (ord c) 128)) by lia. by rewrite chr_ord.
Qed.

Lemma row_string_pad w l :
  forallb printable l = true -> TrimRight (row_string (pad w l)) [SP] = TrimRight l [SP].
Proof.
  intros Hl. unfold pad, row_string. rewrite bind_app.
  change (mbind EncodeRune (ord <$> l)) with (row_string (ord <$> l)). rewrite row_string_ord by done.
  unfold TrimRight. apply drop_while_end_app. generalize (Z.to_nat w - length l)%nat as n.
  induction n as [|n IH]; [by constructor|]. cbn [replicate mbind list_bind].
  by constructor.
Qed.

(** The text a terminal shows for [lines]: no trailing blanks, no trailing
    empty lines. *)
Definition shown (lines : list gostring) : gostring :=
  Join (drop_while_end (fun l => bool_decide (l = [])) ((fun l => TrimRight l [SP]) <$> lines)) [LF].

Lemma shows_Content s0 ls p s :
  shows s0 ls p s -> Forall (fun l => forallb printable l = true) (ls ++ [p]) ->
  Content s = shown (ls ++ [p]).
Proof.
  intros (rs & j & -> & Hrs & _) Hok. unfold Content, shown, Lines. f_equal.
  cbn [rows set_cursor set_rows].
  transitivity (drop_while_end (fun l => bool_decide (l = []))
    ((fun l => TrimRight (row_string l) [SP]) <$> (rs ++ replicate j (newBlankRow s0)))).
  - rewrite fmap_app. symmetry. apply drop_while_end_app. rewrite Forall_fmap.
    apply Forall_replicate. cbn. rewrite <- pad_nil, row_string_pad by done. done.
  - rewrite Hrs, <- list_fmap_compose. f_equal. apply Forall_fmap_ext_1.
    eapply Forall_impl; [exact Hok|]. intros l Hl. by apply row_string_pad.
Qed.

Lemma screen_shows c h l lines :
  0 < c < 2 ^ 31 -> h <= 0 \/ zlen (l :: lines) <= h -> zlen (l :: lines) < 2 ^ 31 ->
  forallb (line_ok c) (l :: lines) = true ->
  exists s, Write (NewScreen c h) (Join (l :: lines) [CR; LF]) = Some s
  /\ Content s = shown (l :: lines).
Proof.
  intros Hc Hh Hn Hok.
  assert (cols (NewScreen c h) = c) as Ec
    by (unfold NewScreen; cbn; by rewrite (proj2 (Z.leb_gt c 0)) by lia).
  destruct (shows_text (NewScreen c h) l lines [] (NewScreen c h)
              (length (Join (l :: lines) [CR; LF]))) as (s & ls & p & H1 & H2 & H3); try done.
  - exists [], 1%nat. split; [done|]. split; [|by right]. cbn [app replicate fmap list_fmap]. by rewrite pad_nil.
  - cbn. destruct (Z.ltb_spec 0 h); lia.
  - lia.
  - by rewrite Ec.
  - exists s. split; [exact H1|]. rewrite app_nil_l in H3. rewrite <- H3.
    apply (shows_Content _ _ _ _ H2). rewrite H3. rewrite List.forallb_forall in Hok.
    apply Forall_forall. intros x Hx. apply list_elem_of_In in Hx. apply Hok in Hx.
    unfold line_ok in Hx. by bool_facts.
Qed.

(** C19: The screen shows plain text.  Printable lines shorter than the screen is
    wide, separated by CR LF and no more than the screen is high, come back
    from [Content] one per line, without trailing blanks and trailing empty
    lines. *)
Theorem Content_plain_text (c h : Z) (l : gostring) (lines : list gostring)
    (Hc : 0 < c < 2 ^ 31)
    (Hh : h <= 0 \/ zlen (l :: lines) <= h)
    (Hn : zlen (l :: lines) < 2 ^ 31)
    (Hok : forallb (line_ok c) (l :: lines) = true) :
  exists s, Write (NewScreen c h) (Join (l :: lines) [CR; LF]) = Some s
  /\ Content s = shown (l :: lines).
Proof. by apply screen_shows. Qed.

Lemma Content_plain_text_witness :
  exists s, Write (NewScreen 20 3) (Join ["hello  "; ""; "world"] [CR; LF]) = Some s
  /\ Content s = shown ["hello  "; ""; "world"].
Proof.
  apply (Content_plain_text 20 3 "hello  " [""; "world"]);
    [lia|right; vm_compute; discriminate|vm_compute; reflexivity|vm_compute; reflexivity].
Defined.

(** DCH with more characters than the line has right of the cursor also blanks
    the cells on its left: the blank range is counted from the end of the row. *)
Example delete_chars_overshoot :
  (s ← Write (NewScreen 6 1) ("abcde" ++ ESC :: "[3G"); Some (Content s)) = Some "abcde"
  /\ (s ← Write (NewScreen 6 1) ("abcde" ++ ESC :: "[3G" ++ ESC :: "[5P"); Some (Content s))
     = Some "a".
Proof. split; vm_compute; reflexivity. Qed.
