(* ===== verification/Bus.v ===== *)
(** * The message bus ([internal/bus], [internal/bus/inproc])

    Messages, topics and the in-process bus.  A subscription is a pointer in the
    Go code (its channel outlives its entry in [b.subs]); here it is an index
    into a heap of subscriptions.  [Subscribe], [Cancel] and [Close] hold the bus
    mutex for their whole body; [Publish] holds it for reading only, so publishes
    may overlap, each delivery holding the mutex of its subscription.  An execution
    here is a sequence of whole operations: publishes that overlap could reach two
    subscriptions in different orders, which no subscription by itself can tell; the
    program publishes to each topic from one goroutine. *)
From S2P Require Import Prelude GoLib Model.

(** ** [bus.go] *)
Definition KindEnvelope : gostring := "envelope".
Definition KindTurn : gostring := "turn".
Definition KindControl : gostring := "control".

Definition ControlVerdict : gostring := "verdict".
Definition ControlPeerCrashed : gostring := "peer_crashed".
Definition ControlPeerBlocked : gostring := "peer_blocked".
Definition ControlFinalize : gostring := "finalize".

Record ControlMsg := {
  CM_ConversationID : gostring;
  CM_Kind : gostring;
  CM_Slot : PeerSlot;
  CM_Reason : gostring;
  CM_Status : ConversationStatus;
  CM_Detail : gostring;
  CM_Verdict : option Verdict;
}.

(** A payload is the JSON text of a value of one of three types, or some other
    bytes; only its meaning is kept. *)
Inductive Payload :=
| PEnvelope (e : Envelope)
| PTurn (t : ConversationTurn)
| PControl (c : ControlMsg)
| PBytes (b : gostring).

Record BusMessage := {
  BM_ConversationID : gostring;
  BM_Topic : gostring;
  BM_Kind : gostring;
  BM_Payload : Payload;
  BM_Timestamp : time;
}.

Definition TopicEnvelopeIn (conversationID : gostring) (slot : PeerSlot) : gostring :=
  "conv/" ++ conversationID ++ "/peer-" ++ slot ++ "/in".
Definition TopicEnvelopeInID (conversationID : gostring) (peerID : PeerID) : gostring :=
  "conv/" ++ conversationID ++ "/peer/" ++ peerID ++ "/in".
Definition TopicTurn (conversationID : gostring) : gostring :=
  "conv/" ++ conversationID ++ "/turn".
Definition TopicControl (conversationID : gostring) : gostring :=
  "conv/" ++ conversationID ++ "/control".

(** [encoding/json] writes U+FFFD for every byte that is not UTF-8. *)
Fixpoint json_string_loop (fuel : nat) (s : gostring) : gostring :=
  match fuel, s with
  | S fuel, c :: r =>
      let '(ru, size) := DecodeRune s in
      if (ru =? RuneError) && (size =? 1)%nat
      then EncodeRune RuneError ++ json_string_loop fuel r
      else take size s ++ json_string_loop fuel (drop size s)
  | _, _ => []
  end.

Definition json_string (s : gostring) : gostring := json_string_loop (length s) s.

(** What a turn is after [json.Marshal] and [json.Unmarshal]. *)
Definition json_turn (t : ConversationTurn) : ConversationTurn :=
  {| T_ConversationID := json_string (T_ConversationID t); T_Index := T_Index t;
     T_From := json_string (T_From t); T_FromID := json_string (T_FromID t);
     T_ToID := json_string (T_ToID t); T_Reason := json_string (T_Reason t);
     T_NextIDParsed := json_string <$> T_NextIDParsed t; T_FallbackUsed := T_FallbackUsed t;
     T_Envelope := json_string (T_Envelope t); T_Response := json_string (T_Response t);
     T_MarkerToken := json_string (T_MarkerToken t); T_StartedAt := T_StartedAt t;
     T_EndedAt := T_EndedAt t; T_CompletionConfidence := T_CompletionConfidence t;
     T_ParserConfidence := T_ParserConfidence t; T_Warnings := json_string <$> T_Warnings t |}.

Definition json_verdict (v : Verdict) : Verdict :=
  {| V_ConversationID := json_string (V_ConversationID v);
     V_Decision := json_string (V_Decision v); V_Reason := json_string (V_Reason v);
     V_Status := json_string (V_Status v) |}.

Definition json_control (c : ControlMsg) : ControlMsg :=
  {| CM_ConversationID := json_string (CM_ConversationID c); CM_Kind := json_string (CM_Kind c);
     CM_Slot := json_string (CM_Slot c); CM_Reason := json_string (CM_Reason c);
     CM_Status := json_string (CM_Status c); CM_Detail := json_string (CM_Detail c);
     CM_Verdict := json_verdict <$> CM_Verdict c |}.

(** [json.Unmarshal] into a [ControlMsg]: a turn or an envelope is an object
    that shares some field names with it, and no kind. *)
Definition Unmarshal_ControlMsg (p : Payload) : option ControlMsg :=
  let none id reason :=
    {| CM_ConversationID := json_string id; CM_Kind := []; CM_Slot := [];
       CM_Reason := json_string reason; CM_Status := []; CM_Detail := [];
       CM_Verdict := None |} in
  match p with
  | PControl c => Some (json_control c)
  | PTurn t => Some (none (T_ConversationID t) (T_Reason t))
  | PEnvelope e => Some (none (E_ConversationID e) [])
  | PBytes _ => None
  end.

(** [json.Unmarshal] into a [ConversationTurn]; a control message or an envelope
    fills the fields of the same JSON names, and has no response. *)
Definition Unmarshal_Turn (p : Payload) : option ConversationTurn :=
  let partial id from from_id to_id reason marker :=
    {| T_ConversationID := json_string id; T_Index := 0; T_From := json_string from;
       T_FromID := json_string from_id; T_ToID := json_string to_id;
       T_Reason := json_string reason; T_NextIDParsed := None; T_FallbackUsed := false;
       T_Envelope := []; T_Response := []; T_MarkerToken := json_string marker;
       T_StartedAt := 0; T_EndedAt := 0; T_CompletionConfidence := 0;
       T_ParserConfidence := 0; T_Warnings := [] |} in
  match p with
  | PTurn t => Some (json_turn t)
  | PControl c => Some (partial (CM_ConversationID c) [] [] [] (CM_Reason c) [])
  | PEnvelope e => Some (partial (E_ConversationID e) (E_From e) (E_FromID e) (E_ToID e) []
                           (E_MarkerToken e))
  | PBytes _ => None
  end.

(** ** [inproc.go] *)
Record subscription := {
  sub_topic : gostring;
  sub_cap : nat;
  sub_ch : list BusMessage;
  sub_closed : bool;
}.

Record Bus := {
  bus_closed : bool;
  bufferSize : Z;
  bus_subs : gmap gostring (list nat);
  bus_heap : list subscription;
}.

Definition defaultBufferSize : Z := 64.

Definition WithBufferSize (n : Z) (b : Bus) : Bus :=
  if 0 <? n then
    {| bus_closed := bus_closed b; bufferSize := n; bus_subs := bus_subs b;
       bus_heap := bus_heap b |}
  else b.

Definition New (opts : list (Bus -> Bus)) : Bus :=
  foldl (fun b opt => opt b)
    {| bus_closed := false; bufferSize := defaultBufferSize; bus_subs := ∅; bus_heap := [] |}
    opts.

Definition set_heap (b : Bus) (h : list subscription) : Bus :=
  {| bus_closed := bus_closed b; bufferSize := bufferSize b; bus_subs := bus_subs b;
     bus_heap := h |}.

Definition set_subs (b : Bus) (m : gmap gostring (list nat)) : Bus :=
  {| bus_closed := bus_closed b; bufferSize := bufferSize b; bus_subs := m;
     bus_heap := bus_heap b |}.

Definition set_ch (s : subscription) (q : list BusMessage) : subscription :=
  {| sub_topic := sub_topic s; sub_cap := sub_cap s; sub_ch := q; sub_closed := sub_closed s |}.

(** [subscription.deliver]: a non-blocking send. *)
Definition deliver (msg : BusMessage) (s : subscription) : subscription :=
  if sub_closed s then s
  else if (length (sub_ch s) <? sub_cap s)%nat then set_ch s (sub_ch s ++ [msg]) else s.

(** [subscription.close] *)
Definition close_sub (s : subscription) : subscription :=
  {| sub_topic := sub_topic s; sub_cap := sub_cap s; sub_ch := sub_ch s; sub_closed := true |}.

(** The subscriptions of a topic; a missing key is the nil slice. *)
Definition subs_of (b : Bus) (topic : gostring) : list nat :=
  default [] (bus_subs b !! topic).

(** Apply [f] to the subscriptions [ids], in this order. *)
Definition on_subs (f : subscription -> subscription) (ids : list nat)
    (h : list subscription) : list subscription :=
  foldl (fun h i => alter f i h) h ids.

Definition Publish (b : Bus) (topic : gostring) (msg : BusMessage) : option goerr * Bus :=
  if bus_closed b then (Some (ErrNew "inproc bus: publish on closed bus"), b)
  else (None, set_heap b (on_subs (deliver msg) (subs_of b topic) (bus_heap b))).

(** [Subscribe]: the new subscription; its cancel function is [Cancel]. *)
Definition Subscribe (b : Bus) (topic : gostring) : result nat * Bus :=
  if bus_closed b then (Err (ErrNew "inproc bus: subscribe on closed bus"), b)
  else
    let id := length (bus_heap b) in
    let sub := {| sub_topic := topic; sub_cap := Z.to_nat (bufferSize b); sub_ch := [];
                  sub_closed := false |} in
    (Ok id, {| bus_closed := false; bufferSize := bufferSize b;
               bus_subs := <[topic := subs_of b topic ++ [id]]> (bus_subs b);
               bus_heap := bus_heap b ++ [sub] |}).

(** Remove the first occurrence. *)
Fixpoint remove_first (i : nat) (l : list nat) : list nat :=
  match l with
  | [] => []
  | j :: l => if (j =? i)%nat then l else j :: remove_first i l
  end.

(** The cancel function that [Subscribe] returned for [id]. *)
Definition Cancel (b : Bus) (id : nat) : Bus :=
  match bus_heap b !! id with
  | None => b
  | Some s =>
      let ids := subs_of b (sub_topic s) in
      let b := if bool_decide (id ∈ ids)
               then set_subs b (<[sub_topic s := remove_first id ids]> (bus_subs b)) else b in
      set_heap b (alter close_sub id (bus_heap b))
  end.

Definition Close (b : Bus) : option goerr * Bus :=
  if bus_closed b then (None, b)
  else
    let ids := concat (snd <$> map_to_list (bus_subs b)) in
    (None, {| bus_closed := true; bufferSize := bufferSize b; bus_subs := ∅;
              bus_heap := on_subs close_sub ids (bus_heap b) |}).

(** A receive on the channel of a subscription. *)
Inductive received :=
| RMsg (m : BusMessage)
| RClosed
| RBlocked.

Definition recv (b : Bus) (id : nat) : received * Bus :=
  match bus_heap b !! id with
  | None => (RBlocked, b)
  | Some s =>
      match sub_ch s with
      | m :: q => (RMsg m, set_heap b (alter (fun s => set_ch s q) id (bus_heap b)))
      | [] => (if sub_closed s then RClosed else RBlocked, b)
      end
  end.

(** ** Executions *)

(** The calls a program can make on the bus. *)
Inductive bus_op :=
| OpPublish (topic : gostring) (msg : BusMessage)
| OpSubscribe (topic : gostring)
| OpCancel (id : nat)
| OpClose
| OpRecv (id : nat).

Definition exec (b : Bus) (op : bus_op) : Bus :=
  match op with
  | OpPublish t m => snd (Publish b t m)
  | OpSubscribe t => snd (Subscribe b t)
  | OpCancel id => Cancel b id
  | OpClose => snd (Close b)
  | OpRecv id => snd (recv b id)
  end.

Definition exec_all (b : Bus) (ops : list bus_op) : Bus := foldl exec b ops.

(** ** The invariant *)

Definition sub_ok (b : Bus) (id : nat) (s : subscription) : Prop :=
  (0 < sub_cap s)%nat /\ (length (sub_ch s) <= sub_cap s)%nat
  /\ (sub_closed s = false <-> id ∈ subs_of b (sub_topic s)).

(** Every open subscription is listed once, under its own topic, and only open
    subscriptions are listed; no channel holds more than its capacity; a
    closed bus lists nothing. *)
Record bus_ok (b : Bus) : Prop := {
  bok_size : 0 < bufferSize b;
  bok_subs : forall id s, bus_heap b !! id = Some s -> sub_ok b id s;
  bok_listed : forall t id, id ∈ subs_of b t ->
    exists s, bus_heap b !! id = Some s /\ sub_topic s = t;
  bok_nodup : forall t, NoDup (subs_of b t);
  bok_closed : bus_closed b = true -> bus_subs b = ∅;
}.

(** ** Lemmas *)

Lemma on_subs_lookup f ids h i :
  NoDup ids ->
  on_subs f ids h !! i = (if bool_decide (i ∈ ids) then f <$> h !! i else h !! i).
Proof.
  unfold on_subs. revert h. induction ids as [|j ids IH]; intros h Hnd; cbn [foldl].
  - by rewrite bool_decide_false by apply not_elem_of_nil.
  - apply NoDup_cons in Hnd as [Hj Hnd]. rewrite IH by done.
    destruct (decide (i = j)) as [->|Hij].
    + rewrite bool_decide_false by done. rewrite bool_decide_true by by left.
      by rewrite list_lookup_alter_eq.
    + rewrite list_lookup_alter_ne by done. erewrite (bool_decide_ext (i ∈ j :: ids)); [done|].
      rewrite elem_of_cons. naive_solver.
Qed.

Lemma on_subs_length f ids h : length (on_subs f ids h) = length h.
Proof.
  unfold on_subs. revert h. induction ids as [|j ids IH]; intros h; cbn [foldl]; [done|].
  by rewrite IH, length_alter.
Qed.

Lemma remove_first_elem i j l : NoDup l -> j ∈ remove_first i l <-> j ∈ l /\ j <> i.
Proof.
  induction l as [|k l IH]; intros Hnd; cbn [remove_first].
  - rewrite elem_of_nil. naive_solver.
  - apply NoDup_cons in Hnd as [Hk Hnd]. destruct (Nat.eqb_spec k i) as [->|Hki];
      rewrite !elem_of_cons, ?IH by done; naive_solver.
Qed.

Lemma remove_first_NoDup i l : NoDup l -> NoDup (remove_first i l).
Proof.
  induction l as [|k l IH]; intros Hnd; cbn [remove_first]; [done|].
  pose proof Hnd as Hnd0. apply NoDup_cons in Hnd as [Hk Hnd].
  destruct (Nat.eqb_spec k i); [done|]. apply NoDup_cons. split; [|by apply IH].
  rewrite remove_first_elem by done. naive_solver.
Qed.

Lemma subs_of_insert b t t' ids :
  subs_of (set_subs b (<[t := ids]> (bus_subs b))) t' =
    if bool_decide (t' = t) then ids else subs_of b t'.
Proof.
  unfold subs_of, set_subs. cbn [bus_subs]. case_bool_decide as E.
  - rewrite E. by rewrite lookup_insert_eq.
  - by rewrite lookup_insert_ne by done.
Qed.

(** The ids [Close] walks are exactly the listed ones. *)
Lemma listed_ids b id :
  id ∈ concat (snd <$> map_to_list (bus_subs b)) <-> exists t, id ∈ subs_of b t.
Proof.
  rewrite list_elem_of_In, List.in_concat. unfold subs_of. split.
  - intros (l & Hl & Hid). apply list_elem_of_In, list_elem_of_fmap in Hl as ([t l'] & -> & Hm).
    apply elem_of_map_to_list in Hm. exists t. rewrite Hm. by apply list_elem_of_In.
  - intros [t Ht]. destruct (bus_subs b !! t) as [l|] eqn:E; [|by apply elem_of_nil in Ht].
    exists l. split; [|by apply list_elem_of_In]. apply list_elem_of_In, list_elem_of_fmap.
    exists (t, l). split; [done|]. by apply elem_of_map_to_list.
Qed.

Lemma listed_ids_NoDup b :
  bus_ok b -> NoDup (concat (snd <$> map_to_list (bus_subs b))).
Proof.
  intros Hok. assert (forall t l, (t, l) ∈ map_to_list (bus_subs b) -> subs_of b t = l) as Hl.
  { intros t l H. apply elem_of_map_to_list in H. unfold subs_of. by rewrite H. }
  pose proof (NoDup_fst_map_to_list (bus_subs b)) as Hnd. revert Hl Hnd.
  generalize (map_to_list (bus_subs b)) as m. induction m as [|[t l] m IH]; intros Hl Hnd.
  - by apply NoDup_nil.
  - cbn [fmap list_fmap concat fst snd] in *. apply NoDup_cons in Hnd as [Ht Hnd].
    apply NoDup_app. split_and!.
    + rewrite <- (Hl t l) by by left. apply Hok.
    + intros id Hid Hin. apply list_elem_of_In, List.in_concat in Hin as (l' & Hl' & Hid').
      apply list_elem_of_In, list_elem_of_fmap in Hl' as ([t' l''] & -> & Hm).
      apply list_elem_of_In in Hid'. cbn [snd] in Hid'.
      rewrite <- (Hl t l) in Hid by by left.
      rewrite <- (Hl t' l'') in Hid' by by right.
      destruct (bok_listed _ Hok _ _ Hid) as (s & Hs & <-).
      destruct (bok_listed _ Hok _ _ Hid') as (s' & Hs' & Et). rewrite Hs in Hs'.
      injection Hs' as <-. apply Ht. apply list_elem_of_fmap. exists (t', l''). by subst.
    + apply IH; [|done]. intros t' l' H. apply Hl. by right.
Qed.

(** ** The contract: one bounded queue per subscription *)

Record queue := {
  q_cap : nat;
  q_ch : list BusMessage;
  q_open : bool;
}.

Inductive q_op :=
| QPublish (m : BusMessage)
| QRecv
| QClose
| QNone.

Definition q_step (q : queue) (op : q_op) : queue :=
  match op with
  | QPublish m =>
      if q_open q && (length (q_ch q) <? q_cap q)%nat
      then {| q_cap := q_cap q; q_ch := q_ch q ++ [m]; q_open := true |} else q
  | QRecv => {| q_cap := q_cap q; q_ch := drop 1 (q_ch q); q_open := q_open q |}
  | QClose => {| q_cap := q_cap q; q_ch := q_ch q; q_open := false |}
  | QNone => q
  end.

Lemma q_step_cap q op : q_cap (q_step q op) = q_cap q.
Proof. destruct op; cbn [q_step]; try done. by destruct (_ && _). Qed.

Lemma q_step_bounded q op :
  (length (q_ch q) <= q_cap q)%nat -> (length (q_ch (q_step q op)) <= q_cap q)%nat.
Proof.
  intros H. destruct op; cbn [q_step q_ch]; rewrite ?length_drop; try lia.
  destruct (_ && _) eqn:E; [|done]. cbn [q_ch]. rewrite length_app. cbn [length].
  apply andb_true_iff in E as [_ E%Nat.ltb_lt]. lia.
Qed.

Lemma q_step_open q op :
  q_open q = true -> op <> QClose -> q_open (q_step q op) = true.
Proof. intros H Hop. destruct op; cbn [q_step]; try done. by destruct (_ && _). Qed.

Definition q_recv (q : queue) : received :=
  match q_ch q with
  | m :: _ => RMsg m
  | [] => if q_open q then RBlocked else RClosed
  end.

Definition view (s : subscription) : queue :=
  {| q_cap := sub_cap s; q_ch := sub_ch s; q_open := negb (sub_closed s) |}.

(** What a call on the bus is for the subscription [id] of topic [t]. *)
Definition project (t : gostring) (id : nat) (op : bus_op) : q_op :=
  match op with
  | OpPublish t' m => if bool_decide (t' = t) then QPublish m else QNone
  | OpSubscribe _ => QNone
  | OpCancel id' => if (id' =? id)%nat then QClose else QNone
  | OpClose => QClose
  | OpRecv id' => if (id' =? id)%nat then QRecv else QNone
  end.

Lemma New_ok opts : Forall (fun o => exists n, o = WithBufferSize n) opts -> bus_ok (New opts).
Proof.
  unfold New. intros Hopts.
  match goal with |- bus_ok (foldl _ ?b _) => assert (bus_ok b) as H0; [|revert H0; generalize b] end.
  - constructor; cbn; try done; unfold subs_of; cbn.
    + intros t id H. rewrite lookup_empty in H. by apply elem_of_nil in H.
    + intros t. rewrite lookup_empty. by apply NoDup_nil.
  - induction Hopts as [|o opts [n ->] _ IH]; intros b Hb; cbn [foldl]; [done|].
    apply IH. unfold WithBufferSize. destruct (Z.ltb_spec 0 n); [|done].
    destruct Hb. by constructor.
Qed.

Lemma Publish_lookup b t m id s :
  bus_ok b -> bus_heap b !! id = Some s ->
  bus_heap (exec b (OpPublish t m)) !! id =
    Some (if bool_decide (t = sub_topic s) then deliver m s else s).
Proof.
  intros Hok Hs. cbn [exec]. unfold Publish.
  destruct (bok_subs _ Hok _ _ Hs) as (_ & _ & Hopen).
  destruct (bus_closed b) eqn:Hc; cbn [snd set_heap bus_heap].
  - rewrite Hs. case_bool_decide as E; [|done]. unfold deliver.
    destruct (sub_closed s) eqn:Es; [done|]. exfalso.
    pose proof (proj1 Hopen eq_refl) as Hin. unfold subs_of in Hin.
    rewrite (bok_closed _ Hok Hc), lookup_empty in Hin. by apply elem_of_nil in Hin.
  - rewrite on_subs_lookup by apply Hok. rewrite Hs. cbn [fmap option_fmap option_map].
    case_bool_decide as Hin; case_bool_decide as E; try done.
    + exfalso. apply E. destruct (bok_listed _ Hok _ _ Hin) as (s' & Hs' & <-). congruence.
    + unfold deliver. destruct (sub_closed s) eqn:Es; [done|]. exfalso. apply Hin.
      rewrite E. by apply Hopen.
Qed.

Lemma exec_subs_size b op :
  (length (bus_heap b) <= length (bus_heap (exec b op)))%nat.
Proof.
  destruct op as [t m|t|id| |id]; cbn [exec].
  - unfold Publish. destruct (bus_closed b); [done|]. cbn. by rewrite on_subs_length.
  - unfold Subscribe. destruct (bus_closed b); [done|]. cbn. rewrite length_app. lia.
  - unfold Cancel. destruct (bus_heap b !! id); [|done].
    case_bool_decide; cbn; by rewrite length_alter.
  - unfold Close. destruct (bus_closed b); [done|]. cbn. by rewrite on_subs_length.
  - unfold recv. destruct (bus_heap b !! id) as [s|]; [|done].
    destruct (sub_ch s); [done|]. cbn. by rewrite length_alter.
Qed.

Lemma exec_lookup b op id s :
  bus_ok b -> bus_heap b !! id = Some s ->
  exists s', bus_heap (exec b op) !! id = Some s'
  /\ sub_topic s' = sub_topic s /\ view s' = q_step (view s) (project (sub_topic s) id op).
Proof.
  intros Hok Hs. pose proof (bok_subs _ Hok _ _ Hs) as (Hcap & Hlen & Hopen).
  destruct op as [t m|t|id'| |id'].
  - rewrite (Publish_lookup _ _ _ _ _ Hok Hs). eexists. split; [done|]. cbn [project].
    case_bool_decide; [|done]. destruct s as [tp cap ch cl].
    unfold deliver, view, q_step. cbn -[Nat.ltb]. destruct cl; [done|].
    cbn -[Nat.ltb]. by destruct (length ch <? cap)%nat.
  - cbn [exec]. unfold Subscribe. exists s. destruct (bus_closed b); [done|].
    cbn [snd bus_heap]. split; [|done]. apply lookup_app_l_Some. exact Hs.
  - cbn [exec project]. unfold Cancel. destruct (Nat.eqb_spec id' id) as [->|Hne].
    + rewrite Hs. exists (close_sub s). split; [|done].
      case_bool_decide; cbn [set_heap set_subs bus_heap]; by rewrite list_lookup_alter_eq, Hs.
    + destruct (bus_heap b !! id') eqn:E; [|by exists s]. exists s. split; [|done].
      case_bool_decide; cbn [set_heap set_subs bus_heap]; by rewrite list_lookup_alter_ne.
  - cbn [exec project]. unfold Close. destruct (bus_closed b) eqn:Hc.
    + exists s. split; [done|]. split; [done|]. unfold view, q_step. cbn. f_equal.
      destruct (sub_closed s); [done|]. exfalso. pose proof (proj1 Hopen eq_refl) as Hin.
      unfold subs_of in Hin. rewrite (bok_closed _ Hok Hc), lookup_empty in Hin.
      by apply elem_of_nil in Hin.
    + cbn [snd bus_heap]. rewrite on_subs_lookup by by apply listed_ids_NoDup.
      rewrite Hs. cbn [fmap option_fmap option_map]. case_bool_decide as Hin.
      * by exists (close_sub s).
      * exists s. split; [done|]. split; [done|]. unfold view, q_step. cbn. f_equal.
        destruct (sub_closed s) eqn:Es; [done|]. exfalso. apply Hin, listed_ids.
        eexists. by apply Hopen.
  - cbn [exec project]. unfold recv. destruct (Nat.eqb_spec id' id) as [->|Hne].
    + rewrite Hs. destruct (sub_ch s) as [|m q] eqn:Eq; cbn [snd].
      * exists s. split; [done|]. split; [done|]. unfold view, q_step. cbn. by rewrite Eq.
      * cbn [set_heap bus_heap]. rewrite list_lookup_alter_eq, Hs. eexists. split; [done|].
        split; [done|]. unfold view, q_step. cbn. rewrite Eq. cbn. by rewrite drop_0.
    + exists s. destruct (bus_heap b !! id') as [s2|] eqn:E; [|done].
      destruct (sub_ch s2); [done|]. cbn [snd set_heap bus_heap].
      by rewrite list_lookup_alter_ne.
Qed.

(** ** The invariant is kept *)

Definition new_sub (b : Bus) (t : gostring) : subscription :=
  {| sub_topic := t; sub_cap := Z.to_nat (bufferSize b); sub_ch := []; sub_closed := false |}.

Definition heap_extends (b : Bus) (op : bus_op) : Prop :=
  match op with
  | OpSubscribe t =>
      bus_heap (exec b op) = bus_heap b ++ (if bus_closed b then [] else [new_sub b t])
  | _ => length (bus_heap (exec b op)) = length (bus_heap b)
  end.

Lemma exec_heap b op : heap_extends b op.
Proof.
  destruct op as [t m|t|id| |id]; cbn [heap_extends exec].
  - unfold Publish. destruct (bus_closed b); [done|]. cbn. by rewrite on_subs_length.
  - unfold Subscribe. destruct (bus_closed b); [by rewrite app_nil_r|done].
  - unfold Cancel. destruct (bus_heap b !! id); [|done].
    case_bool_decide; cbn; by rewrite length_alter.
  - unfold Close. destruct (bus_closed b); [done|]. cbn. by rewrite on_subs_length.
  - unfold recv. destruct (bus_heap b !! id) as [s|]; [|done].
    destruct (sub_ch s); [done|]. cbn. by rewrite length_alter.
Qed.

(** Every subscription after a call was there before it, or is the new one. *)
Lemma exec_lookup_inv b op id s' :
  bus_ok b -> bus_heap (exec b op) !! id = Some s' ->
  (exists s, bus_heap b !! id = Some s /\ sub_topic s' = sub_topic s
             /\ view s' = q_step (view s) (project (sub_topic s) id op))
  \/ (exists t, op = OpSubscribe t /\ bus_closed b = false /\ s' = new_sub b t
                /\ id = length (bus_heap b)).
Proof.
  intros Hok Hs'. destruct (bus_heap b !! id) as [s|] eqn:Hs.
  - left. exists s. destruct (exec_lookup b op id s Hok Hs) as (s2 & H2 & Ht & Hv).
    rewrite Hs' in H2. by injection H2 as ->.
  - right. pose proof (exec_heap b op) as Hh. apply lookup_ge_None in Hs.
    pose proof (lookup_lt_Some _ _ _ Hs') as Hlt.
    destruct op as [t m|t|id0| |id0]; cbn [heap_extends] in Hh; try (rewrite Hh in Hlt; lia).
    exists t. rewrite Hh in Hs', Hlt. destruct (bus_closed b).
    + rewrite app_nil_r in Hlt. lia.
    + rewrite length_app in Hlt. cbn in Hlt.
      assert (id = length (bus_heap b)) as -> by lia. split_and!; try done.
      rewrite lookup_app_r, Nat.sub_diag in Hs' by lia. by injection Hs' as <-.
Qed.

(** The lists of subscriptions after a call. *)
Lemma exec_subs_of b op t :
  subs_of (exec b op) t =
    match op with
    | OpSubscribe t' =>
        subs_of b t ++ (if negb (bus_closed b) && bool_decide (t = t')
                        then [length (bus_heap b)] else [])
    | OpCancel id =>
        match bus_heap b !! id with
        | Some s => if bool_decide (t = sub_topic s /\ id ∈ subs_of b t)
                    then remove_first id (subs_of b t) else subs_of b t
        | None => subs_of b t
        end
    | OpClose => if bus_closed b then subs_of b t else []
    | _ => subs_of b t
    end.
Proof.
  destruct op as [t' m|t'|id| |id]; cbn [exec].
  - unfold Publish. by destruct (bus_closed b).
  - unfold Subscribe. destruct (bus_closed b); cbn [snd negb andb]; [by rewrite app_nil_r|].
    unfold subs_of. cbn [bus_subs]. case_bool_decide as E.
    + rewrite E. by rewrite lookup_insert_eq.
    + rewrite lookup_insert_ne by done. by rewrite app_nil_r.
  - unfold Cancel. destruct (bus_heap b !! id) as [s|]; [|done].
    transitivity (subs_of (if bool_decide (id ∈ subs_of b (sub_topic s))
      then set_subs b (<[sub_topic s := remove_first id (subs_of b (sub_topic s))]> (bus_subs b))
      else b) t); [done|].
    case_bool_decide as Hin.
    + rewrite subs_of_insert. case_bool_decide as E.
      * subst t. by rewrite bool_decide_true.
      * rewrite bool_decide_false by naive_solver. done.
    + rewrite bool_decide_false by naive_solver. done.
  - unfold Close. by destruct (bus_closed b).
  - unfold recv. destruct (bus_heap b !! id) as [s|]; [|done]. by destruct (sub_ch s).
Qed.

Lemma exec_closed b op :
  bus_closed (exec b op) = bus_closed b || (if op is OpClose then true else false)
  /\ bufferSize (exec b op) = bufferSize b.
Proof.
  destruct op as [t' m|t'|id| |id]; cbn [exec].
  - unfold Publish. destruct (bus_closed b) eqn:E; cbn; by rewrite ?E.
  - unfold Subscribe. destruct (bus_closed b) eqn:E; cbn; by rewrite ?E.
  - unfold Cancel. destruct (bus_heap b !! id) as [s|]; [|by rewrite orb_false_r].
    case_bool_decide; cbn; by rewrite orb_false_r.
  - unfold Close. destruct (bus_closed b) eqn:E; cbn; by rewrite ?E.
  - unfold recv. destruct (bus_heap b !! id) as [s|]; [|by rewrite orb_false_r].
    destruct (sub_ch s); cbn; by rewrite orb_false_r.
Qed.

Lemma exec_sub_ok b op id s' :
  bus_ok b -> bus_heap (exec b op) !! id = Some s' -> sub_ok (exec b op) id s'.
Proof.
  intros Hok Hs'. unfold sub_ok. rewrite exec_subs_of.
  destruct (exec_lookup_inv b op id s' Hok Hs')
    as [(s & Hs & Ht & Hv)|(t & -> & Hc & -> & ->)].
  - destruct (bok_subs _ Hok _ _ Hs) as (Hcap & Hlen & Hopen).
    assert (sub_cap s' = q_cap (q_step (view s) (project (sub_topic s) id op))) as Ecap by by rewrite <- Hv.
    assert (sub_ch s' = q_ch (q_step (view s) (project (sub_topic s) id op))) as Ech by by rewrite <- Hv.
    assert (negb (sub_closed s') = q_open (q_step (view s) (project (sub_topic s) id op))) as Eop
      by by rewrite <- Hv.
    rewrite Ht, Ecap, Ech. split; [|split].
    + by rewrite q_step_cap.
    + rewrite q_step_cap. by apply q_step_bounded.
    + assert (sub_closed s' = false <-> q_open (q_step (view s) (project (sub_topic s) id op)) = true)
        as -> by (rewrite <- Eop; by destruct (sub_closed s')).
      assert (q_open (view s) = true <-> id ∈ subs_of b (sub_topic s)) as Ho
        by (rewrite <- Hopen; cbn; by destruct (sub_closed s)).
      destruct op as [t m|t|id'| |id']; cbn [project].
      * case_bool_decide; [|done]. cbn [q_step]. destruct (q_open (view s)) eqn:Eo; cbn [andb];
          [|by rewrite Eo]. case_match; [done|by rewrite Eo].
      * rewrite elem_of_app. rewrite <- Ho. split; [by left|]. intros [H|H]; [done|].
        case_match; [|by apply elem_of_nil in H]. apply list_elem_of_singleton in H.
        apply lookup_lt_Some in Hs. lia.
      * destruct (Nat.eqb_spec id' id) as [->|Hne].
        -- rewrite Hs. cbn [q_step q_open]. split; [done|]. intros H. exfalso. revert H.
           case_bool_decide as E; [|naive_solver].
           rewrite remove_first_elem by apply Hok. naive_solver.
        -- cbn [q_step]. rewrite Ho. destruct (bus_heap b !! id'); [|done].
           case_bool_decide; [|done]. rewrite remove_first_elem by apply Hok. naive_solver.
      * cbn [q_step q_open]. split; [done|]. destruct (bus_closed b) eqn:Hc.
        -- unfold subs_of. rewrite (bok_closed _ Hok Hc), lookup_empty. intros H.
           by apply elem_of_nil in H.
        -- intros H. by apply elem_of_nil in H.
      * destruct (_ =? _)%nat; cbn [q_step q_open]; by rewrite <- Ho.
  - cbn. pose proof (bok_size _ Hok). split_and!; [lia|lia|]. split; [|done]. intros _.
    rewrite Hc. rewrite bool_decide_true by done. cbn. rewrite elem_of_app. right. by left.
Qed.

Lemma exec_ok b op : bus_ok b -> bus_ok (exec b op).
Proof.
  intros Hok. destruct (exec_closed b op) as [Hcl Hsz]. constructor.
  - rewrite Hsz. apply Hok.
  - intros id s Hs. by apply exec_sub_ok.
  - intros t id Hin.
    assert (id ∈ subs_of b t \/ (op = OpSubscribe t /\ bus_closed b = false
              /\ id = length (bus_heap b))) as [Hin'|(-> & Hc & ->)].
    { rewrite exec_subs_of in Hin. destruct op as [t' m|t'|id'| |id']; try by left.
      - apply elem_of_app in Hin as [|Hin]; [by left|]. right.
        destruct (bus_closed b); cbn in Hin; [by apply elem_of_nil in Hin|].
        case_bool_decide as E; [|by apply elem_of_nil in Hin].
        apply list_elem_of_singleton in Hin. by subst.
      - left. destruct (bus_heap b !! id'); [|done]. case_bool_decide; [|done].
        apply remove_first_elem in Hin; [|apply Hok]. tauto.
      - destruct (bus_closed b); [by left|by apply elem_of_nil in Hin]. }
    + destruct (bok_listed _ Hok _ _ Hin') as (s & Hs & Ht).
      destruct (exec_lookup b op id s Hok Hs) as (s' & Hs' & Ht' & _). exists s'. by rewrite Ht'.
    + exists (new_sub b t). pose proof (exec_heap b (OpSubscribe t)) as Hh. cbn [heap_extends] in Hh.
      rewrite Hh, Hc. split; [|done]. rewrite lookup_app_r, Nat.sub_diag by lia. done.
  - intros t. rewrite exec_subs_of. pose proof (bok_nodup _ Hok t) as Hnd.
    destruct op as [t' m|t'|id'| |id']; try done.
    + apply NoDup_app. split_and!; [done| |by case_match; [apply NoDup_singleton|apply NoDup_nil]].
      intros id Hin Hin2. case_match; [|by apply elem_of_nil in Hin2].
      apply list_elem_of_singleton in Hin2. destruct (bok_listed _ Hok _ _ Hin) as (s & Hs & _).
      apply lookup_lt_Some in Hs. lia.
    + destruct (bus_heap b !! id'); [|done]. case_bool_decide; [|done]. by apply remove_first_NoDup.
    + destruct (bus_closed b); [done|by apply NoDup_nil].
  - rewrite Hcl. intros Hc. destruct (bus_closed b) eqn:Hb.
    + pose proof (bok_closed _ Hok Hb) as He.
      destruct op as [t' m|t'|id'| |id']; cbn [exec].
      * unfold Publish. by rewrite Hb.
      * unfold Subscribe. by rewrite Hb.
      * unfold Cancel. destruct (bus_heap b !! id') as [s|]; [|done].
        rewrite bool_decide_false; [done|]. unfold subs_of. rewrite He, lookup_empty.
        apply not_elem_of_nil.
      * unfold Close. by rewrite Hb.
      * unfold recv. destruct (bus_heap b !! id') as [s|]; [|done]. by destruct (sub_ch s).
    + destruct op; try done. cbn [exec]. unfold Close. by rewrite Hb.
Qed.

Lemma exec_all_ok b ops : bus_ok b -> bus_ok (exec_all b ops).
Proof.
  unfold exec_all. revert b. induction ops as [|op ops IH]; intros b Hok; [done|].
  apply IH. by apply exec_ok.
Qed.

Lemma recv_view b id s :
  bus_heap b !! id = Some s -> fst (recv b id) = q_recv (view s).
Proof.
  unfold recv, q_recv. intros ->. cbn [view q_ch q_open]. destruct (sub_ch s); [|done].
  cbn. by destruct (sub_closed s).
Qed.

(** ** Properties *)

(** The messages that the receives of an execution on [id] return. *)
Fixpoint received_by (b : Bus) (id : nat) (ops : list bus_op) : list BusMessage :=
  match ops with
  | [] => []
  | op :: ops =>
      (match op with
       | OpRecv id' =>
           if (id' =? id)%nat then
             match fst (recv b id) with RMsg m => [m] | _ => [] end
           else []
       | _ => []
       end) ++ received_by (exec b op) id ops
  end.

Definition published (t : gostring) (ops : list bus_op) : list BusMessage :=
  ops ≫= (fun op => match op with
                    | OpPublish t' m => if bool_decide (t' = t) then [m] else []
                    | _ => []
                    end).

(** The execution does not cancel [id] and does not close the bus. *)
Definition keeps_open (id : nat) (ops : list bus_op) : bool :=
  forallb (fun op => match op with
                     | OpCancel id' => negb (id' =? id)%nat
                     | OpClose => false
                     | _ => true
                     end) ops.

Lemma received_fifo ops b id s :
  bus_ok b -> bus_heap b !! id = Some s -> sub_closed s = false -> keeps_open id ops = true ->
  exists s', bus_heap (exec_all b ops) !! id = Some s'
  /\ sublist (received_by b id ops ++ sub_ch s') (sub_ch s ++ published (sub_topic s) ops)
  /\ ((length (sub_ch s ++ published (sub_topic s) ops) <= sub_cap s)%nat ->
      received_by b id ops ++ sub_ch s' = sub_ch s ++ published (sub_topic s) ops).
Proof.
  revert b s. induction ops as [|op ops IH]; intros b s Hok Hs Hopen Hk.
  - exists s. cbn. rewrite app_nil_r. done.
  - cbn [keeps_open forallb] in Hk. apply andb_true_iff in Hk as [Hop Hk].
    destruct (exec_lookup b op id s Hok Hs) as (s1 & Hs1 & Ht1 & Hv).
    assert (sub_cap s1 = sub_cap s) as Ecap.
    { change (q_cap (view s1) = sub_cap s). rewrite Hv. apply q_step_cap. }
    assert (sub_ch s1 = q_ch (q_step (view s) (project (sub_topic s) id op))) as Ech
      by by rewrite <- Hv.
    assert (sub_closed s1 = false) as Hopen1.
    { assert (negb (sub_closed s1) = true) as Hn; [|by apply negb_true_iff in Hn].
      change (q_open (view s1) = true). rewrite Hv.
      apply q_step_open; [cbn; by rewrite Hopen|].
      destruct op as [t m|t|id'| |id']; cbn [project]; try done; [by case_bool_decide| |].
      - apply negb_true_iff in Hop. by rewrite Hop.
      - by destruct (_ =? _)%nat. }
    destruct (IH (exec b op) s1 (exec_ok _ _ Hok) Hs1 Hopen1 Hk) as (s' & Hs' & Hsub & Heq).
    exists s'. split; [exact Hs'|]. rewrite Ht1, Ecap, Ech in *.
    change (published (sub_topic s) (op :: ops)) with
      ((match op with
        | OpPublish t' m => if bool_decide (t' = sub_topic s) then [m] else []
        | _ => [] end) ++ published (sub_topic s) ops).
    cbn [received_by]. destruct op as [t m|t|id'| |id']; cbn [project] in *; try done.
    + case_bool_decide; [|done]. cbn [q_step app] in *.
      assert (q_open (view s) = true) as Ho by (cbn; by rewrite Hopen).
      rewrite Ho in Hsub, Heq. cbn [view andb q_ch q_cap] in Hsub, Heq.
      destruct (Nat.ltb_spec (length (sub_ch s)) (sub_cap s)) as [Hlt|Hge]; cbn [q_ch] in *.
      * rewrite <- app_assoc in Hsub, Heq. done.
      * split.
        -- etransitivity; [exact Hsub|]. apply sublist_app; [done|]. by apply sublist_cons.
        -- rewrite length_app. cbn [length]. intros. lia.
    + destruct (id' =? id)%nat; [done|]. done.
    + destruct (Nat.eqb_spec id' id) as [->|Hne]; [|done].
      rewrite (recv_view _ _ _ Hs). cbn [q_step q_ch view] in *. unfold q_recv. cbn [q_ch view].
      destruct (sub_ch s) as [|m q] eqn:Eq.
      * cbn [drop app] in *. destruct (q_open (view s)); done.
      * cbn [drop app] in *. rewrite drop_0 in Hsub, Heq. split; [by apply sublist_skip|].
        intros HL. f_equal. apply Heq. cbn [length] in HL. lia.
Qed.

(** C15: the bus refines its contract.  In every execution from a fresh bus the
    invariant [bus_ok] holds, and each call changes a subscription exactly as
    the bounded queue of that subscription does: a publish on its topic is
    appended if there is room and the subscription is open, a receive takes the
    oldest message, cancel and close end it, and nothing else touches it. *)
Theorem bus_refines_queues (opts : list Z) (ops : list bus_op) (op : bus_op) :
  let b := exec_all (New (WithBufferSize <$> opts)) ops in
  bus_ok b
  /\ forall id s, bus_heap b !! id = Some s ->
     fst (recv b id) = q_recv (view s)
     /\ exists s', bus_heap (exec b op) !! id = Some s'
        /\ sub_topic s' = sub_topic s
        /\ view s' = q_step (view s) (project (sub_topic s) id op).
Proof.
  intros b. assert (bus_ok b) as Hok.
  { apply exec_all_ok, New_ok. apply Forall_fmap, Forall_true. intros n. by exists n. }
  split; [done|]. intros id s Hs. split; [by apply recv_view|by apply exec_lookup].
Qed.

(** Delivery.  A subscriber that is not cancelled receives the messages
    published on its topic after it subscribed in the order of publication;
    messages may be missing (a slow consumer's are dropped), but none is when
    no more of them were published than its buffer holds. *)
Theorem subscriber_fifo (b : Bus) (t : gostring) (ops : list bus_op)
    (Hok : bus_ok b) (Hopen : bus_closed b = false)
    (Hkeep : keeps_open (length (bus_heap b)) ops = true) :
  let id := length (bus_heap b) in
  let b0 := exec b (OpSubscribe t) in
  exists s, bus_heap (exec_all b0 ops) !! id = Some s
  /\ sublist (received_by b0 id ops ++ sub_ch s) (published t ops)
  /\ (Z.of_nat (length (published t ops)) <= bufferSize b ->
      received_by b0 id ops ++ sub_ch s = published t ops).
Proof.
  intros id b0.
  assert (bus_heap b0 !! id = Some (new_sub b t)) as Hs.
  { pose proof (exec_heap b (OpSubscribe t)) as Hh. cbn [heap_extends] in Hh. unfold b0.
    rewrite Hh, Hopen, lookup_app_r, Nat.sub_diag by done. done. }
  destruct (received_fifo ops b0 id (new_sub b t)) as (s & H1 & H2 & H3);
    [by apply exec_ok|done|done|done|].
  cbn [new_sub sub_ch sub_topic sub_cap app] in *. exists s. split; [done|]. split; [done|].
  intros HL. apply H3. lia.
Qed.

Definition demo_msg (t : gostring) (n : Z) : BusMessage :=
  {| BM_ConversationID := "c1"; BM_Topic := t; BM_Kind := KindTurn; BM_Payload := PBytes [];
     BM_Timestamp := n |}.

Definition demo_ops : list bus_op :=
  [OpPublish "x" (demo_msg "x" 1); OpPublish "y" (demo_msg "y" 2); OpRecv 0;
   OpPublish "x" (demo_msg "x" 3); OpRecv 0].

Lemma subscriber_fifo_witness :
  exists s, bus_heap (exec_all (exec (New []) (OpSubscribe "x")) demo_ops) !! 0%nat = Some s
  /\ sublist (received_by (exec (New []) (OpSubscribe "x")) 0 demo_ops ++ sub_ch s)
       (published "x" demo_ops)
  /\ (Z.of_nat (length (published "x" demo_ops)) <= bufferSize (New []) ->
      received_by (exec (New []) (OpSubscribe "x")) 0 demo_ops ++ sub_ch s
      = published "x" demo_ops).
Proof.
  apply (subscriber_fifo (New []) "x" demo_ops); [|reflexivity|reflexivity].
  apply (New_ok []). by apply Forall_nil.
Defined.

(** Closing.  Once [Close] has returned, publishing and subscribing return
    their errors and change nothing, closing again returns no error, and no
    receive on any subscription ever made blocks: it drains the buffer and then
    reports the end of the stream. *)
Theorem Close_ends (b : Bus) (t : gostring) (msg : BusMessage) (Hok : bus_ok b) :
  let b' := snd (Close b) in
  Publish b' t msg = (Some (ErrNew "inproc bus: publish on closed bus"), b')
  /\ Subscribe b' t = (Err (ErrNew "inproc bus: subscribe on closed bus"), b')
  /\ Close b' = (None, b')
  /\ forall id s, bus_heap b' !! id = Some s ->
     fst (recv b' id) = match sub_ch s with m :: _ => RMsg m | [] => RClosed end.
Proof.
  intros b'. pose proof (exec_ok b OpClose Hok) as Hok'. fold b' in Hok'. change (exec b OpClose) with b' in Hok'.
  assert (bus_closed b' = true) as Hc.
  { destruct (exec_closed b OpClose) as [H _]. change (exec b OpClose) with b' in H.
    by rewrite H, orb_true_r. }
  unfold Publish, Subscribe, Close. rewrite Hc. split_and!; try done.
  intros id s Hs. rewrite (recv_view _ _ _ Hs). unfold q_recv. cbn [view q_ch q_open].
  destruct (sub_ch s); [|done]. destruct (bok_subs _ Hok' _ _ Hs) as (_ & _ & Ho).
  destruct (sub_closed s); [done|]. exfalso. pose proof (proj1 Ho eq_refl) as Hin.
  unfold subs_of in Hin. rewrite (bok_closed _ Hok' Hc), lookup_empty in Hin.
  by apply elem_of_nil in Hin.
Qed.

Lemma Close_ends_witness :
  let b := exec_all (New []) [OpSubscribe "x"; OpPublish "x" (demo_msg "x" 1)] in
  let b' := snd (Close b) in
  Publish b' "x" (demo_msg "x" 2) = (Some (ErrNew "inproc bus: publish on closed bus"), b')
  /\ Subscribe b' "x" = (Err (ErrNew "inproc bus: subscribe on closed bus"), b')
  /\ Close b' = (None, b')
  /\ forall id s, bus_heap b' !! id = Some s ->
     fst (recv b' id) = match sub_ch s with m :: _ => RMsg m | [] => RClosed end.
Proof.
  apply (Close_ends (exec_all (New []) [OpSubscribe "x"; OpPublish "x" (demo_msg "x" 1)])).
  apply exec_all_ok, (New_ok []). by apply Forall_nil.
Defined.
