(* ===== verification/Broker.v ===== *)
(** * The conversation broker ([internal/conversation/broker.go])

    The broker talks to a store, to peers, to a terminator, to a bus, to a
    context, to the clock and to the random source; the class [BrokerEnv] is
    that interface, over an abstract world.  The broker's own code is a program
    in a state monad over the world and the log of the calls made so far.  A
    result of [None] is a Go panic (or, for [loop], fuel that ran out, which
    [Run_returns] excludes); deferred calls run in both cases. *)
From S2P Require Import Prelude GoLib Model Policy Sentinel Envelope Bus.

(** ** The broker's environment

    [env_recv_within ch d] is the receive of a select with a timer: [None] when
    the timer fires first or the channel is closed.  [env_recv_ready ch] is what
    non-blocking receives return until the channel is empty or closed.
    [env_random n] is [rand.Read] of [n] bytes, [None] its error. *)
Class BrokerEnv (World Transport : Type) := {
  env_CreateConversation : Conversation -> World -> option goerr * World;
  env_UpdateConversation : gostring -> ConversationPatch -> World -> option goerr * World;
  env_AppendConversationTurn : ConversationTurn -> World -> option goerr * World;
  env_Start : Transport -> PeerSpec -> gostring -> PeerSlot -> World -> option goerr * World;
  env_Deliver : Transport -> Envelope -> World -> result ConversationTurn * World;
  env_Stop : Transport -> Z -> World -> option goerr * World;
  env_TerminatorStart : Conversation -> World -> option goerr * World;
  env_TerminatorStop : World -> option goerr * World;
  env_Publish : gostring -> BusMessage -> World -> option goerr * World;
  env_Subscribe : gostring -> World -> result nat * World;
  env_Cancel : nat -> World -> World;
  env_recv_within : nat -> Z -> World -> option BusMessage * World;
  env_recv_ready : nat -> World -> list BusMessage * World;
  env_ctx_done : World -> bool * World;
  env_now : World -> time * World;
  env_random : nat -> World -> option gostring * World;
}.

(** A call of the broker on its environment, with its outcome. *)
Inductive call {Transport : Type} :=
| KCreate (conv : Conversation) (e : option goerr)
| KUpdate (id : gostring) (p : ConversationPatch) (e : option goerr)
| KAppend (t : ConversationTurn) (e : option goerr)
| KStart (tr : Transport) (spec : PeerSpec) (id : gostring) (slot : PeerSlot)
    (e : option goerr)
| KDeliver (tr : Transport) (env : Envelope) (r : result ConversationTurn)
| KStop (tr : Transport)
| KTerminatorStart (conv : Conversation) (e : option goerr)
| KTerminatorStop
| KPublish (topic : gostring) (m : BusMessage) (e : option goerr)
| KSubscribe (topic : gostring) (r : result nat)
| KCancel (ch : nat)
| KDrain (ch : nat) (ms : list BusMessage)
| KCtx (done : bool).
Arguments call Transport : clear implicits.

Record FinalResult := {
  FR_Conversation : Conversation;
  FR_Turns : list ConversationTurn;
  FR_TerminatorNote : gostring;
  FR_Warnings : list gostring;
}.

(** [BrokerDeps]; a nil policy or transport is [None]. *)
Record BrokerDeps {Transport : Type} := {
  deps_Conversation : Conversation;
  deps_PeerA : option Transport;
  deps_PeerB : option Transport;
  deps_DrainWindow : Z;
  deps_Policy : option TurnPolicy;
  deps_PeersByID : gmap PeerID Transport;
  deps_PeerOrder : list PeerID;
}.
Arguments BrokerDeps Transport : clear implicits.

Definition defaultDrainWindow : Z := 50 * 1000000.

Definition slotFromPeerID (id : PeerID) : PeerSlot :=
  if bool_decide (id = "b") then PeerSlotB else PeerSlotA.

(** [make(\[\]model.ConversationTurn, 0, n)] panics when [n] is negative or the
    240-byte elements exceed the 48-bit address space. *)
Definition makeslice_ok (n : Z) : bool := (0 <=? n) && (n * 240 <=? 2 ^ 48).

(** The fields of a turn that the broker sets before it stores the turn. *)
Definition stamp_turn (first : bool) (currentID : PeerID) (t : ConversationTurn)
    : ConversationTurn :=
  with_routing t currentID (T_ToID t) (if first then TurnReasonOpener else T_Reason t)
    (T_NextIDParsed t) (T_FallbackUsed t).

(** The fields it sets, once the policy has chosen, on the entry of the turn log. *)
Definition route_turn (d : Decision) (t : ConversationTurn) : ConversationTurn :=
  with_routing t (T_FromID t) (D_Next d)
    (if bool_decide (T_Reason t = TurnReasonOpener) then TurnReasonOpener
     else if D_FallbackUsed d then TurnReasonFallbackRoundRobin else TurnReasonAddressed)
    (match D_Parsed d with Some p => Some p | None => T_NextIDParsed t end)
    (D_FallbackUsed d).

(** What a control message makes the broker do: [Some] ends the conversation. *)
Definition handle_control (ctl : ControlMsg) : option (ConversationStatus * gostring) :=
  if bool_decide (CM_Kind ctl = ControlVerdict) then
    match CM_Verdict ctl with
    | Some v => if bool_decide (V_Decision v = DecisionTerminate)
                then Some (V_Status v, V_Reason v) else None
    | None => None
    end
  else if bool_decide (CM_Kind ctl = ControlPeerCrashed) then
    Some (ConvPeerCrashed, "peer " ++ CM_Slot ctl ++ " crashed: " ++ CM_Detail ctl)
  else if bool_decide (CM_Kind ctl = ControlPeerBlocked) then
    Some (ConvPeerBlocked, "peer " ++ CM_Slot ctl ++ " blocked: " ++ CM_Detail ctl)
  else None.

Fixpoint first_control (ctls : list ControlMsg) : option (ConversationStatus * gostring) :=
  match ctls with
  | [] => None
  | c :: ctls => match handle_control c with Some r => Some r | None => first_control ctls end
  end.

Definition warn (pre : gostring) (e : option goerr) : list gostring :=
  match e with Some e => [pre ++ Error e] | None => [] end.

(** The response handed to the policy and to the next speaker. *)
Definition next_response (conv : Conversation) (t : ConversationTurn) : gostring :=
  if bool_decide (TS_Kind (C_Terminator conv) = "sentinel")
  then StripSentinel (T_Response t) (TS_Sentinel (C_Terminator conv)) else T_Response t.

Definition specForPeerID (conv : Conversation) (id : PeerID) : PeerSpec :=
  match list_find (fun p => PP_ID p = id) (C_Peers conv) with
  | Some (_, p) => PP_Spec p
  | None =>
      if bool_decide (id = "a") then C_PeerA conv
      else if bool_decide (id = "b") then C_PeerB conv
      else zeroPeerSpec
  end.

(** ** The broker's program *)
Section Broker.
Context {World Transport : Type} {env : BrokerEnv World Transport}.
Variable d : BrokerDeps Transport.

Definition state : Type := World * list (call Transport).
Definition M (A : Type) : Type := state -> option A * state.

#[export] Instance M_ret : MRet M := fun _ a s => (Some a, s).
#[export] Instance M_bind : MBind M := fun _ _ f m s =>
  match m s with
  | (Some a, s) => f a s
  | (None, s) => (None, s)
  end.

Definition panic {A} : M A := fun s => (None, s).

(** [defer k; m]: [k] runs when [m] returns and when it panics. *)
Definition defer {A} (k : M unit) (m : M A) : M A := fun s =>
  let '(o, s) := m s in
  match k s with
  | (Some _, s) => (o, s)
  | (None, s) => (None, s)
  end.

(** A call on the environment, logged. *)
Definition logged {A} (k : A -> call Transport) (f : World -> A * World) : M A :=
  fun '(w, l) => let '(a, w) := f w in (Some a, (w, l ++ [k a])).

(** A call that is not logged: the clock and the random source. *)
Definition silent {A} (f : World -> A * World) : M A :=
  fun '(w, l) => let '(a, w) := f w in (Some a, (w, l)).

Definition or_panic {A} (o : option A) : M A :=
  match o with Some a => mret a | None => panic end.

Definition ctx_done : M bool := logged KCtx env_ctx_done.

Definition new_marker : M gostring :=
  r ← silent (env_random markerSuffixBytes);
  buf ← or_panic r;
  mret (NewMarkerToken buf).

Definition n_peer : bool := negb (bool_decide (deps_PeersByID d = ∅)).

Definition peerIDs : list PeerID :=
  if n_peer && negb (bool_decide (deps_PeerOrder d = [])) then deps_PeerOrder d else ["a"; "b"].

Definition policy_of : TurnPolicy := default AddressedPolicy (deps_Policy d).

Definition transportFor (slot : PeerSlot) : option Transport :=
  let legacy := if bool_decide (slot = PeerSlotA) then deps_PeerA d else deps_PeerB d in
  if n_peer then
    match deps_PeersByID d !! slot with Some t => Some t | None => legacy end
  else legacy.

Definition start (o : option Transport) (spec : PeerSpec) (id : gostring) (slot : PeerSlot)
    : M (option goerr) :=
  t ← or_panic o; logged (KStart t spec id slot) (env_Start t spec id slot).

Definition stop (o : option Transport) : M unit :=
  t ← or_panic o; _ ← logged (fun _ => KStop t) (env_Stop t Second); mret tt.

Fixpoint stopPeerIDs (ids : list PeerID) : M unit :=
  match ids with
  | [] => mret tt
  | id :: ids =>
      match deps_PeersByID d !! id with
      | Some t => _ ← stop (Some t); stopPeerIDs ids
      | None => stopPeerIDs ids
      end
  end.

Definition stopAllPeers : M unit :=
  if n_peer then stopPeerIDs (deps_PeerOrder d)
  else _ ← stop (deps_PeerA d); stop (deps_PeerB d).

(** The loop of [startAllPeers] over [PeerOrder]; [started] is what it has
    appended to [started]. *)
Fixpoint startPeerIDs (conv : Conversation) (started ids : list PeerID) : M (option goerr) :=
  match ids with
  | [] => mret None
  | id :: ids =>
      match deps_PeersByID d !! id with
      | None =>
          _ ← stopPeerIDs started;
          mret (Some (ErrNew ("peer " ++ id ++ " declared in PeerOrder but missing from PeersByID")))
      | Some t =>
          e ← start (Some t) (specForPeerID conv id) (C_ID conv) id;
          match e with
          | Some e => _ ← stopPeerIDs started; mret (Some (ErrWrapped ("peer " ++ id ++ " start: ") e))
          | None => startPeerIDs conv (started ++ [id]) ids
          end
      end
  end.

Definition startAllPeers (conv : Conversation) : M (option goerr) :=
  if n_peer then startPeerIDs conv [] (deps_PeerOrder d)
  else
    e ← start (deps_PeerA d) (C_PeerA conv) (C_ID conv) PeerSlotA;
    match e with
    | Some e => mret (Some (ErrWrapped "peer A start: " e))
    | None =>
        e ← start (deps_PeerB d) (C_PeerB conv) (C_ID conv) PeerSlotB;
        match e with
        | Some e => _ ← stop (deps_PeerA d); mret (Some (ErrWrapped "peer B start: " e))
        | None => mret None
        end
    end.

Definition publishTurn (t : ConversationTurn) : M (option goerr) :=
  now ← silent env_now;
  let topic := TopicTurn (T_ConversationID t) in
  let m := {| BM_ConversationID := T_ConversationID t; BM_Topic := topic; BM_Kind := KindTurn;
              BM_Payload := PTurn t; BM_Timestamp := now |} in
  logged (KPublish topic m) (env_Publish topic m).

Definition finalize (conv : Conversation) (turns : list ConversationTurn)
    (warnings : list gostring) (status : ConversationStatus) (note : gostring) : M FinalResult :=
  now ← silent env_now;
  let conv := set_ended (set_status conv status) (Some now) in
  let conv := if (TurnsConsumed conv =? 0) && (0 <? Z.of_nat (length turns))
              then set_consumed conv (Z.of_nat (length turns)) else conv in
  let patch := {| CP_Status := Some status; CP_EndedAt := Some now;
                  CP_TurnsConsumed := Some (TurnsConsumed conv) |} in
  e ← logged (KUpdate (C_ID conv) patch) (env_UpdateConversation (C_ID conv) patch);
  mret {| FR_Conversation := conv; FR_Turns := turns; FR_TerminatorNote := note;
          FR_Warnings := warnings ++ warn "store update_conversation: " e |}.

Definition drainControlTimed (ch : nat) (deadline : Z) : M (list ControlMsg) :=
  ms ← logged (KDrain ch) (fun w =>
    let '(first, w) := env_recv_within ch deadline w in
    match first with
    | None => ([], w)
    | Some m => let '(ms, w) := env_recv_ready ch w in (m :: ms, w)
    end);
  mret (omap (fun m => Unmarshal_ControlMsg (BM_Payload m)) ms).

Definition drain_window : Z :=
  if deps_DrainWindow d <=? 0 then defaultDrainWindow else deps_DrainWindow d.

(** The [for] loop of [Run]; one unit of fuel per iteration. *)
Fixpoint loop (fuel : nat) (ch : nat) (conv : Conversation) (warnings : list gostring)
    (turns : list ConversationTurn) (active : PeerSlot) (envelope : Envelope)
    : M FinalResult :=
  match fuel with
  | O => panic
  | S fuel =>
      let n := Z.of_nat (length turns) in
      cancelled ← ctx_done;
      if cancelled : bool
      then finalize (set_consumed conv n) turns warnings ConvInterrupted "context cancelled"
      else
        tr ← or_panic (transportFor active);
        r ← logged (KDeliver tr envelope) (env_Deliver tr envelope);
        match r with
        | Err e =>
            if is_ctx_error e
            then finalize (set_consumed conv n) turns warnings ConvInterrupted (Error e)
            else finalize (set_consumed conv n) turns warnings ConvError
                   ("peer " ++ active ++ " deliver: " ++ Error e)
        | Ok turn =>
            let currentID := PeerIDFromSlot active in
            let turn := stamp_turn (length turns =? 0)%nat currentID turn in
            e1 ← logged (KAppend turn) (env_AppendConversationTurn turn);
            e2 ← publishTurn turn;
            let warnings := warnings ++ warn "store append_turn: " e1 ++ warn "publish turn: " e2 in
            let conv := set_consumed conv (n + 1) in
            let nextResponse := next_response conv turn in
            decision ← or_panic (@policy_Next policy_of currentID nextResponse peerIDs);
            let turns := turns ++ [route_turn decision turn] in
            if MaxTurns conv <=? n + 1
            then finalize conv turns warnings ConvMaxTurnsHit "max turns reached"
            else
              cancelled ← ctx_done;
              if cancelled : bool
              then finalize conv turns warnings ConvInterrupted "context cancelled"
              else
                ctls ← drainControlTimed ch drain_window;
                match first_control ctls with
                | Some (status, note) => finalize conv turns warnings status note
                | None =>
                    let next := if n_peer then D_Next decision
                                else slotFromPeerID (D_Next decision) in
                    marker ← new_marker;
                    loop fuel ch conv warnings turns next
                      (BuildEnvelopeTurnN conv (n + 2) active nextResponse marker)
                end
        end
  end.

(** The first speaker. *)
Definition opener (conv : Conversation) : PeerSlot :=
  if n_peer then
    match OpenerID conv, deps_PeerOrder d with
    | [], id :: _ => id
    | id, _ => id
    end
  else if bool_decide (Opener conv = PeerSlotA) || bool_decide (Opener conv = PeerSlotB)
       then Opener conv else PeerSlotA.

Definition Run (fuel : nat) : M FinalResult :=
  now ← silent env_now;
  let conv := set_created (set_status (deps_Conversation d) ConvRunning) now in
  e ← logged (KCreate conv) (env_CreateConversation conv);
  let warnings := warn "store create_conversation: " e in
  e ← startAllPeers conv;
  match e with
  | Some e => finalize conv [] warnings ConvError (Error e)
  | None =>
      defer stopAllPeers (
        e ← logged (KTerminatorStart conv) (env_TerminatorStart conv);
        let warnings := warnings ++ warn "terminator start: " e in
        defer (_ ← logged (fun _ => KTerminatorStop) env_TerminatorStop; mret tt) (
          r ← logged (KSubscribe (TopicControl (C_ID conv))) (env_Subscribe (TopicControl (C_ID conv)));
          match r with
          | Err e => finalize conv [] warnings ConvError ("control subscribe: " ++ Error e)
          | Ok ch =>
              defer (logged (fun _ => KCancel ch) (fun w => (tt, env_Cancel ch w))) (
                if makeslice_ok (MaxTurns conv) then
                  let active := opener conv in
                  marker ← new_marker;
                  loop fuel ch conv warnings [] active (BuildEnvelopeTurn1 conv active marker)
                else panic)
          end))
  end.

End Broker.
