(* ===== verification/Protocol.v ===== *)
(** * The broker's protocol

    What a run of the broker looks like from outside: [reaches] and [ends] are
    a transition system over the turn log, [run_log] the calls of a whole run.
    [Run_spec] shows that the program of [Broker.v] follows it. *)
From S2P Require Import Prelude GoLib Model Policy Sentinel Envelope Bus Broker.

Section Protocol.
Context {World Transport : Type} {env : BrokerEnv World Transport}.
Variable d : BrokerDeps Transport.

#[local] Abbreviation n_peer := (Broker.n_peer d).
#[local] Abbreviation peerIDs := (Broker.peerIDs d).
#[local] Abbreviation policy_of := (Broker.policy_of d).
#[local] Abbreviation transportFor := (Broker.transportFor d).
#[local] Abbreviation stopPeerIDs := (Broker.stopPeerIDs d).
#[local] Abbreviation stopAllPeers := (Broker.stopAllPeers d).
#[local] Abbreviation startPeerIDs := (Broker.startPeerIDs d).
#[local] Abbreviation startAllPeers := (Broker.startAllPeers d).
#[local] Abbreviation drain_window := (Broker.drain_window d).
#[local] Abbreviation loop := (Broker.loop d).
#[local] Abbreviation opener := (Broker.opener d).
#[local] Abbreviation Run := (Broker.Run d).
#[local] Abbreviation state := (@Broker.state World Transport).
#[local] Abbreviation M := (@Broker.M World Transport).

(** ** Executing the program *)

Lemma bind_logged {A B} k (f : World -> A * World) (m : A -> M B) w l :
  (logged k f ≫= m) (w, l) = let '(a, w') := f w in m a (w', l ++ [k a]).
Proof. unfold mbind, M_bind, logged. by destruct (f w). Qed.

Lemma bind_silent {A B} (f : World -> A * World) (m : A -> M B) w l :
  (silent f ≫= m) (w, l) = let '(a, w') := f w in m a (w', l).
Proof. unfold mbind, M_bind, silent. by destruct (f w). Qed.

Lemma bind_Some {A B} (n : M A) (m : A -> M B) s a s' :
  n s = (Some a, s') -> (n ≫= m) s = m a s'.
Proof. unfold mbind, M_bind. by intros ->. Qed.

Lemma bind_or_panic {A B} o (m : A -> M B) a s :
  o = Some a -> (or_panic o ≫= m) s = m a s.
Proof. by intros ->. Qed.

Lemma bind_ret {A B} (a : A) (m : A -> M B) s : (mret a ≫= m) s = m a s.
Proof. done. Qed.

Lemma defer_Some {A} k (m : M A) s a s' u s'' :
  m s = (Some a, s') -> k s' = (Some u, s'') -> defer k m s = (Some a, s'').
Proof. unfold defer. by intros -> ->. Qed.

(** ** The protocol

    What a run of the broker looks like from outside, as a transition system
    over the turn log: [taken] is one answered envelope, [reaches] a conversation
    that goes on, [ends] the ways it stops. *)

Definition deliver_turn (active : PeerSlot) (turns : list ConversationTurn)
    (raw : ConversationTurn) : ConversationTurn :=
  stamp_turn (length turns =? 0)%nat (PeerIDFromSlot active) raw.

Definition turn_message (t : ConversationTurn) (now : time) : BusMessage :=
  {| BM_ConversationID := T_ConversationID t; BM_Topic := TopicTurn (T_ConversationID t);
     BM_Kind := KindTurn; BM_Payload := PTurn t; BM_Timestamp := now |}.

Definition next_slot (dec : Decision) : PeerSlot :=
  if n_peer then D_Next dec else slotFromPeerID (D_Next dec).

Definition controls (ms : list BusMessage) : list ControlMsg :=
  omap (fun m => Unmarshal_ControlMsg (BM_Payload m)) ms.

Inductive taken (conv : Conversation) (turns : list ConversationTurn) (active : PeerSlot)
    (env : Envelope) : list (call Transport) -> ConversationTurn -> Decision -> Prop :=
| taken_intro tr raw e1 now e2 dec :
    transportFor active = Some tr ->
    let t := deliver_turn active turns raw in
    @policy_Next policy_of active (next_response conv t) peerIDs = Some dec ->
    taken conv turns active env
      [KCtx false; KDeliver tr env (Ok raw); KAppend t e1;
       KPublish (TopicTurn (T_ConversationID t)) (turn_message t now) e2]
      t dec.

Inductive reaches (conv : Conversation) (ch : nat) :
    list (call Transport) -> list ConversationTurn -> PeerSlot -> Envelope -> Prop :=
| reaches_open buf :
    reaches conv ch [] [] (opener conv)
      (BuildEnvelopeTurn1 conv (opener conv) (NewMarkerToken buf))
| reaches_round log turns active env seg t dec ms buf :
    reaches conv ch log turns active env ->
    taken conv turns active env seg t dec ->
    Z.of_nat (length turns) + 1 < MaxTurns conv ->
    first_control (controls ms) = None ->
    reaches conv ch (log ++ seg ++ [KCtx false; KDrain ch ms])
      (turns ++ [route_turn dec t]) (next_slot dec)
      (BuildEnvelopeTurnN conv (Z.of_nat (length turns) + 2) active (next_response conv t)
         (NewMarkerToken buf)).

Inductive ends (conv : Conversation) (ch : nat) (turns : list ConversationTurn)
    (active : PeerSlot) (env : Envelope) :
    list (call Transport) -> list ConversationTurn -> ConversationStatus -> gostring -> Prop :=
| ends_cancelled :
    ends conv ch turns active env [KCtx true] turns ConvInterrupted "context cancelled"
| ends_deliver_cancelled tr e :
    transportFor active = Some tr -> is_ctx_error e = true ->
    ends conv ch turns active env [KCtx false; KDeliver tr env (Err e)] turns
      ConvInterrupted (Error e)
| ends_deliver_failed tr e :
    transportFor active = Some tr -> is_ctx_error e = false ->
    ends conv ch turns active env [KCtx false; KDeliver tr env (Err e)] turns
      ConvError ("peer " ++ active ++ " deliver: " ++ Error e)
| ends_cap seg t dec :
    taken conv turns active env seg t dec ->
    MaxTurns conv <= Z.of_nat (length turns) + 1 ->
    ends conv ch turns active env seg (turns ++ [route_turn dec t])
      ConvMaxTurnsHit "max turns reached"
| ends_cancelled_after seg t dec :
    taken conv turns active env seg t dec ->
    Z.of_nat (length turns) + 1 < MaxTurns conv ->
    ends conv ch turns active env (seg ++ [KCtx true]) (turns ++ [route_turn dec t])
      ConvInterrupted "context cancelled"
| ends_control seg t dec ms status note :
    taken conv turns active env seg t dec ->
    Z.of_nat (length turns) + 1 < MaxTurns conv ->
    first_control (controls ms) = Some (status, note) ->
    ends conv ch turns active env (seg ++ [KCtx false; KDrain ch ms])
      (turns ++ [route_turn dec t]) status note.

(** The warnings a log of calls gives rise to. *)
Definition call_warning (c : call Transport) : list gostring :=
  match c with
  | KCreate _ e => warn "store create_conversation: " e
  | KTerminatorStart _ e => warn "terminator start: " e
  | KAppend _ e => warn "store append_turn: " e
  | KPublish _ _ e => warn "publish turn: " e
  | KUpdate _ _ e => warn "store update_conversation: " e
  | _ => []
  end.

Definition warnings_of (log : list (call Transport)) : list gostring := log ≫= call_warning.

(** The patch that closes the stored conversation, and the result. *)
Definition final_patch (status : ConversationStatus) (now : time) (n : Z) : ConversationPatch :=
  {| CP_Status := Some status; CP_EndedAt := Some now; CP_TurnsConsumed := Some n |}.

Definition final_conv (conv : Conversation) (status : ConversationStatus) (now : time) (n : Z)
    : Conversation :=
  with_lifecycle conv (CreatedAt conv) (Some now) status n.

(** What the program needs not to panic: every declared peer has a transport,
    the opener is declared, the turn cap can be allocated, and the random source
    works. *)
Record deps_ok : Prop := {
  dok_slice : makeslice_ok (MaxTurns (deps_Conversation d)) = true;
  dok_peers : n_peer = true -> deps_PeerOrder d <> []
              /\ forall id, id ∈ deps_PeerOrder d -> is_Some (deps_PeersByID d !! id);
  dok_legacy : n_peer = false -> is_Some (deps_PeerA d) /\ is_Some (deps_PeerB d);
  dok_opener : n_peer = true ->
    OpenerID (deps_Conversation d) = [] \/ OpenerID (deps_Conversation d) ∈ deps_PeerOrder d;
}.

Definition random_ok : Prop := forall n w, is_Some (fst (env_random n w)).

Lemma peerIDs_nonempty : peerIDs <> [].
Proof.
  unfold peerIDs. destruct n_peer; [|done]. cbn. case_bool_decide; done.
Qed.

Lemma peerIDs_cases : deps_ok ->
  (n_peer = true /\ peerIDs = deps_PeerOrder d) \/ (n_peer = false /\ peerIDs = ["a"; "b"]).
Proof.
  intros Hok. unfold peerIDs. destruct n_peer eqn:E; [left|by right].
  destruct (dok_peers Hok E) as [Hne _]. split; [done|]. cbn. by rewrite bool_decide_false.
Qed.

Lemma transportFor_peer id : deps_ok -> id ∈ peerIDs -> is_Some (transportFor id).
Proof.
  intros Hok Hid. unfold transportFor. destruct (peerIDs_cases Hok) as [[E Ep]|[E Ep]]; rewrite E.
  - destruct (dok_peers Hok E) as [_ Hp]. rewrite Ep in Hid. by destruct (Hp id Hid) as [t ->].
  - destruct (dok_legacy Hok E). by case_bool_decide.
Qed.

Lemma opener_peer conv :
  deps_ok -> OpenerID conv = OpenerID (deps_Conversation d) -> opener conv ∈ peerIDs.
Proof.
  intros Hok Ho. unfold opener. destruct (peerIDs_cases Hok) as [[E Ep]|[E Ep]]; rewrite E, Ep.
  - destruct (dok_peers Hok E) as [Hne _]. rewrite Ho.
    destruct (dok_opener Hok E) as [->|Hin].
    + destruct (deps_PeerOrder d); [done|]. by left.
    + destruct (OpenerID (deps_Conversation d)); [|done].
      destruct (deps_PeerOrder d); [done|]. by left.
  - destruct (_ || _) eqn:Eo; [|by left]. apply orb_true_iff in Eo as [Eo|Eo]; bool_facts;
      rewrite Eo; [by left|by right; left].
Qed.

Lemma next_slot_peer dec : deps_ok -> D_Next dec ∈ peerIDs ->
  next_slot dec = D_Next dec /\ next_slot dec ∈ peerIDs.
Proof.
  intros Hok Hin. unfold next_slot. destruct (peerIDs_cases Hok) as [[E Ep]|[E Ep]]; rewrite E.
  - done.
  - rewrite Ep in Hin |- *. unfold slotFromPeerID.
    apply elem_of_cons in Hin as [Hd|Hin]; [|apply list_elem_of_singleton in Hin as Hd];
      rewrite Hd; cbn; split; try done; [by left|by right; left].
Qed.

(** ** The program follows the protocol *)

Definition final_result (conv : Conversation) (turns : list ConversationTurn)
    (warnings : list gostring) (status : ConversationStatus) (note : gostring)
    (now : time) (n : Z) (e : option goerr) : FinalResult :=
  {| FR_Conversation := final_conv conv status now n; FR_Turns := turns;
     FR_TerminatorNote := note; FR_Warnings := warnings ++ warn "store update_conversation: " e |}.

Lemma finalize_spec conv turns warnings status note w l :
  TurnsConsumed conv = Z.of_nat (length turns) \/ turns = [] ->
  exists now e w', finalize conv turns warnings status note (w, l) =
    (Some (final_result conv turns warnings status note now (TurnsConsumed conv) e),
     (w', l ++ [KUpdate (C_ID conv) (final_patch status now (TurnsConsumed conv)) e])).
Proof.
  intros Hn. unfold finalize. rewrite bind_silent. destruct (env_now w) as [now w1].
  assert ((if (TurnsConsumed conv =? 0) && (0 <? Z.of_nat (length turns))
           then Z.of_nat (length turns) else TurnsConsumed conv) = TurnsConsumed conv) as E.
  { destruct (_ && _) eqn:E; [|done]. bool_facts. destruct Hn as [Hn| ->]; [lia|]. cbn in *. lia. }
  exists now. cbv zeta.
  assert ((if (TurnsConsumed (set_ended (set_status conv status) (Some now)) =? 0)
              && (0 <? Z.of_nat (length turns))
           then set_consumed (set_ended (set_status conv status) (Some now)) (Z.of_nat (length turns))
           else set_ended (set_status conv status) (Some now))
          = final_conv conv status now (TurnsConsumed conv)) as ->.
  { cbn [TurnsConsumed set_ended set_status with_lifecycle].
    revert E. destruct (_ && _); intros E; rewrite ?E; done. }
  rewrite bind_logged. cbn [C_ID TurnsConsumed final_conv with_lifecycle].
  destruct (env_UpdateConversation _ _ w1) as [e w2]. exists e, w2. done.
Qed.

Lemma new_marker_spec w l : random_ok ->
  exists buf w', new_marker (w, l) = (Some (NewMarkerToken buf), (w', l)).
Proof.
  intros Hr. unfold new_marker. rewrite bind_silent. specialize (Hr markerSuffixBytes w).
  destruct (env_random markerSuffixBytes w) as [r w1]. destruct Hr as [buf Hbuf]. cbn in Hbuf.
  subst r. exists buf, w1. done.
Qed.

Lemma publishTurn_spec t w l : exists now e w',
  publishTurn t (w, l) =
    (Some e, (w', l ++ [KPublish (TopicTurn (T_ConversationID t)) (turn_message t now) e])).
Proof.
  unfold publishTurn. rewrite bind_silent. destruct (env_now w) as [now w1]. exists now.
  change (exists e w', logged (KPublish (TopicTurn (T_ConversationID t)) (turn_message t now))
    (env_Publish (TopicTurn (T_ConversationID t)) (turn_message t now)) (w1, l) =
    (Some e, (w', l ++ [KPublish (TopicTurn (T_ConversationID t)) (turn_message t now) e]))).
  unfold logged. destruct (env_Publish _ _ w1) as [e w2]. by exists e, w2.
Qed.

Lemma drain_spec ch dl w l : exists ms w',
  drainControlTimed ch dl (w, l) = (Some (controls ms), (w', l ++ [KDrain ch ms])).
Proof.
  unfold drainControlTimed. rewrite bind_logged.
  match goal with |- context [let '(a, w') := ?x in _] => destruct x as [ms w'] end.
  by exists ms, w'.
Qed.

Lemma warnings_of_app l1 l2 : warnings_of (l1 ++ l2) = warnings_of l1 ++ warnings_of l2.
Proof. apply bind_app. Qed.

Lemma bind_ctx {B} (m : bool -> M B) w l :
  (ctx_done ≫= m) (w, l) = let '(b, w') := env_ctx_done w in m b (w', l ++ [KCtx b]).
Proof. apply bind_logged. Qed.

(** The outcome of the loop: a conversation of the protocol that ended, the
    closing patch, and the result. *)
Definition loop_post (conv : Conversation) (ch : nat) (log0 : list (call Transport))
    (o : option FinalResult * state) : Prop :=
  exists log turns active env seg turns2 status note now e w,
    reaches conv ch log turns active env
    /\ ends conv ch turns active env seg turns2 status note
    /\ o = (Some (final_result conv turns2 (warnings_of (log0 ++ log ++ seg)) status note now
                    (Z.of_nat (length turns2)) e),
            (w, log0 ++ log ++ seg
                ++ [KUpdate (C_ID conv) (final_patch status now (Z.of_nat (length turns2))) e])).

Lemma loop_ends conv ch log0 log turns active env0 seg turns2 status note cv warnings n l w :
  reaches conv ch log turns active env0 ->
  ends conv ch turns active env0 seg turns2 status note ->
  cv = set_consumed conv n -> n = Z.of_nat (length turns2) ->
  l = log0 ++ log ++ seg -> warnings = warnings_of l ->
  loop_post conv ch log0 (finalize cv turns2 warnings status note (w, l)).
Proof.
  intros Hr He -> -> -> ->.
  destruct (finalize_spec (set_consumed conv (Z.of_nat (length turns2))) turns2
    (warnings_of (log0 ++ log ++ seg)) status note w (log0 ++ log ++ seg)) as (now & e & w' & ->);
    [by left|].
  exists log, turns, active, env0, seg, turns2, status, note, now, e, w'.
  split_and!; [done|done|]. by rewrite <- !app_assoc.
Qed.

Lemma loop_spec fuel ch conv log0 log turns active env0 w warnings cv k :
  deps_ok -> random_ok ->
  reaches conv ch log turns active env0 -> active ∈ peerIDs ->
  (0 < fuel)%nat -> MaxTurns conv <= Z.of_nat (length turns + fuel) ->
  warnings = warnings_of (log0 ++ log) -> cv = set_consumed conv k ->
  loop_post conv ch log0 (loop fuel ch cv warnings turns active env0 (w, log0 ++ log)).
Proof.
  intros Hok Hrand. revert log turns active env0 w warnings cv k.
  induction fuel as [|fuel IH]; intros log turns active env0 w warnings cv k Hreach Hact Hf Hmax
    -> ->; [lia|].
  cbn [loop]. rewrite bind_ctx. destruct (env_ctx_done w) as [[|] w1].
  { eapply loop_ends; [done|apply ends_cancelled|done|done|by rewrite <- app_assoc|].
    rewrite !warnings_of_app. cbn. by rewrite app_nil_r. }
  destruct (transportFor_peer active Hok Hact) as [tr Htr].
  rewrite (bind_or_panic _ _ tr) by done. rewrite bind_logged.
  destruct (env_Deliver tr env0 w1) as [[raw|e] w2].
  2: { destruct (is_ctx_error e) eqn:Ee.
    all: eapply loop_ends; [done| |done|done|by rewrite <- !app_assoc|];
      [by econstructor|rewrite !warnings_of_app; cbn; by rewrite !app_nil_r]. }
  fold (deliver_turn active turns raw). set (t := deliver_turn active turns raw).
  rewrite bind_logged. destruct (env_AppendConversationTurn t w2) as [e1 w3].
  destruct (publishTurn_spec t w3 ((((log0 ++ log) ++ [KCtx false]) ++ [KDeliver tr env0 (Ok raw)])
    ++ [KAppend t e1])) as (now & e2 & w4 & Hpub).
  rewrite (bind_Some _ _ _ _ _ Hpub).
  destruct (@policy_Next_valid policy_of active (next_response conv t) peerIDs peerIDs_nonempty)
    as (dec & Hdec & Hvalid).
  rewrite (bind_or_panic _ _ dec) by exact Hdec.
  pose proof (taken_intro conv turns active env0 tr raw e1 now e2 dec Htr Hdec) as Htaken.
  fold t in Htaken. cbv zeta.
  set (seg := [_; _; _; _]) in Htaken.
  assert (forall rest, ((((log0 ++ log) ++ [KCtx false]) ++ [KDeliver tr env0 (Ok raw)])
    ++ [KAppend t e1]) ++ KPublish (TopicTurn (T_ConversationID t)) (turn_message t now) e2 :: rest
    = log0 ++ log ++ seg ++ rest) as Hlog by (intros rest; unfold seg; by rewrite <- !app_assoc).
  assert (warnings_of (log0 ++ log) ++ warn "store append_turn: " e1 ++ warn "publish turn: " e2
    = warnings_of (log0 ++ log ++ seg)) as Hwarn.
  { rewrite !warnings_of_app. cbn. by rewrite app_nil_r, <- !app_assoc. }
  rewrite Hwarn. change (MaxTurns (set_consumed (set_consumed conv k) _)) with (MaxTurns conv).
  change (set_consumed (set_consumed conv k) (Z.of_nat (length turns) + 1))
    with (set_consumed conv (Z.of_nat (length turns) + 1)).
  assert (Z.of_nat (length turns) + 1 = Z.of_nat (length (turns ++ [route_turn dec t]))) as Hlen
    by (rewrite length_app; cbn; lia).
  rewrite Hlog, app_nil_r.
  destruct (Z.leb_spec (MaxTurns conv) (Z.of_nat (length turns) + 1)) as [Hcap|Hcap].
  { eapply loop_ends; [exact Hreach|by eapply ends_cap|done|done|done|done]. }
  rewrite bind_ctx. destruct (env_ctx_done w4) as [[|] w5].
  { eapply loop_ends; [exact Hreach|by eapply ends_cancelled_after|done|done|
      by rewrite <- !app_assoc|]. rewrite !warnings_of_app. cbn. by rewrite !app_nil_r. }
  destruct (drain_spec ch drain_window w5 ((log0 ++ log ++ seg) ++ [KCtx false]))
    as (ms & w6 & Hdrain).
  rewrite (bind_Some _ _ _ _ _ Hdrain).
  destruct (first_control (controls ms)) as [[status note]|] eqn:Hctl.
  { eapply loop_ends; [exact Hreach|by eapply ends_control|done|done|
      by rewrite <- !app_assoc|]. rewrite !warnings_of_app. cbn. by rewrite !app_nil_r. }
  destruct (new_marker_spec w6 (((log0 ++ log ++ seg) ++ [KCtx false]) ++ [KDrain ch ms]) Hrand)
    as (buf & w7 & Hmark).
  rewrite (bind_Some _ _ _ _ _ Hmark).
  assert ((((log0 ++ log ++ seg) ++ [KCtx false]) ++ [KDrain ch ms])
    = log0 ++ (log ++ seg ++ [KCtx false; KDrain ch ms])) as -> by by rewrite <- !app_assoc.
  destruct (next_slot_peer dec Hok Hvalid) as [_ Hnext].
  pose proof (reaches_round conv ch log turns active env0 seg t dec ms buf Hreach Htaken Hcap Hctl)
    as Hreach'.
  refine (IH _ _ _ _ w7 _ _ _ Hreach' Hnext _ _ _ eq_refl).
  - destruct fuel; [|lia]. rewrite Nat.add_1_r in Hmax. lia.
  - rewrite length_app. cbn. lia.
  - rewrite !warnings_of_app. cbn. by rewrite !app_nil_r.
Qed.

(** ** Starting and stopping *)

(** The declared peers, in order, with their transports. *)
Definition peers : list (PeerID * Transport) :=
  if n_peer then omap (fun id => t ← deps_PeersByID d !! id; Some (id, t)) (deps_PeerOrder d)
  else match deps_PeerA d, deps_PeerB d with
       | Some a, Some b => [(PeerSlotA, a); (PeerSlotB, b)]
       | _, _ => []
       end.

Definition peer_spec (conv : Conversation) (id : PeerID) : PeerSpec :=
  if n_peer then specForPeerID conv id
  else if bool_decide (id = PeerSlotA) then C_PeerA conv else C_PeerB conv.

Definition start_call (conv : Conversation) (e : option goerr) (p : PeerID * Transport)
    : call Transport :=
  KStart (snd p) (peer_spec conv (fst p)) (C_ID conv) (fst p) e.

Definition stop_calls (ps : list (PeerID * Transport)) : list (call Transport) :=
  (fun p => KStop (snd p)) <$> ps.

(** The calls of a failed start: some peers start, one fails, and what the code
    then stops. *)
Inductive start_failure (conv : Conversation) : list (call Transport) -> Prop :=
| start_fails ps p rest e :
    peers = ps ++ p :: rest ->
    start_failure conv
      ((start_call conv None <$> ps) ++ start_call conv (Some e) p :: stop_calls ps).

Lemma stop_spec t w l : exists w', stop (Some t) (w, l) = (Some tt, (w', l ++ [KStop t])).
Proof.
  unfold stop. cbn [or_panic]. rewrite bind_ret, bind_logged. destruct (env_Stop t Second w) as [e w'].
  by exists w'.
Qed.

Definition lookup_peers (ids : list PeerID) : list (PeerID * Transport) :=
  omap (fun id => t ← deps_PeersByID d !! id; Some (id, t)) ids.

Lemma stopPeerIDs_spec ids w l : exists w',
  stopPeerIDs ids (w, l) = (Some tt, (w', l ++ stop_calls (lookup_peers ids))).
Proof.
  revert w l. induction ids as [|id ids IH]; intros w l.
  - exists w. cbn. by rewrite app_nil_r.
  - cbn [stopPeerIDs lookup_peers omap list_omap]. destruct (deps_PeersByID d !! id) as [t|].
    + destruct (stop_spec t w l) as [w1 H1]. rewrite (bind_Some _ _ _ _ _ H1).
      destruct (IH w1 (l ++ [KStop t])) as [w2 ->]. exists w2.
      cbn [mbind option_bind stop_calls fmap list_fmap snd]. by rewrite <- app_assoc.
    + apply IH.
Qed.

Lemma stopAllPeers_spec w l : deps_ok -> exists w',
  stopAllPeers (w, l) = (Some tt, (w', l ++ stop_calls peers)).
Proof.
  intros Hok. unfold stopAllPeers, peers. destruct n_peer eqn:E; [apply stopPeerIDs_spec|].
  destruct (dok_legacy Hok E) as [[a Ha] [b Hb]]. rewrite Ha, Hb.
  destruct (stop_spec a w l) as [w1 H1]. rewrite (bind_Some _ _ _ _ _ H1).
  destruct (stop_spec b w1 (l ++ [KStop a])) as [w2 ->]. exists w2. by rewrite <- app_assoc.
Qed.

Lemma start_spec t spec id slot w l : exists e w',
  start (Some t) spec id slot (w, l) = (Some e, (w', l ++ [KStart t spec id slot e])).
Proof.
  unfold start. cbn [or_panic]. rewrite bind_ret. unfold logged. destruct (env_Start t spec id slot w) as [e w'].
  by exists e, w'.
Qed.

Lemma startPeerIDs_spec conv started ids w l :
  n_peer = true -> deps_PeerOrder d = started ++ ids ->
  (forall id, id ∈ ids -> is_Some (deps_PeersByID d !! id)) ->
  l = start_call conv None <$> lookup_peers started ->
  forall l0, exists o w' l', startPeerIDs conv started ids (w, l0 ++ l) = (Some o, (w', l0 ++ l'))
  /\ match o with
     | None => l' = start_call conv None <$> peers
     | Some _ => start_failure conv l'
     end.
Proof.
  intros E. revert started w l. induction ids as [|id ids IH]; intros started w l Ho Hp -> l0.
  - exists None, w. cbn [startPeerIDs]. eexists. split; [reflexivity|]. cbn.
    unfold peers. rewrite E, Ho, app_nil_r. done.
  - cbn [startPeerIDs]. destruct (Hp id) as [t Ht]; [by left|]. rewrite Ht.
    destruct (start_spec t (specForPeerID conv id) (C_ID conv) id w
      (l0 ++ (start_call conv None <$> lookup_peers started))) as (e & w1 & H1).
    rewrite (bind_Some _ _ _ _ _ H1). rewrite <- app_assoc.
    assert (lookup_peers (started ++ [id]) = lookup_peers started ++ [(id, t)]) as Hl.
    { unfold lookup_peers. rewrite omap_app. cbn. by rewrite Ht. }
    assert (KStart t (specForPeerID conv id) (C_ID conv) id e = start_call conv e (id, t)) as ->
      by (unfold start_call, peer_spec; cbn; by rewrite E).
    destruct e as [e|].
    + destruct (stopPeerIDs_spec started w1 (l0 ++ (start_call conv None <$> lookup_peers started)
        ++ [start_call conv (Some e) (id, t)])) as [w2 H2].
      rewrite (bind_Some _ _ _ _ _ H2). do 3 eexists. split.
      { unfold mret, M_ret. by rewrite <- !app_assoc. }
      cbn. apply (start_fails _ _ _ (lookup_peers ids)). unfold peers. rewrite E, Ho.
      fold (lookup_peers (started ++ id :: ids)). unfold lookup_peers.
      rewrite omap_app. cbn. by rewrite Ht.
    + destruct (IH (started ++ [id]) w1 (start_call conv None <$> lookup_peers (started ++ [id])))
        with (l0 := l0) as (o & w2 & l' & H2 & H3).
      * by rewrite <- app_assoc.
      * intros i Hi. apply Hp. by right.
      * done.
      * exists o, w2, l'. split; [|done]. rewrite <- H2. by rewrite Hl, fmap_app.
Qed.

Lemma startAllPeers_spec conv w l : deps_ok ->
  exists o w' l', startAllPeers conv (w, l) = (Some o, (w', l ++ l'))
  /\ match o with
     | None => l' = start_call conv None <$> peers
     | Some _ => start_failure conv l'
     end.
Proof.
  intros Hok. unfold startAllPeers. destruct n_peer eqn:E.
  - destruct (dok_peers Hok E) as [_ Hp].
    destruct (startPeerIDs_spec conv [] (deps_PeerOrder d) w [] E eq_refl Hp eq_refl l) as
      (o & w' & l' & H1 & H2). rewrite app_nil_r in H1. by exists o, w', l'.
  - destruct (dok_legacy Hok E) as [[a Ha] [b Hb]]. rewrite Ha, Hb.
    assert (peers = [(PeerSlotA, a); (PeerSlotB, b)]) as Hpeers by (unfold peers; by rewrite E, Ha, Hb).
    assert (forall e, KStart a (C_PeerA conv) (C_ID conv) PeerSlotA e = start_call conv e (PeerSlotA, a))
      as EA by (intros; unfold start_call, peer_spec; cbn; by rewrite E).
    assert (forall e, KStart b (C_PeerB conv) (C_ID conv) PeerSlotB e = start_call conv e (PeerSlotB, b))
      as EB by (intros; unfold start_call, peer_spec; cbn; by rewrite E).
    destruct (start_spec a (C_PeerA conv) (C_ID conv) PeerSlotA w l) as (e1 & w1 & H1).
    rewrite (bind_Some _ _ _ _ _ H1), EA. destruct e1 as [e1|].
    { do 3 eexists. split; [reflexivity|]. cbn.
      apply (start_fails conv [] (PeerSlotA, a) [(PeerSlotB, b)]). exact Hpeers. }
    destruct (start_spec b (C_PeerB conv) (C_ID conv) PeerSlotB w1
      (l ++ [start_call conv None (PeerSlotA, a)])) as (e2 & w2 & H2).
    rewrite (bind_Some _ _ _ _ _ H2), EB. destruct e2 as [e2|].
    + destruct (stop_spec a w2 ((l ++ [start_call conv None (PeerSlotA, a)])
        ++ [start_call conv (Some e2) (PeerSlotB, b)])) as [w3 H3].
      rewrite (bind_Some _ _ _ _ _ H3). do 3 eexists. split.
      { unfold mret, M_ret. by rewrite <- !app_assoc. }
      cbn. apply (start_fails conv [(PeerSlotA, a)] (PeerSlotB, b) []). exact Hpeers.
    + do 3 eexists. split; [unfold mret, M_ret; by rewrite <- !app_assoc|].
      cbn. by rewrite Hpeers.
Qed.

(** ** Whole runs *)

(** The conversation as the run stores it first. *)
Definition created_conv (now : time) : Conversation :=
  set_created (set_status (deps_Conversation d) ConvRunning) now.

(** The calls and the result of a whole run: the peers do not all start, the
    control topic cannot be subscribed to, or the conversation takes place. *)
Inductive run_log : list (call Transport) -> FinalResult -> Prop :=
| run_start_fails created e0 starts note now e1 :
    let conv := created_conv created in
    start_failure conv starts ->
    let log := KCreate conv e0 :: starts in
    let n := TurnsConsumed conv in
    run_log (log ++ [KUpdate (C_ID conv) (final_patch ConvError now n) e1])
      (final_result conv [] (warnings_of log) ConvError note now n e1)
| run_subscribe_fails created e0 et e now e1 :
    let conv := created_conv created in
    let log := KCreate conv e0 :: (start_call conv None <$> peers)
               ++ [KTerminatorStart conv et; KSubscribe (TopicControl (C_ID conv)) (Err e)] in
    let n := TurnsConsumed conv in
    run_log (log ++ [KUpdate (C_ID conv) (final_patch ConvError now n) e1; KTerminatorStop]
             ++ stop_calls peers)
      (final_result conv [] (warnings_of log) ConvError ("control subscribe: " ++ Error e) now n e1)
| run_converses created e0 et ch rounds turns active env0 seg turns2 status note now e1 :
    let conv := created_conv created in
    reaches conv ch rounds turns active env0 ->
    ends conv ch turns active env0 seg turns2 status note ->
    let log := (KCreate conv e0 :: (start_call conv None <$> peers)
                ++ [KTerminatorStart conv et; KSubscribe (TopicControl (C_ID conv)) (Ok ch)])
               ++ rounds ++ seg in
    let n := Z.of_nat (length turns2) in
    run_log (log ++ [KUpdate (C_ID conv) (final_patch status now n) e1; KCancel ch; KTerminatorStop]
             ++ stop_calls peers)
      (final_result conv turns2 (warnings_of log) status note now n e1).

Lemma bind_defer {A B} (k : M unit) (m : M A) (f : A -> M B) s : (defer k m ≫= f) s =
  match defer k m s with (Some a, s') => f a s' | (None, s') => (None, s') end.
Proof. done. Qed.

Lemma warnings_of_starts conv ps : warnings_of (start_call conv None <$> ps) = [].
Proof. induction ps as [|p ps IH]; [done|]. cbn in *. exact IH. Qed.

Lemma defer_eq {A} k (m : M A) s o s' u s'' :
  m s = (o, s') -> k s' = (Some u, s'') -> defer k m s = (o, s'').
Proof. unfold defer. by intros -> ->. Qed.

Lemma terminator_stop_spec w l : exists w',
  (_ ← logged (fun _ => @KTerminatorStop Transport) env_TerminatorStop; mret tt) (w, l)
  = (Some tt, (w', l ++ [KTerminatorStop])).
Proof. rewrite bind_logged. destruct (env_TerminatorStop w) as [e w']. by exists w'. Qed.

Lemma Run_spec fuel w :
  deps_ok -> random_ok -> Z.max 1 (MaxTurns (deps_Conversation d)) <= Z.of_nat fuel ->
  exists r w' log, Run fuel (w, []) = (Some r, (w', log)) /\ run_log log r.
Proof.
  intros Hok Hrand Hfuel. unfold Run. rewrite bind_silent.
  destruct (env_now w) as [created w1]. cbv zeta. fold (created_conv created).
  set (conv := created_conv created). rewrite bind_logged.
  destruct (env_CreateConversation conv w1) as [e0 w2].
  rewrite app_nil_l.
  destruct (startAllPeers_spec conv w2 [KCreate conv e0] Hok) as (o & w3 & starts & H1 & H2).
  rewrite (bind_Some _ _ _ _ _ H1).
  change ([@KCreate Transport conv e0] ++ starts) with (KCreate conv e0 :: starts). destruct o as [e|].
  { destruct (finalize_spec conv [] (warn "store create_conversation: " e0) ConvError (Error e)
      w3 (KCreate conv e0 :: starts)) as (now & e1 & w4 & H); [by right|].
    do 3 eexists. split; [exact H|].
    assert (warn "store create_conversation: " e0 = warnings_of (KCreate conv e0 :: starts)) as ->.
    { destruct H2 as [ps p rest e' Hp].
      change (warnings_of (?c :: ?l)) with (call_warning c ++ warnings_of l).
      rewrite warnings_of_app, warnings_of_starts. cbn.
      assert (forall l, warnings_of (stop_calls l) = []) as Hs
        by (induction l; [done|]; cbn in *; assumption).
      unfold warnings_of in Hs. by rewrite Hs, app_nil_r. }
    by eapply run_start_fails. }
  subst starts.
  set (l1 := KCreate conv e0 :: (start_call conv None <$> peers)).
  match goal with |- exists r w' log, defer stopAllPeers ?m _ = _ /\ _ => set (body := m) end.
  assert (exists r w' log,
    body (w3, l1) = (Some r, (w', log)) /\ run_log (log ++ stop_calls peers) r) as Hbody.
  2: { destruct Hbody as (r & w4 & log & Hb & Hlog).
       destruct (stopAllPeers_spec w4 log Hok) as [w5 H5].
       do 3 eexists. split; [|exact Hlog]. by eapply defer_eq. }
  unfold body. clear body. rewrite bind_logged.
  destruct (env_TerminatorStart conv w3) as [et w4].
  match goal with |- exists r w' log, defer ?k ?m _ = _ /\ _ => set (body := m) end.
  set (l2 := l1 ++ [KTerminatorStart conv et]).
  assert (exists r w' log, body (w4, l2) = (Some r, (w', log))
    /\ run_log (log ++ KTerminatorStop :: stop_calls peers) r) as Hbody.
  2: { destruct Hbody as (r & w5 & log & Hb & Hlog).
       destruct (terminator_stop_spec w5 log) as [w6 H6]. do 3 eexists.
       split; [by eapply defer_eq|]. by rewrite <- app_assoc. }
  unfold body. clear body. rewrite bind_logged.
  assert (warnings_of l2 = warn "store create_conversation: " e0 ++ warn "terminator start: " et)
    as Hw2.
  { unfold l2, l1. change (warnings_of ((?c :: ?l) ++ ?m)) with (call_warning c ++ warnings_of (l ++ m)).
    rewrite warnings_of_app, warnings_of_starts. cbn. by rewrite app_nil_r. }
  rewrite <- Hw2.
  destruct (env_Subscribe (TopicControl (C_ID conv)) w4) as [[ch|e] w5].
  2: { destruct (finalize_spec conv [] (warnings_of l2) ConvError ("control subscribe: " ++ Error e)
         w5 (l2 ++ [KSubscribe (TopicControl (C_ID conv)) (Err e)])) as (now & e1 & w6 & ->);
         [by right|].
       do 3 eexists. split; [done|].
       pose proof (run_subscribe_fails created e0 et e now e1) as Hr. cbv zeta in Hr. fold conv in Hr.
       assert (warnings_of l2 = warnings_of (KCreate conv e0 :: (start_call conv None <$> peers)
         ++ [KTerminatorStart conv et; KSubscribe (TopicControl (C_ID conv)) (Err e)])) as ->.
       { unfold l2, l1. change ((?c :: ?l) ++ ?m) with (c :: (l ++ m)).
         change (warnings_of (?c :: ?l)) with (call_warning c ++ warnings_of l).
         rewrite !warnings_of_app. done. }
       unfold l2, l1. cbn [app] in *. rewrite <- !app_assoc in *. exact Hr. }
  set (l3 := l2 ++ [KSubscribe (TopicControl (C_ID conv)) (Ok ch)]).
  match goal with |- exists r w' log, defer ?k ?m _ = _ /\ _ => set (body := m) end.
  assert (exists r w' log, body (w5, l3) = (Some r, (w', log))
    /\ run_log (log ++ KCancel ch :: KTerminatorStop :: stop_calls peers) r) as Hbody.
  2: { destruct Hbody as (r & w6 & log & Hb & Hlog). do 3 eexists.
       split; [eapply defer_eq; [exact Hb|]; unfold logged; reflexivity|]. by rewrite <- app_assoc. }
  unfold body. clear body.
  change (MaxTurns conv) with (MaxTurns (deps_Conversation d)). rewrite (dok_slice Hok).
  destruct (new_marker_spec w5 l3 Hrand) as (buf & w6 & Hm). rewrite (bind_Some _ _ _ _ _ Hm).
  destruct (loop_spec fuel ch conv l3 [] [] (opener conv)
    (BuildEnvelopeTurn1 conv (opener conv) (NewMarkerToken buf)) w6 (warnings_of l2) conv
    (TurnsConsumed conv) Hok Hrand)
    as (rounds & turns & active & env1 & seg & turns2 & status & note & now & e1 & w7 & Hr & He & Hl).
  - apply reaches_open.
  - by apply opener_peer.
  - lia.
  - change (MaxTurns conv) with (MaxTurns (deps_Conversation d)). cbn [length Nat.add]. lia.
  - unfold l3. rewrite app_nil_r, warnings_of_app. cbn. by rewrite app_nil_r.
  - done.
  - rewrite app_nil_r in Hl. rewrite Hl. do 3 eexists. split; [done|].
    pose proof (run_converses created e0 et ch rounds turns active env1 seg turns2 status note now e1)
      as Hrun. cbv zeta in Hrun. fold conv in Hrun. specialize (Hrun Hr He).
    assert (l3 = KCreate conv e0 :: (start_call conv None <$> peers)
                ++ [KTerminatorStart conv et; KSubscribe (TopicControl (C_ID conv)) (Ok ch)]) as ->.
    { unfold l3, l2, l1. cbn [app]. by rewrite <- !app_assoc. }
    cbn [app] in *. rewrite <- !app_assoc in *. exact Hrun.
Qed.

End Protocol.
