(* ===== verification/Trace.v ===== *)
(** * What a run does to a part of its environment

    A log of calls read as a sequence of steps of a state that the environment
    holds: [proj] is that state, [does] the step of a call.  When an environment
    is [Observed] - each of its operations steps the state as its call says - so
    is every run of the broker: the state after a run is reached by the steps of
    its log ([trace_Run]).  The file store, the peers' transports, and the bus with
    the terminator, are such states. *)
From S2P Require Import Prelude GoLib Model Policy Sentinel Envelope Bus Broker.

Section Trace.
Context {World Transport State : Type} {env : BrokerEnv World Transport}.
Variables (proj : World -> State) (does : call Transport -> State -> State -> Prop).

Inductive trace : list (call Transport) -> State -> State -> Prop :=
| trace_nil s : trace [] s s
| trace_cons c l s s1 s' : does c s s1 -> trace l s1 s' -> trace (c :: l) s s'.

Lemma trace_app l1 l2 s s1 s' : trace l1 s s1 -> trace l2 s1 s' -> trace (l1 ++ l2) s s'.
Proof. induction 1; intros; cbn; eauto using trace. Qed.

Lemma trace_app_inv l1 l2 s s' : trace (l1 ++ l2) s s' -> exists s1, trace l1 s s1 /\ trace l2 s1 s'.
Proof.
  revert s. induction l1 as [|c l1 IH]; intros s H; [exists s; split; [constructor|done]|].
  inversion H as [|c' l s0 s1 s2 Hd Ht]; subst. destruct (IH _ Ht) as (s2 & H1 & H2).
  exists s2. split; [by econstructor|done].
Qed.

Lemma trace_cons_inv c l s s' : trace (c :: l) s s' -> exists s1, does c s s1 /\ trace l s1 s'.
Proof. inversion 1; eauto. Qed.

(** Calls that leave the state alone. *)
Lemma trace_untouched l s s' :
  Forall (fun c => forall x y, does c x y -> y = x) l -> trace l s s' -> s' = s.
Proof.
  intros Hl Ht. induction Ht as [s|c l s s1 s' Hc Ht IH]; [done|]. apply Forall_cons in Hl as [H Hl].
  by rewrite (IH Hl), (H _ _ Hc).
Qed.

(** An operation of the environment whose call is logged, and one that is not. *)
Definition explains {A} (k : A -> call Transport) (f : World -> A * World) : Prop :=
  forall w, does (k (fst (f w))) (proj w) (proj (snd (f w))).
Definition unseen {A} (f : World -> A * World) : Prop := forall w, proj (snd (f w)) = proj w.

Class Observed : Prop := {
  ob_create conv : explains (KCreate conv) (env_CreateConversation conv);
  ob_update id p : explains (KUpdate id p) (env_UpdateConversation id p);
  ob_append t : explains (KAppend t) (env_AppendConversationTurn t);
  ob_start t spec id slot : explains (KStart t spec id slot) (env_Start t spec id slot);
  ob_deliver t e : explains (KDeliver t e) (env_Deliver t e);
  ob_stop t : explains (fun _ => KStop t) (env_Stop t Second);
  ob_terminator_start conv : explains (KTerminatorStart conv) (env_TerminatorStart conv);
  ob_terminator_stop : explains (fun _ => KTerminatorStop) env_TerminatorStop;
  ob_publish topic m : explains (KPublish topic m) (env_Publish topic m);
  ob_subscribe topic : explains (KSubscribe topic) (env_Subscribe topic);
  ob_cancel ch : explains (fun _ => KCancel ch) (fun w => (tt, env_Cancel ch w));
  ob_drain ch dl : explains (KDrain ch) (fun w =>
    let '(first, w) := env_recv_within ch dl w in
    match first with
    | None => ([], w)
    | Some m => let '(ms, w) := env_recv_ready ch w in (m :: ms, w)
    end);
  ob_ctx : explains KCtx env_ctx_done;
  ob_now : unseen env_now;
  ob_random n : unseen (env_random n);
}.

(** ** Every part of the broker is traced *)
Definition traced {A} (m : M (World := World) (Transport := Transport) A) : Prop :=
  forall w l, exists o k w', m (w, l) = (o, (w', l ++ k)) /\ trace k (proj w) (proj w').

Lemma traced_ret {A} (a : A) : traced (mret a).
Proof. intros w l. exists (Some a), [], w. rewrite app_nil_r. split; [done|constructor]. Qed.

Lemma traced_panic {A} : traced (panic : M A).
Proof. intros w l. exists None, [], w. rewrite app_nil_r. split; [done|constructor]. Qed.

Lemma traced_bind {A B} (m : M A) (f : A -> M B) : traced m -> (forall a, traced (f a)) -> traced (m ≫= f).
Proof.
  intros Hm Hf w l. destruct (Hm w l) as (o & k & w1 & E & Hk).
  unfold mbind, M_bind. rewrite E. destruct o as [a|]; [|by exists None, k, w1].
  destruct (Hf a w1 (l ++ k)) as (o & k' & w' & E' & Hk'). rewrite E'.
  exists o, (k ++ k'), w'. rewrite <- app_assoc. split; [done|by eapply trace_app].
Qed.

Lemma traced_defer {A} (k : M unit) (m : M A) : traced k -> traced m -> traced (defer k m).
Proof.
  intros Hk Hm w l. destruct (Hm w l) as (o & k1 & w1 & E & H1).
  destruct (Hk w1 (l ++ k1)) as (u & k2 & w' & E' & H2). unfold defer. rewrite E, E'.
  exists (match u with Some _ => o | None => None end), (k1 ++ k2), w'. rewrite app_assoc.
  split; [by destruct u|by eapply trace_app].
Qed.

Lemma traced_logged {A} (k : A -> call Transport) f : explains k f -> traced (logged k f).
Proof.
  intros Hf w l. unfold logged. specialize (Hf w). destruct (f w) as [a w']. exists (Some a), [k a], w'.
  split; [done|]. econstructor; [exact Hf|constructor].
Qed.

Lemma traced_silent {A} (f : World -> A * World) : unseen f -> traced (silent f).
Proof.
  intros Hf w l. unfold silent. specialize (Hf w). destruct (f w) as [a w']. exists (Some a), [], w'.
  rewrite app_nil_r. split; [done|]. cbn in Hf. rewrite Hf. constructor.
Qed.

Lemma traced_or_panic {A} (o : option A) : traced (or_panic o).
Proof. destruct o; [apply traced_ret|apply traced_panic]. Qed.

Create HintDb traced.
#[local] Hint Resolve traced_ret traced_panic traced_or_panic : traced.
#[local] Hint Resolve ob_create ob_update ob_append ob_start ob_deliver ob_stop ob_terminator_start ob_terminator_stop
  ob_publish ob_subscribe ob_cancel ob_drain ob_ctx ob_now ob_random : traced.
#[local] Hint Extern 2 (traced (mbind _ _)) => (apply traced_bind; [|intros ?]) : traced.
#[local] Hint Extern 2 (traced (_ ≫= _)) => (apply traced_bind; [|intros ?]) : traced.
#[local] Hint Extern 2 (traced (defer _ _)) => (apply traced_defer) : traced.
#[local] Hint Extern 3 (traced (logged _ _)) => (apply traced_logged) : traced.
#[local] Hint Extern 3 (traced (silent _)) => (apply traced_silent) : traced.
#[local] Hint Extern 5 (traced (match ?x with _ => _ end)) => (destruct x) : traced.

Context {observed : Observed}.
Variable d : BrokerDeps Transport.

Lemma traced_start o spec id slot : traced (start o spec id slot).
Proof. unfold start. auto with traced. Qed.
Lemma traced_stop o : traced (stop o).
Proof. unfold stop. auto with traced. Qed.
#[local] Hint Resolve traced_start traced_stop : traced.

Lemma traced_stopPeerIDs ids : traced (stopPeerIDs d ids).
Proof. induction ids as [|id ids IH]; cbn [stopPeerIDs]; auto with traced. Qed.
#[local] Hint Resolve traced_stopPeerIDs : traced.

Lemma traced_stopAllPeers : traced (stopAllPeers d).
Proof. unfold stopAllPeers. auto with traced. Qed.
#[local] Hint Resolve traced_stopAllPeers : traced.

Lemma traced_startPeerIDs conv started ids : traced (startPeerIDs d conv started ids).
Proof. revert started. induction ids as [|id ids IH]; intros started; cbn [startPeerIDs]; auto 10 with traced. Qed.
#[local] Hint Resolve traced_startPeerIDs : traced.

Lemma traced_startAllPeers conv : traced (startAllPeers d conv).
Proof. unfold startAllPeers. auto 10 with traced. Qed.
#[local] Hint Resolve traced_startAllPeers : traced.

Lemma traced_new_marker : traced new_marker.
Proof. unfold new_marker. auto with traced. Qed.
Lemma traced_ctx_done : traced ctx_done.
Proof. unfold ctx_done. auto with traced. Qed.
Lemma traced_publishTurn t : traced (publishTurn t).
Proof. unfold publishTurn. apply traced_bind; [auto with traced|]. intros now. cbv zeta. auto with traced. Qed.
Lemma traced_drain ch dl : traced (drainControlTimed ch dl).
Proof. unfold drainControlTimed. auto with traced. Qed.
Lemma traced_finalize conv turns ws st note : traced (finalize conv turns ws st note).
Proof. unfold finalize. apply traced_bind; [auto with traced|]. intros now. cbv zeta. auto with traced. Qed.
#[local] Hint Resolve traced_new_marker traced_ctx_done traced_publishTurn traced_drain traced_finalize : traced.

Lemma traced_loop fuel ch conv ws turns active e : traced (loop d fuel ch conv ws turns active e).
Proof.
  revert conv ws turns active e. induction fuel as [|fuel IH]; intros conv ws turns active e; cbn [loop]; cbv zeta;
    auto 20 with traced.
Qed.
#[local] Hint Resolve traced_loop : traced.

Lemma trace_Run fuel : traced (Broker.Run d fuel).
Proof.
  unfold Broker.Run. apply traced_bind; [auto with traced|]. intros now. cbv zeta. auto 20 with traced.
Qed.
End Trace.
