(* ===== verification/BrokerRun.v ===== *)
(** * What a run of the broker shows

    The properties of [Run]: they are read off the protocol by induction on it,
    and hold of every environment.  The module [Sim] is a concrete one, with
    scripted peers and the in-process bus. *)
From S2P Require Import Prelude GoLib Model Policy Sentinel Envelope Bus Broker Protocol.

Section BrokerRun.
Context {World Transport : Type} {env : BrokerEnv World Transport}.
Variable d : BrokerDeps Transport.

#[local] Abbreviation n_peer := (Broker.n_peer d).
#[local] Abbreviation peerIDs := (Broker.peerIDs d).
#[local] Abbreviation policy_of := (Broker.policy_of d).
#[local] Abbreviation transportFor := (Broker.transportFor d).
#[local] Abbreviation stopPeerIDs := (Broker.stopPeerIDs d).
#[local] Abbreviation stopAllPeers := (Broker.stopAllPeers d).
#[local] Abbreviation startPeerIDs := (Broker.startPeerIDs d).
#[local] Abbreviation startAllPeers := (Broker.startAllPeers d).
#[local] Abbreviation drain_window := (Broker.drain_window d).
#[local] Abbreviation loop := (Broker.loop d).
#[local] Abbreviation opener := (Broker.opener d).
#[local] Abbreviation Run := (Broker.Run d).
#[local] Abbreviation next_slot := (Protocol.next_slot d).
#[local] Abbreviation taken := (Protocol.taken d).
#[local] Abbreviation reaches := (Protocol.reaches d).
#[local] Abbreviation ends := (Protocol.ends d).
#[local] Abbreviation deps_ok := (Protocol.deps_ok d).
#[local] Abbreviation loop_post := (Protocol.loop_post d).
#[local] Abbreviation peers := (Protocol.peers d).
#[local] Abbreviation peer_spec := (Protocol.peer_spec d).
#[local] Abbreviation start_call := (Protocol.start_call d).
#[local] Abbreviation start_failure := (Protocol.start_failure d).
#[local] Abbreviation lookup_peers := (Protocol.lookup_peers d).
#[local] Abbreviation created_conv := (Protocol.created_conv d).
#[local] Abbreviation run_log := (Protocol.run_log d).
#[local] Abbreviation peerIDs_nonempty := (Protocol.peerIDs_nonempty d).
#[local] Abbreviation peerIDs_cases := (Protocol.peerIDs_cases d).
#[local] Abbreviation transportFor_peer := (Protocol.transportFor_peer d).
#[local] Abbreviation opener_peer := (Protocol.opener_peer d).
#[local] Abbreviation next_slot_peer := (Protocol.next_slot_peer d).
#[local] Abbreviation warnings_of_starts := (Protocol.warnings_of_starts d).
#[local] Abbreviation Run_spec := (Protocol.Run_spec d).

(** ** What a log shows *)

Definition log := list (call Transport).

Definition appended (l : log) : list ConversationTurn :=
  omap (fun c => match c with KAppend t _ => Some t | _ => None end) l.
Definition published_turns (l : log) : list ConversationTurn :=
  omap (fun c => match c with
                 | KPublish _ m _ => match BM_Payload m with PTurn t => Some t | _ => None end
                 | _ => None
                 end) l.
Definition answers (l : log) : list ConversationTurn :=
  omap (fun c => match c with KDeliver _ _ (Ok t) => Some t | _ => None end) l.
Definition deliveries (l : log) : list (Transport * Envelope) :=
  omap (fun c => match c with KDeliver t e _ => Some (t, e) | _ => None end) l.
Definition updates (l : log) : list (gostring * ConversationPatch) :=
  omap (fun c => match c with KUpdate id p _ => Some (id, p) | _ => None end) l.
Definition started (l : log) : list Transport :=
  omap (fun c => match c with KStart t _ _ _ None => Some t | _ => None end) l.
Definition stopped (l : log) : list Transport :=
  omap (fun c => match c with KStop t => Some t | _ => None end) l.

(** A message on the control topic that ends the conversation: a verdict to
    terminate, or the crash of a peer. *)
Definition ending_message (m : BusMessage) : option ConversationStatus :=
  ctl ← Unmarshal_ControlMsg (BM_Payload m);
  if bool_decide (CM_Kind ctl = ControlVerdict) then
    v ← CM_Verdict ctl; if bool_decide (V_Decision v = DecisionTerminate) then Some (V_Status v) else None
  else if bool_decide (CM_Kind ctl = ControlPeerCrashed) then Some ConvPeerCrashed
  else if bool_decide (CM_Kind ctl = ControlPeerBlocked) then Some ConvPeerBlocked else None.

Lemma first_control_head ms : fst <$> first_control (controls ms) = head (omap ending_message ms).
Proof.
  induction ms as [|m ms IH]; [done|]. unfold controls in *. cbn [omap list_omap]. unfold ending_message at 1.
  destruct (Unmarshal_ControlMsg (BM_Payload m)) as [ctl|]; [|exact IH]. cbn [mbind option_bind first_control].
  unfold handle_control. repeat case_bool_decide; try reflexivity; try exact IH.
  destruct (CM_Verdict ctl) as [v|]; [|exact IH]. cbn [mbind option_bind].
  case_bool_decide; [reflexivity|exact IH].
Qed.

(** The calls after which the broker must stop, and with which status. *)
Definition stop_reason (c : call Transport) : option ConversationStatus :=
  match c with
  | KStart _ _ _ _ (Some _) => Some ConvError
  | KSubscribe _ (Err _) => Some ConvError
  | KCtx true => Some ConvInterrupted
  | KDeliver _ _ (Err e) => Some (if is_ctx_error e then ConvInterrupted else ConvError)
  | KDrain _ ms => head (omap ending_message ms)
  | _ => None
  end.
Definition reasons (l : log) : list ConversationStatus := omap stop_reason l.

(** The stored turn [t] and its entry [t'] in the turn log: the policy's choice,
    made from the speaker and its response, has been added. *)
Definition routed (conv : Conversation) (t t' : ConversationTurn) : Prop :=
  exists dec, @policy_Next policy_of (T_FromID t) (next_response conv t) peerIDs = Some dec
  /\ t' = route_turn dec t.

(** A stored turn is the transport's turn with the speaker (and, on the first
    turn, the reason) filled in. *)
Definition stamped (raw t : ConversationTurn) : Prop :=
  exists first id, t = stamp_turn first id raw.

(** The [i]-th delivery: to the opener first, then to the peer the turn before
    was routed to, with that turn's response. *)
Definition delivery_ok (conv : Conversation) (turns : list ConversationTurn) (i : nat)
    (slot : PeerSlot) (env0 : Envelope) : Prop :=
  exists buf, match i with
  | O => slot = opener conv /\ env0 = BuildEnvelopeTurn1 conv slot (NewMarkerToken buf)
  | S j => exists prev, turns !! j = Some prev /\ slot = T_ToID prev
           /\ env0 = BuildEnvelopeTurnN conv (Z.of_nat i + 1) (T_FromID prev)
                       (next_response conv prev) (NewMarkerToken buf)
  end.

Definition speakers (conv : Conversation) (turns : list ConversationTurn) (active : PeerSlot)
    : Prop :=
  (T_FromID <$> turns) ++ [active] = opener conv :: (T_ToID <$> turns).

(** What holds of every conversation of the protocol. *)
Record facts (conv : Conversation) (l : log) (turns : list ConversationTurn) : Prop := {
  f_appended : Forall2 (routed conv) (appended l) turns;
  f_published : published_turns l = appended l;
  f_answers : Forall2 stamped (answers l) (appended l);
  f_deliveries : forall i tr e, deliveries l !! i = Some (tr, e) ->
    exists slot, transportFor slot = Some tr /\ delivery_ok conv turns i slot e;
  f_quiet : updates l = [] /\ started l = [] /\ stopped l = [];
}.

Lemma facts_nil conv : facts conv [] [].
Proof. by constructor. Qed.

Lemma delivery_ok_app conv turns k i slot e :
  delivery_ok conv turns i slot e -> delivery_ok conv (turns ++ k) i slot e.
Proof.
  intros [buf H]. exists buf. destruct i; [done|]. destruct H as (prev & H & ?).
  exists prev. split; [by apply lookup_app_l_Some|done].
Qed.

(** One more answered envelope. *)
Lemma facts_taken conv l turns active env0 seg t dec :
  facts conv l turns -> length (deliveries l) = length turns ->
  delivery_ok conv turns (length turns) active env0 ->
  taken conv turns active env0 seg t dec ->
  facts conv (l ++ seg) (turns ++ [route_turn dec t])
  /\ length (deliveries (l ++ seg)) = S (length turns) /\ reasons seg = []
  /\ T_FromID t = active.
Proof.
  intros [Ha Hp Hs Hd (Hu & Hst & Hsp)] Hlen Hdel [tr raw e1 now e2 dec' Htr t0 Hdec]. subst t0.
  split_and!.
  - constructor; unfold appended, published_turns, answers, deliveries, updates, started, stopped in *;
      rewrite !omap_app; cbn; try done.
    + apply Forall2_app; [done|]. constructor; [by exists dec'|constructor].
    + by rewrite Hp.
    + apply Forall2_app; [done|]. constructor; [by do 2 eexists|constructor].
    + intros i tr' e Hi. apply lookup_app_Some in Hi as [Hi|[Hge Hi]].
      * destruct (Hd _ _ _ Hi) as (slot & ? & ?). exists slot. split; [done|].
        by apply delivery_ok_app.
      * apply list_lookup_singleton_Some in Hi as [Hi Heq]. injection Heq as <- <-.
        assert (i = length turns) as -> by (fold (deliveries l) in *; lia).
        exists active. split; [done|]. by apply delivery_ok_app.
    + by rewrite Hu, Hst, Hsp.
  - unfold deliveries in *. rewrite omap_app, length_app. cbn. lia.
  - done.
  - done.
Qed.

Definition silent_call (c : call Transport) : bool :=
  match c with KCtx _ | KDrain _ _ => true | _ => false end.

Lemma facts_silent conv l turns k :
  forallb silent_call k = true -> facts conv l turns -> facts conv (l ++ k) turns.
Proof.
  intros Hk [Ha Hp Hs Hd (Hu & Hst & Hsp)].
  assert (forall B (f : call Transport -> option B),
    (forall c, silent_call c = true -> f c = None) -> omap f (l ++ k) = omap f l) as Q.
  { intros B f H. rewrite omap_app. rewrite <- (app_nil_r (omap f l)) at 2. f_equal.
    induction k as [|c k IH]; [done|]. cbn [forallb] in Hk. apply andb_true_iff in Hk as [Hc Hk].
    cbn [omap list_omap]. rewrite H by done. by apply IH. }
  constructor; unfold appended, published_turns, answers, deliveries, updates, started, stopped in *;
    rewrite !Q by (by intros []); done.
Qed.

Lemma facts_failed conv l turns active env0 tr e :
  facts conv l turns -> length (deliveries l) = length turns ->
  delivery_ok conv turns (length turns) active env0 -> transportFor active = Some tr ->
  facts conv (l ++ [KCtx false; KDeliver tr env0 (Err e)]) turns.
Proof.
  intros [Ha Hp Hs Hd (Hu & Hst & Hsp)] Hlen Hdel Htr.
  constructor; unfold appended, published_turns, answers, deliveries, updates, started, stopped in *;
    rewrite !omap_app; cbn [omap list_omap]; rewrite ?app_nil_r; try done.
  intros i tr' e' Hi. apply lookup_app_Some in Hi as [Hi|[Hge Hi]]; [by apply Hd|].
  apply list_lookup_singleton_Some in Hi as [Hi Heq]. injection Heq as <- <-.
  assert (i = length turns) as -> by lia. by exists active.
Qed.

Lemma reaches_facts conv ch l turns active env0 :
  deps_ok -> reaches conv ch l turns active env0 ->
  facts conv l turns /\ length (deliveries l) = length turns
  /\ delivery_ok conv turns (length turns) active env0
  /\ speakers conv turns active /\ reasons l = []
  /\ (turns = [] \/ Z.of_nat (length turns) < MaxTurns conv).
Proof.
  intros Hok. induction 1 as [buf|l turns active env0 seg t dec ms buf _ IH Ht Hcap Hctl].
  - split_and!; [apply facts_nil|done|by exists buf|done|done|by left].
  - destruct IH as (Hf & Hlen & Hdel & Hsp & Hre & _).
    destruct (facts_taken _ _ _ _ _ _ _ _ Hf Hlen Hdel Ht) as (Hf' & Hlen' & Hre' & Hfrom).
    assert (D_Next dec ∈ peerIDs) as Hvalid.
    { destruct Ht as [tr raw e1 now e2 dec' Htr t0 Hdec].
      destruct (@policy_Next_valid policy_of active (next_response conv t0) peerIDs
        peerIDs_nonempty) as (dec2 & Hdec2 & Hin). rewrite Hdec in Hdec2. by injection Hdec2 as ->. }
    destruct (next_slot_peer dec Hok Hvalid) as [Hns _].
    assert (length (turns ++ [route_turn dec t]) = S (length turns)) as HL
      by (rewrite length_app; cbn; lia).
    rewrite HL, app_assoc. split_and!.
    + by apply facts_silent.
    + unfold deliveries in *. rewrite omap_app. cbn [omap list_omap]. by rewrite app_nil_r.
    + exists buf. exists (route_turn dec t). split_and!.
      * by rewrite lookup_app_r, Nat.sub_diag by lia.
      * by rewrite Hns.
      * rewrite <- Hfrom. f_equal. lia.
    + unfold speakers in *. rewrite !fmap_app. cbn [fmap list_fmap].
      change (T_FromID (route_turn dec t)) with (T_FromID t). rewrite Hfrom, Hsp.
      cbn [T_ToID route_turn with_routing app]. by rewrite Hns.
    + unfold reasons in *. rewrite !omap_app, Hre, Hre'. cbn. by rewrite <- first_control_head, Hctl.
    + right. lia.
Qed.

(** The turn log says who spoke: the opener, then whoever the turn before it
    was routed to. *)
Definition speaker_chain (conv : Conversation) (turns : list ConversationTurn) : Prop :=
  T_FromID <$> turns = take (length turns) (opener conv :: (T_ToID <$> turns)).

Lemma speakers_chain conv turns active : speakers conv turns active -> speaker_chain conv turns.
Proof.
  unfold speakers, speaker_chain. intros <-.
  by rewrite take_app_length' by by rewrite length_fmap.
Qed.

Lemma speakers_chain_snoc conv turns active t :
  speakers conv turns active -> T_FromID t = active -> speaker_chain conv (turns ++ [t]).
Proof.
  unfold speakers, speaker_chain. intros H <-. rewrite !fmap_app. cbn [fmap list_fmap]. rewrite H.
  rewrite app_comm_cons, take_app_length'; [done|].
  cbn [length]. rewrite length_app, length_fmap. cbn. lia.
Qed.

(** Why a conversation ended: nothing stopped it before the cap, or exactly
    one call did, the last one that could. *)
Definition ending_ok (conv : Conversation) (rs : list ConversationStatus)
    (turns : list ConversationTurn) (status : ConversationStatus) : Prop :=
  (rs = [] /\ status = ConvMaxTurnsHit /\ Z.of_nat (length turns) = Z.max 1 (MaxTurns conv))
  \/ (rs = [status] /\ Z.of_nat (length turns) < Z.max 1 (MaxTurns conv)).

Lemma ends_facts conv ch l turns active env0 seg turns2 status note :
  deps_ok -> reaches conv ch l turns active env0 ->
  ends conv ch turns active env0 seg turns2 status note ->
  facts conv (l ++ seg) turns2 /\ speaker_chain conv turns2
  /\ ending_ok conv (reasons (l ++ seg)) turns2 status.
Proof.
  intros Hok Hr He. destruct (reaches_facts _ _ _ _ _ _ Hok Hr)
    as (Hf & Hlen & Hdel & Hsp & Hre & Hcap).
  assert (forall k, reasons (l ++ k) = reasons k) as Hreasons
    by (intros k; unfold reasons in *; by rewrite omap_app, Hre).
  rewrite Hreasons.
  assert (forall r, length (turns ++ [r]) = S (length turns)) as HL
    by (intros; rewrite length_app; cbn; lia).
  destruct He as [|tr e Htr Ee|tr e Htr Ee|seg t dec Ht Hm|seg t dec Ht Hm
    |seg t dec ms status note Ht Hm Hctl].
  - split_and!; [by apply facts_silent|by eapply speakers_chain|].
    right. cbn. split; [done|]. destruct Hcap as [->|?]; cbn; lia.
  - split_and!; [by eapply facts_failed|by eapply speakers_chain|right; cbn; rewrite Ee].
    split; [done|]. destruct Hcap as [->|?]; cbn; lia.
  - split_and!; [by eapply facts_failed|by eapply speakers_chain|right; cbn; rewrite Ee].
    split; [done|]. destruct Hcap as [->|?]; cbn; lia.
  - destruct (facts_taken _ _ _ _ _ _ _ _ Hf Hlen Hdel Ht) as (Hf' & _ & Hre' & Hfrom).
    split_and!; [done|by eapply speakers_chain_snoc|].
    left. split_and!; [done|done|]. rewrite HL. destruct Hcap as [Hn|?]; [subst turns; cbn in *; lia|lia].
  - destruct (facts_taken _ _ _ _ _ _ _ _ Hf Hlen Hdel Ht) as (Hf' & _ & Hre' & Hfrom).
    split_and!; [|by eapply speakers_chain_snoc|].
    + rewrite app_assoc. by apply facts_silent.
    + right. unfold reasons in *. rewrite omap_app, Hre', HL. cbn. split; [done|lia].
  - destruct (facts_taken _ _ _ _ _ _ _ _ Hf Hlen Hdel Ht) as (Hf' & _ & Hre' & Hfrom).
    split_and!; [rewrite app_assoc; by apply facts_silent|by eapply speakers_chain_snoc|].
    right. unfold reasons in *. rewrite omap_app, Hre', HL. cbn. rewrite <- first_control_head, Hctl. split; [done|lia].
Qed.

(** ** What a whole run shows *)

Lemma omap_starts {B} (f : call Transport -> option B) conv e ps :
  (forall t s i sl, f (KStart t s i sl e) = None) -> omap f (start_call conv e <$> ps) = [].
Proof.
  intros H. induction ps as [|p ps IH]; [done|]. cbn [fmap list_fmap omap list_omap].
  unfold start_call at 1. by rewrite H.
Qed.

Lemma omap_stops {B} (f : call Transport -> option B) ps :
  (forall t, f (KStop t) = None) -> omap f (stop_calls ps) = [].
Proof.
  intros H. induction ps as [|p ps IH]; [done|].
  cbn [stop_calls fmap list_fmap omap list_omap]. by rewrite H.
Qed.

Lemma started_starts conv ps : started (start_call conv None <$> ps) = snd <$> ps.
Proof. induction ps as [|p ps IH]; [done|]. cbn. by f_equal. Qed.

Lemma stopped_starts conv ps : stopped (start_call conv None <$> ps) = [].
Proof. by apply omap_starts. Qed.

Lemma stopped_stops ps : stopped (stop_calls ps) = snd <$> ps.
Proof. induction ps as [|p ps IH]; [done|]. cbn. by f_equal. Qed.

Lemma warnings_of_cons (c : call Transport) l : warnings_of (c :: l) = call_warning c ++ warnings_of l.
Proof. done. Qed.

Lemma warnings_of_stops (ps : list (PeerID * Transport)) : warnings_of (stop_calls ps) = [].
Proof. induction ps as [|p ps IH]; [done|]. exact IH. Qed.

Record run_facts (l : log) (r : FinalResult) : Prop := {
  rf_created : exists created, FR_Conversation r =
    final_conv (created_conv created) (C_Status (FR_Conversation r))
      (default 0 (C_EndedAt (FR_Conversation r))) (TurnsConsumed (FR_Conversation r));
  rf_appended : Forall2 (routed (FR_Conversation r)) (appended l) (FR_Turns r);
  rf_published : published_turns l = appended l;
  rf_answers : Forall2 stamped (answers l) (appended l);
  rf_deliveries : forall i tr e, deliveries l !! i = Some (tr, e) ->
    exists slot, transportFor slot = Some tr
    /\ delivery_ok (FR_Conversation r) (FR_Turns r) i slot e;
  rf_chain : speaker_chain (FR_Conversation r) (FR_Turns r);
  rf_update : updates l = [(C_ID (deps_Conversation d),
    {| CP_Status := Some (C_Status (FR_Conversation r));
       CP_EndedAt := C_EndedAt (FR_Conversation r);
       CP_TurnsConsumed := Some (TurnsConsumed (FR_Conversation r)) |})];
  rf_lifecycle : started l = stopped l;
  rf_warnings : FR_Warnings r = warnings_of l;
  rf_ending : ending_ok (deps_Conversation d) (reasons l) (FR_Turns r) (C_Status (FR_Conversation r));
  rf_consumed : FR_Turns r <> [] ->
    TurnsConsumed (FR_Conversation r) = Z.of_nat (length (FR_Turns r));
}.

(** The calls before and after the conversation itself. *)
Definition quiet_call (c : call Transport) : bool :=
  match c with KAppend _ _ | KPublish _ _ _ | KDeliver _ _ _ | KUpdate _ _ _ => false | _ => true end.

Lemma omap_quiet {B} (f : call Transport -> option B) k :
  forallb quiet_call k = true -> (forall c, quiet_call c = true -> f c = None) -> omap f k = [].
Proof.
  intros Hk H. induction k as [|c k IH]; [done|]. cbn [forallb] in Hk.
  apply andb_true_iff in Hk as [Hc Hk]. cbn [omap list_omap]. rewrite H by done. by apply IH.
Qed.

Lemma quiet_starts conv ps : forallb quiet_call (start_call conv None <$> ps) = true.
Proof. induction ps as [|p ps IH]; [done|]. exact IH. Qed.

Lemma quiet_stops ps : forallb quiet_call (stop_calls ps) = true.
Proof. induction ps as [|p ps IH]; [done|]. exact IH. Qed.

Lemma run_facts_intro created pre body post e1 status now n turns2 note
    (conv := created_conv created) :
  forallb quiet_call pre = true -> forallb quiet_call post = true ->
  facts conv body turns2 -> speaker_chain conv turns2 ->
  started pre = stopped pre ++ stopped post -> started post = [] ->
  ending_ok conv (reasons (pre ++ body)) turns2 status -> reasons post = [] ->
  warnings_of post = [] -> (turns2 <> [] -> n = Z.of_nat (length turns2)) ->
  run_facts (pre ++ body ++ KUpdate (C_ID conv) (final_patch status now n) e1 :: post)
    (final_result conv turns2 (warnings_of (pre ++ body)) status note now n e1).
Proof.
  intros Hpre Hpost [Ha Hp Hs Hd (Hu & Hst & Hsp)] Hch Hlife Hstp Hend Hrp Hwp Hn.
  assert (forall B (f : call Transport -> option B), (forall c, quiet_call c = true -> f c = None) ->
    omap f (pre ++ body ++ KUpdate (C_ID conv) (final_patch status now n) e1 :: post)
    = omap f body ++ omap f [KUpdate (C_ID conv) (final_patch status now n) e1]) as Q.
  { intros B f Hf. rewrite !omap_app, (omap_quiet f pre), app_nil_l by done. f_equal.
    change (?c :: post) with ([c] ++ post). rewrite omap_app, (omap_quiet f post) by done.
    by rewrite app_nil_r. }
  constructor; cbn [final_result FR_Turns FR_Conversation FR_Warnings final_conv with_lifecycle
    C_Status C_EndedAt TurnsConsumed default].
  - by exists created.
  - unfold appended in *. rewrite Q by (by intros []). by rewrite app_nil_r.
  - unfold published_turns, appended in *. rewrite !Q by (by intros []). by rewrite !app_nil_r.
  - unfold answers, appended in *. rewrite !Q by (by intros []). by rewrite !app_nil_r.
  - intros i tr e Hi. unfold deliveries in *. rewrite Q in Hi by (by intros []).
    rewrite app_nil_r in Hi. exact (Hd i tr e Hi).
  - exact Hch.
  - unfold updates in *. rewrite Q by (by intros []). by rewrite Hu.
  - change (KUpdate ?a ?b ?c :: post) with ([KUpdate a b c] ++ post).
    unfold started, stopped in *. rewrite !omap_app, Hst, Hsp, Hlife, Hstp. cbn.
    by rewrite app_nil_r.
  - rewrite (app_assoc pre), (warnings_of_app (pre ++ body)), warnings_of_cons, Hwp.
    by rewrite app_nil_r.
  - rewrite (app_assoc pre). unfold reasons in *. rewrite (omap_app _ (pre ++ body)).
    cbn [omap list_omap stop_reason]. rewrite Hrp, app_nil_r. exact Hend.
  - exact Hn.
Qed.

Lemma reasons_starts conv ps : reasons (start_call conv None <$> ps) = [].
Proof. by apply omap_starts. Qed.

Lemma reasons_stops ps : reasons (stop_calls ps) = [].
Proof. by apply omap_stops. Qed.

(** The calls before the conversation when every peer has started. *)
Definition prelude (conv : Conversation) (e0 et : option goerr) (r : result nat) : log :=
  KCreate conv e0 :: (start_call conv None <$> peers)
  ++ [KTerminatorStart conv et; KSubscribe (TopicControl (C_ID conv)) r].

Lemma prelude_facts conv e0 et r :
  forallb quiet_call (prelude conv e0 et r) = true
  /\ started (prelude conv e0 et r) = stopped (prelude conv e0 et r) ++ (snd <$> peers)
  /\ reasons (prelude conv e0 et r) = match r with Ok _ => [] | Err _ => [ConvError] end.
Proof.
  unfold prelude. split_and!.
  - cbn. by rewrite forallb_app, quiet_starts.
  - unfold started, stopped. cbn [omap list_omap]. rewrite !omap_app. cbn [omap list_omap].
    fold (started (start_call conv None <$> peers)) (stopped (start_call conv None <$> peers)).
    by rewrite started_starts, stopped_starts, app_nil_r.
  - unfold reasons. cbn [omap list_omap]. rewrite omap_app.
    fold (reasons (start_call conv None <$> peers)). rewrite reasons_starts. cbn. by destruct r.
Qed.

Lemma stopped_prelude conv e0 et r : stopped (prelude conv e0 et r) = [].
Proof.
  unfold prelude, stopped. cbn [omap list_omap]. rewrite omap_app.
  fold (stopped (start_call conv None <$> peers)). by rewrite stopped_starts.
Qed.

Lemma run_log_facts l r : deps_ok -> run_log l r -> run_facts l r.
Proof.
  intros Hok Hl.
  destruct Hl as [created e0 starts note now e1 conv Hs log0 n
    |created e0 et e now e1 conv log0 n
    |created e0 et ch rounds turns active env0 seg turns2 status note now e1 conv Hr He log0 n].
  - destruct Hs as [ps p rest e Hp]. unfold log0.
    rewrite <- (app_nil_r (KCreate conv e0 :: _)) at 2.
    apply (run_facts_intro created _ [] []); try done.
    + cbn. rewrite forallb_app, quiet_starts. apply quiet_stops.
    + unfold started, stopped. cbn [omap list_omap]. rewrite !omap_app. cbn [omap list_omap].
      fold (started (start_call conv None <$> ps)) (stopped (stop_calls ps)).
      rewrite started_starts, stopped_stops, (omap_starts (fun c => match c with KStop _ => _ | _ => None end)) by done.
      rewrite (omap_stops (fun c => match c with KStart _ _ _ _ _ => _ | _ => None end)) by done.
      by rewrite !app_nil_r.
    + right. rewrite app_nil_r. unfold reasons. cbn [omap list_omap]. rewrite omap_app.
      cbn [omap list_omap]. fold (reasons (start_call conv None <$> ps)) (reasons (stop_calls ps)).
      rewrite reasons_starts, reasons_stops. split; [done|]. cbn. lia.
  - unfold log0. fold (prelude conv e0 et (Err e)).
    rewrite <- (app_nil_r (prelude conv e0 et (Err e))) at 2.
    pose proof (prelude_facts conv e0 et (Err e)) as (Q1 & Q2 & Q3).
    apply (run_facts_intro created _ [] (KTerminatorStop :: stop_calls peers)); try done.
    + apply quiet_stops.
    + rewrite Q2. f_equal. exact (eq_sym (stopped_stops peers)).
    + by apply omap_stops.
    + right. rewrite app_nil_r, Q3. split; [done|]. cbn. lia.
    + by apply omap_stops.
    + apply warnings_of_stops.
  - destruct (ends_facts _ _ _ _ _ _ _ _ _ _ Hok Hr He) as (Hf & Hch & Hend).
    unfold log0. fold (prelude conv e0 et (Ok ch)). rewrite <- app_assoc.
    pose proof (prelude_facts conv e0 et (Ok ch)) as (Q1 & Q2 & Q3).
    apply (run_facts_intro created _ (rounds ++ seg) (KCancel ch :: KTerminatorStop :: stop_calls peers));
      try done.
    + apply quiet_stops.
    + rewrite Q2. f_equal. exact (eq_sym (stopped_stops peers)).
    + by apply omap_stops.
    + unfold reasons in *. by rewrite omap_app, Q3.
    + by apply omap_stops.
    + apply warnings_of_stops.
Qed.

Lemma Run_facts fuel w r w' l :
  deps_ok -> random_ok -> Z.max 1 (MaxTurns (deps_Conversation d)) <= Z.of_nat fuel ->
  Run fuel (w, []) = (Some r, (w', l)) -> run_log l r /\ run_facts l r.
Proof.
  intros Hok Hrand Hfuel HR. destruct (Run_spec fuel w Hok Hrand Hfuel) as (r2 & w2 & l2 & H & Hl).
  rewrite HR in H. injection H as -> -> ->. split; [done|by apply run_log_facts].
Qed.

Lemma turns_bound l r :
  run_facts l r -> Z.of_nat (length (FR_Turns r)) <= Z.max 1 (MaxTurns (deps_Conversation d)).
Proof. intros Hf. destruct (rf_ending _ _ Hf) as [(_ & _ & ->)|[_ ?]]; lia. Qed.

Lemma stops_last l r : deps_ok -> run_log l r ->
  exists pre post, l = pre ++ post /\ stopped pre = [] /\ deliveries post = [] /\ started post = [].
Proof.
  intros Hok Hl.
  assert (forall qs : list (PeerID * Transport), started (stop_calls qs) = []) as Hst by (intros; by apply omap_stops).
  destruct Hl as [created e0 starts note now e1 conv Hs log0 n
    |created e0 et e now e1 conv log0 n
    |created e0 et ch rounds turns active env0 seg turns2 status note now e1 conv Hr He log0 n].
  - destruct Hs as [ps p rest e Hp].
    exists (KCreate conv e0 :: (start_call conv None <$> ps) ++ [start_call conv (Some e) p]),
      (stop_calls ps ++ [KUpdate (C_ID conv) (final_patch ConvError now n) e1]).
    unfold log0, started, stopped, deliveries. cbn [app omap list_omap].
    rewrite !omap_app, omap_starts, !omap_stops by done. split_and!; try done.
    cbn [app]. by rewrite <- !app_assoc.
  - exists (log0 ++ [KUpdate (C_ID conv) (final_patch ConvError now n) e1; KTerminatorStop]), (stop_calls peers).
    split_and!; [by rewrite <- app_assoc| |by apply omap_stops|done].
    unfold log0. fold (prelude conv e0 et (Err e)). unfold stopped. rewrite omap_app.
    fold (stopped (prelude conv e0 et (Err e))). by rewrite stopped_prelude.
  - exists (log0 ++ [KUpdate (C_ID conv) (final_patch status now n) e1; KCancel ch; KTerminatorStop]),
      (stop_calls peers).
    split_and!; [by rewrite <- app_assoc| |by apply omap_stops|done].
    destruct (ends_facts _ _ _ _ _ _ _ _ _ _ Hok Hr He) as ([_ _ _ _ (_ & _ & Hsp)] & _ & _).
    unfold log0. fold (prelude conv e0 et (Ok ch)). unfold stopped in *. rewrite !(omap_app _ (_ ++ _)).
    rewrite (omap_app _ (prelude conv e0 et (Ok ch))), Hsp.
    fold (stopped (prelude conv e0 et (Ok ch))). by rewrite stopped_prelude.
Qed.

Lemma routed_peers conv ts turns : Forall2 (routed conv) ts turns ->
  Forall (fun t => T_ToID t ∈ peerIDs) turns.
Proof.
  induction 1 as [|t t' ts turns (dec & Hdec & ->) _ IH]; constructor; [|done].
  destruct (@policy_Next_valid policy_of (T_FromID t) (next_response conv t) peerIDs
    peerIDs_nonempty) as (dec2 & Hdec2 & Hin). rewrite Hdec in Hdec2. by injection Hdec2 as ->.
Qed.

Lemma delivered_no_sentinel l r i tr e :
  run_facts l r -> TS_Kind (C_Terminator (deps_Conversation d)) = "sentinel" ->
  deliveries l !! S i = Some (tr, e) ->
  exists label content,
    E_Body e = renderBody (E_ConversationID e) (E_TurnIndex e) (E_MaxTurns e) label content
                 (E_MarkerToken e)
    /\ containsOnOwnLine content (NewSentinel (TS_Sentinel (C_Terminator (deps_Conversation d))))
       = false.
Proof.
  intros Hf Hkind Hi. destruct (rf_deliveries _ _ Hf _ _ _ Hi) as (slot & _ & buf & prev & _ & _ & ->).
  destruct (rf_created _ _ Hf) as [created ->].
  eexists _, (next_response (final_conv (created_conv created) (C_Status (FR_Conversation r))
    (default 0 (C_EndedAt (FR_Conversation r))) (TurnsConsumed (FR_Conversation r))) prev).
  split; [reflexivity|]. unfold next_response. cbn [final_conv with_lifecycle C_Terminator created_conv
    set_created set_status]. rewrite bool_decide_true by done. apply no_sentinel_left.
Qed.

(** Without routing by id and with the default policy, each turn goes to the
    other slot: that is what a trailer can name, and what round robin gives. *)
Lemma two_peers_other conv t t' :
  n_peer = false -> deps_ok -> deps_Policy d = None ->
  T_FromID t ∈ ["a"; "b"] -> routed conv t t' ->
  T_ToID t' = PeerSlot_Other (T_FromID t').
Proof.
  intros E Hok Hpol Hin (dec & Hdec & ->). cbn [route_turn with_routing T_ToID T_FromID].
  destruct (peerIDs_cases Hok) as [[E' _]|[_ Ep]]; [congruence|]. rewrite Ep in Hdec.
  unfold policy_of in Hdec. rewrite Hpol in Hdec. cbn [default] in Hdec.
  change (AddressedPolicy_Next (T_FromID t) (next_response conv t) ["a"; "b"] = Some dec) in Hdec.
  unfold AddressedPolicy_Next in Hdec.
  assert (forall from, from ∈ ["a"; "b"] -> roundRobinAfter from ["a"; "b"] = Some (PeerSlot_Other from))
    as Hrr.
  { intros from Hf. apply elem_of_cons in Hf as [->|Hf]; [done|].
    by apply list_elem_of_singleton in Hf as ->. }
  rewrite (Hrr _ Hin) in Hdec.
  destruct (parseNextTrailer (next_response conv t)) as [id|]; cbn in Hdec;
    [|by injection Hdec as <-].
  destruct (bool_decide (id <> T_FromID t) && bool_decide (id ∈ ["a"; "b"])) eqn:Eb; cbn in Hdec;
    injection Hdec as <-; [|done]. cbn.
  apply andb_true_iff in Eb as [Hne%bool_decide_eq_true Hid%bool_decide_eq_true].
  apply elem_of_cons in Hid as [->|Hid]; [|apply list_elem_of_singleton in Hid as ->];
    apply elem_of_cons in Hin as [Hf|Hf%list_elem_of_singleton];
    first [by rewrite Hf|by rewrite Hf in Hne].
Qed.

Lemma legacy_opener conv : n_peer = false -> opener conv ∈ ["a"; "b"].
Proof.
  unfold opener. intros ->. destruct (_ || _) eqn:Eo; [|by left].
  apply orb_true_iff in Eo as [Eo|Eo]; bool_facts; rewrite Eo; [by left|by right; left].
Qed.

Lemma chain_alternates conv ts turns k t :
  n_peer = false -> deps_ok -> deps_Policy d = None -> opener conv ∈ ["a"; "b"] ->
  Forall2 (routed conv) ts turns -> speaker_chain conv turns -> turns !! k = Some t ->
  T_FromID t = Nat.iter k PeerSlot_Other (opener conv) /\ T_FromID t ∈ ["a"; "b"].
Proof.
  intros E Hok Hpol Hop Hrt Hch. revert t. induction k as [|k IH]; intros t Ht.
  - unfold speaker_chain in Hch. destruct turns as [|t0 turns]; [done|].
    cbn in Ht. injection Ht as ->. cbn in Hch. injection Hch as Hch _. cbn. by rewrite Hch.
  - destruct (lookup_lt_is_Some_2 turns k) as [p Hp]; [apply lookup_lt_Some in Ht; lia|].
    destruct (IH p Hp) as [Hfrom Hin].
    assert (T_FromID t = T_ToID p) as Hnext.
    { assert ((T_FromID <$> turns) !! S k = Some (T_FromID t)) as H
        by by rewrite list_lookup_fmap, Ht.
      unfold speaker_chain in Hch. rewrite Hch, lookup_take_lt in H
        by (apply lookup_lt_Some in Ht; lia).
      change ((T_ToID <$> turns) !! k = Some (T_FromID t)) in H.
      rewrite list_lookup_fmap, Hp in H. by injection H. }
    destruct (Forall2_lookup_r _ _ _ _ _ Hrt Hp) as (p0 & _ & Hr).
    assert (T_FromID p0 = T_FromID p) as Hsame by by destruct Hr as (dec & _ & ->).
    rewrite <- Hsame in Hin. pose proof (two_peers_other conv p0 p E Hok Hpol Hin Hr) as Ho.
    rewrite Hnext, Ho, Hfrom. split; [done|]. rewrite <- Hfrom, <- Hsame.
    apply elem_of_cons in Hin as [->|Hin]; [by right; left|].
    apply list_elem_of_singleton in Hin as ->. by left.
Qed.

(** ** Properties of [Run] *)

(** C1: termination and safety of [Run].  When every declared peer has a
    transport, the opener is declared, the turn cap can be allocated and the
    random source works, the broker never panics and returns after at most
    max(1, MaxTurns) rounds, whatever its peers, its store, its bus, its
    terminator and its context do. *)
Theorem Run_returns (fuel : nat) (w : World) (Hok : deps_ok) (Hrand : random_ok)
    (Hfuel : Z.max 1 (MaxTurns (deps_Conversation d)) <= Z.of_nat fuel) :
  exists r s, Run fuel (w, []) = (Some r, s)
  /\ Z.of_nat (length (FR_Turns r)) <= Z.max 1 (MaxTurns (deps_Conversation d)).
Proof.
  destruct (Run_spec fuel w Hok Hrand Hfuel) as (r & w' & l & HR & Hl).
  exists r, (w', l). split; [done|]. eapply turns_bound. by apply run_log_facts.
Qed.

Section Run.
Context (fuel : nat) (w : World) (r : FinalResult) (w' : World) (l : log).
Context (Hok : deps_ok) (Hrand : random_ok).
Context (Hfuel : Z.max 1 (MaxTurns (deps_Conversation d)) <= Z.of_nat fuel).
Context (HR : Run fuel (w, []) = (Some r, (w', l))).

(** C2: refinement.  Every run follows the protocol: its calls, in order, are
    those of [run_log] - create, start every peer, start the terminator,
    subscribe, then rounds of deliver / store / publish / check / drain, one
    closing update, cleanup - and its result is the one the protocol names. *)
Theorem Run_refines_protocol : run_log l r.
Proof. by apply (Run_facts fuel w r w' l). Qed.

(** C6: the turn log.  The turns stored are exactly those published, in the same
    order; each is a peer's answer with the speaker filled in; and the result
    lists the same turns, with the policy's routing added. *)
Theorem Run_turn_log :
  Forall2 stamped (answers l) (appended l)
  /\ published_turns l = appended l
  /\ Forall2 (routed (FR_Conversation r)) (appended l) (FR_Turns r).
Proof. destruct (Run_facts fuel w r w' l Hok Hrand Hfuel HR) as [_ []]. done. Qed.

(** What is stored carries no routing.  The recipient, the parsed trailer, the
    fallback flag and, after the first turn, the reason of every stored and
    published turn are those its transport returned, not the policy's. *)
Theorem Run_stores_unrouted :
  Forall2 (fun raw t =>
      T_ToID t = T_ToID raw /\ T_NextIDParsed t = T_NextIDParsed raw
      /\ T_FallbackUsed t = T_FallbackUsed raw
      /\ (T_Reason t = T_Reason raw \/ T_Reason t = TurnReasonOpener))
    (answers l) (appended l).
Proof.
  destruct (Run_facts fuel w r w' l Hok Hrand Hfuel HR) as [_ []].
  eapply Forall2_impl; [eassumption|]. intros raw t (first & id & ->). cbn.
  destruct first; naive_solver.
Qed.

(** C7: lifecycle.  The peers that were started are stopped, in the same order and
    once each; the stored conversation is closed exactly once, with the status,
    the end time and the turn count of the result; and no envelope is delivered
    after the first stop. *)
Theorem Run_lifecycle :
  started l = stopped l
  /\ updates l = [(C_ID (deps_Conversation d),
       {| CP_Status := Some (C_Status (FR_Conversation r));
          CP_EndedAt := C_EndedAt (FR_Conversation r);
          CP_TurnsConsumed := Some (TurnsConsumed (FR_Conversation r)) |})]
  /\ exists pre post, l = pre ++ post /\ stopped pre = [] /\ deliveries post = [].
Proof.
  destruct (Run_facts fuel w r w' l Hok Hrand Hfuel HR) as [Hl []]. split_and!; [done|done|].
  destruct (stops_last l r Hok Hl) as (pre & post & H1 & H2 & H3 & _). by exists pre, post.
Qed.

(** C9: speakers.  The opener speaks first; every later turn is spoken by the peer
    the turn before it was routed to; and every turn is routed to a declared
    peer. *)
Theorem Run_speakers :
  speaker_chain (FR_Conversation r) (FR_Turns r)
  /\ Forall (fun t => T_ToID t ∈ peerIDs) (FR_Turns r).
Proof.
  destruct (Run_facts fuel w r w' l Hok Hrand Hfuel HR) as [_ []]. split; [done|].
  by eapply routed_peers.
Qed.

(** Two peers alternate.  With two slots and the default policy, speaker [k]
    is the opener when [k] is even and the other slot when it is odd, whatever
    trailers the peers write. *)
Theorem Run_alternates (k : nat) (t : ConversationTurn)
    (Hmode : n_peer = false) (Hpol : deps_Policy d = None)
    (Hk : FR_Turns r !! k = Some t) :
  T_FromID t = Nat.iter k PeerSlot_Other (opener (FR_Conversation r)).
Proof.
  destruct (Run_facts fuel w r w' l Hok Hrand Hfuel HR) as [_ []].
  eapply chain_alternates; try done. by apply legacy_opener.
Qed.

(** C10: deliveries.  The first envelope goes to the opener with its seed and
    briefing; envelope [i+1] goes to the transport of the peer that turn [i] was
    routed to, and carries the index [i+2], the speaker and the (stripped)
    response of turn [i]. *)
Theorem Run_deliveries (i : nat) (tr : Transport) (e : Envelope)
    (Hi : deliveries l !! i = Some (tr, e)) :
  exists slot, transportFor slot = Some tr
  /\ delivery_ok (FR_Conversation r) (FR_Turns r) i slot e.
Proof. destruct (Run_facts fuel w r w' l Hok Hrand Hfuel HR) as [_ []]. eauto. Qed.

(** C8: endings.  Either no call gave a reason to stop, and the run ends with
    [max_turns_hit] after exactly max(1, MaxTurns) turns, or exactly one call
    did - a failed start or subscription, a cancelled context, a failed
    delivery, a decisive control message - and the run has that status and
    fewer turns.  So a run whose overall timeout expires is [interrupted], not
    [timeout], one whose peer exits is an [error], not [peer_crashed], and a
    context that is done when a turn has been stored wins over the verdict on that
    turn, unlike the priorities and statuses that the documents list. *)
Theorem Run_ending :
  ending_ok (deps_Conversation d) (reasons l) (FR_Turns r) (C_Status (FR_Conversation r))
  /\ (FR_Turns r <> [] ->
      TurnsConsumed (FR_Conversation r) = Z.of_nat (length (FR_Turns r))).
Proof. destruct (Run_facts fuel w r w' l Hok Hrand Hfuel HR) as [_ []]. done. Qed.

(** Failures of the store, of the terminator's start and of the bus never stop a
    run: each becomes one warning of the result, in the order they happened, and
    nothing else does. *)
Theorem Run_warnings : FR_Warnings r = warnings_of l.
Proof. destruct (Run_facts fuel w r w' l Hok Hrand Hfuel HR) as [_ []]. done. Qed.

(** C11: the sentinel never leaks.  In a conversation with a sentinel terminator, no
    envelope after the first quotes a response in which the sentinel stands on a
    line of its own. *)
Theorem Run_no_sentinel_leak (i : nat) (tr : Transport) (e : Envelope)
    (Hkind : TS_Kind (C_Terminator (deps_Conversation d)) = "sentinel")
    (Hi : deliveries l !! S i = Some (tr, e)) :
  exists label content,
    E_Body e = renderBody (E_ConversationID e) (E_TurnIndex e) (E_MaxTurns e) label content
                 (E_MarkerToken e)
    /\ containsOnOwnLine content (NewSentinel (TS_Sentinel (C_Terminator (deps_Conversation d))))
       = false.
Proof.
  destruct (Run_facts fuel w r w' l Hok Hrand Hfuel HR) as [_ Hf].
  by apply (delivered_no_sentinel l r i tr e).
Qed.
End Run.

End BrokerRun.

(** ** A concrete environment

    Peers that answer from a script, the in-process bus, a clock, and a random
    source; store and terminator do nothing. *)
Module Sim.

Record world := {
  script : list gostring;
  bus : Bus;
  clock : Z;
}.

Definition tick (w : world) : world :=
  {| script := script w; bus := bus w; clock := clock w + 1 |}.

Definition with_bus (w : world) (b : Bus) : world :=
  {| script := script w; bus := b; clock := clock w |}.

Definition turn_of (e : Envelope) (response : gostring) (now : time) : ConversationTurn :=
  {| T_ConversationID := E_ConversationID e; T_Index := E_TurnIndex e; T_From := [];
     T_FromID := []; T_ToID := []; T_Reason := []; T_NextIDParsed := None;
     T_FallbackUsed := false; T_Envelope := E_Body e; T_Response := response;
     T_MarkerToken := E_MarkerToken e; T_StartedAt := now; T_EndedAt := now;
     T_CompletionConfidence := 1; T_ParserConfidence := 1; T_Warnings := [] |}.

Definition Deliver (t : gostring) (e : Envelope) (w : world) : result ConversationTurn * world :=
  match script w with
  | [] => (Err (ErrNew "script exhausted"), w)
  | x :: xs => (Ok (turn_of e x (clock w)), {| script := xs; bus := bus w; clock := clock w + 1 |})
  end.

#[global] Instance env : BrokerEnv world gostring := {|
  env_CreateConversation _ w := (None, w);
  env_UpdateConversation _ _ w := (None, w);
  env_AppendConversationTurn _ w := (None, w);
  env_Start _ _ _ _ w := (None, w);
  env_Deliver := Deliver;
  env_Stop _ _ w := (None, w);
  env_TerminatorStart _ w := (None, w);
  env_TerminatorStop w := (None, w);
  env_Publish t m w := let '(e, b) := Publish (bus w) t m in (e, with_bus w b);
  env_Subscribe t w := let '(r, b) := Subscribe (bus w) t in (r, with_bus w b);
  env_Cancel ch w := with_bus w (Cancel (bus w) ch);
  env_recv_within ch _ w :=
    let '(r, b) := recv (bus w) ch in
    (match r with RMsg m => Some m | _ => None end, with_bus w b);
  env_recv_ready ch w :=
    match bus_heap (bus w) !! ch with
    | Some s => (sub_ch s, with_bus w (set_heap (bus w) (alter (fun s => set_ch s []) ch (bus_heap (bus w)))))
    | None => ([], w)
    end;
  env_ctx_done w := (false, w);
  env_now w := (clock w, tick w);
  env_random n w := (Some (replicate n (chr (clock w mod 256))), tick w);
|}.

Definition conv : Conversation :=
  {| C_ID := "c1"; SchemaVersion := 0; CreatedAt := 0; C_EndedAt := None; C_Status := [];
     MaxTurns := 2; PerTurnTimeout := 0; OverallTimeout := 0;
     C_Terminator := {| TS_Kind := "sentinel"; TS_Sentinel := []; TS_JudgeURI := [] |};
     C_Peers := []; Seeds := ∅; OpenerID := []; C_PeerA := zeroPeerSpec;
     C_PeerB := zeroPeerSpec; SeedA := "hi"; SeedB := "hello"; Opener := PeerSlotB;
     TurnsConsumed := 0; C_ReplyStyle := [] |}.

Definition deps : BrokerDeps gostring :=
  {| deps_Conversation := conv; deps_PeerA := Some "A"; deps_PeerB := Some "B";
     deps_DrainWindow := 0; deps_Policy := None; deps_PeersByID := ∅; deps_PeerOrder := [] |}.

Definition start : world :=
  {| script := ["one
<<NEXT: a>>"; "two
<<END>>"]; bus := New []; clock := 1 |}.

Lemma deps_ok : deps_ok deps.
Proof. constructor; [done|done|by split; eexists|done]. Qed.

Lemma random_ok : random_ok (World := world) (Transport := gostring).
Proof. intros n w. by eexists. Qed.

Definition run : option FinalResult * (world * list (call gostring)) := Run deps 2 (start, []).
Definition res : FinalResult :=
  default {| FR_Conversation := conv; FR_Turns := []; FR_TerminatorNote := []; FR_Warnings := [] |}
    (fst run).

Lemma run_eq : Run deps 2 (start, []) = (Some res, (fst (snd run), snd (snd run))).
Proof. vm_compute. reflexivity. Qed.

Lemma fuel_ok : Z.max 1 (MaxTurns (deps_Conversation deps)) <= Z.of_nat 2.
Proof. done. Qed.
End Sim.

(** ** The properties at that environment *)

Abbreviation sim_log := (snd (snd Sim.run)).

Lemma Run_returns_witness :
  exists r s, Run Sim.deps 2 (Sim.start, []) = (Some r, s)
  /\ Z.of_nat (length (FR_Turns r)) <= 2.
Proof. exact (Run_returns Sim.deps 2 Sim.start Sim.deps_ok Sim.random_ok Sim.fuel_ok). Defined.

Lemma Run_refines_protocol_witness : run_log Sim.deps sim_log Sim.res.
Proof.
  exact (Run_refines_protocol Sim.deps 2 Sim.start Sim.res _ sim_log Sim.deps_ok Sim.random_ok
           Sim.fuel_ok Sim.run_eq).
Defined.

Lemma Run_turn_log_witness :
  Forall2 stamped (answers sim_log) (appended sim_log)
  /\ published_turns sim_log = appended sim_log
  /\ Forall2 (routed Sim.deps (FR_Conversation Sim.res)) (appended sim_log) (FR_Turns Sim.res).
Proof.
  exact (Run_turn_log Sim.deps 2 Sim.start Sim.res _ sim_log Sim.deps_ok Sim.random_ok
           Sim.fuel_ok Sim.run_eq).
Defined.

(** Both turns of the example are stored without a recipient. *)
Lemma Run_stores_unrouted_witness :
  (T_ToID <$> appended sim_log) = [[]; []] /\ (T_ToID <$> FR_Turns Sim.res) = ["a"; "b"]
  /\ Forall2 (fun raw t => T_ToID t = T_ToID raw /\ T_NextIDParsed t = T_NextIDParsed raw
      /\ T_FallbackUsed t = T_FallbackUsed raw
      /\ (T_Reason t = T_Reason raw \/ T_Reason t = TurnReasonOpener))
    (answers sim_log) (appended sim_log).
Proof.
  split_and!; [vm_compute; reflexivity|vm_compute; reflexivity|].
  exact (Run_stores_unrouted Sim.deps 2 Sim.start Sim.res _ sim_log Sim.deps_ok Sim.random_ok
           Sim.fuel_ok Sim.run_eq).
Defined.

Lemma Run_lifecycle_witness :
  started sim_log = stopped sim_log
  /\ updates sim_log = [("c1",
       {| CP_Status := Some (C_Status (FR_Conversation Sim.res));
          CP_EndedAt := C_EndedAt (FR_Conversation Sim.res);
          CP_TurnsConsumed := Some (TurnsConsumed (FR_Conversation Sim.res)) |})]
  /\ exists pre post, sim_log = pre ++ post /\ stopped pre = [] /\ deliveries post = [].
Proof.
  exact (Run_lifecycle Sim.deps 2 Sim.start Sim.res _ sim_log Sim.deps_ok Sim.random_ok
           Sim.fuel_ok Sim.run_eq).
Defined.

Lemma Run_speakers_witness :
  speaker_chain Sim.deps (FR_Conversation Sim.res) (FR_Turns Sim.res)
  /\ Forall (fun t => T_ToID t ∈ peerIDs Sim.deps) (FR_Turns Sim.res).
Proof.
  exact (Run_speakers Sim.deps 2 Sim.start Sim.res _ sim_log Sim.deps_ok Sim.random_ok
           Sim.fuel_ok Sim.run_eq).
Defined.

Lemma Run_alternates_witness :
  exists t, FR_Turns Sim.res !! 1%nat = Some t
  /\ T_FromID t = Nat.iter 1 PeerSlot_Other (opener Sim.deps (FR_Conversation Sim.res)).
Proof.
  eexists. split; [vm_compute; reflexivity|].
  apply (Run_alternates Sim.deps 2 Sim.start Sim.res _ sim_log Sim.deps_ok Sim.random_ok
           Sim.fuel_ok Sim.run_eq 1); vm_compute; reflexivity.
Defined.

Lemma Run_deliveries_witness :
  exists tr e slot, deliveries sim_log !! 1%nat = Some (tr, e)
  /\ transportFor Sim.deps slot = Some tr
  /\ delivery_ok Sim.deps (FR_Conversation Sim.res) (FR_Turns Sim.res) 1 slot e.
Proof.
  destruct (deliveries sim_log !! 1%nat) as [[tr e]|] eqn:E; [|vm_compute in E; discriminate].
  destruct (Run_deliveries Sim.deps 2 Sim.start Sim.res _ sim_log Sim.deps_ok Sim.random_ok
           Sim.fuel_ok Sim.run_eq 1 tr e E) as (slot & H1 & H2).
  by exists tr, e, slot.
Defined.

Lemma Run_ending_witness :
  ending_ok (deps_Conversation Sim.deps) (reasons sim_log) (FR_Turns Sim.res)
    (C_Status (FR_Conversation Sim.res))
  /\ (FR_Turns Sim.res <> [] ->
      TurnsConsumed (FR_Conversation Sim.res) = Z.of_nat (length (FR_Turns Sim.res))).
Proof.
  exact (Run_ending Sim.deps 2 Sim.start Sim.res _ sim_log Sim.deps_ok Sim.random_ok
           Sim.fuel_ok Sim.run_eq).
Defined.

Lemma Run_warnings_witness : FR_Warnings Sim.res = warnings_of sim_log.
Proof.
  exact (Run_warnings Sim.deps 2 Sim.start Sim.res _ sim_log Sim.deps_ok Sim.random_ok
           Sim.fuel_ok Sim.run_eq).
Defined.

Lemma Run_no_sentinel_leak_witness :
  exists tr e label content, deliveries sim_log !! 1%nat = Some (tr, e)
  /\ E_Body e = renderBody (E_ConversationID e) (E_TurnIndex e) (E_MaxTurns e) label content
                 (E_MarkerToken e)
  /\ containsOnOwnLine content (NewSentinel []) = false.
Proof.
  destruct (deliveries sim_log !! 1%nat) as [[tr e]|] eqn:E; [|vm_compute in E; discriminate].
  destruct (Run_no_sentinel_leak Sim.deps 2 Sim.start Sim.res _ sim_log Sim.deps_ok Sim.random_ok
           Sim.fuel_ok Sim.run_eq 0 tr e eq_refl E) as (label & content & H1 & H2).
  by exists tr, e, label, content.
Defined.
