(* ===== verification/Turns.v ===== *)
(** * The turns of a run

    The turns that a run stores and publishes: numbered from one, in order, each
    for the conversation of the run. *)
From S2P Require Import Prelude GoLib Model Policy Sentinel Envelope Bus Broker Protocol BrokerRun.

(** A concrete run that returned, split without evaluating it. *)
Lemma returned {A S : Type} (x : option A * S) (a : A) :
  bool_decide (is_Some (fst x)) = true -> x = (Some (default a (fst x)), snd x).
Proof. by destruct x as [[b|] s]. Qed.

Section Turns.
Context {Transport : Type}.
Variable d : BrokerDeps Transport.

(** ** The turns of a run are numbered *)

(** The peers answer for the envelope they were given. *)
Definition honest_call (c : call Transport) : Prop :=
  match c with
  | KDeliver _ e (Ok t) => T_ConversationID t = E_ConversationID e /\ T_Index t = E_TurnIndex e
  | _ => True
  end.
Definition honest (l : list (call Transport)) : Prop := Forall honest_call l.

Definition numbered (id : gostring) (ts : list ConversationTurn) : Prop :=
  forall i t, ts !! i = Some t -> T_Index t = Z.of_nat i + 1 /\ T_ConversationID t = id.

Lemma honest_app l k : honest (l ++ k) <-> honest l /\ honest k.
Proof. apply Forall_app. Qed.

Lemma numbered_snoc id ts t :
  numbered id ts -> T_Index t = Z.of_nat (length ts) + 1 -> T_ConversationID t = id -> numbered id (ts ++ [t]).
Proof.
  intros H Hi Hid i t' [Ht|[Hge Ht]]%lookup_app_Some; [by apply H|].
  apply list_lookup_singleton_Some in Ht as [Hz <-]. split; [|done]. rewrite Hi. f_equal. f_equal. lia.
Qed.

Lemma appended_app (l k : list (call Transport)) : appended (l ++ k) = appended l ++ appended k.
Proof. apply omap_app. Qed.

Definition creates (l : list (call Transport)) : list Conversation :=
  omap (fun c => match c with KCreate conv _ => Some conv | _ => None end) l.

Lemma taken_numbered conv turns active e seg t dec l :
  taken d conv turns active e seg t dec -> honest seg ->
  numbered (C_ID conv) (appended l) -> length (appended l) = length turns ->
  E_TurnIndex e = Z.of_nat (length turns) + 1 -> E_ConversationID e = C_ID conv ->
  numbered (C_ID conv) (appended (l ++ seg)) /\ length (appended (l ++ seg)) = S (length turns) /\ creates seg = [].
Proof.
  intros [tr raw e1 now e2 dec' Htr t0 Hdec] Hh Hn Hl Hi Hid.
  apply Forall_cons in Hh as [_ Hh]. apply Forall_cons in Hh as [[Hc Hx] _].
  rewrite appended_app, length_app. split_and!; [|cbn; lia|done].
  apply numbered_snoc; [done| |].
  - change (T_Index raw = Z.of_nat (length (appended l)) + 1). rewrite Hl. congruence.
  - change (T_ConversationID raw = C_ID conv). congruence.
Qed.

Lemma reaches_numbered conv ch l turns active e :
  reaches d conv ch l turns active e -> honest l ->
  numbered (C_ID conv) (appended l) /\ length (appended l) = length turns /\ creates l = []
  /\ E_TurnIndex e = Z.of_nat (length turns) + 1 /\ E_ConversationID e = C_ID conv.
Proof.
  induction 1 as [buf|l turns active e seg t dec ms buf Hr IH Ht Hcap Hctl]; intros Hh.
  - by split_and!.
  - apply honest_app in Hh as [Hh [Hs _]%honest_app]. destruct (IH Hh) as (H1 & H2 & H3 & H4 & H5).
    destruct (taken_numbered _ _ _ _ _ _ _ _ Ht Hs H1 H2 H4 H5) as (N1 & N2 & N3).
    rewrite app_assoc, (appended_app (l ++ seg)), app_nil_r, (length_app turns). unfold creates in *.
    rewrite !omap_app, H3, N3. split_and!; try done; cbn; lia.
Qed.

Lemma ends_numbered conv ch l turns active e seg turns2 status note :
  reaches d conv ch l turns active e -> ends d conv ch turns active e seg turns2 status note ->
  honest (l ++ seg) -> numbered (C_ID conv) (appended (l ++ seg)) /\ creates (l ++ seg) = [].
Proof.
  intros Hr He [Hh Hs]%honest_app. destruct (reaches_numbered _ _ _ _ _ _ Hr Hh) as (H1 & H2 & H3 & H4 & H5).
  unfold creates in *. rewrite omap_app, H3. cbn [app].
  assert (forall k t dec, taken d conv turns active e k t dec -> honest k ->
    numbered (C_ID conv) (appended (l ++ k)) /\ creates k = []) as Htk.
  { intros k t dec Ht Hk. by destruct (taken_numbered _ _ _ _ _ _ _ _ Ht Hk H1 H2 H4 H5) as (? & _ & ?). }
  destruct He as [|tr e' Htr Ee|tr e' Htr Ee|seg t dec Ht Hm|seg t dec Ht Hm|seg t dec ms status note Ht Hm Hctl];
    try (rewrite appended_app, app_nil_r; done).
  - by eapply Htk.
  - apply honest_app in Hs as [Hs _]. destruct (Htk _ _ _ Ht Hs) as [N1 N2]. unfold creates in N2.
    rewrite app_assoc, (appended_app (l ++ seg)), app_nil_r, omap_app, N2. done.
  - apply honest_app in Hs as [Hs _]. destruct (Htk _ _ _ Ht Hs) as [N1 N2]. unfold creates in N2.
    rewrite app_assoc, (appended_app (l ++ seg)), app_nil_r, omap_app, N2. done.
Qed.

Lemma creates_app (l k : list (call Transport)) : creates (l ++ k) = creates l ++ creates k.
Proof. apply omap_app. Qed.
Lemma creates_starts conv ps : creates (start_call d conv None <$> ps) = [].
Proof. by apply omap_starts. Qed.
Lemma creates_stops (ps : list (PeerID * Transport)) : creates (stop_calls ps) = [].
Proof. by apply omap_stops. Qed.
Lemma creates_cons c (l : list (call Transport)) : creates (c :: l) = creates [c] ++ creates l.
Proof. apply (creates_app [c]). Qed.

(** A run stores its conversation first, and once; its turns are numbered. *)
Lemma run_log_numbered l r :
  deps_ok d -> run_log d l r -> honest l ->
  numbered (C_ID (deps_Conversation d)) (appended l)
  /\ exists e, let conv := created_conv d (CreatedAt (FR_Conversation r)) in
     head l = Some (KCreate conv e) /\ creates l = [conv].
Proof.
  intros Hok Hl Hh. pose proof (rf_appended _ _ _ (run_log_facts d l r Hok Hl)) as Ha.
  destruct Hl as [created e0 starts note now e1 conv Hs log0 n
    |created e0 et e now e1 conv log0 n
    |created e0 et ch rounds turns active env1 seg turns2 status note now e1 conv Hr He log0 n].
  - cbn [FR_Turns final_result] in Ha. apply Forall2_nil_inv_r in Ha as ->. split; [done|].
    exists e0. split; [done|]. unfold log0. rewrite creates_app, creates_cons.
    destruct Hs as [ps p rest e Hp]. rewrite creates_app, creates_starts, (creates_cons (start_call d conv (Some e) p)), creates_stops. done.
  - cbn [FR_Turns final_result] in Ha. apply Forall2_nil_inv_r in Ha as ->. split; [done|].
    exists e0. split; [done|]. unfold log0.
    rewrite !creates_app, creates_cons, creates_app, creates_starts, creates_stops. done.
  - assert (honest (rounds ++ seg)) as Hh2.
    { unfold log0 in Hh. apply honest_app in Hh as [Hh _]. by apply honest_app in Hh as [_ Hh]. }
    destruct (ends_numbered _ _ _ _ _ _ _ _ _ _ Hr He Hh2) as [N1 N2]. split.
    + unfold log0. rewrite !appended_app. fold (prelude d conv e0 et (Ok ch)).
      destruct (prelude_facts d conv e0 et (Ok ch)) as (Q1 & _ & _).
      assert (appended (prelude d conv e0 et (Ok ch)) = []) as -> by (apply omap_quiet; [done|by intros []]).
      assert (appended (stop_calls (peers d)) = []) as -> by by apply omap_stops.
      rewrite <- appended_app. cbn [app appended omap list_omap]. rewrite app_nil_r. exact N1.
    + exists e0. split; [done|]. unfold log0.
      rewrite !creates_app, creates_cons, creates_app, creates_starts, creates_stops.
      rewrite creates_app in N2. cbn [app]. rewrite app_nil_r. rewrite N2. done.
Qed.

(** ** What the calls of a run are about

    Peers are started, envelopes addressed and records updated for the
    conversation of the run, and a publication is that of a turn. *)
Definition call_ok (cid : gostring) (c : call Transport) : Prop :=
  match c with
  | KStart _ _ id _ _ | KUpdate id _ _ => id = cid
  | KDeliver _ e _ => E_ConversationID e = cid
  | KPublish topic m _ => exists t now, topic = TopicTurn (T_ConversationID t) /\ m = turn_message t now
  | _ => True
  end.

Lemma taken_calls cid conv turns active e seg t dec :
  taken d conv turns active e seg t dec -> E_ConversationID e = cid -> Forall (call_ok cid) seg.
Proof. intros [tr raw e1 now e2 dec' Htr t0 _] He. repeat (constructor; [done|]). constructor; [by exists t0, now|done]. Qed.

Lemma reaches_calls conv ch l turns active e :
  reaches d conv ch l turns active e ->
  Forall (call_ok (C_ID conv)) l /\ E_ConversationID e = C_ID conv.
Proof.
  induction 1 as [|l turns active e seg t dec ms buf Hr [IH He] Ht Hcap Hctl]; [by split|].
  split; [|done]. apply Forall_app. split; [done|]. apply Forall_app.
  split; [by eapply taken_calls|by repeat constructor].
Qed.

Lemma ends_calls cid conv ch turns active e seg turns2 status note :
  ends d conv ch turns active e seg turns2 status note -> E_ConversationID e = cid -> Forall (call_ok cid) seg.
Proof.
  intros [] He; rewrite ?Forall_app; repeat split; first [by eapply taken_calls|by repeat constructor].
Qed.

Lemma starts_calls conv ps : Forall (call_ok (C_ID conv)) (start_call d conv None <$> ps).
Proof. apply Forall_fmap, Forall_true. done. Qed.

Lemma stops_calls cid (ps : list (PeerID * Transport)) : Forall (call_ok cid) (stop_calls ps).
Proof. apply Forall_fmap, Forall_true. done. Qed.

Lemma run_log_calls l r : run_log d l r -> Forall (call_ok (C_ID (deps_Conversation d))) l.
Proof.
  intros [created e0 starts note now e1 conv [ps p rest e Hp] log0 n
    |created e0 et e now e1 conv log0 n
    |created e0 et ch rounds turns active env1 seg turns2 status note now e1 conv Hr He log0 n];
    change (C_ID (deps_Conversation d)) with (C_ID conv);
    unfold log0; repeat (rewrite Forall_app || rewrite Forall_cons); split_and?; try done;
    try apply starts_calls; try apply stops_calls.
  - by eapply reaches_calls.
  - eapply ends_calls; [exact He|]. by eapply reaches_calls.
Qed.

(** The messages of a run. *)
Definition sent (l : list (call Transport)) : list (gostring * BusMessage) :=
  omap (fun c => match c with KPublish topic m _ => Some (topic, m) | _ => None end) l.

Definition carries (p : gostring * BusMessage) (t : ConversationTurn) : Prop :=
  exists now, p = (TopicTurn (T_ConversationID t), turn_message t now).

Lemma sent_carries cid l : Forall (call_ok cid) l -> Forall2 carries (sent l) (published_turns l).
Proof.
  unfold sent, published_turns. induction 1 as [|c l Hc Hl IH]; [done|].
  destruct c; try exact IH. destruct Hc as (t & now & -> & ->). cbn. constructor; [by exists now|exact IH].
Qed.

Lemma run_log_sent l r : deps_ok d -> run_log d l r -> Forall2 carries (sent l) (appended l).
Proof.
  intros Hok Hl. rewrite <- (rf_published _ _ _ (run_log_facts d l r Hok Hl)).
  by eapply sent_carries, run_log_calls.
Qed.
End Turns.
