(* ===== verification/SentinelLoop.v ===== *)
(** * The sentinel terminator as a bus participant ([internal/terminator/sentinel.go])

    [Start], [Stop] and the goroutine [loop], over the in-process bus.  One
    [loop_step] is one iteration of the goroutine's loop; the scheduler is the
    interleaving of these steps with calls of other goroutines on the bus. *)
From S2P Require Import Prelude GoLib Model Sentinel Bus.

Record terminator := {
  tm_token : gostring;
  (** the subscription that [s.cancel] releases; [None] is the nil func *)
  tm_cancel : option nat;
}.

Definition new_terminator (token : gostring) : terminator :=
  {| tm_token := NewSentinel token; tm_cancel := None |}.

(** [Start]: a second call changes nothing. *)
Definition Start (s : terminator) (conv : Conversation) (b : Bus)
    : option goerr * (terminator * Bus) :=
  match tm_cancel s with
  | Some _ => (None, (s, b))
  | None =>
      match Subscribe b (TopicTurn (C_ID conv)) with
      | (Err e, b) => (Some e, (s, b))
      | (Ok id, b) => (None, ({| tm_token := tm_token s; tm_cancel := Some id |}, b))
      end
  end.

(** [Stop] cancels the subscription and waits for the goroutine to return. *)
Definition Stop (s : terminator) (b : Bus) : terminator * Bus :=
  match tm_cancel s with
  | None => (s, b)
  | Some id => ({| tm_token := tm_token s; tm_cancel := None |}, Cancel b id)
  end.

(** The control message of a verdict. *)
Definition verdict (conversationID : gostring) (now : time) : BusMessage :=
  {| BM_ConversationID := conversationID; BM_Topic := TopicControl conversationID;
     BM_Kind := KindControl;
     BM_Payload := PControl
       {| CM_ConversationID := conversationID; CM_Kind := ControlVerdict; CM_Slot := [];
          CM_Reason := []; CM_Status := []; CM_Detail := [];
          CM_Verdict := Some {| V_ConversationID := conversationID;
                                V_Decision := DecisionTerminate;
                                V_Reason := "sentinel token observed";
                                V_Status := ConvCompletedSentinel |} |};
     BM_Timestamp := now |}.

(** Whether a message from the turn topic carries the sentinel. *)
Definition observed (token : gostring) (m : BusMessage) : bool :=
  match Unmarshal_Turn (BM_Payload m) with
  | None => false
  | Some t => containsOnOwnLine (T_Response t) token
  end.

(** One iteration of [loop] on the subscription [sub]: [None] when it blocks,
    [true] when the goroutine returns. *)
Definition loop_step (token conversationID : gostring) (ctx_done : bool) (sub : nat)
    (now : time) (b : Bus) : option (bool * Bus) :=
  if ctx_done then Some (true, b)
  else match recv b sub with
       | (RBlocked, _) => None
       | (RClosed, b) => Some (true, b)
       | (RMsg m, b) =>
           if observed token m
           then Some (false, snd (Publish b (TopicControl conversationID) (verdict conversationID now)))
           else Some (false, b)
       end.

(** The goroutine scheduled until it blocks or returns; it takes one message
    per step, so the length of its channel is fuel enough. *)
Fixpoint run_loop (fuel : nat) (token conversationID : gostring) (sub : nat) (now : time)
    (b : Bus) : Bus :=
  match fuel with
  | O => b
  | S fuel =>
      match loop_step token conversationID false sub now b with
      | Some (false, b) => run_loop fuel token conversationID sub now b
      | Some (true, b) => b
      | None => b
      end
  end.

(** ** Lemmas *)

Lemma topics_differ id : TopicTurn id <> TopicControl id.
Proof. unfold TopicTurn, TopicControl. intros H. apply app_inv_head, app_inv_head in H. done. Qed.

Lemma recv_msg b id s m q :
  bus_heap b !! id = Some s -> sub_ch s = m :: q -> recv b id = (RMsg m, exec b (OpRecv id)).
Proof. unfold exec, recv. intros -> ->. done. Qed.

(** What one call does to a channel, from the bus's contract. *)
Lemma exec_channel b op id s :
  bus_ok b -> bus_heap b !! id = Some s ->
  exists s', bus_heap (exec b op) !! id = Some s' /\ sub_topic s' = sub_topic s
  /\ sub_cap s' = sub_cap s
  /\ sub_ch s' = q_ch (q_step (view s) (project (sub_topic s) id op))
  /\ negb (sub_closed s') = q_open (q_step (view s) (project (sub_topic s) id op)).
Proof.
  intros Hok Hs. destruct (exec_lookup b op id s Hok Hs) as (s' & Hs' & Ht & Hv).
  exists s'. split_and!; try done.
  - change (q_cap (view s') = sub_cap s). by rewrite Hv, q_step_cap.
  - by rewrite <- Hv.
  - by rewrite <- Hv.
Qed.

Lemma publish_other b t m id s :
  bus_ok b -> bus_heap b !! id = Some s -> sub_topic s <> t ->
  bus_heap (exec b (OpPublish t m)) !! id = Some s.
Proof. intros Hok Hs Ht. rewrite (Publish_lookup _ _ _ _ _ Hok Hs). by rewrite bool_decide_false by done. Qed.

Lemma publish_room b t m id s :
  bus_ok b -> bus_heap b !! id = Some s -> sub_topic s = t -> sub_closed s = false ->
  (length (sub_ch s) < sub_cap s)%nat ->
  bus_heap (exec b (OpPublish t m)) !! id = Some (set_ch s (sub_ch s ++ [m])).
Proof.
  intros Hok Hs <- Hc Hl. rewrite (Publish_lookup _ _ _ _ _ Hok Hs), bool_decide_true by done.
  unfold deliver. by rewrite Hc, (proj2 (Nat.ltb_lt _ _) Hl).
Qed.

(** A receive on [id] leaves every other subscription alone. *)
Lemma recv_other b id id' s :
  bus_heap b !! id' = Some s -> id' <> id -> bus_heap (exec b (OpRecv id)) !! id' = Some s.
Proof.
  intros Hs Hne. cbn [exec]. unfold recv. destruct (bus_heap b !! id) as [s2|]; [|done].
  destruct (sub_ch s2); [done|]. cbn. by rewrite list_lookup_alter_ne.
Qed.

Lemma recv_same b id s :
  bus_heap b !! id = Some s -> sub_ch s <> [] ->
  bus_heap (exec b (OpRecv id)) !! id = Some (set_ch s (drop 1 (sub_ch s))).
Proof.
  intros Hs Hne. cbn [exec]. unfold recv. rewrite Hs. destruct (sub_ch s) as [|m q] eqn:E; [done|].
  cbn [snd set_heap bus_heap]. rewrite list_lookup_alter_eq, Hs. cbn. by rewrite drop_0.
Qed.

Definition hits (token : gostring) (ms : list BusMessage) : nat :=
  length (filter (fun m => observed token m = true) ms).

Lemma hits_cons token m ms :
  hits token (m :: ms) = ((if observed token m then 1 else 0) + hits token ms)%nat.
Proof.
  unfold hits. destruct (observed token m) eqn:E.
  - by rewrite filter_cons_True.
  - rewrite filter_cons_False by congruence. done.
Qed.

Lemma run_loop_spec fuel token id sub ctl now b s c :
  bus_ok b ->
  bus_heap b !! sub = Some s -> sub_topic s = TopicTurn id -> sub_closed s = false ->
  bus_heap b !! ctl = Some c -> sub_topic c = TopicControl id -> sub_closed c = false ->
  (length (sub_ch s) <= fuel)%nat ->
  (length (sub_ch c) + hits token (sub_ch s) <= sub_cap c)%nat ->
  bus_heap (run_loop fuel token id sub now b) !! sub = Some (set_ch s [])
  /\ bus_heap (run_loop fuel token id sub now b) !! ctl =
       Some (set_ch c (sub_ch c ++ replicate (hits token (sub_ch s)) (verdict id now))).
Proof.
  assert (forall c : subscription, set_ch c (sub_ch c) = c) as Hset by by intros [].
  revert b s c. induction fuel as [|fuel IH]; intros b s c Hok Hs Hts Hos Hc Htc Hoc Hf Hcap.
  - destruct (sub_ch s) eqn:E; [|cbn in Hf; lia]. cbn [run_loop]. unfold hits. cbn.
    rewrite app_nil_r, Hset. split; [|done]. rewrite <- E, Hset. done.
  - destruct (sub_ch s) as [|m q] eqn:E.
    + cbn [run_loop]. unfold loop_step, recv. rewrite Hs, E, Hos. unfold hits. cbn.
      rewrite app_nil_r, Hset. split; [|done]. rewrite <- E, Hset. done.
    + cbn [run_loop]. unfold loop_step. rewrite (recv_msg _ _ _ _ _ Hs E).
      assert (ctl <> sub) as Hne.
      { intros ->. rewrite Hs in Hc. injection Hc as ->. rewrite Hts in Htc.
        by apply topics_differ in Htc. }
      set (b1 := exec b (OpRecv sub)).
      assert (bus_ok b1) as Hok1 by by apply exec_ok.
      assert (bus_heap b1 !! sub = Some (set_ch s q)) as Hs1
        by (unfold b1; rewrite (recv_same _ _ _ Hs) by congruence; rewrite E; cbn; by rewrite drop_0).
      assert (bus_heap b1 !! ctl = Some c) as Hc1 by by apply recv_other.
      rewrite hits_cons in Hcap |- *. cbn [length] in Hf.
      revert Hcap. destruct (observed token m); intros Hcap.
      * set (b2 := snd (Publish b1 (TopicControl id) (verdict id now))).
        assert (bus_heap b2 !! sub = Some (set_ch s q)) as Hs2.
        { apply (publish_other b1 _ _ _ _ Hok1 Hs1). cbn. rewrite Hts. apply topics_differ. }
        assert (bus_heap b2 !! ctl = Some (set_ch c (sub_ch c ++ [verdict id now]))) as Hc2
          by (apply (publish_room b1 _ _ _ _ Hok1 Hc1); try done; lia).
        destruct (IH b2 _ _ (exec_ok b1 (OpPublish _ _) Hok1) Hs2 Hts Hos Hc2 Htc Hoc) as [H1 H2].
        { cbn. lia. }
        { cbn [set_ch sub_ch sub_cap]. rewrite length_app. cbn [length]. lia. }
        split; [exact H1|]. rewrite H2. cbn. by rewrite <- app_assoc.
      * apply (IH b1 (set_ch s q) c); try done; cbn [set_ch sub_ch sub_cap]; lia.
Qed.

Lemma run_loop_ok fuel token id sub now b : bus_ok b -> bus_ok (run_loop fuel token id sub now b).
Proof.
  revert b. induction fuel as [|fuel IH]; intros b Hok; [done|]. cbn [run_loop]. unfold loop_step.
  destruct (recv b sub) as [r b1] eqn:E.
  assert (bus_ok b1) as Hok1 by (change b1 with (snd (r, b1)); rewrite <- E; by apply (exec_ok b (OpRecv sub))).
  destruct r as [m| |]; [|done..].
  destruct (observed token m); apply IH; [|done].
  by apply (exec_ok b1 (OpPublish (TopicControl id) (verdict id now))).
Qed.

(** ** Properties *)

(** C20: the sentinel's verdicts.  Scheduled until it blocks, the goroutine takes
    every turn message that was waiting, and publishes one terminate verdict,
    with status [completed_sentinel], for each of them whose response has the
    token on a line of its own - and no other message - provided the control
    channel has room for them. *)
Theorem run_loop_verdicts (token id : gostring) (sub ctl : nat) (now : time) (b : Bus)
    (s c : subscription)
    (Hok : bus_ok b)
    (Hs : bus_heap b !! sub = Some s) (Hts : sub_topic s = TopicTurn id)
    (Hos : sub_closed s = false)
    (Hc : bus_heap b !! ctl = Some c) (Htc : sub_topic c = TopicControl id)
    (Hoc : sub_closed c = false)
    (Hcap : (length (sub_ch c) + hits token (sub_ch s) <= sub_cap c)%nat) :
  let b' := run_loop (length (sub_ch s)) token id sub now b in
  bus_heap b' !! sub = Some (set_ch s [])
  /\ bus_heap b' !! ctl =
      Some (set_ch c (sub_ch c ++ replicate (hits token (sub_ch s)) (verdict id now))).
Proof. by apply run_loop_spec. Qed.

Definition demo_turn (response : gostring) : BusMessage :=
  {| BM_ConversationID := "c1"; BM_Topic := TopicTurn "c1"; BM_Kind := KindTurn;
     BM_Payload := PTurn
       {| T_ConversationID := "c1"; T_Index := 1; T_From := "a"; T_FromID := "a"; T_ToID := [];
          T_Reason := []; T_NextIDParsed := None; T_FallbackUsed := false; T_Envelope := [];
          T_Response := response; T_MarkerToken := []; T_StartedAt := 0; T_EndedAt := 0;
          T_CompletionConfidence := 1; T_ParserConfidence := 1; T_Warnings := [] |};
     BM_Timestamp := 0 |}.

Definition demo_bus : Bus :=
  exec_all (New []) [OpSubscribe (TopicTurn "c1"); OpSubscribe (TopicControl "c1");
    OpPublish (TopicTurn "c1") (demo_turn "I would say <<END>> but no");
    OpPublish (TopicTurn "c1") (demo_turn "done
  <<END>>
")].

Lemma run_loop_verdicts_witness :
  exists s c, bus_heap demo_bus !! 0%nat = Some s /\ bus_heap demo_bus !! 1%nat = Some c
  /\ hits "<<END>>" (sub_ch s) = 1%nat
  /\ bus_heap (run_loop (length (sub_ch s)) "<<END>>" "c1" 0 5 demo_bus) !! 1%nat
     = Some (set_ch c (sub_ch c ++ [verdict "c1" 5])).
Proof.
  eexists _, _. split; [vm_compute; reflexivity|]. split; [vm_compute; reflexivity|].
  split; [vm_compute; reflexivity|].
  match goal with |- bus_heap (run_loop (length (sub_ch ?s)) _ _ _ _ _) !! _ = Some (set_ch ?c _) =>
    destruct (run_loop_verdicts "<<END>>" "c1" 0 1 5 demo_bus s c) as [_ H] end;
    [|vm_compute; reflexivity|reflexivity|reflexivity|vm_compute; reflexivity|reflexivity
     |reflexivity|vm_compute; repeat constructor|exact H].
  apply exec_all_ok, (New_ok []). by apply Forall_nil.
Defined.

(** The terminator's lifecycle.  [Start] on an open bus subscribes once, a
    second [Start] changes nothing, and [Stop] gives the subscription back: the
    bus lists the subscriptions it listed before, the goroutine's next step
    returns once the channel is drained, and a second [Stop] changes nothing. *)
Theorem Start_Stop (token : gostring) (conv : Conversation) (b : Bus)
    (Hok : bus_ok b) (Hopen : bus_closed b = false) :
  let '(e, (s1, b1)) := Start (new_terminator token) conv b in
  let '(s2, b2) := Stop s1 b1 in
  e = None /\ tm_cancel s1 = Some (length (bus_heap b))
  /\ Start s1 conv b1 = (None, (s1, b1))
  /\ Stop s2 b2 = (s2, b2)
  /\ (forall t, subs_of b2 t = subs_of b t)
  /\ forall now, loop_step (tm_token s2) (C_ID conv) false (length (bus_heap b)) now b2 = Some (true, b2).
Proof.
  unfold Start, new_terminator. cbn [tm_cancel].
  destruct (Subscribe b (TopicTurn (C_ID conv))) as [r b1] eqn:E.
  pose proof E as E0. unfold Subscribe in E. rewrite Hopen in E. injection E as <- Hb1.
  cbn [Stop tm_cancel]. split_and!; try done.
  - intros t. change (Cancel b1 (length (bus_heap b))) with (exec b1 (OpCancel (length (bus_heap b)))).
    rewrite exec_subs_of.
    assert (b1 = exec b (OpSubscribe (TopicTurn (C_ID conv)))) as Hb1' by (cbn [exec]; by rewrite E0).
    assert (bus_heap b1 !! length (bus_heap b) = Some (new_sub b (TopicTurn (C_ID conv)))) as Hl.
    { rewrite <- Hb1. cbn [bus_heap]. by rewrite lookup_app_r, Nat.sub_diag by done. }
    rewrite Hl. cbn [new_sub sub_topic].
    assert (forall t, length (bus_heap b) ∉ subs_of b t) as Hfresh.
    { intros t' Hin. destruct (bok_listed _ Hok _ _ Hin) as (s & Hs & _).
      apply lookup_lt_Some in Hs. lia. }
    rewrite Hb1', exec_subs_of, Hopen. cbn [negb andb].
    destruct (decide (t = TopicTurn (C_ID conv))) as [->|Et].
    + rewrite (bool_decide_true (TopicTurn (C_ID conv) = _)) by done.
      rewrite bool_decide_true by (split; [done|]; apply elem_of_app; right; by left).
      clear Hb1' Hl Hb1 E0. specialize (Hfresh (TopicTurn (C_ID conv))).
      revert Hfresh. induction (subs_of b (TopicTurn (C_ID conv))) as [|i ids IH]; intros Hfresh; cbn.
      * by rewrite Nat.eqb_refl.
      * apply not_elem_of_cons in Hfresh as [Hi Hids].
        rewrite (proj2 (Nat.eqb_neq i (length (bus_heap b)))) by congruence. f_equal. by apply IH.
    + rewrite !bool_decide_false by naive_solver. by rewrite app_nil_r.
  - intros now. unfold loop_step, recv. rewrite <- Hb1. unfold Cancel. cbn [bus_heap].
    rewrite lookup_app_r, Nat.sub_diag by done. cbn [lookup list_lookup].
    case_bool_decide; cbn [set_heap set_subs bus_heap];
      rewrite list_lookup_alter_eq, lookup_app_r, Nat.sub_diag by done; done.
Qed.

Lemma Start_Stop_witness :
  let '(e, (s1, b1)) := Start (new_terminator []) {| C_ID := "c1"; SchemaVersion := 0;
     CreatedAt := 0; C_EndedAt := None; C_Status := []; MaxTurns := 2; PerTurnTimeout := 0;
     OverallTimeout := 0; C_Terminator := {| TS_Kind := []; TS_Sentinel := []; TS_JudgeURI := [] |};
     C_Peers := []; Seeds := ∅; OpenerID := []; C_PeerA := zeroPeerSpec;
     C_PeerB := zeroPeerSpec; SeedA := []; SeedB := []; Opener := PeerSlotB;
     TurnsConsumed := 0; C_ReplyStyle := [] |} (New []) in
  let '(s2, b2) := Stop s1 b1 in forall t, subs_of b2 t = subs_of (New []) t.
Proof.
  exact (proj1 (proj2 (proj2 (proj2 (proj2 (Start_Stop [] _ (New []) (New_ok [] ltac:(by apply Forall_nil))
    eq_refl)))))).
Defined.
