(* ===== verification/Stream.v ===== *)
(** * The turns that [converse] streams ([streamTurnsTo])

    The goroutine that writes the turns of a conversation to stdout, beside the
    goroutines that use the bus - the broker and the terminator.  A schedule is
    the sequence of their atomic steps: calls of the others on the bus, and steps
    of the streamer.  When the broker has returned, the command closes the bus
    and waits for the streamer. *)
From S2P Require Import Prelude GoLib Model Bus Broker Protocol BrokerRun Turns SentinelLoop.

(** Before its [Subscribe], in its loop, returned. *)
Inductive stream_state :=
| SInit
| SOpen (sub : nat)
| SDone.

Record streamer := {
  sm_state : stream_state;
  (** the values given to [Encode] *)
  sm_out : list ConversationTurn;
}.

Definition new_streamer : streamer := {| sm_state := SInit; sm_out := [] |}.

(** The line that a message gives. *)
Definition stream_line (m : BusMessage) : list ConversationTurn :=
  match Unmarshal_Turn (BM_Payload m) with Some t => [t] | None => [] end.

Section Stream.
(** The conversation. *)
Variable id : gostring.

Definition conc : Type := streamer * Bus.

(** One atomic step of [streamTurnsTo]: [None] when it blocks or has returned. *)
Definition stream_step (x : conc) : option conc :=
  let '(st, b) := x in
  match sm_state st with
  | SInit =>
      let '(r, b) := Subscribe b (TopicTurn id) in
      Some (match r with
            | Ok sub => {| sm_state := SOpen sub; sm_out := sm_out st |}
            | Err _ => {| sm_state := SDone; sm_out := sm_out st |}
            end, b)
  | SOpen sub =>
      match recv b sub with
      | (RMsg m, b) => Some ({| sm_state := SOpen sub; sm_out := sm_out st ++ stream_line m |}, b)
      | (RClosed, b) => Some ({| sm_state := SDone; sm_out := sm_out st |}, Cancel b sub)
      | (RBlocked, _) => None
      end
  | SDone => None
  end.

Inductive event :=
| EvBus (op : bus_op)
| EvStream.

Definition conc_step (x : conc) (ev : event) : conc :=
  match ev with
  | EvBus op => (fst x, exec (snd x) op)
  | EvStream => default x (stream_step x)
  end.

Definition conc_run (x : conc) (evs : list event) : conc := foldl conc_step x evs.

(** The others have no access to the subscription of the streamer, and the bus
    is not closed before the broker has returned. *)
Definition foreign (x : conc) (ev : event) : bool :=
  match ev with
  | EvBus OpClose => false
  | EvBus (OpRecv i | OpCancel i) =>
      match sm_state (fst x) with SOpen sub => negb (i =? sub)%nat | _ => true end
  | _ => true
  end.

Fixpoint foreign_all (x : conc) (evs : list event) : bool :=
  match evs with
  | [] => true
  | ev :: evs => foreign x ev && foreign_all (conc_step x ev) evs
  end.

(** A turn is published while the buffer of the streamer is full. *)
Definition overruns (x : conc) (ev : event) : bool :=
  match ev, sm_state (fst x) with
  | EvBus (OpPublish t _), SOpen sub =>
      bool_decide (t = TopicTurn id)
      && match bus_heap (snd x) !! sub with
         | Some s => negb (length (sub_ch s) <? sub_cap s)%nat
         | None => false
         end
  | _, _ => false
  end.

Fixpoint overrun (x : conc) (evs : list event) : bool :=
  match evs with
  | [] => false
  | ev :: evs => overruns x ev || overrun (conc_step x ev) evs
  end.

Definition ops_of (evs : list event) : list bus_op :=
  omap (fun ev => match ev with EvBus op => Some op | EvStream => None end) evs.

(** The streamer scheduled until it returns or blocks. *)
Fixpoint stream_all (fuel : nat) (x : conc) : conc :=
  match fuel with
  | O => x
  | S fuel => match stream_step x with Some x => stream_all fuel x | None => x end
  end.

(** After the broker: [b.Close()], then [streamWg.Wait()].  The streamer takes a
    step for each message in its buffer, and one to return. *)
Definition close_and_wait (x : conc) : conc :=
  let '(st, b) := x in
  let b := snd (Close b) in
  let waiting := match sm_state st with
                 | SOpen sub => match bus_heap b !! sub with Some s => length (sub_ch s) | None => 0%nat end
                 | _ => 0%nat
                 end in
  stream_all (S waiting) (st, b).

(** ** Lemmas *)

(** The streamer has received [got]; what waits in its buffer is [s]. *)
Record streaming (x : conc) (sub : nat) (s : subscription) (got : list BusMessage) : Prop := {
  sg_state : sm_state (fst x) = SOpen sub;
  sg_out : sm_out (fst x) = got ≫= stream_line;
  sg_ok : bus_ok (snd x);
  sg_sub : bus_heap (snd x) !! sub = Some s;
  sg_topic : sub_topic s = TopicTurn id;
  sg_open : sub_closed s = false;
}.

Definition turn_messages (evs : list event) : list BusMessage := published (TopicTurn id) (ops_of evs).

Lemma turn_messages_cons ev evs :
  turn_messages (ev :: evs) = turn_messages [ev] ++ turn_messages evs.
Proof. unfold turn_messages, ops_of. destruct ev as [op|]; [|done]. cbn. by rewrite app_nil_r. Qed.

Lemma turn_messages_publish t m :
  turn_messages [EvBus (OpPublish t m)] = if bool_decide (t = TopicTurn id) then [m] else [].
Proof. unfold turn_messages, published. cbn [ops_of omap list_omap mbind list_bind]. apply app_nil_r. Qed.

(** A call on the bus that does not close the streamer's subscription. *)
Lemma streaming_bus x op sub s got :
  streaming x sub s got -> project (sub_topic s) sub op <> QClose ->
  exists s', streaming (conc_step x (EvBus op)) sub s' got /\ sub_cap s' = sub_cap s
  /\ sub_ch s' = q_ch (q_step (view s) (project (sub_topic s) sub op)).
Proof.
  intros [Hst Hout Hok Hs Ht Ho] Hq.
  destruct (exec_channel (snd x) op sub s Hok Hs) as (s' & Hs' & Ht' & Hcap & Hch & Hop).
  exists s'. split; [|done]. rewrite q_step_open in Hop by (try done; cbn; by rewrite Ho).
  apply negb_true_iff in Hop. split; cbn [conc_step fst snd]; try done; [by apply exec_ok|congruence].
Qed.

(** A step: a message is published and accepted, or received, or neither. *)
Lemma streaming_step x ev sub s got :
  streaming x sub s got -> foreign x ev = true ->
  exists s' got', streaming (conc_step x ev) sub s' got'
  /\ sub_cap s' = sub_cap s /\ (length got <= length got')%nat
  /\ sublist (got' ++ sub_ch s') (got ++ sub_ch s ++ turn_messages [ev])
  /\ (overruns x ev = false -> got' ++ sub_ch s' = got ++ sub_ch s ++ turn_messages [ev]).
Proof.
  intros Hg Hf. pose proof Hg as [Hst Hout Hok Hs Ht Ho]. destruct ev as [op|].
  - unfold foreign in Hf. rewrite Hst in Hf.
    assert (project (sub_topic s) sub op <> QClose) as Hq.
    { destruct op as [t m|t|i| |i]; cbn [project]; try done; [by case_bool_decide| |by destruct (_ =? _)%nat].
      apply negb_true_iff in Hf. by rewrite Hf. }
    destruct (streaming_bus x op sub s got Hg Hq) as (s' & Hg' & Hcap & Hch). exists s', got. do 3 (split; [done|]).
    destruct op as [t m|t|i| |i]; try done; cbn [project] in Hch.
    + rewrite turn_messages_publish. unfold overruns. rewrite Hst, Hs, <- Ht.
      case_bool_decide; cbn [q_step andb] in *; [|by rewrite Hch, app_nil_r].
      cbn [view q_open q_ch q_cap] in Hch. rewrite Ho in Hch. cbn [negb andb] in Hch.
      destruct (_ <? _)%nat; cbn [q_ch] in Hch; rewrite Hch; [done|].
      split; [|done]. apply sublist_app; [done|]. by apply sublist_inserts_r.
    + cbn [q_step] in Hch. rewrite Hch. change (turn_messages _) with (@nil BusMessage). by rewrite app_nil_r.
    + apply negb_true_iff in Hf. rewrite Hf in Hch. cbn [q_step] in Hch. rewrite Hch.
      change (turn_messages _) with (@nil BusMessage). by rewrite app_nil_r.
    + apply negb_true_iff in Hf. rewrite Hf in Hch. cbn [q_step] in Hch. rewrite Hch.
      change (turn_messages _) with (@nil BusMessage). by rewrite app_nil_r.
  - change (turn_messages [EvStream]) with (@nil BusMessage). rewrite app_nil_r.
    destruct x as [st b]. cbn [fst snd conc_step stream_step] in *. rewrite Hst.
    destruct (sub_ch s) as [|m q] eqn:Eq.
    + unfold recv. rewrite Hs, Eq, Ho. exists s, got. cbn [default]. rewrite Eq. split; [by split|]. done.
    + rewrite (recv_msg b sub s m q Hs Eq). cbn [default].
      exists (set_ch s q), (got ++ [m]). split.
      * split; cbn [fst snd sm_state sm_out set_ch sub_topic sub_closed]; try done.
        -- by rewrite Hout, bind_app, bind_singleton.
        -- by apply exec_ok.
        -- etrans; [apply (recv_same b sub s Hs); by rewrite Eq|]. rewrite Eq. cbn [drop]. by rewrite drop_0.
      * cbn [set_ch sub_ch sub_cap]. rewrite length_app, <- app_assoc. split; [done|]. split; [cbn; lia|done].
Qed.

Lemma streaming_run x evs sub s got :
  streaming x sub s got -> foreign_all x evs = true ->
  exists s' got', streaming (conc_run x evs) sub s' got'
  /\ sublist (got' ++ sub_ch s') (got ++ sub_ch s ++ turn_messages evs)
  /\ (overrun x evs = false -> got' ++ sub_ch s' = got ++ sub_ch s ++ turn_messages evs).
Proof.
  revert x s got. induction evs as [|ev evs IH]; intros x s got Hg Hf.
  { exists s, got. change (turn_messages []) with (@nil BusMessage). rewrite app_nil_r. done. }
  cbn [foreign_all overrun] in *. apply andb_true_iff in Hf as [Hf1 Hf2].
  destruct (streaming_step x ev sub s got Hg Hf1) as (s1 & got1 & Hg1 & _ & _ & Hs1 & He1).
  destruct (IH _ _ _ Hg1 Hf2) as (s2 & got2 & Hg2 & Hs2 & He2).
  exists s2, got2. split; [done|]. rewrite (turn_messages_cons ev evs).
  assert (forall a c : list BusMessage, got ++ sub_ch s ++ a ++ c = (got ++ sub_ch s ++ a) ++ c) as Hassoc
    by (intros; by rewrite <- !app_assoc).
  rewrite Hassoc. rewrite (app_assoc got1) in Hs2, He2. split.
  - etransitivity; [exact Hs2|]. by apply sublist_app.
  - intros [H1 H2]%orb_false_iff. by rewrite He2, He1.
Qed.

(** The streamer once the bus is closed. *)
Lemma stream_all_closed fuel st b sub s :
  sm_state st = SOpen sub -> bus_heap b !! sub = Some s -> sub_closed s = true ->
  (length (sub_ch s) < fuel)%nat ->
  sm_state (fst (stream_all fuel (st, b))) = SDone
  /\ sm_out (fst (stream_all fuel (st, b))) = sm_out st ++ sub_ch s ≫= stream_line.
Proof.
  revert st b s. induction fuel as [|fuel IH]; intros st b s Hst Hs Hc Hf; [lia|].
  cbn [stream_all stream_step]. rewrite Hst. destruct (sub_ch s) as [|m q] eqn:Eq.
  - unfold recv. rewrite Hs, Eq, Hc. cbn [mbind list_bind]. rewrite app_nil_r.
    destruct fuel; by cbn.
  - rewrite (recv_msg b sub s m q Hs Eq).
    assert (bus_heap (exec b (OpRecv sub)) !! sub = Some (set_ch s q)) as Hs1.
    { rewrite (recv_same _ _ _ Hs) by by rewrite Eq. rewrite Eq. cbn [drop]. by rewrite drop_0. }
    destruct (IH {| sm_state := SOpen sub; sm_out := sm_out st ++ stream_line m |}
      (exec b (OpRecv sub)) (set_ch s q)) as [H1 H2]; try done; [cbn in *; lia|].
    split; [done|]. rewrite H2. cbn [sm_out set_ch sub_ch mbind list_bind]. by rewrite <- app_assoc.
Qed.

Lemma close_streaming x sub s got :
  streaming x sub s got ->
  sm_state (fst (close_and_wait x)) = SDone
  /\ sm_out (fst (close_and_wait x)) = (got ++ sub_ch s) ≫= stream_line.
Proof.
  intros [Hst Hout Hok Hs _ _]. destruct x as [st b]. cbn [fst snd] in *. unfold close_and_wait.
  destruct (exec_channel b OpClose sub s Hok Hs) as (s' & Hs' & _ & _ & Hch & Hop).
  cbn [exec project q_step q_ch q_open view] in *. apply negb_false_iff in Hop.
  rewrite Hst, Hs', bind_app, <- Hout, <- Hch. apply (stream_all_closed _ _ _ sub); [done..|lia].
Qed.

(** Steps of the others before the streamer subscribes. *)
Lemma before_run b ops :
  bus_ok b -> bus_closed b = false -> foreign_all (new_streamer, b) (EvBus <$> ops) = true ->
  exists b', conc_run (new_streamer, b) (EvBus <$> ops) = (new_streamer, b')
  /\ bus_ok b' /\ bus_closed b' = false /\ bufferSize b' = bufferSize b.
Proof.
  revert b. induction ops as [|op ops IH]; intros b Hok Hc Hf; [by exists b|].
  cbn [fmap list_fmap foreign_all] in Hf. apply andb_true_iff in Hf as [Hf1 Hf2].
  destruct (exec_closed b op) as [Hcl Hb]. rewrite <- Hb.
  apply (IH (exec b op)); [by apply exec_ok| |done]. rewrite Hcl, Hc. by destruct op.
Qed.

Lemma subscribe_streaming b :
  bus_ok b -> bus_closed b = false ->
  streaming (conc_step (new_streamer, b) EvStream) (length (bus_heap b)) (new_sub b (TopicTurn id)) [].
Proof.
  intros Hok Hc. pose proof (exec_heap b (OpSubscribe (TopicTurn id))) as Hh. cbn [heap_extends] in Hh.
  assert (conc_step (new_streamer, b) EvStream
    = ({| sm_state := SOpen (length (bus_heap b)); sm_out := [] |}, exec b (OpSubscribe (TopicTurn id)))) as ->
    by (cbn [conc_step stream_step new_streamer sm_state exec]; unfold Subscribe; by rewrite Hc).
  split; cbn [fst snd sm_state sm_out]; try done; [by apply exec_ok|].
  by rewrite Hh, Hc, lookup_app_r, Nat.sub_diag.
Qed.

(** The schedule of a run: what happens before the streamer subscribes, and
    after.  Not more messages than a buffer holds are never too many. *)
Lemma few_no_overrun x evs sub s got :
  streaming x sub s got -> foreign_all x evs = true ->
  (length (sub_ch s) + length (turn_messages evs) <= sub_cap s)%nat -> overrun x evs = false.
Proof.
  revert x s got. induction evs as [|ev evs IH]; intros x s got Hg Hf Hn; [done|].
  cbn [foreign_all overrun] in *. apply andb_true_iff in Hf as [Hf1 Hf2].
  rewrite (turn_messages_cons ev evs), length_app in Hn.
  assert (overruns x ev = false) as Ho.
  { destruct ev as [op|]; [|done]. destruct op as [t m|t|i| |i]; try done. unfold overruns.
    rewrite (sg_state _ _ _ _ Hg), (sg_sub _ _ _ _ Hg). rewrite turn_messages_publish in Hn.
    case_bool_decide; [|done]. cbn [andb length] in *.
    apply negb_false_iff, Nat.ltb_lt. lia. }
  rewrite Ho. cbn [orb].
  destruct (streaming_step x ev sub s got Hg Hf1) as (s1 & got1 & Hg1 & Hcap & Hlen & _ & He1).
  apply (IH _ s1 got1 Hg1 Hf2). specialize (He1 Ho). apply (f_equal length) in He1.
  rewrite !length_app in He1. lia.
Qed.
(** No turn is published before the first step of the streamer. *)
Fixpoint prompt (evs : list event) : bool :=
  match evs with
  | [] | EvStream :: _ => true
  | EvBus (OpPublish t _) :: evs => negb (bool_decide (t = TopicTurn id)) && prompt evs
  | EvBus _ :: evs => prompt evs
  end.

Lemma split_schedule evs :
  (exists ops, evs = EvBus <$> ops) \/ (exists ops rest, evs = (EvBus <$> ops) ++ EvStream :: rest).
Proof.
  induction evs as [|[op|] evs IH]; [by left; exists []| |by right; exists [], evs].
  destruct IH as [[ops ->]|(ops & rest & ->)]; [left; by exists (op :: ops)|right; by exists (op :: ops), rest].
Qed.

Lemma prompt_before ops rest :
  prompt ((EvBus <$> ops) ++ rest) = true -> turn_messages (EvBus <$> ops) = [].
Proof.
  induction ops as [|op ops IH]; [done|]. cbn [fmap list_fmap app]. rewrite turn_messages_cons.
  intros Hp. destruct op as [t m|t|i| |i]; try (by apply IH). rewrite turn_messages_publish.
  cbn [prompt] in Hp. apply andb_true_iff in Hp as [Hp1 Hp2]. apply negb_true_iff in Hp1. rewrite Hp1. by apply IH.
Qed.

Lemma turn_messages_app l k : turn_messages (l ++ k) = turn_messages l ++ turn_messages k.
Proof.
  induction l as [|ev l IH]; [done|]. cbn [app].
  by rewrite (turn_messages_cons ev (l ++ k)), (turn_messages_cons ev l), IH, app_assoc.
Qed.

Lemma conc_run_app x l k : conc_run x (l ++ k) = conc_run (conc_run x l) k.
Proof. apply foldl_app. Qed.

Lemma foreign_all_app x l k :
  foreign_all x (l ++ k) = foreign_all x l && foreign_all (conc_run x l) k.
Proof.
  revert x. induction l as [|ev l IH]; intros x; [done|]. cbn [foreign_all app].
  by rewrite IH, andb_assoc.
Qed.

Lemma overrun_app x l k : overrun x (l ++ k) = overrun x l || overrun (conc_run x l) k.
Proof.
  revert x. induction l as [|ev l IH]; intros x; [done|]. cbn [overrun app]. by rewrite IH, orb_assoc.
Qed.

(** A bus that is closed before the streamer subscribes. *)
Lemma close_before b :
  close_and_wait (new_streamer, b) = ({| sm_state := SDone; sm_out := [] |}, snd (Close b)).
Proof.
  unfold close_and_wait. cbn [new_streamer sm_state stream_all stream_step]. unfold Subscribe.
  assert (bus_closed (snd (Close b)) = true) as Hc
    by (destruct (exec_closed b OpClose) as [Hc _]; cbn [exec] in Hc; rewrite Hc; by apply orb_true_r).
  by rewrite Hc.
Qed.

(** What the streamer has written when it returns, for every schedule. *)
Lemma stream_writes b evs (fin := close_and_wait (conc_run (new_streamer, b) evs)) :
  bus_ok b -> bus_closed b = false -> foreign_all (new_streamer, b) evs = true ->
  sm_state (fst fin) = SDone
  /\ exists got, sm_out (fst fin) = got ≫= stream_line /\ sublist got (turn_messages evs)
  /\ (prompt evs = true ->
      overrun (new_streamer, b) evs = false \/ Z.of_nat (length (turn_messages evs)) <= bufferSize b ->
      got = turn_messages evs).
Proof.
  intros Hok Hc Hf. destruct (split_schedule evs) as [[ops Eo]|(ops & rest & Er)].
  - subst fin evs. destruct (before_run b ops Hok Hc Hf) as (b' & -> & _ & _). rewrite close_before.
    split; [done|]. exists []. split; [done|]. split; [apply sublist_nil_l|]. intros Hp _.
    rewrite <- (app_nil_r (EvBus <$> ops)) in Hp. by rewrite (prompt_before ops []).
  - subst fin evs. rewrite foreign_all_app in Hf. apply andb_true_iff in Hf as [Hf1 Hf2].
    destruct (before_run b ops Hok Hc Hf1) as (b' & Hb & Hok' & Hc' & Hsz).
    assert (conc_run (new_streamer, b) ((EvBus <$> ops) ++ EvStream :: rest)
      = conc_run (conc_step (new_streamer, b') EvStream) rest) as ->
      by (by rewrite conc_run_app, Hb).
    rewrite overrun_app, Hb in *. cbn [foreign_all overrun foreign overruns orb andb] in *.
    pose proof (subscribe_streaming b' Hok' Hc') as Hg.
    destruct (streaming_run _ rest _ _ _ Hg Hf2) as (s' & got & Hg' & Hsub & Heq).
    destruct (close_streaming _ _ _ _ Hg') as [Hst Hout]. split; [done|]. exists (got ++ sub_ch s').
    split; [done|]. rewrite turn_messages_app, (turn_messages_cons EvStream).
    change (turn_messages [EvStream]) with (@nil BusMessage).
    cbn [new_sub sub_ch app] in Hsub, Heq. cbn [app]. split; [by apply sublist_inserts_l|].
    intros Hp Hno. rewrite (prompt_before _ _ Hp) in *. cbn [app] in *. apply Heq.
    destruct Hno as [[_ Hno]%orb_false_iff|Hno]; [done|].
    eapply few_no_overrun; [exact Hg|done|]. cbn [new_sub sub_ch sub_cap length]. rewrite Hsz.
    lia.
Qed.
End Stream.

(** ** Properties *)

Section Properties.
Context {World Transport : Type} {env : BrokerEnv World Transport}.
Variables (d : BrokerDeps Transport) (fuel : nat).

#[local] Abbreviation id := (C_ID (deps_Conversation d)).

Lemma turn_message_line t now : stream_line (turn_message t now) = [json_turn t].
Proof. done. Qed.

Lemma sent_lines ps ts : Forall2 carries ps ts -> (snd <$> ps) ≫= stream_line = json_turn <$> ts.
Proof.
  induction 1 as [|p t ps ts [now ->] H IH]; [done|]. cbn [fmap list_fmap mbind list_bind snd].
  rewrite turn_message_line. cbn [app]. f_equal. exact IH.
Qed.

Lemma sublist_lines (l k : list BusMessage) : sublist l k -> sublist (l ≫= stream_line) (k ≫= stream_line).
Proof.
  induction 1 as [|m l k H IH|m l k H IH]; cbn [mbind list_bind]; [done|by apply sublist_app|].
  by apply sublist_inserts_l.
Qed.

(** What the goroutine writes of a run with a given log. *)
Lemma stream_of_log (r : FinalResult) (log : list (call Transport)) (b : Bus) (evs : list event)
    (fin := fst (close_and_wait id (conc_run id (new_streamer, b) evs))) :
  deps_ok d -> run_log d log r -> bus_ok b -> bus_closed b = false ->
  foreign_all id (new_streamer, b) evs = true -> turn_messages id evs = snd <$> sent log ->
  sm_state fin = SDone
  /\ sublist (sm_out fin) (json_turn <$> appended log)
  /\ (prompt id evs = true ->
      overrun id (new_streamer, b) evs = false \/ Z.of_nat (length (appended log)) <= bufferSize b ->
      sm_out fin = json_turn <$> appended log).
Proof.
  intros Hok Hl Hbus Hopen Hforeign Hsent. pose proof (run_log_sent d log r Hok Hl) as Hc.
  destruct (stream_writes id b evs Hbus Hopen Hforeign) as (Hst & got & Hout & Hsub & Heq).
  subst fin. rewrite Hout. split; [done|]. rewrite <- (sent_lines _ _ Hc), <- Hsent.
  split; [by apply sublist_lines|]. intros Hp Hno. f_equal. apply (Heq Hp). destruct Hno as [Hno|Hno]; [by left|right].
  apply Forall2_length in Hc. by rewrite Hsent, length_fmap, Hc.
Qed.

(** C13: The streamed turns.  A run of the broker beside the streaming goroutine, in
    any interleaving in which the turns reach the bus in the order the run
    published them: once the command has closed the bus the goroutine returns,
    and what it wrote are turns of the run as it stored them, in order, each at
    most once.  When it subscribes before the first turn, and no turn meets its
    buffer full - which cannot happen when the turns fit in the buffer - it wrote
    every turn. *)
Theorem streamed_turns (w w' : World) (r : FinalResult) (log : list (call Transport))
    (b : Bus) (evs : list event)
    (Hok : deps_ok d) (Hrand : random_ok (World := World) (Transport := Transport))
    (Hfuel : Z.max 1 (MaxTurns (deps_Conversation d)) <= Z.of_nat fuel)
    (HR : Run d fuel (w, []) = (Some r, (w', log)))
    (Hbus : bus_ok b) (Hopen : bus_closed b = false)
    (Hforeign : foreign_all id (new_streamer, b) evs = true)
    (Hsent : turn_messages id evs = snd <$> sent log)
    (fin := fst (close_and_wait id (conc_run id (new_streamer, b) evs))) :
  sm_state fin = SDone
  /\ sublist (sm_out fin) (json_turn <$> appended log)
  /\ (prompt id evs = true ->
      overrun id (new_streamer, b) evs = false \/ Z.of_nat (length (appended log)) <= bufferSize b ->
      sm_out fin = json_turn <$> appended log).
Proof.
  destruct (Run_facts d fuel w r w' log Hok Hrand Hfuel HR) as [Hl _]. by apply (stream_of_log r).
Qed.
End Properties.

(** ** The properties at a schedule of the example's run *)

Definition demo_events : list event :=
  match sent sim_log with
  | [(t1, m1); (t2, m2)] =>
      [EvBus (OpSubscribe (TopicControl "c1")); EvStream; EvBus (OpPublish t1 m1); EvStream; EvStream;
       EvBus (OpPublish t2 m2); EvBus (OpRecv 0)]
  | _ => []
  end.

Lemma streamed_turns_witness :
  sm_out (fst (close_and_wait "c1" (conc_run "c1" (new_streamer, New []) demo_events)))
  = json_turn <$> appended sim_log.
Proof.
  apply (streamed_turns Sim.deps 2 Sim.start _ Sim.res sim_log (New []) demo_events
    Sim.deps_ok Sim.random_ok Sim.fuel_ok Sim.run_eq (New_ok [] (Forall_nil_2 _)) eq_refl).
  - vm_compute. reflexivity.
  - vm_compute. reflexivity.
  - vm_compute. reflexivity.
  - left. vm_compute. reflexivity.
Defined.

(** The goroutine may be scheduled after the first turn is published: it then
    writes the last one only. *)
Lemma late_stream_misses :
  match sent sim_log with
  | [(t1, m1); (t2, m2)] =>
      (T_Index <$> sm_out (fst (close_and_wait "c1" (conc_run "c1" (new_streamer, New [])
         [EvBus (OpPublish t1 m1); EvStream; EvBus (OpPublish t2 m2)])))) = [2]
  | _ => False
  end.
Proof. vm_compute. reflexivity. Qed.

(** A reader slower than the broker loses what its buffer does not hold. *)
Lemma slow_stream_misses :
  match sent sim_log with
  | [(t1, m1); (t2, m2)] =>
      (T_Index <$> sm_out (fst (close_and_wait "c1" (conc_run "c1" (new_streamer, New [WithBufferSize 1])
         [EvStream; EvBus (OpPublish t1 m1); EvBus (OpPublish t2 m2)])))) = [1]
  | _ => False
  end.
Proof. vm_compute. reflexivity. Qed.
