(* ===== verification/EndToEnd.v ===== *)
(** * A conversation that a sentinel ends

    The broker over the in-process bus and the sentinel terminator of this
    library; the store, the peers, the clock and the context are any
    environment.  The terminator's goroutine runs until it waits again within
    the window for which the broker waits for control messages: that is the
    assumption on the scheduler.  The theorem follows one reply from the broker
    over the bus to the terminator and back. *)
From S2P Require Import Prelude GoLib Model Policy Sentinel SentinelLoop Envelope Bus Broker Protocol Trace BrokerRun Turns.

Section EndToEnd.
Context {World Transport : Type} {env0 : BrokerEnv World Transport}.
(** The conversation that the goroutine was started for. *)
Variable id : gostring.

(** The goroutine, until it waits for another turn. *)
Definition watch (tm : terminator) (now : time) (b : Bus) : Bus :=
  match tm_cancel tm with
  | None => b
  | Some sub =>
      match bus_heap b !! sub with
      | None => b
      | Some s => run_loop (length (sub_ch s)) (tm_token tm) id sub now b
      end
  end.

(** The channel emptied by the receives that do not wait. *)
Definition take_ready (ch : nat) (b : Bus) : list BusMessage * Bus :=
  match bus_heap b !! ch with
  | None => ([], b)
  | Some s => (sub_ch s, set_heap b (alter (fun s => set_ch s []) ch (bus_heap b)))
  end.

Definition parts : Type := terminator * Bus.

Definition on_bus {A} (f : Bus -> A * Bus) (x : parts * World) : A * (parts * World) :=
  let '((tm, b), w) := x in let '(a, b) := f b in (a, ((tm, b), w)).

#[export] Instance bus_env : BrokerEnv (parts * World) Transport := {|
  env_CreateConversation c := on_snd (env_CreateConversation c);
  env_UpdateConversation i p := on_snd (env_UpdateConversation i p);
  env_AppendConversationTurn t := on_snd (env_AppendConversationTurn t);
  env_Start t spec i slot := on_snd (env_Start t spec i slot);
  env_Deliver t e := on_snd (env_Deliver t e);
  env_Stop t g := on_snd (env_Stop t g);
  env_TerminatorStart c '((tm, b), w) := let '(e, tb) := Start tm c b in (e, (tb, w));
  env_TerminatorStop '((tm, b), w) := (None, (Stop tm b, w));
  env_Publish t m := on_bus (fun b => Publish b t m);
  env_Subscribe t := on_bus (fun b => Subscribe b t);
  env_Cancel ch '((tm, b), w) := ((tm, Cancel b ch), w);
  env_recv_within ch d '((tm, b), w) :=
    let '(now, w) := env_now w in
    let '(r, b) := recv (watch tm now b) ch in
    (match r with RMsg m => Some m | _ => None end, ((tm, b), w));
  env_recv_ready ch := on_bus (take_ready ch);
  env_ctx_done := on_snd env_ctx_done;
  env_now := on_snd env_now;
  env_random n := on_snd (env_random n);
|}.

(** ** The steps of the bus and the terminator

    What each call of a run does to them.  A wait for control messages schedules
    the goroutine, takes one message if there is one, and then those that are
    ready. *)
Definition wait_control (ch : nat) (now : time) (x : parts) : list BusMessage * parts :=
  let '(r, b) := recv (watch (fst x) now (snd x)) ch in
  match r with
  | RMsg m => let '(ms, b) := take_ready ch b in (m :: ms, (fst x, b))
  | _ => ([], (fst x, b))
  end.

Definition bus_step (c : call Transport) (x y : parts) : Prop :=
  match c with
  | KTerminatorStart conv e => Start (fst x) conv (snd x) = (e, y)
  | KTerminatorStop => y = Stop (fst x) (snd x)
  | KPublish t m e => Publish (snd x) t m = (e, snd y) /\ fst y = fst x
  | KSubscribe t r => Subscribe (snd x) t = (r, snd y) /\ fst y = fst x
  | KCancel ch => y = (fst x, Cancel (snd x) ch)
  | KDrain ch ms => exists now, wait_control ch now x = (ms, y)
  | _ => y = x
  end.

(** The calls on the bus and the terminator. *)
Definition on_parts (c : call Transport) : bool :=
  match c with
  | KTerminatorStart _ _ | KTerminatorStop | KPublish _ _ _ | KSubscribe _ _ | KCancel _ | KDrain _ _ => true
  | _ => false
  end.

#[export] Instance bus_observed : Observed (env := bus_env) fst bus_step.
Proof.
  split; intros; try (by intros [[tm b] w]; cbn; unfold on_snd; cbn; case_match).
  - by intros [[tm b] w].
  - by intros [[tm b] w].
  - intros [[tm b] w]. cbn. destruct (env_now w) as [now w1].
    destruct (recv (watch tm now b) ch) as [r b1] eqn:E. exists now. unfold wait_control. cbn [fst snd]. rewrite E.
    destruct r as [m| |]; [|done..]. cbn. by destruct (take_ready ch b1).
Qed.

(** What the rest of the environment holds is stepped as before. *)
Lemma bus_observed_rest {State} (proj : World -> State) (does : call Transport -> State -> State -> Prop) :
  Observed proj does -> (forall c z, on_parts c = true -> does c z z) ->
  Observed (env := bus_env) (fun x => proj (snd x)) does.
Proof.
  intros O Hdoes.
  assert (forall A (k : A -> call Transport) (f : World -> A * World), explains proj does k f ->
    explains (World := parts * World) (fun x => proj (snd x)) does k (on_snd f)) as Hrest.
  { intros A k f Hf [tb w]. specialize (Hf w). unfold on_snd. cbn [fst snd]. by destruct (f w). }
  assert (forall A (f : World -> A * World), unseen proj f ->
    unseen (World := parts * World) (fun x => proj (snd x)) (on_snd f)) as Hun.
  { intros A f Hf [tb w]. specialize (Hf w). unfold on_snd. cbn [fst snd]. by destruct (f w). }
  split; intros; try (apply Hrest, O); try (apply Hun, O).
  - intros [[tm b] w]. cbn. destruct (Start tm conv b). by apply Hdoes.
  - intros [[tm b] w]. by apply Hdoes.
  - intros [[tm b] w]. cbn. destruct (Publish b topic m). by apply Hdoes.
  - intros [[tm b] w]. cbn. destruct (Subscribe b topic). by apply Hdoes.
  - intros [[tm b] w]. by apply Hdoes.
  - intros [[tm b] w]. cbn. pose proof (ob_now proj does w) as Hnow. destruct (env_now w) as [now w1]. cbn in Hnow.
    destruct (recv (watch tm now b) ch) as [[m| |] b1]; cbn.
    1: destruct (take_ready ch b1). all: cbn; rewrite Hnow; by apply Hdoes.
Qed.

Variable d : BrokerDeps Transport.

(** ** One round *)

(** What the terminator sees of a turn: the response after JSON. *)
Definition shows (token : gostring) (t : ConversationTurn) : bool :=
  containsOnOwnLine (json_string (T_Response t)) token.

Lemma observed_shows token t now : observed token (turn_message t now) = shows token t.
Proof. done. Qed.

(** Both subscriptions are open and empty. *)
Record ready (token : gostring) (ch : nat) (tb : parts) (sub : nat) (s c : subscription) : Prop := {
  rd_token : tm_token (fst tb) = token;
  rd_ok : bus_ok (snd tb);
  rd_cancel : tm_cancel (fst tb) = Some sub;
  rd_sub : bus_heap (snd tb) !! sub = Some s;
  rd_turns : sub_topic s = TopicTurn id /\ sub_closed s = false /\ sub_ch s = [];
  rd_ch : bus_heap (snd tb) !! ch = Some c;
  rd_control : sub_topic c = TopicControl id /\ sub_closed c = false /\ sub_ch c = [];
}.

Definition published (b : Bus) (m : BusMessage) : Bus := exec b (OpPublish (TopicTurn id) m).

Lemma cap_pos b i s : bus_ok b -> bus_heap b !! i = Some s -> (0 < sub_cap s)%nat.
Proof. intros Hok Hs. by destruct (bok_subs _ Hok _ _ Hs). Qed.

Lemma published_ready token ch tb sub s c m :
  ready token ch tb sub s c ->
  bus_ok (published (snd tb) m)
  /\ bus_heap (published (snd tb) m) !! sub = Some (set_ch s [m])
  /\ bus_heap (published (snd tb) m) !! ch = Some c.
Proof.
  intros [_ Hok _ Hs (Ht & Ho & Hq) Hc (Htc & _)]. split_and!.
  - by apply exec_ok.
  - replace [m] with (sub_ch s ++ [m]) by by rewrite Hq. apply publish_room; try done. rewrite Hq. by eapply cap_pos.
  - apply publish_other; try done. rewrite Htc. intros E. by apply (topics_differ id).
Qed.

(** The goroutine's answer to the turn that was published. *)
Lemma watch_published token ch tb sub s c m now :
  ready token ch tb sub s c ->
  let b := watch (fst tb) now (published (snd tb) m) in
  bus_ok b /\ bus_heap b !! sub = Some s
  /\ bus_heap b !! ch = Some (set_ch c (if observed token m then [verdict id now] else [])).
Proof.
  intros Hr. destruct (published_ready _ _ _ _ _ _ m Hr) as (Hok & Hs & Hc).
  destruct Hr as [Htok _ Hcan _ (Ht & Ho & Hq) Hc0 (Htc & Hoc & Hqc)].
  assert (set_ch s [] = s) as Hs0 by (rewrite <- Hq; by destruct s).
  intros b. split; [unfold b, watch; rewrite Hcan, Hs; by apply run_loop_ok|].
  unfold b, watch. rewrite Hcan, Hs, Htok.
  destruct (run_loop_spec (length (sub_ch (set_ch s [m]))) token id sub ch now (published (snd tb) m)
    (set_ch s [m]) c) as [H1 H2]; try done.
  { cbn [set_ch sub_ch]. rewrite Hqc, hits_cons. cbn. pose proof (cap_pos _ _ _ Hok Hc).
    destruct (observed token m); unfold hits; cbn; lia. }
  split; [by rewrite H1, <- Hs0|]. rewrite H2, Hqc. cbn [set_ch sub_ch app].
  rewrite hits_cons. unfold hits. cbn. by destruct (observed token m).
Qed.

Lemma alter_same {A} (f : A -> A) (i : nat) (x : A) (h : list A) : h !! i = Some x -> f x = x -> alter f i h = h.
Proof.
  intros Hx Hf. apply list_eq. intros j. destruct (decide (j = i)) as [->|Hj].
  - by rewrite list_lookup_alter_eq, Hx; cbn; rewrite Hf.
  - by rewrite list_lookup_alter_ne.
Qed.

Lemma take_ready_empty ch b c :
  bus_heap b !! ch = Some c -> sub_ch c = [] -> take_ready ch b = ([], b).
Proof.
  intros Hc Hq. unfold take_ready. rewrite Hc, Hq. f_equal.
  rewrite (alter_same _ _ c) by (try done; rewrite <- Hq; by destruct c). by destruct b.
Qed.

(** The broker's wait for control messages after a turn was published. *)
Lemma drain_ready token ch tm b sub s c m now ms tb' :
  ready token ch (tm, b) sub s c -> wait_control ch now (tm, published b m) = (ms, tb') ->
  ms = (if observed token m then [verdict id now] else []) /\ ready token ch tb' sub s c.
Proof.
  intros Hr. unfold wait_control. cbn [fst snd].
  destruct (watch_published _ _ _ _ _ _ m now Hr) as (Hok & Hs & Hc). cbn [fst snd] in *.
  destruct Hr as [Htok _ Hcan _ Hts _ (Htc & Hoc & Hqc)]. cbn [fst snd] in *.
  set (b1 := watch tm now (published b m)) in *.
  assert (set_ch c [] = c) as Hc0 by (rewrite <- Hqc; by destruct c).
  assert (ch <> sub) as Hne.
  { intros ->. rewrite Hs in Hc. injection Hc as ->. cbn in Hts. destruct Hts as [Hts _].
    rewrite Htc in Hts. by apply (topics_differ id). }
  destruct (observed token m) eqn:Eo.
  - rewrite (recv_msg _ _ _ (verdict id now) [] Hc) by done.
    assert (bus_heap (exec b1 (OpRecv ch)) !! ch = Some c) as Hc1
      by (rewrite (recv_same _ _ _ Hc) by done; cbn [set_ch sub_ch drop]; by rewrite <- Hc0 at 2).
    rewrite (take_ready_empty _ _ c) by done. intros [= <- <-]. split; [done|].
    change (snd (recv b1 ch)) with (exec b1 (OpRecv ch)).
    constructor; cbn [fst snd]; try done; [by apply exec_ok|by apply recv_other].
  - rewrite Hc0 in Hc. unfold recv. rewrite Hc, Hqc, Hoc. intros [= <- <-]. split; [done|]. by constructor.
Qed.

(** A turn that is answered and published, and the wait after it. *)
Lemma taken_published conv turns active e seg t dec tb tb' :
  taken d conv turns active e seg t dec -> T_ConversationID t = id -> trace bus_step seg tb tb' ->
  exists now, tb' = (fst tb, published (snd tb) (turn_message t now)).
Proof.
  intros [tr raw e1 now e2 dec' _ t0 _] Hid Ht.
  apply trace_cons_inv in Ht as (x1 & -> & Ht). apply trace_cons_inv in Ht as (x2 & -> & Ht).
  apply trace_cons_inv in Ht as (x3 & -> & Ht). apply trace_cons_inv in Ht as (x4 & [Hp Hf] & Ht).
  inversion Ht; subst. exists now. unfold published. cbn [exec]. rewrite Hid in Hp.
  destruct tb' as [tm' b']. cbn [fst snd] in *. by rewrite Hp, Hf.
Qed.

Lemma round_ready token ch conv turns active e seg t dec ms tb tb' sub s c :
  taken d conv turns active e seg t dec -> T_ConversationID t = id -> ready token ch tb sub s c ->
  trace bus_step (seg ++ [KCtx false; KDrain ch ms]) tb tb' ->
  (exists now, ms = if shows token t then [verdict id now] else []) /\ ready token ch tb' sub s c.
Proof.
  intros Ht Hid Hr Htr. apply trace_app_inv in Htr as (tb1 & H1 & H2).
  destruct (taken_published _ _ _ _ _ _ _ _ _ Ht Hid H1) as [now ->].
  apply trace_cons_inv in H2 as (x & -> & H2). apply trace_cons_inv in H2 as (y & [now' Hw] & H2).
  inversion H2; subst. destruct tb as [tm b].
  destruct (drain_ready token ch tm b sub s c (turn_message t now) now' ms tb' Hr Hw) as [-> Hr'].
  split; [|done]. exists now'. by rewrite observed_shows.
Qed.

Lemma verdict_ends now :
  first_control (controls [verdict id now]) = Some (ConvCompletedSentinel, "sentinel token observed").
Proof. reflexivity. Qed.

(** ** The conversation *)

(** A turn that shows the token is the last one, and the run has the status of a
    verdict unless the cap or a cancellation ended it at that turn; that status
    has no other cause. *)
Definition ended_right (token : gostring) (ts : list ConversationTurn) (status : ConversationStatus) : Prop :=
  (forall i t, ts !! i = Some t -> shows token t = true ->
    S i = length ts /\ status ∈ [ConvCompletedSentinel; ConvInterrupted; ConvMaxTurnsHit])
  /\ (status = ConvCompletedSentinel -> exists t, last ts = Some t /\ shows token t = true).

Definition silent_turns (token : gostring) (ts : list ConversationTurn) : Prop :=
  Forall (fun t => shows token t = false) ts.

Lemma ended_silent token ts status :
  silent_turns token ts -> status <> ConvCompletedSentinel -> ended_right token ts status.
Proof.
  intros Hs Hne. split; [|done]. intros i t Hi Ht.
  rewrite (proj1 (Forall_lookup _ _) Hs i t Hi) in Ht. done.
Qed.

Lemma ended_last token ts t status :
  silent_turns token ts ->
  (shows token t = true -> status ∈ [ConvCompletedSentinel; ConvInterrupted; ConvMaxTurnsHit]) ->
  (status = ConvCompletedSentinel -> shows token t = true) -> ended_right token (ts ++ [t]) status.
Proof.
  intros Hs H1 H2. split.
  - intros i u [Hi|[Hi Hu]]%lookup_app_Some Ht.
    + by rewrite (proj1 (Forall_lookup _ _) Hs i u Hi) in Ht.
    + apply list_lookup_singleton_Some in Hu as [Hz <-]. rewrite length_app. cbn. split; [lia|by apply H1].
  - intros Hst. exists t. split; [by apply last_snoc|by apply H2].
Qed.

(** The turns of honest peers are of the conversation. *)
Lemma taken_honest conv turns active e seg t dec :
  taken d conv turns active e seg t dec -> honest seg -> T_ConversationID t = E_ConversationID e.
Proof.
  intros [tr raw e1 now e2 dec' _ t0 _] Hh. apply Forall_cons in Hh as [_ Hh]. by apply Forall_cons in Hh as [[Hh _] _].
Qed.

Lemma shows_routed token dec t : shows token (route_turn dec t) = shows token t.
Proof. done. Qed.

Lemma reaches_ready token ch conv l turns active e tb tb' sub s c :
  reaches d conv ch l turns active e -> C_ID conv = id -> honest l -> ready token ch tb sub s c ->
  trace bus_step l tb tb' -> ready token ch tb' sub s c /\ silent_turns token turns.
Proof.
  intros Hr Hid. revert tb'. induction Hr as [|l turns active e seg t dec ms buf Hr IH Ht Hcap Hctl]; intros tb' Hh Hrd Htr.
  { inversion Htr; subst. split; [done|constructor]. }
  apply honest_app in Hh as [Hh Hh2]. apply trace_app_inv in Htr as (tb1 & H1 & H2).
  destruct (IH tb1 Hh Hrd H1) as [Hr1 Hs]. apply reaches_calls in Hr as [_ He].
  assert (T_ConversationID t = id) as Htid.
  { apply honest_app in Hh2 as [Hh2 _]. rewrite (taken_honest _ _ _ _ _ _ _ Ht Hh2). congruence. }
  destruct (round_ready _ _ _ _ _ _ _ _ _ _ _ _ _ _ _ Ht Htid Hr1 H2) as [[now ->] Hr2].
  split; [done|]. apply Forall_app. split; [done|]. apply Forall_singleton. rewrite shows_routed.
  destruct (shows token t); [|done]. by rewrite verdict_ends in Hctl.
Qed.

Lemma ends_right token ch conv turns active e seg turns2 status note tb tb' sub s c :
  ends d conv ch turns active e seg turns2 status note -> E_ConversationID e = id -> honest seg ->
  ready token ch tb sub s c -> silent_turns token turns -> trace bus_step seg tb tb' ->
  ended_right token turns2 status.
Proof.
  intros He Hid Hh Hr Hs Htr.
  destruct He as [|tr e' Htr' Ee|tr e' Htr' Ee|seg t dec Ht Hm|seg t dec Ht Hm|seg t dec ms status note Ht Hm Hctl];
    try (by apply ended_silent); try (apply ended_last; [done|intros _; set_solver|done]).
  assert (T_ConversationID t = id) as Htid.
  { apply honest_app in Hh as [Hh _]. by rewrite (taken_honest _ _ _ _ _ _ _ Ht Hh). }
  destruct (round_ready _ _ _ _ _ _ _ _ _ _ _ _ _ _ _ Ht Htid Hr Htr) as [[now ->] _].
  rewrite <- (shows_routed token dec) in Hctl. destruct (shows token (route_turn dec t)) eqn:Et; [|done].
  rewrite verdict_ends in Hctl. injection Hctl as <- <-. apply ended_last; [done|intros _; set_solver|done].
Qed.

(** The subscriptions at the start of the conversation. *)
Lemma subscribe_open b t :
  bus_closed b = false ->
  Subscribe b t = (Ok (length (bus_heap b)), exec b (OpSubscribe t))
  /\ bus_closed (exec b (OpSubscribe t)) = false
  /\ bus_heap (exec b (OpSubscribe t)) = bus_heap b ++ [new_sub b t].
Proof. intros Ho. cbn [exec]. unfold Subscribe. by rewrite Ho. Qed.

Lemma ready_start token b conv :
  bus_ok b -> bus_closed b = false -> C_ID conv = id ->
  exists tm b1 ch b2 sub s c,
    Start (new_terminator token) conv b = (None, (tm, b1))
    /\ Subscribe b1 (TopicControl (C_ID conv)) = (Ok ch, b2)
    /\ ready (NewSentinel token) ch (tm, b2) sub s c.
Proof.
  intros Hok Ho Hid. unfold Start, new_terminator. cbn [tm_cancel tm_token]. rewrite Hid.
  destruct (subscribe_open b (TopicTurn id) Ho) as (E1 & Ho1 & H1). rewrite E1.
  set (b1 := exec b (OpSubscribe (TopicTurn id))) in *.
  destruct (subscribe_open b1 (TopicControl id) Ho1) as (E2 & Ho2 & H2).
  eexists _, b1, _, _, (length (bus_heap b)), (new_sub b (TopicTurn id)), (new_sub b1 (TopicControl id)).
  split_and!; [done|exact E2|].
  constructor; cbn [fst snd tm_token tm_cancel new_sub sub_topic sub_closed sub_ch]; try done.
  - by do 2 apply exec_ok.
  - rewrite H2, H1, <- app_assoc. by rewrite lookup_app_r, Nat.sub_diag.
  - rewrite H2. by rewrite lookup_app_r, Nat.sub_diag.
Qed.

Lemma starts_untouched conv e (ps : list (PeerID * Transport)) :
  Forall (fun c => forall x y, bus_step c x y -> y = x) (start_call d conv e <$> ps).
Proof. apply Forall_fmap, Forall_true. by intros p x y. Qed.

(** What a run is, from the log of its calls and what they did to the bus. *)
Lemma run_log_sentinel token l r b tb' :
  run_log d l r -> honest l -> C_ID (deps_Conversation d) = id -> bus_ok b -> bus_closed b = false ->
  trace bus_step l (new_terminator token, b) tb' ->
  ended_right (NewSentinel token) (FR_Turns r) (C_Status (FR_Conversation r)).
Proof.
  intros [created e0 starts note now e1 conv Hs log0 n
    |created e0 et e now e1 conv log0 n
    |created e0 et ch rounds turns active env1 seg turns2 status note now e1 conv Hr He log0 n] Hh Hid Hbok Hopen Htr;
    cbn [FR_Turns FR_Conversation final_result C_Status final_conv with_lifecycle];
    [by apply ended_silent; [constructor|]..|].
  assert (C_ID conv = id) as Hcid by exact Hid. apply trace_app_inv in Htr as (tb1 & Htr & _).
  apply honest_app in Hh as [Hh _]. apply honest_app in Hh as [_ [Hh1 Hh2]%honest_app].
  apply trace_app_inv in Htr as (tb2 & Hpre & Hrounds).
  apply trace_cons_inv in Hpre as (x & -> & Hpre). apply trace_app_inv in Hpre as (x & Hx & Hpre).
  apply (trace_untouched _ _ _ _ (starts_untouched conv None (peers d))) in Hx as ->.
  destruct (ready_start token b conv Hbok Hopen Hcid) as (tm & b1 & ch' & b2 & sub & s & c & Hstart & Hsub & Hrd).
  apply trace_cons_inv in Hpre as (x & Hx & Hpre). cbn [bus_step fst snd] in Hx. rewrite Hstart in Hx. injection Hx as <- <-.
  apply trace_cons_inv in Hpre as (x & [Hx Hf] & Hpre). cbn [fst snd] in Hx, Hf. rewrite Hsub in Hx. injection Hx as <- Hb2.
  assert (x = (tm, b2)) as -> by (destruct x; cbn [fst snd] in *; congruence). inversion Hpre; subst.
  apply trace_app_inv in Hrounds as (tb3 & H1 & H2).
  destruct (reaches_ready _ _ _ _ _ _ _ _ _ _ _ _ Hr Hcid Hh1 Hrd H1) as [Hr1 Hsil].
  apply reaches_calls in Hr as [_ Hce].
  eapply ends_right; [exact He|congruence|exact Hh2|exact Hr1|exact Hsil|exact H2].
Qed.

Lemma bus_random_ok : random_ok (env := env0) -> random_ok (env := bus_env).
Proof. intros H n [tb w]. specialize (H n w). cbn. unfold on_snd. cbn. by destruct (env_random n w). Qed.

(** C5: a sentinel ends the conversation.  Over the in-process bus with a
    terminator for the token (or the default one), whatever the store, the peers,
    the clock and the context do, a run returns, and if its peers answered for the
    conversation they were asked in: a turn whose response has
    the token on a line of its own is the last turn, the run then ends
    [completed_sentinel] unless that turn was the cap or the context was
    cancelled, and no run ends [completed_sentinel] without such a turn. *)
Theorem Run_ends_at_sentinel (token : gostring) (fuel : nat) (b : Bus) (w : World)
    (Hok : deps_ok d) (Hrand : random_ok (env := env0))
    (Hid : C_ID (deps_Conversation d) = id) (Hbus : bus_ok b) (Hopen : bus_closed b = false)
    (Hfuel : Z.max 1 (MaxTurns (deps_Conversation d)) <= Z.of_nat fuel) :
  exists r w' log, Broker.Run (env := bus_env) d fuel (((new_terminator token, b), w), []) = (Some r, (w', log))
  /\ (honest log ->
      (forall i t, FR_Turns r !! i = Some t -> shows (NewSentinel token) t = true ->
        S i = length (FR_Turns r)
        /\ C_Status (FR_Conversation r) ∈ [ConvCompletedSentinel; ConvInterrupted; ConvMaxTurnsHit])
      /\ (C_Status (FR_Conversation r) = ConvCompletedSentinel ->
        exists t, last (FR_Turns r) = Some t /\ shows (NewSentinel token) t = true)).
Proof.
  destruct (Run_spec (env := bus_env) d fuel ((new_terminator token, b), w) Hok (bus_random_ok Hrand) Hfuel)
    as (r & w' & log & HR & Hl).
  exists r, w', log. split; [done|]. intros Hh.
  destruct (trace_Run (observed := bus_observed) _ _ d fuel ((new_terminator token, b), w) []) as (o & k & z & E & Ht).
  rewrite HR in E. injection E as _ <- ->. by eapply run_log_sentinel.
Qed.
End EndToEnd.

(** ** A conversation of two turns under a cap of five *)
Module EndSim.
Definition conv : Conversation :=
  {| C_ID := "c1"; SchemaVersion := 0; CreatedAt := 0; C_EndedAt := None; C_Status := [];
     MaxTurns := 5; PerTurnTimeout := 0; OverallTimeout := 0;
     C_Terminator := {| TS_Kind := "sentinel"; TS_Sentinel := []; TS_JudgeURI := [] |};
     C_Peers := []; Seeds := ∅; OpenerID := []; C_PeerA := zeroPeerSpec;
     C_PeerB := zeroPeerSpec; SeedA := "hi"; SeedB := "hello"; Opener := PeerSlotB;
     TurnsConsumed := 0; C_ReplyStyle := [] |}.

Definition deps : BrokerDeps gostring :=
  {| deps_Conversation := conv; deps_PeerA := Some "A"; deps_PeerB := Some "B";
     deps_DrainWindow := 0; deps_Policy := None; deps_PeersByID := ∅; deps_PeerOrder := [] |}.

Lemma end_deps_ok : deps_ok deps.
Proof. constructor; [done|done|by split; eexists|done]. Qed.

Definition run : option FinalResult * ((parts * Sim.world) * list (call gostring)) :=
  Broker.Run (env := bus_env "c1") deps 5 (((new_terminator [], New []), Sim.start), []).

Lemma end_honest : honest (snd (snd run)).
Proof. unfold honest. vm_compute. repeat constructor. Qed.
End EndSim.

Lemma Run_ends_at_sentinel_witness : exists r, fst EndSim.run = Some r
  /\ (forall i t, FR_Turns r !! i = Some t -> shows (NewSentinel []) t = true ->
        S i = length (FR_Turns r)
        /\ C_Status (FR_Conversation r) ∈ [ConvCompletedSentinel; ConvInterrupted; ConvMaxTurnsHit])
  /\ (C_Status (FR_Conversation r) = ConvCompletedSentinel ->
        exists t, last (FR_Turns r) = Some t /\ shows (NewSentinel []) t = true).
Proof.
  destruct (Run_ends_at_sentinel "c1" EndSim.deps [] 5 (New []) Sim.start EndSim.end_deps_ok Sim.random_ok
    eq_refl (New_ok [] ltac:(by apply Forall_nil)) eq_refl ltac:(done)) as (r & w' & log & HR & H).
  pose proof EndSim.end_honest as Hh. unfold EndSim.run in *. rewrite HR in *. exists r. split; [done|]. by apply H.
Defined.

(** It ends with the second turn, by the verdict. *)
Example two_turns : exists r st,
  Broker.Run (env := bus_env "c1") EndSim.deps 5 (((new_terminator [], New []), Sim.start), []) = (Some r, st)
  /\ length (FR_Turns r) = 2%nat /\ C_Status (FR_Conversation r) = ConvCompletedSentinel.
Proof. eexists _, _. split; [vm_compute; reflexivity|]. split; vm_compute; reflexivity. Qed.
