(* ===== verification/PeerFlags.v ===== *)
(** * Peer declarations on the command line ([internal/cli/converse_npeer.go])

    The hand-written parser of [--peer] values, the validation of a list of
    them, and the model fields they give.  Errors are the code's, one
    constructor per message. *)
From S2P Require Import Prelude GoLib Model.

(** ** [parseKeyValueList] *)
Record kvPair := {
  kv_key : gostring;
  kv_value : gostring;
}.

Inductive kv_error :=
| ExpectedEquals (keyStart : nat)
| EmptyKey
| UnterminatedValue (key : gostring)
| ExpectedComma (key : gostring).

Inductive kv_result :=
| KVOk (pairs : list kvPair)
| KVErr (e : kv_error).

Definition kv_blank (c : ascii) : bool := ceq c SP || ceq c TAB.
Definition key_stop (c : ascii) : bool := ceq c "=" || ceq c ",".

(** The longest prefix free of [stop], and the rest. *)
Fixpoint span_until (stop : ascii -> bool) (s : gostring) : gostring * gostring :=
  match s with
  | [] => ([], [])
  | c :: r => if stop c then ([], s) else let '(p, q) := span_until stop r in (c :: p, q)
  end.

(** The loop over a quoted value, from after its opening quote: the value and
    what follows the closing quote. *)
Fixpoint quoted_value (s : gostring) : option (gostring * gostring) :=
  match s with
  | [] => None
  | c :: r =>
      let plain := if ceq c DQ then Some ([], r)
                   else '(v, q) ← quoted_value r; Some (c :: v, q) in
      match r with
      | next :: r2 =>
          if ceq c BSL && (ceq next DQ || ceq next BSL)
          then '(v, q) ← quoted_value r2; Some (next :: v, q)
          else plain
      | [] => plain
      end
  end.

(** The [for] loop; [i] is the index of the head of [s].  Every iteration that
    goes on consumes an equals sign, so the length of the text is fuel enough. *)
Fixpoint kv_loop (fuel : nat) (i : nat) (s : gostring) (out : list kvPair) : kv_result :=
  match fuel with
  | O => KVOk out
  | S fuel =>
      let s1 := drop_while kv_blank s in
      let i := (i + (length s - length s1))%nat in
      if bool_decide (s1 = []) then KVOk out
      else
        let '(rawkey, s2) := span_until key_stop s1 in
        match s2 with
        | c :: s3 =>
            if ceq c "=" then
              let key := TrimSpace rawkey in
              if bool_decide (key = []) then KVErr EmptyKey
              else
                let v :=
                  match s3 with
                  | q :: s4 =>
                      if ceq q DQ then quoted_value s4
                      else let '(bare, s5) := span_until (ceq ",") s3 in
                           Some (TrimSpace bare, s5)
                  | [] => Some ([], [])
                  end in
                match v with
                | None => KVErr (UnterminatedValue key)
                | Some (value, s5) =>
                    let out := out ++ [{| kv_key := key; kv_value := value |}] in
                    match s5 with
                    | [] => KVOk out
                    | c :: s6 =>
                        if ceq c ","
                        then kv_loop fuel (i + (length s1 - length s6))%nat s6 out
                        else KVErr (ExpectedComma key)
                    end
                end
            else KVErr (ExpectedEquals i)
        | [] => KVErr (ExpectedEquals i)
        end
  end.

Definition parseKeyValueList (raw : gostring) : kv_result := kv_loop (S (length raw)) 0 raw [].

(** ** [parsePeerSpec] *)
Record peerDecl := {
  pd_ID : PeerID;
  pd_Provider : gostring;
  pd_Seed : gostring;
  pd_Options : gmap gostring gostring;
}.

Inductive peer_error :=
| BadList (e : kv_error)
| UnknownKey (key : gostring)
| MissingID
| InvalidID (id : PeerID)
| MissingProvider (id : PeerID)
| TooFewPeers (n : Z)
| TooManyPeers (n : Z)
| DuplicateID (id : PeerID)
| MissingSeed (id : PeerID)
| UnknownOpener (id : gostring).

Definition allowedPeerKeys : list gostring :=
  ["id"; "provider"; "seed"; "model"; "reasoning-effort"; "cwd"; "home"].

Definition set_pair (pd : peerDecl) (kv : kvPair) : peerDecl :=
  let k := kv_key kv in let v := kv_value kv in
  if bool_decide (k = "id") then
    {| pd_ID := v; pd_Provider := pd_Provider pd; pd_Seed := pd_Seed pd; pd_Options := pd_Options pd |}
  else if bool_decide (k = "provider") then
    {| pd_ID := pd_ID pd; pd_Provider := v; pd_Seed := pd_Seed pd; pd_Options := pd_Options pd |}
  else if bool_decide (k = "seed") then
    {| pd_ID := pd_ID pd; pd_Provider := pd_Provider pd; pd_Seed := v; pd_Options := pd_Options pd |}
  else
    {| pd_ID := pd_ID pd; pd_Provider := pd_Provider pd; pd_Seed := pd_Seed pd;
       pd_Options := <[k := v]> (pd_Options pd) |}.

Fixpoint peer_pairs (pd : peerDecl) (kvs : list kvPair) : peer_error + peerDecl :=
  match kvs with
  | [] => inr pd
  | kv :: kvs =>
      if bool_decide (kv_key kv ∈ allowedPeerKeys) then peer_pairs (set_pair pd kv) kvs
      else inl (UnknownKey (kv_key kv))
  end.

Definition parsePeerSpec (raw : gostring) : peer_error + peerDecl :=
  match parseKeyValueList raw with
  | KVErr e => inl (BadList e)
  | KVOk pairs =>
      match peer_pairs {| pd_ID := []; pd_Provider := []; pd_Seed := []; pd_Options := ∅ |} pairs with
      | inl e => inl e
      | inr pd =>
          if bool_decide (pd_ID pd = []) then inl MissingID
          else match PeerID_Validate (pd_ID pd) with
               | Some _ => inl (InvalidID (pd_ID pd))
               | None => if bool_decide (pd_Provider pd = []) then inl (MissingProvider (pd_ID pd))
                         else inr pd
               end
      end
  end.

(** ** [parseNPeerSpecs] *)
Record nPeerConfig := {
  np_Peers : list peerDecl;
  np_OpenerID : PeerID;
}.

Definition maxNPeers : Z := 16.

Definition with_seed (pd : peerDecl) (seed : gostring) : peerDecl :=
  {| pd_ID := pd_ID pd; pd_Provider := pd_Provider pd; pd_Seed := seed; pd_Options := pd_Options pd |}.

(** The loop over the flag values: the peers and the ids seen, and the errors
    so far. *)
Fixpoint collect_peers (broadcastSeed : gostring) (raws : list gostring)
    (peers : list peerDecl) (seen : list PeerID) (errs : list peer_error)
    : list peerDecl * list PeerID * list peer_error :=
  match raws with
  | [] => (peers, seen, errs)
  | raw :: raws =>
      match parsePeerSpec raw with
      | inl e => collect_peers broadcastSeed raws peers seen (errs ++ [e])
      | inr pd =>
          if bool_decide (pd_ID pd ∈ seen)
          then collect_peers broadcastSeed raws peers seen (errs ++ [DuplicateID (pd_ID pd)])
          else
            let pd := if bool_decide (pd_Seed pd = []) then with_seed pd broadcastSeed else pd in
            let errs := if bool_decide (pd_Seed pd = []) then errs ++ [MissingSeed (pd_ID pd)] else errs in
            collect_peers broadcastSeed raws (peers ++ [pd]) (seen ++ [pd_ID pd]) errs
      end
  end.

(** A non-empty list of errors is joined into one error. *)
Definition parseNPeerSpecs (rawPeers : list gostring) (broadcastSeed opener : gostring)
    : list peer_error + nPeerConfig :=
  let n := Z.of_nat (length rawPeers) in
  let errs := (if n <? 2 then [TooFewPeers n] else [])
              ++ (if maxNPeers <? n then [TooManyPeers n] else []) in
  let '(peers, seen, errs) := collect_peers broadcastSeed rawPeers [] [] errs in
  let '(openerID, errs) :=
    if bool_decide (opener = []) || bool_decide (opener = "a")
    then (match peers with pd :: _ => pd_ID pd | [] => [] end, errs)
    else (opener, if bool_decide (opener ∈ seen) then errs else errs ++ [UnknownOpener opener]) in
  match errs with
  | [] => inr {| np_Peers := peers; np_OpenerID := openerID |}
  | _ => inl errs
  end.

Definition toV2Conversation (c : nPeerConfig) : list PeerParticipant * gmap PeerID gostring :=
  ((fun p => {| PP_ID := pd_ID p;
                PP_Spec := {| URI := "provider:" ++ pd_Provider p; Options := pd_Options p |} |})
     <$> np_Peers c,
   foldl (fun m p => <[pd_ID p := pd_Seed p]> m) ∅ (np_Peers c)).

(** ** Lemmas on the list parser *)

Definition escape_byte (c : ascii) : gostring := if ceq c DQ || ceq c BSL then [BSL; c] else [c].
Definition escape (v : gostring) : gostring := v ≫= escape_byte.

(** The text of a pair, the value quoted. *)
Definition render_pair (kv : kvPair) : gostring :=
  kv_key kv ++ "="%char :: DQ :: escape (kv_value kv) ++ [DQ].

Definition render_pairs (kvs : list kvPair) : gostring := Join (render_pair <$> kvs) ",".

Definition key_ok (k : gostring) : bool :=
  negb (bool_decide (k = [])) && forallb (fun c => negb (key_stop c) && negb (kv_blank c)) k
  && bool_decide (TrimSpace k = k).

Lemma quoted_plain c r : ceq c DQ = false -> ceq c BSL = false ->
  quoted_value (c :: r) = '(v, q) ← quoted_value r; Some (c :: v, q).
Proof. intros H1 H2. cbn [quoted_value]. rewrite H1, H2. by destruct r. Qed.

Lemma quoted_escape v rest : quoted_value (escape v ++ DQ :: rest) = Some (v, rest).
Proof.
  induction v as [|c v IH].
  - cbn [escape mbind list_bind app quoted_value]. destruct rest; [done|].
    by change (ceq DQ BSL) with false.
  - change (escape (c :: v)) with (escape_byte c ++ escape v). unfold escape_byte.
    destruct (ceq c DQ || ceq c BSL) eqn:E.
    + cbn [app quoted_value]. rewrite E. change (ceq BSL BSL) with true. cbn [andb].
      by rewrite IH.
    + bool_facts. cbn [app]. rewrite quoted_plain by by apply ceq_false. by rewrite IH.
Qed.

Lemma span_key k rest :
  forallb (fun c => negb (key_stop c) && negb (kv_blank c)) k = true ->
  span_until key_stop (k ++ "="%char :: rest) = (k, "="%char :: rest).
Proof.
  induction k as [|c k IH]; cbn [forallb app span_until]; [done|]. intros H. bool_facts.
  match goal with H : key_stop c = false |- _ => rewrite H end. by rewrite IH.
Qed.

Lemma kv_loop_pair fuel i kv rest out :
  key_ok (kv_key kv) = true -> (rest = [] \/ exists r, rest = ","%char :: r) ->
  exists i', kv_loop (S fuel) i (render_pair kv ++ rest) out =
    match rest with
    | [] => KVOk (out ++ [kv])
    | _ :: r => kv_loop fuel i' r (out ++ [kv])
    end.
Proof.
  intros Hk Hrest. unfold key_ok in Hk. bool_facts.
  assert (render_pair kv ++ rest =
    kv_key kv ++ "="%char :: DQ :: escape (kv_value kv) ++ DQ :: rest) as ->.
  { unfold render_pair. rewrite <- app_assoc. cbn [app]. by rewrite <- app_assoc. }
  cbn [kv_loop].
  assert (drop_while kv_blank (kv_key kv ++ "="%char :: DQ :: escape (kv_value kv) ++ DQ :: rest)
    = kv_key kv ++ "="%char :: DQ :: escape (kv_value kv) ++ DQ :: rest) as ->.
  { destruct (kv_key kv) as [|c k]; [done|]. cbn [forallb app drop_while] in *.
    bool_facts. by match goal with H : kv_blank c = false |- _ => rewrite H end. }
  cbv zeta. rewrite bool_decide_false by by destruct (kv_key kv).
  rewrite span_key by done. change (ceq "=" "=") with true. cbv iota.
  match goal with H : TrimSpace _ = _ |- _ => rewrite H end.
  rewrite bool_decide_false by done. change (ceq DQ DQ) with true. cbv iota.
  rewrite quoted_escape. destruct kv as [k v]. cbn [kv_key kv_value] in *.
  destruct Hrest as [->|[r ->]]; [by exists 0%nat|]. change (ceq "," ",") with true. cbv iota.
  by eexists.
Qed.

Lemma kv_loop_render kvs fuel i out :
  (length kvs <= fuel)%nat -> Forall (fun kv => key_ok (kv_key kv) = true) kvs ->
  kv_loop (S fuel) i (render_pairs kvs) out = KVOk (out ++ kvs).
Proof.
  revert fuel i out. induction kvs as [|kv kvs IH]; intros fuel i out Hf Hk.
  - cbn. by rewrite app_nil_r.
  - apply Forall_cons in Hk as [Hkv Hk]. unfold render_pairs. cbn [fmap list_fmap].
    destruct kvs as [|kv2 kvs].
    + cbn [list_fmap Join fmap]. rewrite <- (app_nil_r (render_pair kv)).
      destruct (kv_loop_pair fuel i kv [] out Hkv) as [i' ->]; [by left|done].
    + rewrite Join_cons by done. cbn [length] in Hf. destruct fuel as [|fuel]; [lia|].
      destruct (kv_loop_pair (S fuel) i kv (","%char :: render_pairs (kv2 :: kvs)) out Hkv)
        as [i' H]; [right; by eexists|].
      change ("," ++ Join (render_pair <$> kv2 :: kvs) ",") with (","%char :: render_pairs (kv2 :: kvs)).
      rewrite H, IH; [by rewrite <- app_assoc|cbn [length] in *; lia|done].
Qed.

Lemma render_pairs_length kvs :
  Forall (fun kv => key_ok (kv_key kv) = true) kvs -> (length kvs <= length (render_pairs kvs))%nat.
Proof.
  induction 1 as [|kv kvs Hk Hks IH]; [cbn; lia|]. unfold render_pairs in *. cbn [fmap list_fmap].
  assert (1 <= length (render_pair kv))%nat.
  { unfold render_pair. rewrite length_app. cbn. lia. }
  destruct kvs as [|kv2 kvs].
  - change (Join (render_pair kv :: (render_pair <$> [])) ",") with (render_pair kv). cbn [length]. lia.
  - rewrite Join_cons by done. rewrite !length_app. cbn [length] in *.
    change (list_fmap _ _ render_pair (kv2 :: kvs)) with (render_pair <$> kv2 :: kvs). lia.
Qed.

Lemma parse_render kvs :
  Forall (fun kv => key_ok (kv_key kv) = true) kvs ->
  parseKeyValueList (render_pairs kvs) = KVOk kvs.
Proof.
  intros Hk. unfold parseKeyValueList. rewrite kv_loop_render; [done| |done].
  by apply render_pairs_length.
Qed.

(** The fuel of [parseKeyValueList] is enough: more changes nothing. *)
Lemma span_until_length stop s p q : span_until stop s = (p, q) -> (length q <= length s)%nat.
Proof.
  revert p q. induction s as [|c s IH]; intros p q H; cbn in H; [by injection H as <- <-|].
  destruct (stop c); [by injection H as <- <-|]. destruct (span_until stop s) as [p1 q1].
  injection H as <- <-. specialize (IH _ _ eq_refl). cbn. lia.
Qed.

Lemma quoted_value_length n s v q :
  (length s <= n)%nat -> quoted_value s = Some (v, q) -> (length q <= length s)%nat.
Proof.
  revert s v q. induction n as [|n IH]; intros [|c s] v q Hn H; cbn [length] in Hn; try lia; try done.
  assert (forall v q, (if ceq c DQ then Some ([], s)
    else '(v, q) ← quoted_value s; Some (c :: v, q)) = Some (v, q) -> (length q <= length s)%nat) as Hp.
  { intros v1 q1. destruct (ceq c DQ); [by intros [= <- <-]|].
    destruct (quoted_value s) as [[v2 q2]|] eqn:E; [|done]. intros [= <- <-].
    eapply (IH s); [lia|done]. }
  cbn [length]. cbn [quoted_value] in H. destruct s as [|c2 s]; [apply Hp in H; cbn in *; lia|].
  destruct (ceq c BSL && (ceq c2 DQ || ceq c2 BSL)); [|apply Hp in H; cbn in *; lia].
  destruct (quoted_value s) as [[v2 q2]|] eqn:E; [|done]. injection H as <- <-. cbn [length] in *.
  pose proof (IH s v2 q2 ltac:(lia) E). lia.
Qed.

Lemma kv_loop_fuel f1 f2 i s out :
  (length s < f1)%nat -> (length s < f2)%nat -> kv_loop f1 i s out = kv_loop f2 i s out.
Proof.
  revert f2 i s out. induction f1 as [|f1 IH]; intros [|f2] i s out H1 H2; try lia.
  cbn [kv_loop]. cbv zeta. case_bool_decide; [done|].
  assert (length (drop_while kv_blank s) <= length s)%nat as Hd
    by (clear; induction s as [|c s IH]; cbn; [lia|]; destruct (kv_blank c); cbn; lia).
  destruct (span_until key_stop _) as [rawkey s2] eqn:Es. apply span_until_length in Es.
  destruct s2 as [|c s3]; [done|]. cbn [length] in Es. destruct (ceq c "="); [|done].
  case_bool_decide; [done|].
  assert (forall v s5, match s3 with
    | q :: s4 => if ceq q DQ then quoted_value s4
                 else let '(bare, s5) := span_until (ceq ",") s3 in Some (TrimSpace bare, s5)
    | [] => Some ([], [])
    end = Some (v, s5) -> (length s5 <= length s3)%nat) as Hv.
  { intros v s5. destruct s3 as [|q s4]; [by intros [= <- <-]|]. destruct (ceq q DQ).
    - intros Hq. apply (quoted_value_length (length s4)) in Hq; cbn; lia.
    - destruct (span_until _ _) as [bare s6] eqn:Eb. intros [= <- <-].
      by apply span_until_length in Eb. }
  destruct (match s3 with [] => _ | _ => _ end) as [[v s5]|]; [|done].
  specialize (Hv _ _ eq_refl). destruct s5 as [|c5 s6]; [done|]. cbn [length] in Hv.
  destruct (ceq c5 ","); [|done]. apply IH; lia.
Qed.

(** ** Lemmas on declarations *)

Definition option_keys : list gostring := ["model"; "reasoning-effort"; "cwd"; "home"].

Definition pair_of (k v : gostring) : kvPair := {| kv_key := k; kv_value := v |}.

(** A [--peer] value for a declaration. *)
Definition peer_kvs (pd : peerDecl) : list kvPair :=
  [pair_of "id" (pd_ID pd); pair_of "provider" (pd_Provider pd); pair_of "seed" (pd_Seed pd)]
  ++ omap (fun k => pair_of k <$> pd_Options pd !! k) option_keys.

Definition render_peer (pd : peerDecl) : gostring := render_pairs (peer_kvs pd).

Lemma peer_kvs_keys pd : Forall (fun kv => kv_key kv ∈ allowedPeerKeys) (peer_kvs pd).
Proof.
  unfold peer_kvs. repeat (apply Forall_cons; split; [by apply (bool_decide_unpack _)|]).
  apply Forall_forall. intros kv Hkv. apply list_elem_of_omap in Hkv as (k & Hk & Hv).
  destruct (pd_Options pd !! k); cbn in Hv; [|done]. injection Hv as <-. cbn.
  unfold option_keys, allowedPeerKeys in *. set_solver.
Qed.

Lemma allowed_key_ok k : k ∈ allowedPeerKeys -> key_ok k = true.
Proof.
  unfold allowedPeerKeys. intros H.
  repeat (apply elem_of_cons in H as [->|H]; [by vm_compute|]). by apply elem_of_nil in H.
Qed.

Lemma peer_pairs_app kvs kvs' pd :
  Forall (fun kv => kv_key kv ∈ allowedPeerKeys) kvs ->
  peer_pairs pd (kvs ++ kvs') = peer_pairs (foldl set_pair pd kvs) kvs'.
Proof.
  intros H. revert pd. induction H as [|kv kvs Hkv _ IH]; intros pd; [done|].
  cbn [app peer_pairs foldl]. by rewrite bool_decide_true.
Qed.

Lemma set_options pd kvs :
  Forall (fun kv => kv_key kv ∈ option_keys) kvs ->
  foldl set_pair pd kvs =
    {| pd_ID := pd_ID pd; pd_Provider := pd_Provider pd; pd_Seed := pd_Seed pd;
       pd_Options := foldl (fun m kv => <[kv_key kv := kv_value kv]> m) (pd_Options pd) kvs |}.
Proof.
  intros H. revert pd. induction H as [|kv kvs Hkv _ IH]; intros pd; [by destruct pd|].
  cbn [foldl]. rewrite IH. unfold set_pair, option_keys in *.
  rewrite !bool_decide_false; [done|intros E; rewrite E in Hkv; set_solver..].
Qed.

Lemma collect_options (m : gmap gostring gostring) keys m0 :
  foldl (fun m kv => <[kv_key kv := kv_value kv]> m) m0
    (omap (fun k => pair_of k <$> m !! k) keys)
  = map_imap (fun k v => if bool_decide (k ∈ keys) then Some v else None) m ∪ m0.
Proof.
  revert m0. induction keys as [|k keys IH]; intros m0.
  - cbn. apply map_eq. intros i. rewrite lookup_union, map_lookup_imap.
    destruct (m !! i); cbn; rewrite ?bool_decide_false by apply not_elem_of_nil; by destruct (m0 !! i).
  - cbn [omap list_omap]. destruct (m !! k) as [v|] eqn:E; cbn [fmap option_fmap option_map foldl].
    + rewrite IH. apply map_eq. intros i. rewrite !lookup_union, !map_lookup_imap. cbn [kv_key kv_value pair_of].
      destruct (decide (i = k)) as [->|Hi].
      * rewrite E, lookup_insert_eq. cbn. rewrite (bool_decide_true (k ∈ k :: keys)) by by left.
        case_bool_decide; by destruct (m0 !! k).
      * rewrite lookup_insert_ne by done. destruct (m !! i); [|done]. cbn.
        erewrite (bool_decide_ext (i ∈ k :: keys)); [done|]. rewrite elem_of_cons. naive_solver.
    + rewrite IH. apply map_eq. intros i. rewrite !lookup_union, !map_lookup_imap.
      destruct (m !! i) eqn:Ei; [|done]. cbn.
      erewrite (bool_decide_ext (i ∈ k :: keys)); [done|]. rewrite elem_of_cons. naive_solver.
Qed.

(** ** Validation of a list of declarations *)

(** A flag value and the declaration it becomes. *)
Definition declares (broadcastSeed raw : gostring) (pd : peerDecl) : Prop :=
  exists pd0, parsePeerSpec raw = inr pd0
  /\ pd = (if bool_decide (pd_Seed pd0 = []) then with_seed pd0 broadcastSeed else pd0).

Lemma collect_errors bs raws P S E : E <> [] -> snd (collect_peers bs raws P S E) <> [].
Proof.
  revert P S E. induction raws as [|raw raws IH]; intros P S E HE; [done|].
  cbn [collect_peers]. destruct (parsePeerSpec raw) as [e|pd]; [apply IH; by destruct E|].
  case_bool_decide; [apply IH; by destruct E|]. cbv zeta. apply IH.
  case_bool_decide; by destruct E.
Qed.

Lemma collect_sound bs raws : forall P S E P' S',
  collect_peers bs raws P S E = (P', S', []) ->
  E = [] /\ exists new, P' = P ++ new /\ S' = S ++ (pd_ID <$> new)
  /\ Forall2 (declares bs) raws new /\ Forall (fun pd => pd_Seed pd <> []) new
  /\ NoDup (pd_ID <$> new) /\ (forall pd, pd ∈ new -> pd_ID pd ∉ S).
Proof.
  induction raws as [|raw raws IH]; intros P S E P' S' H.
  - cbn in H. injection H as <- <- ->. split; [done|]. exists [].
    rewrite !app_nil_r. split_and!; try done; [by apply NoDup_nil|].
    intros pd Hpd. by apply elem_of_nil in Hpd.
  - cbn [collect_peers] in H. destruct (parsePeerSpec raw) as [e|pd] eqn:Ep.
    { exfalso. eapply (collect_errors bs raws P S (E ++ [e])); [by destruct E|by rewrite H]. }
    case_bool_decide as Hin.
    { exfalso. eapply (collect_errors bs raws P S); [|by rewrite H]. by destruct E. }
    cbv zeta in H. set (pd2 := if bool_decide (pd_Seed pd = []) then with_seed pd bs else pd) in *.
    assert (pd_ID pd2 = pd_ID pd) as Hid
      by (unfold pd2; by destruct (bool_decide (pd_Seed pd = []))).
    destruct (bool_decide (pd_Seed pd2 = [])) eqn:Es.
    { exfalso. eapply (collect_errors bs raws); [|by rewrite H]. by destruct E. }
    destruct (IH _ _ _ _ _ H) as (-> & new & -> & -> & Hf & Hs & Hnd & Hfresh).
    split; [done|]. exists (pd2 :: new). cbn [fmap list_fmap]. rewrite <- !app_assoc.
    split_and!; [done|done| | | |].
    + constructor; [|done]. by exists pd.
    + constructor; [|done]. by apply bool_decide_eq_false in Es.
    + apply NoDup_cons. split; [|done]. intros Hx. apply list_elem_of_fmap in Hx as (p & Hp & Hpin).
      apply (Hfresh p Hpin). rewrite <- Hp. apply elem_of_app. right. by left.
    + intros p Hp. apply elem_of_cons in Hp as [->|Hp]; [by rewrite Hid|].
      intros Hx. apply (Hfresh p Hp). apply elem_of_app. by left.
Qed.

Lemma collect_complete bs raws new : forall P S,
  Forall2 (declares bs) raws new -> Forall (fun pd => pd_Seed pd <> []) new ->
  NoDup (pd_ID <$> new) -> (forall pd, pd ∈ new -> pd_ID pd ∉ S) ->
  collect_peers bs raws P S [] = (P ++ new, S ++ (pd_ID <$> new), []).
Proof.
  intros P S H. revert P S. induction H as [|raw pd2 raws new (pd & Ep & Epd) _ IH];
    intros P S Hs Hnd Hfresh.
  - cbn. by rewrite !app_nil_r.
  - cbn [collect_peers]. rewrite Ep. apply Forall_cons in Hs as [Hs2 Hs].
    cbn [fmap list_fmap] in Hnd. apply NoDup_cons in Hnd as [Hx Hnd].
    assert (pd_ID pd2 = pd_ID pd) as Hid
      by (rewrite Epd; by destruct (bool_decide (pd_Seed pd = []))).
    rewrite bool_decide_false by (rewrite <- Hid; apply Hfresh; by left).
    cbv zeta. rewrite <- Epd. rewrite bool_decide_false by done.
    rewrite IH; [|done|done|].
    + cbn [fmap list_fmap]. by rewrite <- !app_assoc.
    + intros p Hp Hin. apply elem_of_app in Hin as [Hin|Hin%list_elem_of_singleton].
      * apply (Hfresh p); [by right|done].
      * apply Hx. rewrite <- Hin. apply list_elem_of_fmap. by exists p.
Qed.

Lemma parse_exact (raws : list gostring) (bs opener : gostring) (c : nPeerConfig) :
  parseNPeerSpecs raws bs opener = inr c <->
  2 <= Z.of_nat (length raws) <= maxNPeers
  /\ Forall2 (declares bs) raws (np_Peers c)
  /\ NoDup (pd_ID <$> np_Peers c)
  /\ Forall (fun pd => pd_Seed pd <> []) (np_Peers c)
  /\ np_OpenerID c ∈ (pd_ID <$> np_Peers c)
  /\ np_OpenerID c = (if bool_decide (opener ∈ [[]; "a"])
                      then default [] (head (pd_ID <$> np_Peers c)) else opener).
Proof.
  assert (forall ps : list peerDecl, match ps with pd :: _ => pd_ID pd | [] => [] end
    = default [] (head (pd_ID <$> ps))) as Hhead by by intros [].
  assert (bool_decide (opener = []) || bool_decide (opener = "a")
    = bool_decide (opener ∈ [[]; "a"])) as Hop.
  { rewrite <- bool_decide_or. apply bool_decide_ext. set_solver. }
  unfold parseNPeerSpecs. rewrite Hop. split.
  - destruct (collect_peers bs raws [] [] _) as [[peers seen] errs] eqn:E.
    intros H.
    assert (errs = [] /\ (bool_decide (opener ∈ [[]; "a"]) = true \/ opener ∈ seen)
      /\ c = {| np_Peers := peers; np_OpenerID := if bool_decide (opener ∈ [[]; "a"])
                  then default [] (head (pd_ID <$> peers)) else opener |}) as (-> & Hdecl & ->).
    { destruct (bool_decide (opener ∈ [[]; "a"])); [|case_bool_decide];
        [| |by destruct errs]; (destruct errs; [|done]); injection H as <-; rewrite ?Hhead; auto. }
    destruct (collect_sound _ _ _ _ _ _ _ E) as (Hpre & new & Hp & Hs & Hf & Hseed & Hnd & _).
    cbn [app] in Hp, Hs. subst peers seen. cbn [np_Peers np_OpenerID].
    apply app_nil in Hpre as [H2 H16].
    assert (2 <= Z.of_nat (length raws) <= maxNPeers) as Hn.
    { destruct (Z.ltb_spec (Z.of_nat (length raws)) 2), (Z.ltb_spec maxNPeers (Z.of_nat (length raws)));
        try done; lia. }
    split_and!; try done; try lia.
    pose proof (Forall2_length _ _ _ Hf) as HL.
    destruct (bool_decide (opener ∈ [[]; "a"])) eqn:Eo.
    + destruct new; [cbn in HL; lia|]. by left.
    + destruct Hdecl as [?|?]; [done|done].
  - destruct c as [peers openerID]. cbn [np_Peers np_OpenerID]. intros (Hn & Hf & Hnd & Hseed & Hin & Ho).
    rewrite (proj2 (Z.ltb_ge (Z.of_nat (length raws)) 2)) by lia.
    rewrite (proj2 (Z.ltb_ge maxNPeers (Z.of_nat (length raws)))) by lia. cbn [app].
    rewrite (collect_complete bs raws peers [] [] Hf Hseed Hnd) by (intros; apply not_elem_of_nil).
    cbn [app]. rewrite Ho in Hin |- *. rewrite Hhead.
    destruct (bool_decide (opener ∈ [[]; "a"])); [done|]. by rewrite bool_decide_true.
Qed.

(** ** Properties *)

(** Round trip of a [--peer] value.  A declaration with a valid id, a provider
    and options among the four option keys, written as key=value pairs with
    quoted values, is read back exactly, whatever bytes - commas, quotes,
    backslashes, line feeds - its values hold. *)
Theorem parsePeerSpec_roundtrip (pd : peerDecl)
    (Hid : peerIDRegex (pd_ID pd) = true) (Hprov : pd_Provider pd <> [])
    (Hopt : forall k, is_Some (pd_Options pd !! k) -> k ∈ option_keys) :
  parsePeerSpec (render_peer pd) = inr pd.
Proof.
  unfold parsePeerSpec, render_peer. rewrite parse_render.
  2: { eapply Forall_impl; [apply peer_kvs_keys|]. intros kv. apply allowed_key_ok. }
  rewrite <- (app_nil_r (peer_kvs pd)), peer_pairs_app by apply peer_kvs_keys. cbn [peer_pairs].
  unfold peer_kvs. rewrite foldl_app. cbn [foldl].
  rewrite set_options.
  2: { apply Forall_forall. intros kv Hkv. apply list_elem_of_omap in Hkv as (k & Hk & Hv).
       destruct (pd_Options pd !! k); cbn in Hv; [|done]. by injection Hv as <-. }
  set (start := set_pair _ (pair_of "seed" (pd_Seed pd))).
  assert (start = {| pd_ID := pd_ID pd; pd_Provider := pd_Provider pd; pd_Seed := pd_Seed pd;
                     pd_Options := ∅ |}) as -> by reflexivity.
  cbn [pd_ID pd_Provider pd_Seed pd_Options]. rewrite collect_options.
  assert (forall m0, m0 = ∅ ->
    map_imap (fun k v => if bool_decide (k ∈ option_keys) then Some v else None) (pd_Options pd)
    ∪ m0 = pd_Options pd) as Hm.
  { intros m0 ->. apply map_eq. intros i. rewrite lookup_union, map_lookup_imap, lookup_empty.
    destruct (pd_Options pd !! i) as [v|] eqn:E; [|done]. cbn.
    by rewrite bool_decide_true by (apply Hopt; by eexists). }
  rewrite Hm by done. cbn [pd_ID pd_Provider pd_Seed]. assert (pd_ID pd <> []) by by destruct (pd_ID pd).
  rewrite bool_decide_false by done. unfold PeerID_Validate. rewrite Hid.
  rewrite bool_decide_false by done. by destruct pd.
Qed.

Definition demo_decl : peerDecl :=
  {| pd_ID := "alice"; pd_Provider := "claude-code"; pd_Seed := "hello, " ++ DQ :: "you" ++ [DQ; BSL; LF];
     pd_Options := {[ "model" := "opus,4" ]} |}.

Lemma parsePeerSpec_roundtrip_witness : parsePeerSpec (render_peer demo_decl) = inr demo_decl.
Proof.
  apply (parsePeerSpec_roundtrip demo_decl); [reflexivity|discriminate|].
  intros k Hk. cbn in Hk. destruct (decide (k = "model")) as [->|Hne]; [by left|].
  rewrite lookup_singleton_ne in Hk by congruence. by destruct Hk.
Defined.

(** C23: the validation of [--peer] flags is exact.  [parseNPeerSpecs] accepts iff
    there are 2 to 16 values, each declares a peer, the ids are distinct, every
    peer has a seed of its own or the broadcast seed, and the opener is
    declared; the configuration then lists exactly the declared peers in order,
    and the opener is the first peer unless one other than "a" was named. *)
Theorem parseNPeerSpecs_exact (raws : list gostring) (bs opener : gostring) (c : nPeerConfig) :
  parseNPeerSpecs raws bs opener = inr c <->
  2 <= Z.of_nat (length raws) <= maxNPeers
  /\ Forall2 (declares bs) raws (np_Peers c)
  /\ NoDup (pd_ID <$> np_Peers c)
  /\ Forall (fun pd => pd_Seed pd <> []) (np_Peers c)
  /\ np_OpenerID c ∈ (pd_ID <$> np_Peers c)
  /\ np_OpenerID c = (if bool_decide (opener ∈ [[]; "a"])
                      then default [] (head (pd_ID <$> np_Peers c)) else opener).
Proof. apply parse_exact. Qed.
