(* ===== verification/Converse.v ===== *)
(** * The [converse] command ([internal/cli/converse.go], [converse_npeer_run.go])

    From parsed flags to the broker: the validation of both command forms, the
    conversation and the dependencies they build, the stream of turns, and the
    exit code.  [os.Stat] is a parameter: [None] when it fails, else whether
    the path is a directory.  A provider transport is named by its peer id. *)
From S2P Require Import Prelude GoLib Model Policy Envelope Bus Broker Protocol BrokerRun PeerFlags.

(** ** Repeatable flags *)

(** [repeatableFlag.Set] *)
Definition repeatableFlag_Set (values : gmap gostring gostring) (value : gostring)
    : option (gmap gostring gostring) :=
  match Index value "=" with
  | Some (S i) => Some (<[take (S i) value := drop (S (S i)) value]> values)
  | _ => None
  end.

(** [stringSliceFlag.Set] *)
Definition stringSliceFlag_Set (values : list gostring) (value : gostring) : list gostring :=
  values ++ [value].

(** ** The command *)

(** What [fs.Parse] leaves in the flag variables. *)
Record ConverseFlags := {
  peerA : gostring;
  peerB : gostring;
  seed : gostring;
  seedA : gostring;
  seedB : gostring;
  opener : gostring;
  maxTurns : Z;
  terminatorKind : gostring;
  sentinelTok : gostring;
  perTurnTimeout : Z;
  overallTimeout : Z;
  busKind : gostring;
  logBackend : gostring;
  logPath : gostring;
  workingDir : gostring;
  streamTurns : bool;
  replyStyle : gostring;
  peerAOpts : gmap gostring gostring;
  peerBOpts : gmap gostring gostring;
  nPeers : list gostring;
}.

(** The messages of exit code 2. *)
Inductive conv_error :=
| MixedPeerFlags
| MissingPeers
| MissingSeeds
| SeedExclusive
| BadOpener
| BadMaxTurns
| BadTerminator (kind : gostring)
| BadBus (kind : gostring)
| BadLogBackend (kind : gostring)
| BadStyle (style : gostring)
| BadPerTurnTimeout
| BadOverallTimeout
| TimeoutOverflow
| BadWorkingDir (path : gostring)
| BadPeers (es : list peer_error).

(** A validated command: what it runs the broker with. *)
Record launch := {
  ln_deps : BrokerDeps PeerID;
  ln_logPath : gostring;
  ln_stream : bool;
}.

Definition mergeOptions (opts : gmap gostring gostring) (workingDir : gostring)
    : gmap gostring gostring :=
  if bool_decide (workingDir <> []) && bool_decide (default [] (opts !! "cwd") = [])
  then <["cwd" := workingDir]> opts else opts.

Fixpoint converseFirstNonEmpty (values : list gostring) : gostring :=
  match values with
  | [] => []
  | v :: values => if bool_decide (v <> []) then v else converseFirstNonEmpty values
  end.

(** The overall timeout of the conversation, 0 meaning the default. *)
Definition overall_timeout (maxTurns perTurn overall : Z) : conv_error + Z :=
  if overall =? 0 then
    if (0 <? maxTurns) && (0 <? perTurn) && (MaxInt / maxTurns <? perTurn)
    then inl TimeoutOverflow else inr (wrap64 (maxTurns * perTurn))
  else inr overall.

Definition check (ok : bool) (e : conv_error) (k : conv_error + launch) : conv_error + launch :=
  if ok then k else inl e.

Section Converse.
Variable stat : gostring -> option bool.

(** The working directory, cleaned, when it is set and is a directory. *)
Definition check_dir (dir : gostring) : conv_error + gostring :=
  if bool_decide (dir = []) then inr dir
  else let dir := Clean dir in
       match stat dir with
       | Some true => inr dir
       | _ => inl (BadWorkingDir dir)
       end.

(** [runNPeerConverse], up to the broker. *)
Definition runNPeerConverse (f : ConverseFlags) (id : gostring) (now : time)
    : conv_error + launch :=
  match parseNPeerSpecs (nPeers f) (seed f) (opener f) with
  | inl es => inl (BadPeers es)
  | inr cfg =>
      check (bool_decide (terminatorKind f = "sentinel")) (BadTerminator (terminatorKind f)) (
      check (bool_decide (busKind f = "inproc")) (BadBus (busKind f)) (
      check (bool_decide (logBackend f = "file")) (BadLogBackend (logBackend f)) (
      check (IsValidStyle (replyStyle f)) (BadStyle (replyStyle f)) (
      check ((1 <=? maxTurns f) && (maxTurns f <=? 500)) BadMaxTurns (
      check ((1 <=? perTurnTimeout f) && (perTurnTimeout f <=? 3600)) BadPerTurnTimeout (
      check (overallTimeout f <=? 86400) BadOverallTimeout (
      match overall_timeout (maxTurns f) (perTurnTimeout f) (overallTimeout f) with
      | inl e => inl e
      | inr overall =>
          match check_dir (workingDir f) with
          | inl e => inl e
          | inr dir =>
              let '(peers0, seeds) := toV2Conversation cfg in
              let peers := (fun p => {| PP_ID := PP_ID p;
                PP_Spec := {| URI := URI (PP_Spec p);
                              Options := mergeOptions (Options (PP_Spec p)) dir |} |}) <$> peers0 in
              let conv := {|
                C_ID := id; SchemaVersion := 2; CreatedAt := now; C_EndedAt := None;
                C_Status := ConvRunning; MaxTurns := maxTurns f;
                PerTurnTimeout := perTurnTimeout f; OverallTimeout := overall;
                C_Terminator := {| TS_Kind := "sentinel"; TS_Sentinel := sentinelTok f;
                                   TS_JudgeURI := [] |};
                C_Peers := peers; Seeds := seeds; OpenerID := np_OpenerID cfg;
                C_PeerA := zeroPeerSpec; C_PeerB := zeroPeerSpec; SeedA := []; SeedB := [];
                Opener := []; TurnsConsumed := 0; C_ReplyStyle := replyStyle f |} in
              inr {| ln_deps := {|
                       deps_Conversation := conv; deps_PeerA := None; deps_PeerB := None;
                       deps_DrainWindow := 0; deps_Policy := None;
                       deps_PeersByID := foldl (fun m p => <[PP_ID p := PP_ID p]> m) ∅ peers;
                       deps_PeerOrder := PP_ID <$> peers |};
                     ln_logPath := Clean (logPath f); ln_stream := streamTurns f |}
          end
      end)))))))
  end.

(** [ConverseCommand], up to the broker. *)
Definition ConverseCommand (f : ConverseFlags) (id : gostring) (now : time)
    : conv_error + launch :=
  if bool_decide (nPeers f <> []) then
    check (bool_decide (peerA f = []) && bool_decide (peerB f = [])) MixedPeerFlags
      (runNPeerConverse f id now)
  else
    check (bool_decide (peerA f <> []) && bool_decide (peerB f <> [])) MissingPeers (
    check (bool_decide (seed f <> [])
           || (bool_decide (seedA f <> []) && bool_decide (seedB f <> []))) MissingSeeds (
    check (bool_decide (seed f = [])
           || (bool_decide (seedA f = []) && bool_decide (seedB f = []))) SeedExclusive (
    check (bool_decide (opener f = "a") || bool_decide (opener f = "b")) BadOpener (
    check ((1 <=? maxTurns f) && (maxTurns f <=? 500)) BadMaxTurns (
    check (bool_decide (terminatorKind f = "sentinel")) (BadTerminator (terminatorKind f)) (
    check (bool_decide (busKind f = "inproc")) (BadBus (busKind f)) (
    check (bool_decide (logBackend f = "file")) (BadLogBackend (logBackend f)) (
    check (IsValidStyle (replyStyle f)) (BadStyle (replyStyle f)) (
    check (1 <=? perTurnTimeout f) BadPerTurnTimeout (
    check (perTurnTimeout f <=? 3600) BadPerTurnTimeout (
    check (overallTimeout f <=? 86400) BadOverallTimeout (
    match overall_timeout (maxTurns f) (perTurnTimeout f) (overallTimeout f) with
    | inl e => inl e
    | inr overall =>
        match check_dir (workingDir f) with
        | inl e => inl e
        | inr dir =>
            let conv := {|
              C_ID := id; SchemaVersion := 0; CreatedAt := now; C_EndedAt := None;
              C_Status := ConvRunning; MaxTurns := maxTurns f;
              PerTurnTimeout := perTurnTimeout f; OverallTimeout := overall;
              C_Terminator := {| TS_Kind := "sentinel"; TS_Sentinel := sentinelTok f;
                                 TS_JudgeURI := [] |};
              C_Peers := []; Seeds := ∅; OpenerID := [];
              C_PeerA := {| URI := peerA f; Options := mergeOptions (peerAOpts f) dir |};
              C_PeerB := {| URI := peerB f; Options := mergeOptions (peerBOpts f) dir |};
              SeedA := converseFirstNonEmpty [seedA f; seed f];
              SeedB := converseFirstNonEmpty [seedB f; seed f];
              Opener := opener f; TurnsConsumed := 0; C_ReplyStyle := replyStyle f |} in
            inr {| ln_deps := {|
                     deps_Conversation := conv; deps_PeerA := Some PeerSlotA;
                     deps_PeerB := Some PeerSlotB; deps_DrainWindow := 0; deps_Policy := None;
                     deps_PeersByID := ∅; deps_PeerOrder := [] |};
                   ln_logPath := Clean (logPath f); ln_stream := streamTurns f |}
        end
    end)))))))))))).
End Converse.

(** The exit code after a run. *)
Definition exit_code (r : FinalResult) : Z :=
  let s := C_Status (FR_Conversation r) in
  if bool_decide (s ∈ [ConvCompletedSentinel; ConvCompletedJudge; ConvMaxTurnsHit; ConvInterrupted])
  then 0 else 1.

Lemma exit_code_cases r : exit_code r = 0 \/ exit_code r = 1.
Proof. unfold exit_code. cbv zeta. destruct (bool_decide _); auto. Qed.

(** ** Lemmas on the command *)

Lemma check_inr ok e k l : check ok e k = inr l -> ok = true /\ k = inr l.
Proof. by destruct ok. Qed.

Ltac checks H :=
  repeat (apply check_inr in H as [? H]; bool_facts).

Lemma overall_timeout_inr turns per overall o :
  1 <= turns <= 500 -> 1 <= per <= 3600 ->
  overall_timeout turns per overall = inr o -> o = if overall =? 0 then turns * per else overall.
Proof.
  intros Ht Hp. unfold overall_timeout. destruct (overall =? 0); [|by intros [= ->]].
  destruct (_ && _); [done|]. intros [= <-]. apply wrap64_id; unfold is_int, MinInt, MaxInt; nia.
Qed.

(** What a validated command hands to the broker. *)
Record launch_ok (f : ConverseFlags) (l : launch) : Prop := {
  lo_deps : deps_ok (ln_deps l);
  lo_turns : MaxTurns (deps_Conversation (ln_deps l)) = maxTurns f;
  lo_max : 1 <= maxTurns f <= 500;
  lo_per : PerTurnTimeout (deps_Conversation (ln_deps l)) = perTurnTimeout f;
  lo_per_max : 1 <= perTurnTimeout f <= 3600;
  lo_overall : OverallTimeout (deps_Conversation (ln_deps l))
    = if overallTimeout f =? 0 then maxTurns f * perTurnTimeout f else overallTimeout f;
  lo_overall_max : overallTimeout f <= 86400;
}.

Lemma peers_by_id (peers : list PeerParticipant) (id : PeerID) (m : gmap PeerID PeerID) :
  id ∈ (PP_ID <$> peers) \/ is_Some (m !! id) ->
  is_Some (foldl (fun m p => <[PP_ID p := PP_ID p]> m) m peers !! id).
Proof.
  revert m. induction peers as [|p peers IH]; intros m H; cbn [foldl].
  - destruct H as [H|H]; [by apply elem_of_nil in H|done].
  - apply IH. cbn [fmap list_fmap] in H. rewrite elem_of_cons in H.
    destruct (decide (id = PP_ID p)) as [->|Hne]; [right; eexists; apply lookup_insert_eq|].
    rewrite lookup_insert_ne by done. naive_solver.
Qed.

Section Lemmas.
Variable stat : gostring -> option bool.

Lemma runNPeer_ok f id now l :
  runNPeerConverse stat f id now = inr l -> launch_ok f l
  /\ Broker.n_peer (ln_deps l) = true.
Proof.
  unfold runNPeerConverse. destruct (parseNPeerSpecs _ _ _) as [es|cfg] eqn:Ep; [done|].
  apply parse_exact in Ep as (Hn & Hf & Hnd & _ & Hin & _). apply Forall2_length in Hf.
  intros H. checks H. destruct (overall_timeout _ _ _) as [e|o] eqn:Eo; [done|].
  apply overall_timeout_inr in Eo; [|lia..]. destruct (check_dir stat _) as [e|dir]; [done|].
  destruct (toV2Conversation cfg) as [peers0 seeds] eqn:Et. injection Et as Ep0 _.
  match type of H with context [foldl _ _ ?ps] => set (peers := ps) in * end.
  assert (PP_ID <$> peers = pd_ID <$> np_Peers cfg) as Hids.
  { unfold peers. rewrite <- Ep0, <- !list_fmap_compose. by apply list_fmap_ext. }
  clearbody peers. injection H as <-.
  assert (forall id : PeerID, id ∈ (PP_ID <$> peers) ->
    is_Some (foldl (fun m p => <[PP_ID p := PP_ID p]> m) (∅ : gmap PeerID PeerID) peers !! id))
    as Hm by (intros; apply peers_by_id; by left).
  assert (PP_ID <$> peers <> []) as Hne.
  { rewrite Hids. destruct (np_Peers cfg); [cbn in *; lia|done]. }
  split; [split; cbn; try done; try lia|].
  2: { unfold Broker.n_peer. cbn. rewrite bool_decide_false; [done|]. intros E.
       destruct (PP_ID <$> peers) as [|i ids] eqn:Ei; [done|]. destruct (Hm i) as [x Hx]; [by left|].
       by rewrite E in Hx. }
  split; cbn.
  - unfold makeslice_ok. lia.
  - intros _. done.
  - unfold Broker.n_peer. cbn. intros E. apply negb_false_iff in E. bool_facts.
    destruct (PP_ID <$> peers) as [|i ids] eqn:Ei; [done|]. destruct (Hm i) as [x Hx]; [by left|].
    by rewrite E in Hx.
  - intros _. right. by rewrite Hids.
Qed.

Lemma ConverseCommand_ok f id now l :
  ConverseCommand stat f id now = inr l -> launch_ok f l.
Proof.
  unfold ConverseCommand. case_bool_decide.
  { intros H1. checks H1. by apply runNPeer_ok in H1 as [? _]. }
  intros H1. checks H1. destruct (overall_timeout _ _ _) as [e|o] eqn:Eo; [done|].
  apply overall_timeout_inr in Eo; [|lia..]. destruct (check_dir stat _) as [e|dir]; [done|].
  injection H1 as <-. split; cbn; try done; try lia. split; cbn.
  - unfold makeslice_ok. lia.
  - done.
  - intros _. split; by eexists.
  - done.
Qed.

(** The conversation that a validated command runs. *)
Lemma ConverseCommand_conversation f id now l :
  ConverseCommand stat f id now = inr l ->
  let conv := deps_Conversation (ln_deps l) in
  C_ID conv = id /\ C_Terminator conv = {| TS_Kind := "sentinel"; TS_Sentinel := sentinelTok f; TS_JudgeURI := [] |}.
Proof.
  unfold ConverseCommand. case_bool_decide; intros H1; checks H1.
  - unfold runNPeerConverse in H1. destruct (parseNPeerSpecs _ _ _) as [es|cfg]; [done|]. checks H1.
    destruct (overall_timeout _ _ _) as [e|o]; [done|]. destruct (check_dir stat _) as [e|dir]; [done|].
    destruct (toV2Conversation cfg) as [peers0 seeds]. by injection H1 as <-.
  - destruct (overall_timeout _ _ _) as [e|o]; [done|]. destruct (check_dir stat _) as [e|dir]; [done|].
    by injection H1 as <-.
Qed.
End Lemmas.

(** ** Properties *)

(** A validated command runs.  Whenever [converse] accepts its flags, in either
    form, and whatever its peers, store, bus and terminator then do, the broker
    never panics, needs no more than 500 rounds, and returns a result with at
    most the turns the flags allow. *)
Theorem ConverseCommand_runs {World : Type} {env : BrokerEnv World PeerID}
    (stat : gostring -> option bool) (f : ConverseFlags) (id : gostring) (now : time)
    (l : launch) (w : World) (Hcmd : ConverseCommand stat f id now = inr l)
    (Hrand : random_ok (World := World) (Transport := PeerID)) :
  exists r s, Run (ln_deps l) 500 (w, []) = (Some r, s)
  /\ Z.of_nat (length (FR_Turns r)) <= maxTurns f <= 500.
Proof.
  pose proof (ConverseCommand_ok _ _ _ _ _ Hcmd) as [Hok Ht Hm _ _ _ _].
  destruct (Run_spec (ln_deps l) 500 w Hok Hrand ltac:(lia)) as (r & w' & log & HR & Hl).
  exists r, (w', log). split; [done|]. apply (run_log_facts _ _ _ Hok) in Hl.
  apply turns_bound in Hl. lia.
Qed.

(** The timeouts of a validated command.  The per-turn timeout is the flag's, as
    a duration that does not overflow; the overall timeout is the flag's when it
    is set, and the product of the turn cap and the per-turn timeout, at most
    1,800,000 seconds, when it is not; as a duration neither overflows. *)
Theorem ConverseCommand_timeouts (stat : gostring -> option bool) (f : ConverseFlags)
    (id : gostring) (now : time) (l : launch)
    (Hcmd : ConverseCommand stat f id now = inr l) (Hoverall : 0 <= overallTimeout f) :
  let conv := deps_Conversation (ln_deps l) in
  PerTurnTimeoutDuration conv = perTurnTimeout f * Second
  /\ Second <= PerTurnTimeoutDuration conv <= 3600 * Second
  /\ OverallTimeoutDuration conv
     = (if overallTimeout f =? 0 then maxTurns f * perTurnTimeout f else overallTimeout f) * Second
  /\ Second <= OverallTimeoutDuration conv <= 1800000 * Second.
Proof.
  intros conv. apply ConverseCommand_ok in Hcmd as [_ _ Hm Hp Hpm Ho Hom]. fold conv in Hp, Ho.
  unfold PerTurnTimeoutDuration, OverallTimeoutDuration. rewrite Hp, Ho. unfold Second in *.
  assert (1 <= maxTurns f * perTurnTimeout f <= 1800000) by nia.
  destruct (Z.eqb_spec (overallTimeout f) 0);
    rewrite !wrap64_id by (unfold is_int, MinInt, MaxInt; lia); lia.
Qed.

(** The exit code.  The run of a validated command exits with 0 exactly when no
    call of the broker gave a reason to stop, or the one that did is a
    cancellation or a verdict whose status is completed, capped or interrupted;
    a failed start, subscription or delivery, a crash and a block exit with 1. *)
Theorem converse_exit_code {World : Type} {env : BrokerEnv World PeerID}
    (stat : gostring -> option bool) (f : ConverseFlags) (id : gostring) (now : time)
    (l : launch) (w w' : World) (r : FinalResult) (log : list (call PeerID))
    (Hcmd : ConverseCommand stat f id now = inr l)
    (Hrand : random_ok (World := World) (Transport := PeerID))
    (HR : Run (ln_deps l) 500 (w, []) = (Some r, (w', log))) :
  exit_code r = 0 <->
  reasons log = []
  \/ exists s, reasons log = [s]
     /\ s ∈ [ConvCompletedSentinel; ConvCompletedJudge; ConvMaxTurnsHit; ConvInterrupted].
Proof.
  pose proof (ConverseCommand_ok _ _ _ _ _ Hcmd) as [Hok Ht Hm _ _ _ _].
  destruct (Run_facts _ 500 w r w' log Hok Hrand ltac:(lia) HR) as [_ Hf].
  unfold exit_code. destruct (rf_ending _ _ _ Hf) as [(-> & -> & _)|[-> _]].
  - split; [by left|]. intros _. by rewrite bool_decide_true by (apply (bool_decide_unpack _); done).
  - case_bool_decide as Hs; split; intros H; try done; [right; by eexists|].
    destruct H as [H|(s & [= <-] & H)]; done.
Qed.

(** ** The properties at a command of three peers *)

Definition demo_flags : ConverseFlags :=
  {| peerA := []; peerB := []; seed := "hello"; seedA := []; seedB := []; opener := "bob";
     maxTurns := 4; terminatorKind := "sentinel"; sentinelTok := "<<END>>";
     perTurnTimeout := 300; overallTimeout := 0; busKind := "inproc"; logBackend := "file";
     logPath := "./logs"; workingDir := "/srv/work/"; streamTurns := true; replyStyle := "normal";
     peerAOpts := ∅; peerBOpts := ∅;
     nPeers := ["id=alice,provider=claude-code"; "id=bob,provider=codex,cwd=/tmp";
                "id=carol,provider=mock"] |}.

Definition demo_launch : conv_error + launch :=
  ConverseCommand (fun _ => Some true) demo_flags "conv_1" 7.

Definition demo_ln : launch :=
  match demo_launch with
  | inr l => l
  | inl _ => {| ln_deps := Sim.deps; ln_logPath := []; ln_stream := false |}
  end.

Lemma demo_ok : ConverseCommand (fun _ => Some true) demo_flags "conv_1" 7 = inr demo_ln.
Proof.
  change (demo_launch = inr demo_ln). unfold demo_ln.
  destruct demo_launch eqn:E; [|done]. vm_compute in E. discriminate.
Qed.

Lemma ConverseCommand_runs_witness :
  exists r s, Run demo_ln.(ln_deps) 500 (Sim.start, []) = (Some r, s)
  /\ Z.of_nat (length (FR_Turns r)) <= 4 <= 500.
Proof.
  exact (ConverseCommand_runs (fun _ => Some true) demo_flags "conv_1" 7 demo_ln Sim.start demo_ok
           Sim.random_ok).
Defined.

Lemma ConverseCommand_timeouts_witness :
  OverallTimeoutDuration (deps_Conversation (ln_deps demo_ln)) = 1200 * Second.
Proof.
  exact (proj1 (proj2 (proj2 (ConverseCommand_timeouts (fun _ => Some true) demo_flags "conv_1" 7
    demo_ln demo_ok ltac:(vm_compute; congruence))))).
Defined.

(** Bob speaks first, as the flags ask, and the run exits with 1 when the script
    of the peers runs out. *)
Definition demo_run := Run (ln_deps demo_ln) 500 (Sim.start, []).
Definition demo_res : FinalResult := default Sim.res (fst demo_run).

Lemma demo_run_eq :
  Run (ln_deps demo_ln) 500 (Sim.start, []) = (Some demo_res, (fst (snd demo_run), snd (snd demo_run))).
Proof. vm_compute. reflexivity. Qed.

Lemma converse_exit_code_witness :
  exit_code demo_res = 1 /\ (T_FromID <$> FR_Turns demo_res) = ["bob"; "carol"]
  /\ ~ (reasons (snd (snd demo_run)) = [] \/ exists s, reasons (snd (snd demo_run)) = [s]
     /\ s ∈ [ConvCompletedSentinel; ConvCompletedJudge; ConvMaxTurnsHit; ConvInterrupted]).
Proof.
  split; [vm_compute; reflexivity|]. split; [vm_compute; reflexivity|]. intros H.
  apply (converse_exit_code (fun _ => Some true) demo_flags "conv_1" 7 demo_ln Sim.start _ demo_res
           _ demo_ok Sim.random_ok demo_run_eq) in H.
  vm_compute in H. discriminate.
Defined.
