(* ===== verification/FileSys.v ===== *)
(** * The file system, JSON and sorting, as the stores use them

    The calls of package [os] on an in-memory tree: contents by path and a set
    of directories.  A call may fail: the schedule [fs_faults] says, call by
    call, whether it does and how many bytes a failing write still stores, so a
    theorem over every schedule covers full disks, and a crash at any call (every
    later call then fails without effect).  [encoding/json] and [sort.Slice] are
    classes: the first has no laws, the second those of its documentation. *)
From S2P Require Import Prelude GoLib Model.

(** ** [encoding/json] *)
Class JSON (A : Type) := {
  json_Marshal : A -> result gostring;
  json_MarshalIndent : A -> result gostring;
  json_Unmarshal : gostring -> result A;
}.

(** The text of [a] that a store wrote reads back as [a]. *)
Definition json_faithful {A} `{JSON A} (a : A) : Prop :=
  exists b, json_MarshalIndent a = Ok b /\ json_Unmarshal b = Ok a.

(** The line of [a] that a store appended reads back as [a]; the compact
    encoding has no line feed and does not end in a carriage return. *)
Definition json_line {A} `{JSON A} (a : A) (b : gostring) : Prop :=
  json_Marshal a = Ok b /\ json_Unmarshal b = Ok a /\ LF ∉ b /\ b <> [] /\ last b <> Some CR.

(** ** [sort.Slice] *)
Class SortSlice := {
  sort_Slice : forall {A : Type}, (A -> A -> bool) -> list A -> list A;
  sort_Slice_perm : forall A (less : A -> A -> bool) l, sort_Slice less l ≡ₚ l;
  sort_Slice_sorted : forall A (less : A -> A -> bool) (key : A -> Z) l,
    (forall x y, less x y = (key x <? key y)) ->
    StronglySorted (fun x y => key x <= key y) (sort_Slice less l);
}.

(** ** The tree *)
Inductive fault :=
| NoFault
| FaultOpen
| FaultWrite (k : nat).

Record FS := {
  fs_files : gmap gostring gostring;
  fs_dirs : gset gostring;
  fs_faults : list fault;
}.

Definition set_files (fs : FS) (m : gmap gostring gostring) : FS :=
  {| fs_files := m; fs_dirs := fs_dirs fs; fs_faults := fs_faults fs |}.
Definition set_dirs (fs : FS) (d : gset gostring) : FS :=
  {| fs_files := fs_files fs; fs_dirs := d; fs_faults := fs_faults fs |}.

(** The fault of the next call. *)
Definition next_fault (fs : FS) : fault * FS :=
  (match fs_faults fs with f :: _ => f | [] => NoFault end,
   {| fs_files := fs_files fs; fs_dirs := fs_dirs fs; fs_faults := drop 1 (fs_faults fs) |}).

Definition parent (p : gostring) : gostring :=
  match drop_while (fun c => negb (ceq c "/")) (rev p) with
  | [] => "."
  | [_] => "/"
  | _ :: r => rev r
  end.

Definition is_dir (fs : FS) (p : gostring) : bool :=
  bool_decide (p ∈ [[]; "."; "/"]%go) || bool_decide (p ∈ fs_dirs fs).

Definition ErrIO : goerr := ErrNew "input/output error".
Definition ErrNoEnt (p : gostring) : goerr := ErrNotExist ("open " ++ p ++ ": no such file or directory").

Definition IO (A : Type) : Type := FS -> result A * FS.

#[export] Instance IO_ret : MRet IO := fun _ a fs => (Ok a, fs).
#[export] Instance IO_bind : MBind IO := fun _ _ f m fs =>
  match m fs with
  | (Ok a, fs) => f a fs
  | (Err e, fs) => (Err e, fs)
  end.

(** [fmt.Errorf("...: %w", err)] around a call. *)
Definition wrap_err {A} (pre : gostring) (m : IO A) : IO A := fun fs =>
  match m fs with
  | (Err e, fs) => (Err (ErrWrapped pre e), fs)
  | r => r
  end.

Definition of_result {A} (r : result A) : IO A := fun fs => (r, fs).

(** [defer k]: [k] runs after [m], its own error is dropped. *)
Definition defer_io {A B} (k : IO B) (m : IO A) : IO A := fun fs =>
  let '(r, fs) := m fs in (r, snd (k fs)).

Definition ReadFile (p : gostring) : IO gostring := fun fs =>
  let '(f, fs) := next_fault fs in
  match f with
  | NoFault => match fs_files fs !! p with
               | Some b => (Ok b, fs)
               | None => (if is_dir fs p then Err (ErrNew ("read " ++ p ++ ": is a directory"))
                          else Err (ErrNoEnt p), fs)
               end
  | _ => (Err ErrIO, fs)
  end.

(** [os.WriteFile] truncates before it writes. *)
Definition WriteFile (p b : gostring) : IO unit := fun fs =>
  let '(f, fs) := next_fault fs in
  if is_dir fs p then (Err (ErrNew ("open " ++ p ++ ": is a directory")), fs)
  else if negb (is_dir fs (parent p)) then (Err (ErrNoEnt p), fs)
  else match f with
       | NoFault => (Ok tt, set_files fs (<[p := b]> (fs_files fs)))
       | FaultOpen => (Err ErrIO, fs)
       | FaultWrite k => (Err ErrIO, set_files fs (<[p := take k b]> (fs_files fs)))
       end.

(** [os.OpenFile] with [O_CREATE|O_APPEND|O_WRONLY]. *)
Definition OpenAppend (p : gostring) : IO unit := fun fs =>
  let '(f, fs) := next_fault fs in
  if is_dir fs p then (Err (ErrNew ("open " ++ p ++ ": is a directory")), fs)
  else if negb (is_dir fs (parent p)) then (Err (ErrNoEnt p), fs)
  else match f with
       | NoFault => (Ok tt, set_files fs (<[p := default [] (fs_files fs !! p)]> (fs_files fs)))
       | _ => (Err ErrIO, fs)
       end.

(** [file.Write] on that handle. *)
Definition WriteAppend (p b : gostring) : IO unit := fun fs =>
  let '(f, fs) := next_fault fs in
  let grow b := set_files fs (<[p := default [] (fs_files fs !! p) ++ b]> (fs_files fs)) in
  match f with
  | NoFault => (Ok tt, grow b)
  | FaultOpen => (Err ErrIO, fs)
  | FaultWrite k => (Err ErrIO, grow (take k b))
  end.

(** [os.Rename] is atomic: it fails without effect. *)
Definition Rename (p q : gostring) : IO unit := fun fs =>
  let '(f, fs) := next_fault fs in
  match f, fs_files fs !! p with
  | NoFault, Some b =>
      if is_dir fs q then (Err (ErrNew ("rename " ++ p ++ " " ++ q ++ ": file exists")), fs)
      else if negb (is_dir fs (parent q)) then (Err (ErrNoEnt q), fs)
      else (Ok tt, set_files fs (<[q := b]> (delete p (fs_files fs))))
  | NoFault, None => (Err (ErrNoEnt p), fs)
  | _, _ => (Err ErrIO, fs)
  end.

Definition Remove (p : gostring) : IO unit := fun fs =>
  let '(f, fs) := next_fault fs in
  match f, fs_files fs !! p with
  | NoFault, Some _ => (Ok tt, set_files fs (delete p (fs_files fs)))
  | NoFault, None => (Err (ErrNoEnt p), fs)
  | _, _ => (Err ErrIO, fs)
  end.

(** [p] and the directories above it; a path has no more of them than bytes. *)
Fixpoint ancestors (fuel : nat) (p : gostring) : list gostring :=
  match fuel with
  | O => []
  | S fuel => if bool_decide (p ∈ [[]; "."; "/"]%go) then [] else p :: ancestors fuel (parent p)
  end.

Definition MkdirAll (p : gostring) : IO unit := fun fs =>
  let '(f, fs) := next_fault fs in
  let ds := ancestors (S (length p)) p in
  if existsb (fun d => bool_decide (is_Some (fs_files fs !! d))) ds
  then (Err (ErrNew ("mkdir " ++ p ++ ": not a directory")), fs)
  else match f with
       | NoFault => (Ok tt, set_dirs fs (list_to_set ds ∪ fs_dirs fs))
       | _ => (Err ErrIO, fs)
       end.

(** The name of [p] when it is an entry of [d]. *)
Definition entry_of (d p : gostring) : option gostring :=
  let name := drop (length d + 1) p in
  if bool_decide (p = d ++ "/" ++ name) && negb (bool_decide ("/"%char ∈ name))
     && negb (bool_decide (name = []))
  then Some name else None.

Fixpoint name_leb (a b : gostring) : bool :=
  match a, b with
  | [], _ => true
  | _ :: _, [] => false
  | x :: a, y :: b => (ord x <? ord y) || (ceq x y && name_leb a b)
  end.

Definition entry_le (a b : gostring * bool) : Prop := name_leb (fst a) (fst b) = true.
#[export] Instance entry_le_dec : RelDecision entry_le.
Proof. intros a b. unfold entry_le. apply _. Defined.

(** [os.ReadDir]: the entries by name, and whether each is a directory. *)
Definition ReadDir (d : gostring) : IO (list (gostring * bool)) := fun fs =>
  let '(f, fs) := next_fault fs in
  match f with
  | NoFault =>
      if is_dir fs d then
        (Ok (merge_sort entry_le
               (omap (fun p => (fun n => (n, false)) <$> entry_of d p) (fst <$> map_to_list (fs_files fs))
                ++ omap (fun p => (fun n => (n, true)) <$> entry_of d p) (elements (fs_dirs fs)))), fs)
      else (Err (ErrNoEnt d), fs)
  | _ => (Err ErrIO, fs)
  end.

(** ** [bufio.Scanner] over a file *)
Definition drop_cr (l : gostring) : gostring :=
  match rev l with c :: r => if ceq c CR then rev r else l | [] => [] end.

Definition ErrTooLong : goerr := ErrNew "bufio.Scanner: token too long".

(** The tokens of the pieces between line feeds, in a buffer of [max] bytes,
    and the error that stopped the scan. *)
Fixpoint scan_lines (max : Z) (pieces : list gostring) : list gostring * option goerr :=
  match pieces with
  | [] => ([], None)
  | l :: ps =>
      if bool_decide (ps = []) && bool_decide (l = []) then ([], None)
      else if Z.of_nat (length l) <? max then
        let '(ls, e) := scan_lines max ps in (drop_cr l :: ls, e)
      else ([], Some ErrTooLong)
  end.

Definition Scan (max : Z) (b : gostring) : list gostring * option goerr :=
  scan_lines max (SplitByte LF b).

(** [os.Open], and a scan to the end; a failing read ends the text early. *)
Definition OpenScan (max : Z) (p : gostring) : IO (list gostring * option goerr) := fun fs =>
  let '(f, fs) := next_fault fs in
  match f, fs_files fs !! p with
  | FaultOpen, _ => (Err ErrIO, fs)
  | NoFault, Some b => (Ok (Scan max b), fs)
  | FaultWrite k, Some b =>
      let '(ls, e) := Scan max (take k b) in
      (Ok (ls, Some (default ErrIO e)), fs)
  | _, None =>
      if is_dir fs p then (Ok ([], Some (ErrNew ("read " ++ p ++ ": is a directory"))), fs)
      else (Err (ErrNoEnt p), fs)
  end.

Definition Ext (name : gostring) : gostring :=
  let r := rev name in
  let tail := drop_while (fun c => negb (ceq c "." || ceq c "/")) r in
  match tail with
  | c :: _ => if ceq c "." then drop (length tail - 1) name else []
  | [] => []
  end.

Example Ext_examples : Ext <$> ["a.json"; "a.json.tmp"; "json"; "a.b/c"; ".json"] = [".json"; ".tmp"; ""; ""; ".json"]%go.
Proof. reflexivity. Qed.
