(* ===== verification/Store.v ===== *)
(** * The file store ([internal/store/file])

    Sessions and conversations are one JSON file each, turns and raw events one
    line each of a JSON-lines file.  Every operation of the store is a program
    on the file system of [FileSys]; the mutex of the store makes an operation
    one step. *)
From S2P Require Import Prelude GoLib Model FileSys.

Record Store := {
  st_root : gostring;
  st_debugRaw : bool;
}.

Section Store.
Context {jS : JSON Session} {jT : JSON Turn} {jC : JSON Conversation} {jCT : JSON ConversationTurn}.
Context {srt : SortSlice}.
(** The JSON of the anonymous struct that [AppendStreamEvent] builds. *)
Context (marshal_event : StoredStreamEvent -> result gostring).
Variable s : Store.

(** ** Paths *)
Definition conversationsDir : gostring := JoinPath [st_root s; "conversations"].
Definition conversationPath (id : gostring) : gostring := JoinPath [conversationsDir; id ++ ".json"].
Definition conversationTurnPath (id : gostring) : gostring :=
  JoinPath [conversationsDir; id ++ ".jsonl"].
Definition sessionsDir : gostring := JoinPath [st_root s; "sessions"].
Definition turnsDir : gostring := JoinPath [st_root s; "turns"].
Definition rawDir : gostring := JoinPath [st_root s; "raw"].
Definition sessionPath (id : gostring) : gostring := JoinPath [sessionsDir; id ++ ".json"].
Definition turnPath (id : gostring) : gostring := JoinPath [turnsDir; id ++ ".jsonl"].
Definition rawPath (id : gostring) : gostring := JoinPath [rawDir; id ++ ".jsonl"].

(** ** Files *)
Definition writeJSONAtomic {A} `{JSON A} (path : gostring) (value : A) : IO unit :=
  let tmp := path ++ ".tmp" in
  data ← wrap_err "marshal json: " (of_result (json_MarshalIndent value));
  _ ← wrap_err "write temp file: " (WriteFile tmp data);
  defer_io (Remove tmp) (wrap_err "rename temp file: " (Rename tmp path)).

Definition readJSON {A} `{JSON A} (path : gostring) : IO A :=
  data ← wrap_err "read json: " (ReadFile path);
  wrap_err "unmarshal json: " (of_result (json_Unmarshal data)).

Definition appendJSONL {A} (marshal : A -> result gostring) (path : gostring) (value : A) : IO unit :=
  _ ← wrap_err "open jsonl: " (OpenAppend path);
  data ← wrap_err "marshal jsonl: " (of_result (marshal value));
  wrap_err "append jsonl: " (WriteAppend path (data ++ [LF])).

(** The decoding loop over the lines of a log. *)
Fixpoint decode_lines {A} `{JSON A} (pre : gostring) (ls : list gostring) : result (list A) :=
  match ls with
  | [] => Ok []
  | l :: ls =>
      match json_Unmarshal l with
      | Err e => Err (ErrWrapped pre e)
      | Ok a => rest ← decode_lines pre ls; Ok (a :: rest)
      end
  end.

(** The last [n], all of them when [n] is not positive. *)
Definition last_n {A} (n : Z) (l : list A) : list A :=
  if (0 <? n) && (n <? Z.of_nat (length l)) then drop (length l - Z.to_nat n) l else l.

(** [PeekTurns] and [PeekConversationTurns], the buffer and messages apart. *)
Definition peek {A} `{JSON A} (index : A -> Z) (max : Z) (what path : gostring) (lastN : Z)
    : IO (list A) := fun fs =>
  match OpenScan max path fs with
  | (Err e, fs) =>
      (if is_not_exist e then Ok [] else Err (ErrWrapped ("open " ++ what ++ "s: ") e), fs)
  | (Ok (ls, err), fs) =>
      (turns ← decode_lines ("decode " ++ what ++ ": ") ls;
       match err with
       | Some e => Err (ErrWrapped ("scan " ++ what ++ "s: ") e)
       | None => Ok (last_n lastN (sort_Slice (fun x y => index x <? index y) turns))
       end, fs)
  end.

(** The loop over the entries of a directory: what it reads and keeps. *)
Fixpoint list_entries {A} `{JSON A} (keep : A -> bool) (dir : gostring)
    (entries : list (gostring * bool)) (fs : FS) : list A * FS :=
  match entries with
  | [] => ([], fs)
  | (name, isdir) :: entries =>
      if isdir || negb (bool_decide (Ext name = ".json")) then list_entries keep dir entries fs
      else
        let '(r, fs) := ReadFile (JoinPath [dir; name]) fs in
        let '(rest, fs) := list_entries keep dir entries fs in
        (match r with
         | Ok data => match json_Unmarshal data with
                      | Ok a => if keep a then a :: rest else rest
                      | Err _ => rest
                      end
         | Err _ => rest
         end, fs)
  end.

(** A page of [all]. *)
Definition page {A} (limit offset : Z) (all : list A) : list A :=
  if Z.of_nat (length all) <=? offset then []
  else let all := if 0 <? offset then drop (Z.to_nat offset) all else all in
       if (0 <? limit) && (limit <? Z.of_nat (length all)) then take (Z.to_nat limit) all else all.

(** [ListSessions] and [ListConversations]: newest first, a page and the total. *)
Definition list_dir {A} `{JSON A} (keep : A -> bool) (started : A -> time) (limit offset : Z)
    (dir : gostring) : IO (list A * Z) := fun fs =>
  match ReadDir dir fs with
  | (Err e, fs) => (if is_not_exist e then Ok ([], 0) else Err e, fs)
  | (Ok entries, fs) =>
      let '(all, fs) := list_entries keep dir entries fs in
      let all := sort_Slice (fun x y => started y <? started x) all in
      (Ok (page limit offset all, Z.of_nat (length all)), fs)
  end.

(** [GetSession] and [GetConversation]; [None] is a nil pointer. *)
Definition get {A} `{JSON A} (path : gostring) : IO (option A) := fun fs =>
  match ReadFile path fs with
  | (Err e, fs) => (if is_not_exist e then Ok None else Err e, fs)
  | (Ok data, fs) => (a ← json_Unmarshal data; Ok (Some a), fs)
  end.

(** ** Sessions *)
Definition set_default {A} (o : option A) (a : A) : A := default a o.
Definition set_option {A} (o old : option A) : option A :=
  match o with Some _ => o | None => old end.

Definition patch_session (p : SessionPatch) (x : Session) : Session :=
  {| S_ID := S_ID x; S_Provider := S_Provider x; S_Status := set_default (SP_Status p) (S_Status x);
     S_StartedAt := S_StartedAt x; S_EndedAt := set_option (SP_EndedAt p) (S_EndedAt x);
     S_DurationMs := set_option (SP_DurationMs p) (S_DurationMs x);
     S_ExitCode := set_option (SP_ExitCode p) (S_ExitCode x);
     S_ParserConfidence := set_option (SP_ParserConfidence p) (S_ParserConfidence x);
     S_ObservationConfidence := set_option (SP_ObservationConfidence p) (S_ObservationConfidence x);
     S_AuthMode := set_default (SP_AuthMode p) (S_AuthMode x);
     S_BlockedReason := set_option (SP_BlockedReason p) (S_BlockedReason x);
     S_BytesCaptured := set_option (SP_BytesCaptured p) (S_BytesCaptured x);
     S_Warnings := set_default (SP_Warnings p) (S_Warnings x);
     S_TerminalCols := set_option (SP_TerminalCols p) (S_TerminalCols x);
     S_TerminalRows := set_option (SP_TerminalRows p) (S_TerminalRows x) |}.

Definition CreateSession (x : Session) : IO unit := writeJSONAtomic (sessionPath (S_ID x)) x.

Definition UpdateSession (id : gostring) (p : SessionPatch) : IO unit :=
  x ← readJSON (sessionPath id);
  writeJSONAtomic (sessionPath id) (patch_session p x).

Definition GetSession (id : gostring) : IO (option Session) := get (sessionPath id).

Definition ListSessions (f : SessionFilter) : IO (list Session * Z) :=
  list_dir (fun x => match SF_Status f with
                     | Some st => bool_decide (S_Status x = st)
                     | None => true
                     end) S_StartedAt (SF_Limit f) (SF_Offset f) sessionsDir.

Definition AppendTurn (t : Turn) : IO unit := appendJSONL json_Marshal (turnPath (TU_SessionID t)) t.

(** [bufio.MaxScanTokenSize] *)
Definition MaxScanTokenSize : Z := 64 * 1024.

Definition PeekTurns (id : gostring) (lastN : Z) : IO (list Turn) :=
  peek TU_Index MaxScanTokenSize "turn" (turnPath id) lastN.

Definition AppendStreamEvent (e : StoredStreamEvent) : IO unit :=
  if st_debugRaw s then appendJSONL marshal_event (rawPath (SSE_SessionID e)) e else mret tt.

(** ** Conversations *)
Definition stampSchemaVersion (c : Conversation) : Conversation :=
  if negb (SchemaVersion c =? 0) then c
  else if negb (bool_decide (C_Peers c = [])) || negb (bool_decide (Seeds c = ∅))
          || negb (bool_decide (OpenerID c = []))
  then set_schema_version c 2 else c.

Definition patch_conversation (p : ConversationPatch) (c : Conversation) : Conversation :=
  set_consumed
    (set_ended (set_status c (set_default (CP_Status p) (C_Status c)))
       (set_option (CP_EndedAt p) (C_EndedAt c)))
    (set_default (CP_TurnsConsumed p) (TurnsConsumed c)).

Definition CreateConversation (c : Conversation) : IO unit :=
  _ ← wrap_err "mkdir conversations: " (MkdirAll conversationsDir);
  writeJSONAtomic (conversationPath (C_ID c)) (stampSchemaVersion c).

Definition UpdateConversation (id : gostring) (p : ConversationPatch) : IO unit :=
  c ← readJSON (conversationPath id);
  writeJSONAtomic (conversationPath id) (patch_conversation p c).

Definition AppendConversationTurn (t : ConversationTurn) : IO unit :=
  _ ← wrap_err "mkdir conversations: " (MkdirAll conversationsDir);
  appendJSONL json_Marshal (conversationTurnPath (T_ConversationID t)) t.

Definition maxConversationLine : Z := 1024 * 1024.

Definition PeekConversationTurns (id : gostring) (lastN : Z) : IO (list ConversationTurn) :=
  peek T_Index maxConversationLine "conversation turn" (conversationTurnPath id) lastN.

Definition GetConversation (id : gostring) : IO (option Conversation) := get (conversationPath id).

Definition ListConversations (f : ConversationFilter) : IO (list Conversation * Z) :=
  list_dir (fun c => match CF_Status f with
                     | Some st => bool_decide (C_Status c = st)
                     | None => true
                     end) CreatedAt (CF_Limit f) (CF_Offset f) conversationsDir.
End Store.

(** [New] *)
Fixpoint mkdirs (dirs : list gostring) : IO unit :=
  match dirs with
  | [] => mret tt
  | d :: dirs => _ ← wrap_err ("mkdir " ++ d ++ ": ") (MkdirAll d); mkdirs dirs
  end.

Definition New (root : gostring) (debugRaw : bool) : IO Store :=
  if bool_decide (root = []) then of_result (Err (ErrNew "missing log path"))
  else
    let s := {| st_root := root; st_debugRaw := debugRaw |} in
    _ ← mkdirs [sessionsDir s; turnsDir s; rawDir s]; mret s.

(** ** Lemmas on files *)

Lemma tmp_differs (p : gostring) : p <> p ++ ".tmp".
Proof. intros H. apply (f_equal length) in H. rewrite length_app in H. cbn in H. lia. Qed.

(** What a call leaves at the other paths, and at its own. *)
Definition frames (ps : list gostring) (fs fs' : FS) : Prop :=
  forall q, q ∉ ps -> fs_files fs' !! q = fs_files fs !! q.

Lemma frames_refl ps fs fs' : fs_files fs' = fs_files fs -> frames ps fs fs'.
Proof. by intros H q _; rewrite H. Qed.

Lemma frames_trans ps fs fs1 fs' : frames ps fs fs1 -> frames ps fs1 fs' -> frames ps fs fs'.
Proof. intros H1 H2 q Hq. by rewrite H2, H1. Qed.

Lemma frames_mono ps ps' fs fs' : frames ps fs fs' -> ps ⊆ ps' -> frames ps' fs fs'.
Proof. intros H Hs q Hq. apply H. set_solver. Qed.

Lemma frames_insert p b fs fs' :
  fs_files fs' = <[p := b]> (fs_files fs) -> frames [p] fs fs'.
Proof. intros H q Hq. rewrite H, lookup_insert_ne; [done|]. set_solver. Qed.

Lemma WriteFile_spec p b fs :
  let '(r, fs') := WriteFile p b fs in
  frames [p] fs fs' /\ (r = Ok tt -> fs_files fs' !! p = Some b).
Proof.
  unfold WriteFile, next_fault. destruct (is_dir _ p); [by split; [apply frames_refl|]|].
  destruct (negb _); [by split; [apply frames_refl|]|].
  destruct (match fs_faults fs with f :: _ => f | [] => NoFault end) as [| |k].
  - split; [by eapply frames_insert|]. intros _. apply lookup_insert_eq.
  - by split; [apply frames_refl|].
  - by split; [eapply frames_insert|].
Qed.

Lemma Rename_spec p q fs :
  p <> q ->
  let '(r, fs') := Rename p q fs in
  frames [p; q] fs fs'
  /\ match r with
     | Ok _ => fs_files fs' !! q = fs_files fs !! p /\ fs_files fs' !! p = None
     | Err _ => fs_files fs' !! q = fs_files fs !! q
     end.
Proof.
  intros Hne. unfold Rename, next_fault. cbn [fs_files].
  destruct (match fs_faults fs with f :: _ => f | [] => NoFault end);
    [|by split; [apply frames_refl|]..].
  destruct (fs_files fs !! p) as [b|] eqn:Eb; [|by split; [apply frames_refl|]].
  destruct (is_dir _ q); [by split; [apply frames_refl|]|].
  destruct (negb _); [by split; [apply frames_refl|]|]. cbn. split.
  - intros x Hx. cbn. rewrite lookup_insert_ne by set_solver. apply lookup_delete_ne. set_solver.
  - rewrite lookup_insert_eq, lookup_insert_ne by done. split; [done|apply lookup_delete_eq].
Qed.

Lemma Remove_spec p fs :
  frames [p] fs (snd (Remove p fs)) /\ (fs_files fs !! p = None -> fs_files (snd (Remove p fs)) = fs_files fs).
Proof.
  unfold Remove, next_fault. cbn [fs_files].
  destruct (match fs_faults fs with f :: _ => f | [] => NoFault end);
    [|by split; [apply frames_refl|]..].
  destruct (fs_files fs !! p) as [b|] eqn:Eb; cbn; [|by split; [apply frames_refl|]].
  split; [|done]. intros q Hq. cbn. apply lookup_delete_ne. set_solver.
Qed.

Lemma MkdirAll_files p fs : fs_files (snd (MkdirAll p fs)) = fs_files fs.
Proof.
  unfold MkdirAll, next_fault. destruct (existsb _ _); [done|].
  by destruct (match fs_faults fs with f :: _ => f | [] => NoFault end).
Qed.

Lemma wrap_err_case {A} pre (m : IO A) fs :
  match m fs with
  | (Ok a, fs') => wrap_err pre m fs = (Ok a, fs')
  | (Err e, fs') => wrap_err pre m fs = (Err (ErrWrapped pre e), fs')
  end.
Proof. unfold wrap_err. by destruct (m fs) as [[a|e] fs']. Qed.

Lemma io_bind_eq {A B} (m : IO A) (k : A -> IO B) fs :
  (m ≫= k) fs = match m fs with (Ok a, fs') => k a fs' | (Err e, fs') => (Err e, fs') end.
Proof. done. Qed.

Lemma writeJSONAtomic_spec {A} `{JSON A} (path : gostring) (value : A) fs :
  let '(r, fs') := writeJSONAtomic path value fs in
  frames [path; path ++ ".tmp"] fs fs'
  /\ match r with
     | Ok _ => exists b, json_MarshalIndent value = Ok b /\ fs_files fs' !! path = Some b
               /\ fs_files fs' !! (path ++ ".tmp") = None
     | Err _ => fs_files fs' !! path = fs_files fs !! path
     end.
Proof.
  pose proof (tmp_differs path) as Hne. unfold writeJSONAtomic. cbv zeta.
  rewrite io_bind_eq. unfold of_result at 1, wrap_err at 1.
  destruct (json_MarshalIndent value) as [b|e]; [|by split; [apply frames_refl|]].
  rewrite io_bind_eq. pose proof (WriteFile_spec (path ++ ".tmp") b fs) as HW.
  unfold wrap_err at 1. destruct (WriteFile (path ++ ".tmp") b fs) as [[[]|e] fs1]; destruct HW as [HF HW].
  2: { split; [|apply HF; set_solver]. eapply frames_mono; [exact HF|set_solver]. }
  specialize (HW eq_refl). unfold defer_io, wrap_err.
  pose proof (Rename_spec (path ++ ".tmp") path fs1 (not_eq_sym Hne)) as HR.
  destruct (Rename (path ++ ".tmp") path fs1) as [[[]|e] fs2]; destruct HR as [HF2 HR].
  all: destruct (Remove_spec (path ++ ".tmp") fs2) as [HF3 HD].
  all: split; [eapply frames_trans; [eapply frames_mono; [exact HF|set_solver]|];
    eapply frames_trans; [eapply frames_mono; [exact HF2|set_solver]|];
    eapply frames_mono; [exact HF3|set_solver]|].
  - destruct HR as [HR1 HR2]. exists b. rewrite (HD HR2). rewrite HR1. by rewrite HW.
  - rewrite HF3 by set_solver. rewrite HR. apply HF. set_solver.
Qed.

Lemma OpenAppend_spec p fs :
  let '(r, fs') := OpenAppend p fs in
  frames [p] fs fs' /\ default [] (fs_files fs' !! p) = default [] (fs_files fs !! p).
Proof.
  unfold OpenAppend, next_fault. destruct (is_dir _ p); [by split; [apply frames_refl|]|].
  destruct (negb _); [by split; [apply frames_refl|]|].
  destruct (match fs_faults fs with f :: _ => f | [] => NoFault end) as [| |k];
    [|by split; [apply frames_refl|]..].
  split; [by eapply frames_insert|]. cbn. by rewrite lookup_insert_eq.
Qed.

Lemma WriteAppend_spec p b fs :
  let '(r, fs') := WriteAppend p b fs in
  frames [p] fs fs'
  /\ exists k, default [] (fs_files fs' !! p) = default [] (fs_files fs !! p) ++ take k b
     /\ (r = Ok tt -> take k b = b).
Proof.
  unfold WriteAppend, next_fault.
  destruct (match fs_faults fs with f :: _ => f | [] => NoFault end) as [| |k].
  - split; [by eapply frames_insert|]. exists (length b). cbn.
    rewrite lookup_insert_eq. cbn. by rewrite firstn_all.
  - split; [by apply frames_refl|]. exists 0%nat. cbn. by rewrite app_nil_r.
  - split; [by eapply frames_insert|]. exists k. cbn. by rewrite lookup_insert_eq.
Qed.

(** A log grows by a prefix of the line, by the whole line when there is no error. *)
Definition grows (line old new : gostring) (ok : bool) : Prop :=
  exists k, new = old ++ take k line /\ (ok = true -> take k line = line).

Definition is_ok {A} (r : result A) : bool := match r with Ok _ => true | Err _ => false end.

Lemma appendJSONL_spec {A} (marshal : A -> result gostring) path value fs :
  let '(r, fs') := appendJSONL marshal path value fs in
  frames [path] fs fs'
  /\ match marshal value with
     | Ok b => grows (b ++ [LF]) (default [] (fs_files fs !! path))
                 (default [] (fs_files fs' !! path)) (is_ok r)
     | Err _ => default [] (fs_files fs' !! path) = default [] (fs_files fs !! path)
                /\ is_ok r = false
     end.
Proof.
  unfold appendJSONL. rewrite io_bind_eq. unfold wrap_err at 1.
  pose proof (OpenAppend_spec path fs) as HO.
  destruct (OpenAppend path fs) as [[[]|e] fs1]; destruct HO as [HF HO].
  2: { split; [done|]. destruct (marshal value); [|done]. exists 0%nat. cbn. by rewrite app_nil_r. }
  rewrite io_bind_eq. unfold of_result at 1, wrap_err at 1. destruct (marshal value) as [b|e]; [|done].
  unfold wrap_err. pose proof (WriteAppend_spec path (b ++ [LF]) fs1) as HW.
  destruct (WriteAppend path (b ++ [LF]) fs1) as [r fs2]. destruct HW as (HF2 & k & Hk & Hok).
  assert (frames [path] fs fs2) as HF3 by by eapply frames_trans.
  destruct r as [[]|e]; (split; [done|]); exists k; rewrite Hk, HO; split; try done; auto.
Qed.

(** ** Lemmas on paths *)

Definition safe_id (id : gostring) : Prop := "/"%char ∉ id.

(** The file of an id: directory, id and suffix. *)
Definition file_path (s : Store) (d id suf : gostring) : gostring :=
  JoinPath [JoinPath [st_root s; d]; id ++ suf].

Definition suffix_ok (suf : gostring) : Prop := "/"%char ∉ suf /\ (2 < length suf)%nat.

Lemma plain_file id suf : safe_id id -> suffix_ok suf -> plain (id ++ suf).
Proof.
  intros Hid [Hs Hl]. unfold plain, safe_id in *.
  assert (2 < length (id ++ suf))%nat by (rewrite length_app; lia).
  split_and!; [set_solver|intros E; rewrite E in *; cbn in *; lia..].
Qed.

Section Paths.
Variable s : Store.
Hypothesis root : st_root s <> [].

Lemma file_path_render d id suf :
  plain d -> safe_id id -> suffix_ok suf ->
  file_path s d id suf
  = render_path (fst (clean_path (st_root s)), (id ++ suf) :: d :: snd (clean_path (st_root s))).
Proof. intros Hd Hid Hs. apply JoinPath_plain2; [done|done|by apply plain_file]. Qed.

Lemma file_path_inj d d' id id' suf suf' :
  plain d -> plain d' -> safe_id id -> safe_id id' -> suffix_ok suf -> suffix_ok suf' ->
  file_path s d id suf = file_path s d' id' suf' -> d = d' /\ id ++ suf = id' ++ suf'.
Proof.
  intros Hd Hd' Hid Hid' Hs Hs' H. rewrite !file_path_render in H by done.
  apply render_path_inj in H as [_ H]; [by injection H| |];
    (apply plain_clean_ok; [by apply plain_file|apply plain_clean_ok; [done|apply clean_path_ok]]).
Qed.

Lemma file_path_tmp d id suf :
  plain d -> safe_id id -> suffix_ok suf ->
  file_path s d id suf ++ ".tmp" = file_path s d id (suf ++ ".tmp").
Proof.
  intros Hd Hid [Hs Hl]. rewrite !file_path_render; try done.
  - rewrite render_path_suffix. by rewrite <- app_assoc.
  - split; [set_solver|rewrite length_app; lia].
Qed.
End Paths.

Lemma last_app_ne (a b x y : gostring) : last x <> last y -> x <> [] -> y <> [] -> a ++ x <> b ++ y.
Proof.
  intros Hl Hx Hy H. apply (f_equal last) in H. rewrite !last_app in H.
  destruct (last x) eqn:Ex; [|by apply last_None in Ex].
  destruct (last y) eqn:Ey; [|by apply last_None in Ey]. by rewrite H in Hl.
Qed.

Ltac plain_dir := split; [apply (bool_decide_unpack _); reflexivity|done].

(** The five families of files. *)
Inductive family := FSession | FTurn | FRaw | FConversation | FConversationTurn.

#[export] Instance family_eq_dec : EqDecision family.
Proof. solve_decision. Defined.

Definition family_dir (f : family) : gostring :=
  match f with
  | FSession => "sessions" | FTurn => "turns" | FRaw => "raw"
  | FConversation | FConversationTurn => "conversations"
  end.
Definition family_suffix (f : family) : gostring :=
  match f with FSession | FConversation => ".json" | _ => ".jsonl" end.
Definition path_of (s : Store) (f : family) (id : gostring) : gostring :=
  file_path s (family_dir f) id (family_suffix f).

Lemma family_dir_plain f : plain (family_dir f).
Proof. unfold plain. destruct f; split_and!; try done; by apply (bool_decide_unpack _). Qed.

Lemma family_suffix_ok f : suffix_ok (family_suffix f).
Proof. unfold suffix_ok. destruct f; split; try (cbn; lia); by apply (bool_decide_unpack _). Qed.

Lemma suffix_tmp_ok suf : suffix_ok suf -> suffix_ok (suf ++ ".tmp").
Proof.
  intros [H1 H2]. split; [|rewrite length_app; lia]. intros [H|H]%elem_of_app; [done|].
  revert H. by apply (bool_decide_unpack _).
Qed.

#[export] Hint Resolve family_dir_plain family_suffix_ok suffix_tmp_ok : vitis.

Lemma path_of_inj s f id f' id' :
  st_root s <> [] -> safe_id id -> safe_id id' -> path_of s f id = path_of s f' id' ->
  f = f' /\ id = id'.
Proof.
  intros Hr H1 H2 H. apply file_path_inj in H as [Hd Hs]; auto with vitis.
  destruct (decide (family_suffix f = family_suffix f')) as [E|E].
  - rewrite E in Hs. apply app_inv_tail in Hs as ->.
    by destruct f, f'.
  - exfalso. revert Hs. apply last_app_ne; by destruct f, f'.
Qed.

Lemma path_of_tmp s f id f' id' :
  st_root s <> [] -> safe_id id -> safe_id id' -> path_of s f id <> path_of s f' id' ++ ".tmp".
Proof.
  intros Hr H1 H2 H. unfold path_of in H at 2. rewrite file_path_tmp in H by auto with vitis.
  apply file_path_inj in H as [_ Hs]; auto with vitis.
  rewrite app_assoc in Hs. revert Hs. apply last_app_ne; by destruct f.
Qed.

(** ** The store as maps and logs *)

Section Refinement.
Context {jS : JSON Session} {jT : JSON Turn} {jC : JSON Conversation} {jCT : JSON ConversationTurn}.
Context (marshal_event : StoredStreamEvent -> result gostring).
Variable s : Store.

Definition json_at {A} `{JSON A} (fs : FS) (p : gostring) : option A :=
  b ← fs_files fs !! p; match json_Unmarshal b with Ok a => Some a | Err _ => None end.

Definition session_at (fs : FS) (id : gostring) : option Session := json_at fs (path_of s FSession id).
Definition conversation_at (fs : FS) (id : gostring) : option Conversation :=
  json_at fs (path_of s FConversation id).
Definition log_at (fs : FS) (f : family) (id : gostring) : gostring :=
  default [] (fs_files fs !! path_of s f id).

(** The operations that write. *)
Inductive op :=
| OCreateSession (x : Session)
| OUpdateSession (id : gostring) (p : SessionPatch)
| OAppendTurn (t : Turn)
| OAppendStreamEvent (e : StoredStreamEvent)
| OCreateConversation (c : Conversation)
| OUpdateConversation (id : gostring) (p : ConversationPatch)
| OAppendConversationTurn (t : ConversationTurn).

Definition run_op (o : op) : IO unit :=
  match o with
  | OCreateSession x => CreateSession s x
  | OUpdateSession id p => UpdateSession s id p
  | OAppendTurn t => AppendTurn s t
  | OAppendStreamEvent e => AppendStreamEvent marshal_event s e
  | OCreateConversation c => CreateConversation s c
  | OUpdateConversation id p => UpdateConversation s id p
  | OAppendConversationTurn t => AppendConversationTurn s t
  end.

(** The family and id an operation writes. *)
Definition op_target (o : op) : family * gostring :=
  match o with
  | OCreateSession x => (FSession, S_ID x)
  | OUpdateSession id _ => (FSession, id)
  | OAppendTurn t => (FTurn, TU_SessionID t)
  | OAppendStreamEvent e => (FRaw, SSE_SessionID e)
  | OCreateConversation c => (FConversation, C_ID c)
  | OUpdateConversation id _ => (FConversation, id)
  | OAppendConversationTurn t => (FConversationTurn, T_ConversationID t)
  end.

(** What an operation that succeeds makes of the record it writes. *)
Definition op_session (o : op) (old : option Session) : option Session :=
  match o with
  | OCreateSession x => Some x
  | OUpdateSession _ p => patch_session p <$> old
  | _ => old
  end.
Definition op_conversation (o : op) (old : option Conversation) : option Conversation :=
  match o with
  | OCreateConversation c => Some (stampSchemaVersion c)
  | OUpdateConversation _ p => patch_conversation p <$> old
  | _ => old
  end.

(** The line an operation appends to a log. *)
Definition op_line (o : op) : option (result gostring) :=
  match o with
  | OAppendTurn t => Some (json_Marshal t)
  | OAppendStreamEvent e => if st_debugRaw s then Some (marshal_event e) else None
  | OAppendConversationTurn t => Some (json_Marshal t)
  | _ => None
  end.

(** The records an operation writes survive JSON. *)
Definition op_faithful (o : op) (fs : FS) : Prop :=
  match o with
  | OCreateSession x => json_faithful x
  | OUpdateSession id p => forall x, session_at fs id = Some x -> json_faithful (patch_session p x)
  | OCreateConversation c => json_faithful (stampSchemaVersion c)
  | OUpdateConversation id p =>
      forall c, conversation_at fs id = Some c -> json_faithful (patch_conversation p c)
  | _ => True
  end.

(** The contract: the record the operation writes changes as specified when it
    succeeds and not at all when it fails; the log it writes grows by its line,
    or by a prefix of it when it fails; nothing else changes. *)
Record step_ok (o : op) (ok : bool) (fs fs' : FS) : Prop := {
  so_session : forall id, safe_id id -> session_at fs' id =
    if ok && bool_decide (op_target o = (FSession, id)) then op_session o (session_at fs id)
    else session_at fs id;
  so_conversation : forall id, safe_id id -> conversation_at fs' id =
    if ok && bool_decide (op_target o = (FConversation, id)) then op_conversation o (conversation_at fs id)
    else conversation_at fs id;
  so_log : forall f id, safe_id id -> f ∈ [FTurn; FRaw; FConversationTurn] ->
    match op_line o with
    | Some (Ok b) => if bool_decide (op_target o = (f, id))
                     then grows (b ++ [LF]) (log_at fs f id) (log_at fs' f id) ok
                     else log_at fs' f id = log_at fs f id
    | Some (Err _) => log_at fs' f id = log_at fs f id /\ ok = false
    | None => log_at fs' f id = log_at fs f id
    end;
  so_exists : ok = true ->
    match o with
    | OUpdateSession id _ => is_Some (session_at fs id)
    | OUpdateConversation id _ => is_Some (conversation_at fs id)
    | _ => True
    end;
}.

Lemma get_at {A} {jA : JSON A} p (a : A) fs :
  fs_faults fs = [] -> json_at fs p = Some a -> fst (get p fs) = Ok (Some a).
Proof.
  intros Hf Ha. unfold get, ReadFile, next_fault. rewrite Hf. cbn [fs_files].
  unfold json_at in Ha. destruct (fs_files fs !! p) as [b|]; [|done]. cbn in Ha |- *.
  destruct (json_Unmarshal b); [|done]. by injection Ha as ->.
Qed.

Section Lemmas.
Hypothesis root : st_root s <> [].

Definition target_path (o : op) : gostring := path_of s (fst (op_target o)) (snd (op_target o)).

Lemma frames_others f0 id0 fs fs' f id :
  frames [path_of s f0 id0; path_of s f0 id0 ++ ".tmp"] fs fs' ->
  safe_id id0 -> safe_id id -> (f0, id0) <> (f, id) ->
  fs_files fs' !! path_of s f id = fs_files fs !! path_of s f id.
Proof.
  intros HF H0 H Hne. apply HF. rewrite elem_of_cons, list_elem_of_singleton. intros [E|E].
  - apply path_of_inj in E as [-> ->]; done.
  - by apply path_of_tmp in E.
Qed.

Lemma step_intro (o : op) (ok : bool) (fs fs' : FS) :
  safe_id (snd (op_target o)) ->
  frames [target_path o; target_path o ++ ".tmp"] fs fs' ->
  match op_target o with
  | (FSession, id) => session_at fs' id = if ok then op_session o (session_at fs id) else session_at fs id
  | (FConversation, id) => conversation_at fs' id =
      if ok then op_conversation o (conversation_at fs id) else conversation_at fs id
  | (f, id) =>
      match op_line o with
      | Some (Ok b) => grows (b ++ [LF]) (log_at fs f id) (log_at fs' f id) ok
      | Some (Err _) => log_at fs' f id = log_at fs f id /\ ok = false
      | None => log_at fs' f id = log_at fs f id
      end
  end ->
  (ok = true ->
    match o with
    | OUpdateSession id _ => is_Some (session_at fs id)
    | OUpdateConversation id _ => is_Some (conversation_at fs id)
    | _ => True
    end) ->
  step_ok o ok fs fs'.
Proof.
  intros Hs HF Ht Hex. unfold target_path in HF.
  destruct (op_target o) as [f0 id0] eqn:Eo. cbn [fst snd] in *.
  assert (forall (f : family) (id : gostring), safe_id id -> (f0, id0) <> (f, id) ->
    fs_files fs' !! path_of s f id = fs_files fs !! path_of s f id) as Hother
    by (intros; by eapply frames_others).
  split; [| | |done].
  - intros id Hid. rewrite Eo. destruct (decide ((f0, id0) = (FSession, id))) as [E|E].
    + rewrite bool_decide_true, andb_true_r by done. by injection E as -> ->.
    + rewrite bool_decide_false, andb_false_r by done. unfold session_at, json_at. by rewrite Hother.
  - intros id Hid. rewrite Eo. destruct (decide ((f0, id0) = (FConversation, id))) as [E|E].
    + rewrite bool_decide_true, andb_true_r by done. by injection E as -> ->.
    + rewrite bool_decide_false, andb_false_r by done. unfold conversation_at, json_at. by rewrite Hother.
  - intros f id Hid Hf. rewrite Eo. destruct (decide ((f0, id0) = (f, id))) as [E|E].
    + rewrite bool_decide_true by done. injection E as -> ->.
      by destruct f; [set_solver| | |set_solver|].
    + assert (log_at fs' f id = log_at fs f id) as Hl by (unfold log_at; by rewrite Hother).
      rewrite bool_decide_false by done. destruct (op_line o) as [[b|e]|] eqn:El; [done| |done].
      split; [done|]. destruct o; cbn in El; try discriminate; injection Eo as <- <-; cbn [op_line] in Ht.
      all: try (by rewrite El in Ht; apply Ht). all: by destruct Ht.
Qed.

(** Writing a record. *)
Lemma write_record {A} {jA : JSON A} f id (a : A) fs fs1 :
  fs_files fs1 = fs_files fs -> json_faithful a ->
  let '(r, fs') := writeJSONAtomic (path_of s f id) a fs1 in
  frames [path_of s f id; path_of s f id ++ ".tmp"] fs fs'
  /\ json_at fs' (path_of s f id) = if is_ok r then Some a else json_at fs (path_of s f id).
Proof.
  intros Hfs (b & Hb & Hu). pose proof (writeJSONAtomic_spec (path_of s f id) a fs1) as HW.
  destruct (writeJSONAtomic _ _ _) as [r fs']. destruct HW as [HF HW].
  split; [intros q Hq; by rewrite HF, Hfs|]. unfold json_at. destruct r as [[]|e]; cbn [is_ok].
  - destruct HW as (b' & Hb' & -> & _). rewrite Hb in Hb'. injection Hb' as <-. cbn. by rewrite Hu.
  - by rewrite HW, Hfs.
Qed.

Lemma readJSON_spec {A} {jA : JSON A} p fs :
  fs_files (snd (readJSON p fs)) = fs_files fs
  /\ forall a, fst (readJSON p fs) = Ok a -> json_at fs p = Some a.
Proof.
  unfold readJSON. rewrite io_bind_eq. unfold wrap_err at 1 3, ReadFile, next_fault.
  destruct (match fs_faults fs with f :: _ => f | [] => NoFault end); [|done..]. cbn [fs_files].
  unfold json_at. destruct (fs_files fs !! p) as [b|]; cbn [mbind option_bind].
  - unfold wrap_err, of_result. by destruct (json_Unmarshal b); cbn; split; [|intros ? [= ->]| |].
  - by destruct (is_dir _ p).
Qed.

Lemma create_step f id o {A} {jA : JSON A} (a : A) (m : IO unit) fs :
  op_target o = (f, id) -> safe_id id -> json_faithful a ->
  (forall fs', fs_files (snd (m fs')) = fs_files fs') ->
  let '(r, fs') := (_ ← m; writeJSONAtomic (path_of s f id) a) fs in
  frames [target_path o; target_path o ++ ".tmp"] fs fs'
  /\ json_at fs' (path_of s f id) = if is_ok r then Some a else json_at fs (path_of s f id).
Proof.
  intros Ho Hid Ha Hm. unfold target_path. rewrite Ho. cbn [fst snd]. rewrite io_bind_eq.
  specialize (Hm fs). destruct (m fs) as [[[]|e] fs1]; cbn [snd] in Hm.
  - by apply write_record.
  - split; [by apply frames_refl|]. cbn [is_ok]. unfold json_at. by rewrite Hm.
Qed.

Lemma update_step f id o {A} {jA : JSON A} (upd : A -> A) fs :
  op_target o = (f, id) -> safe_id id ->
  (forall a, json_at fs (path_of s f id) = Some a -> json_faithful (upd a)) ->
  let '(r, fs') := (a ← readJSON (path_of s f id); writeJSONAtomic (path_of s f id) (upd a)) fs in
  frames [target_path o; target_path o ++ ".tmp"] fs fs'
  /\ json_at fs' (path_of s f id)
     = (if is_ok r then upd <$> json_at fs (path_of s f id) else json_at fs (path_of s f id))
  /\ (is_ok r = true -> is_Some (json_at fs (path_of s f id))).
Proof.
  intros Ho Hid Ha. unfold target_path. rewrite Ho. cbn [fst snd]. rewrite io_bind_eq.
  destruct (readJSON_spec (A := A) (path_of s f id) fs) as [Hf Hr].
  destruct (readJSON (path_of s f id) fs) as [[a|e] fs1]; cbn [fst snd] in *.
  - specialize (Hr a eq_refl). specialize (Ha a Hr).
    pose proof (write_record f id (upd a) fs fs1 Hf Ha) as HW.
    destruct (writeJSONAtomic _ _ _) as [r fs']. destruct HW as [HF HW].
    split_and!; [done| |by intros _; eexists]. rewrite HW. destruct (is_ok r); [|done]. by rewrite Hr.
  - split_and!; [by apply frames_refl| |done]. cbn [is_ok]. unfold json_at. by rewrite Hf.
Qed.

Lemma log_step f id o {A} (marshal : A -> result gostring) (a : A) (m : IO unit) fs :
  op_target o = (f, id) -> (forall fs', fs_files (snd (m fs')) = fs_files fs') ->
  let '(r, fs') := (_ ← m; appendJSONL marshal (path_of s f id) a) fs in
  frames [target_path o; target_path o ++ ".tmp"] fs fs'
  /\ match marshal a with
     | Ok b => grows (b ++ [LF]) (log_at fs f id) (log_at fs' f id) (is_ok r)
     | Err _ => log_at fs' f id = log_at fs f id /\ is_ok r = false
     end.
Proof.
  intros Ho Hm. unfold target_path. rewrite Ho. cbn [fst snd]. rewrite io_bind_eq.
  specialize (Hm fs). destruct (m fs) as [[[]|e] fs1]; cbn [snd] in Hm.
  - pose proof (appendJSONL_spec marshal (path_of s f id) a fs1) as HA.
    destruct (appendJSONL marshal _ a fs1) as [r fs']. destruct HA as [HF HA].
    split; [|unfold log_at; by rewrite <- Hm].
    intros q Hq. rewrite HF by set_solver. by rewrite Hm.
  - split; [by apply frames_refl|]. unfold log_at. rewrite Hm. cbn [is_ok].
    destruct (marshal a); [|done]. exists 0%nat. cbn. by rewrite app_nil_r.
Qed.

Lemma ret_files fs' : fs_files (snd ((mret tt : IO unit) fs')) = fs_files fs'.
Proof. done. Qed.

Lemma mkdir_files pre d fs' : fs_files (snd (wrap_err pre (MkdirAll d) fs')) = fs_files fs'.
Proof.
  pose proof (MkdirAll_files d fs') as H. unfold wrap_err. by destruct (MkdirAll d fs') as [[]].
Qed.

(** Name the outcome of the run that [H] is about. *)
Ltac split_run H :=
  match type of H with match ?t with _ => _ end => destruct t as [? ?] end.

Lemma run_op_step o fs :
  safe_id (snd (op_target o)) -> op_faithful o fs ->
  let '(r, fs') := run_op o fs in step_ok o (is_ok r) fs fs'.
Proof.
  intros Hid Hf. destruct o as [x|id p|t|e|c|id p|t]; cbn [run_op op_target snd op_faithful] in *.
  - pose proof (create_step FSession (S_ID x) (OCreateSession x) x (mret tt) fs eq_refl Hid Hf
      ret_files) as H.
    change (CreateSession s x fs) with
      ((_ ← (mret tt : IO unit); writeJSONAtomic (path_of s FSession (S_ID x)) x) fs).
    split_run H. destruct H as [HF H]. by apply step_intro.
  - pose proof (update_step FSession id (OUpdateSession id p) (patch_session p) fs eq_refl Hid Hf) as H.
    change (UpdateSession s id p fs) with
      ((a ← readJSON (path_of s FSession id);
        writeJSONAtomic (path_of s FSession id) (patch_session p a)) fs).
    split_run H. destruct H as (HF & H & He). by apply step_intro.
  - pose proof (log_step FTurn _ (OAppendTurn t) json_Marshal t (mret tt) fs eq_refl ret_files) as H.
    change (AppendTurn s t fs) with
      ((_ ← (mret tt : IO unit); appendJSONL json_Marshal (path_of s FTurn (TU_SessionID t)) t) fs).
    split_run H. destruct H as [HF H]. by apply step_intro.
  - unfold AppendStreamEvent. destruct (st_debugRaw s) eqn:Ed.
    + pose proof (log_step FRaw _ (OAppendStreamEvent e) marshal_event e (mret tt) fs eq_refl ret_files) as H.
      change (appendJSONL marshal_event (rawPath s (SSE_SessionID e)) e fs) with
        ((_ ← (mret tt : IO unit); appendJSONL marshal_event (path_of s FRaw (SSE_SessionID e)) e) fs).
      split_run H. destruct H as [HF H]. apply step_intro; try done.
      cbn [op_target op_line]. by rewrite Ed.
    + apply step_intro; try done. cbn [op_target op_line]. by rewrite Ed.
  - pose proof (create_step FConversation (C_ID c) (OCreateConversation c) (stampSchemaVersion c)
      (wrap_err "mkdir conversations: " (MkdirAll (conversationsDir s))) fs eq_refl Hid Hf
      (mkdir_files _ _)) as H.
    change (CreateConversation s c fs) with
      ((_ ← wrap_err "mkdir conversations: " (MkdirAll (conversationsDir s));
        writeJSONAtomic (path_of s FConversation (C_ID c)) (stampSchemaVersion c)) fs).
    split_run H. destruct H as [HF H]. by apply step_intro.
  - pose proof (update_step FConversation id (OUpdateConversation id p) (patch_conversation p) fs
      eq_refl Hid Hf) as H.
    change (UpdateConversation s id p fs) with
      ((a ← readJSON (path_of s FConversation id);
        writeJSONAtomic (path_of s FConversation id) (patch_conversation p a)) fs).
    split_run H. destruct H as (HF & H & He). by apply step_intro.
  - pose proof (log_step FConversationTurn _ (OAppendConversationTurn t) json_Marshal t
      (wrap_err "mkdir conversations: " (MkdirAll (conversationsDir s))) fs eq_refl
      (mkdir_files _ _)) as H.
    change (AppendConversationTurn s t fs) with
      ((_ ← wrap_err "mkdir conversations: " (MkdirAll (conversationsDir s));
        appendJSONL json_Marshal (path_of s FConversationTurn (T_ConversationID t)) t) fs).
    split_run H. destruct H as [HF H]. by apply step_intro.
Qed.
End Lemmas.
End Refinement.

(** ** Logs that were appended *)

Definition log_text (bs : list gostring) : gostring := bs ≫= (fun b => b ++ [LF]).

Lemma log_text_app bs b : log_text (bs ++ [b]) = log_text bs ++ b ++ [LF].
Proof. unfold log_text. rewrite bind_app. cbn. by rewrite app_nil_r. Qed.

Lemma Split_log_text bs : Forall (fun b => LF ∉ b) bs -> SplitByte LF (log_text bs) = bs ++ [[]].
Proof.
  induction 1 as [|b bs Hb _ IH]; [done|]. unfold log_text in *. cbn [mbind list_bind].
  rewrite <- app_assoc. cbn [app]. rewrite SplitByte_app, SplitByte_no_sep by done. cbn [app]. by f_equal.
Qed.

Lemma drop_cr_id b : last b <> Some CR -> drop_cr b = b.
Proof.
  unfold drop_cr. intros H. destruct (rev b) as [|c r] eqn:E;
    [apply (f_equal (@rev ascii)) in E; by rewrite rev_involutive in E|].
  destruct (ceq c CR) eqn:Ec; [|done]. bool_facts. exfalso. apply H.
  rewrite <- (rev_involutive b), E. cbn [rev]. apply last_snoc.
Qed.

Definition fits (max : Z) (b : gostring) : bool := Z.of_nat (length b) <? max.

(** The longest prefix of lines that fit. *)
Fixpoint fitting (max : Z) (bs : list gostring) : list gostring :=
  match bs with
  | [] => []
  | b :: bs => if fits max b then b :: fitting max bs else []
  end.

Lemma scan_log max bs :
  Forall (fun b => last b <> Some CR) bs ->
  scan_lines max (bs ++ [[]])
  = (fitting max bs, if forallb (fits max) bs then None else Some ErrTooLong).
Proof.
  induction 1 as [|b bs Hb _ IH]; [done|]. cbn [app scan_lines fitting forallb].
  rewrite (bool_decide_false (bs ++ [[]] = [])) by by destruct bs. cbn [andb].
  change (Z.of_nat (length b) <? max) with (fits max b). destruct (fits max b); [|done].
  rewrite IH. by rewrite drop_cr_id.
Qed.

Section Peek.
Context {A : Type} {jA : JSON A} {srt : SortSlice}.
Variables (index : A -> Z) (what : gostring) (max : Z).

Lemma decode_fitting pre (ts : list A) bs :
  Forall2 json_line ts bs ->
  exists k, decode_lines pre (fitting max bs) = Ok (take k ts)
  /\ (forallb (fits max) bs = true -> take k ts = ts).
Proof.
  induction 1 as [|t b ts bs (_ & Hu & _) _ (k & IH & Hk)]; [by exists 0%nat|].
  cbn [fitting forallb]. destruct (fits max b); [|by exists 0%nat]. exists (S k).
  cbn [decode_lines]. rewrite Hu, IH. split; [done|]. intros Hf. cbn. by rewrite Hk.
Qed.

Lemma peek_log (ts : list A) bs path n fs :
  Forall2 json_line ts bs -> fs_files fs !! path = Some (log_text bs) -> fs_faults fs = [] ->
  fst (peek index max what path n fs)
  = if forallb (fits max) bs then Ok (last_n n (sort_Slice (fun x y => index x <? index y) ts))
    else Err (ErrWrapped ("scan " ++ what ++ "s: ") ErrTooLong).
Proof.
  intros Hts Hp Hf. unfold peek, OpenScan, next_fault. rewrite Hf. cbn [fs_files]. rewrite Hp.
  assert (Scan max (log_text bs)
    = (fitting max bs, if forallb (fits max) bs then None else Some ErrTooLong)) as ->.
  { unfold Scan. rewrite Split_log_text, scan_log; [done| |];
      (apply Forall_forall; intros b Hb; apply list_elem_of_lookup in Hb as [i Hi];
       destruct (Forall2_lookup_r _ _ _ _ _ Hts Hi) as (t & _ & _ & _ & H1 & H2 & H3); done). }
  destruct (decode_fitting ("decode " ++ what ++ ": ") ts bs Hts) as (k & -> & Hk). cbn [fst].
  change (Ok (take k ts) ≫= ?f) with (f (take k ts)). cbv beta.
  destruct (forallb (fits max) bs); [|done]. by rewrite Hk.
Qed.
End Peek.

Lemma peek_files {A} {jA : JSON A} {srt : SortSlice} (index : A -> Z) max what path n fs :
  fs_files (snd (peek index max what path n fs)) = fs_files fs.
Proof.
  unfold peek, OpenScan, next_fault. cbn [fs_files].
  repeat (case_match; simplify_eq/=; try done).
Qed.

(** A reading that meets a failing call returns no turns. *)
Lemma peek_unfaulted {A} {jA : JSON A} {srt : SortSlice} (index : A -> Z) max what path n fs fs0 r :
  fst (peek index max what path n fs) = Ok r -> fs_files fs0 = fs_files fs -> fs_dirs fs0 = fs_dirs fs ->
  fs_faults fs0 = [] -> fst (peek index max what path n fs0) = Ok r.
Proof.
  intros H Hf Hd H0. revert H. unfold peek, OpenScan, next_fault, is_dir. rewrite H0.
  cbn [fs_files fs_dirs]. rewrite Hf, Hd.
  destruct (match fs_faults fs with [] => NoFault | f :: _ => f end) as [| |k].
  - destruct (fs_files fs !! path) as [b|]; [by destruct (Scan max b)|]. by destruct (_ || _).
  - by intros [=].
  - destruct (fs_files fs !! path) as [b|].
    + destruct (Scan max (take k b)) as [ls e]. cbn [fst]. by destruct (decode_lines _ ls).
    + by destruct (_ || _).
Qed.

(** Records whose keys count up from [k] are in order. *)
Lemma indexed_sorted {A} (key : A -> Z) (k : Z) (l : list A) :
  (forall i x, l !! i = Some x -> key x = Z.of_nat i + k) -> StronglySorted (fun x y => key x <= key y) l.
Proof.
  revert k. induction l as [|x l IH]; intros k H; constructor.
  - apply (IH (k + 1)). intros i y Hy. rewrite (H (S i) y Hy). lia.
  - apply Forall_forall. intros y Hy. apply list_elem_of_lookup in Hy as [i Hi].
    rewrite (H 0%nat x eq_refl), (H (S i) y Hi). lia.
Qed.

Lemma indexed_sort {A} {srt : SortSlice} (key : A -> Z) (k : Z) (l : list A) :
  (forall i x, l !! i = Some x -> key x = Z.of_nat i + k) -> sort_Slice (fun x y => key x <? key y) l = l.
Proof.
  intros Hn. symmetry. apply (sorted_unique key).
  - by rewrite (sort_Slice_perm _ _ l).
  - apply NoDup_alt. intros i j y Hi Hj. rewrite list_lookup_fmap in Hi, Hj.
    destruct (l !! i) as [a|] eqn:Ea, (l !! j) as [b|] eqn:Eb; try done.
    apply Hn in Ea, Eb. cbn in Hi, Hj. injection Hi as Hi. injection Hj as Hj. lia.
  - by apply (indexed_sorted key k).
  - by apply sort_Slice_sorted.
Qed.

(** [AppendConversationTurn] of each, the errors, and the last state. *)
Fixpoint append_all {A} (append : A -> IO unit) (ts : list A) (fs : FS) : list bool * FS :=
  match ts with
  | [] => ([], fs)
  | t :: ts =>
      let '(r, fs) := append t fs in
      let '(oks, fs) := append_all append ts fs in
      (is_ok r :: oks, fs)
  end.

Lemma append_all_log {A} {jA : JSON A} (append : A -> IO unit) path ts bs bs0 fs :
  (forall t fs, t ∈ ts -> let '(r, fs') := append t fs in
     match json_Marshal t with
     | Ok b => grows (b ++ [LF]) (default [] (fs_files fs !! path)) (default [] (fs_files fs' !! path)) (is_ok r)
     | Err _ => True
     end) ->
  Forall2 json_line ts bs -> default [] (fs_files fs !! path) = log_text bs0 ->
  Forall (fun ok => ok = true) (fst (append_all append ts fs)) ->
  default [] (fs_files (snd (append_all append ts fs)) !! path) = log_text (bs0 ++ bs).
Proof.
  intros Happ Hts. revert bs0 fs Happ.
  induction Hts as [|t b ts bs (Hm & _) _ IH]; intros bs0 fs Happ H0 Hok.
  - cbn. by rewrite app_nil_r.
  - cbn [append_all] in *. pose proof (Happ t fs ltac:(by left)) as Ht. rewrite Hm in Ht.
    destruct (append t fs) as [r fs1]. destruct (append_all append ts fs1) as [oks fs2] eqn:E.
    cbn [fst snd] in *. apply Forall_cons in Hok as [Hr Hok]. destruct Ht as (k & Hk & Hfull).
    specialize (IH (bs0 ++ [b]) fs1). rewrite E in IH. cbn [fst snd] in IH.
    rewrite <- app_assoc in IH. apply IH; [|  |done].
    + intros t' fs' Ht'. apply Happ. by right.
    + rewrite Hk, Hfull by done. by rewrite H0, log_text_app.
Qed.

Lemma log_text_nonempty bs : bs <> [] -> log_text bs <> [].
Proof. destruct bs as [|b bs]; [done|]. unfold log_text. cbn. intros _ H. by destruct b. Qed.

Lemma default_Some (o : option gostring) l : default [] o = l -> l <> [] -> o = Some l.
Proof. destruct o; cbn; [by intros ->|by intros <-]. Qed.

(** ** Properties *)

(** Writing a record is atomic.  Whatever fails - and wherever a crash cuts the
    operation short - the file holds the old text or the complete new one: the
    new one, with no temporary file left, when no error is returned, and the old
    one when one is.  No other file changes but the temporary one. *)
Theorem writeJSONAtomic_atomic {A} `{JSON A} (path : gostring) (value : A) (fs : FS) :
  let '(r, fs') := writeJSONAtomic path value fs in
  (forall q, q ∉ [path; path ++ ".tmp"] -> fs_files fs' !! q = fs_files fs !! q)
  /\ match r with
     | Ok _ => exists b, json_MarshalIndent value = Ok b /\ fs_files fs' !! path = Some b
               /\ fs_files fs' !! (path ++ ".tmp") = None
     | Err _ => fs_files fs' !! path = fs_files fs !! path
     end.
Proof. apply writeJSONAtomic_spec. Qed.

Section Properties.
Context {jS : JSON Session} {jT : JSON Turn} {jC : JSON Conversation} {jCT : JSON ConversationTurn}.
Context {srt : SortSlice} (marshal_event : StoredStreamEvent -> result gostring).
Variable s : Store.

(** C25: the store implements its contract.  Seen as a map of sessions, a map of
    conversations and logs of turns and events, every operation, under every
    schedule of I/O faults, changes exactly the record it names and only when it
    returns no error, an update only of a record that exists; it extends the log
    it names by its line, or by a prefix of it when it returns an error; and
    touches nothing else. *)
Theorem store_refines (o : op) (fs : FS) (Hroot : st_root s <> [])
    (Hid : safe_id (snd (op_target o))) (Hf : op_faithful s o fs) :
  let '(r, fs') := run_op marshal_event s o fs in
  step_ok marshal_event s o (is_ok r) fs fs'.
Proof. by apply run_op_step. Qed.

(** C26: round trip of a conversation's turn log.  Turns that were all appended
    without error, to a conversation with no log, are read back, sorted by index,
    all or the last n, as long as every line is shorter than 1 MiB; one longer
    line makes the whole log unreadable. *)
Theorem conversation_log_roundtrip (id : gostring) (ts : list ConversationTurn)
    (bs : list gostring) (n : Z) (fs fs' : FS) (oks : list bool)
    (Hroot : st_root s <> []) (Hid : safe_id id) (Hne : ts <> [])
    (Hts : Forall (fun t => T_ConversationID t = id) ts) (Hjson : Forall2 json_line ts bs)
    (Hempty : log_at s fs FConversationTurn id = [])
    (Happ : append_all (AppendConversationTurn s) ts fs = (oks, fs'))
    (Hoks : Forall (fun ok => ok = true) oks) (Hfaults : fs_faults fs' = []) :
  fst (PeekConversationTurns s id n fs')
  = if forallb (fits maxConversationLine) bs
    then Ok (last_n n (sort_Slice (fun x y => T_Index x <? T_Index y) ts))
    else Err (ErrWrapped "scan conversation turns: " ErrTooLong).
Proof.
  unfold PeekConversationTurns. rewrite (peek_log _ _ _ ts bs); [done|done| |done].
  change (conversationTurnPath s id) with (path_of s FConversationTurn id).
  assert (bs <> []) as Hbs by (intros ->; by inversion Hjson; subst).
  apply default_Some; [|by apply log_text_nonempty].
  replace fs' with (snd (append_all (AppendConversationTurn s) ts fs)) by by rewrite Happ.
  apply (append_all_log _ _ ts bs []); [|done|done|by rewrite Happ].
  intros t fs1 Ht. rewrite Forall_forall in Hts. specialize (Hts t Ht).
  assert (safe_id (snd (op_target (OAppendConversationTurn t)))) as Hsafe by (cbn; by rewrite Hts).
  pose proof (run_op_step marshal_event s Hroot (OAppendConversationTurn t) fs1 Hsafe I) as HS.
  change (run_op marshal_event s (OAppendConversationTurn t) fs1) with (AppendConversationTurn s t fs1) in HS.
  destruct (AppendConversationTurn s t fs1) as [r fs2].
  pose proof (so_log _ _ _ _ _ _ HS FConversationTurn id Hid ltac:(set_solver)) as Hl. cbn [op_line] in Hl.
  destruct (json_Marshal t); [|done]. cbn [op_target] in Hl. by rewrite bool_decide_true in Hl by by rewrite Hts.
Qed.

(** The reader of single-shot turns has a smaller buffer.  [PeekTurns] returns
    the turns of a log that was appended as long as every line is shorter than
    64 KiB; one long turn makes all of them unreadable. *)
Theorem PeekTurns_limit (id : gostring) (ts : list Turn) (bs : list gostring) (n : Z) (fs : FS)
    (Hjson : Forall2 json_line ts bs)
    (Hlog : fs_files fs !! turnPath s id = Some (log_text bs)) (Hfaults : fs_faults fs = []) :
  fst (PeekTurns s id n fs)
  = if forallb (fun b => Z.of_nat (length b) <? 65536) bs
    then Ok (last_n n (sort_Slice (fun x y => TU_Index x <? TU_Index y) ts))
    else Err (ErrWrapped "scan turns: " ErrTooLong).
Proof. unfold PeekTurns. by rewrite (peek_log _ _ _ ts bs). Qed.
End Properties.

(** ** The properties at a concrete store *)
Module StoreSim.

(** JSON by a table of values and texts. *)
Definition table_json {A} `{EqDecision A} (tbl : list (A * gostring)) : JSON A :=
  let enc a := match list_find (fun x => fst x = a) tbl with
               | Some (_, (_, b)) => Ok b | None => Err (ErrNew "unsupported value") end in
  {| json_Marshal := enc; json_MarshalIndent := enc;
     json_Unmarshal b := match list_find (fun x => snd x = b) tbl with
                         | Some (_, (a, _)) => Ok a
                         | None => Err (ErrNew "invalid character") end |}.

Definition not_less {A} (less : A -> A -> bool) (x y : A) : Prop := less y x = false.
#[global] Instance not_less_dec {A} (less : A -> A -> bool) : RelDecision (not_less less).
Proof. intros x y. unfold not_less. apply _. Defined.

Lemma not_less_sorted {A} (less : A -> A -> bool) (key : A -> Z) l :
  (forall x y, less x y = (key x <? key y)) ->
  StronglySorted (fun x y => key x <= key y) (merge_sort (not_less less) l).
Proof.
  intros Hless.
  assert (forall x y, not_less less x y <-> key x <= key y) as Hn
    by (intros x y; unfold not_less; by rewrite Hless, Z.ltb_ge).
  assert (Transitive (not_less less)) by (intros x y z; rewrite !Hn; lia).
  assert (Total (not_less less)) by (intros x y; rewrite !Hn; lia).
  pose proof (StronglySorted_merge_sort (not_less less) l) as H1.
  revert H1. generalize (merge_sort (not_less less) l) as k.
  induction 1 as [|x k _ IH Hx]; constructor; [done|].
  eapply Forall_impl; [exact Hx|]. intros y. apply Hn.
Qed.

#[global] Instance sort : SortSlice := {|
  sort_Slice A less l := merge_sort (not_less less) l;
  sort_Slice_perm A less l := merge_sort_Permutation _ l;
  sort_Slice_sorted A less key l := not_less_sorted less key l;
|}.

Definition turn (i : Z) (text : gostring) : ConversationTurn :=
  {| T_ConversationID := "c1"; T_Index := i; T_From := "a"; T_FromID := "a"; T_ToID := [];
     T_Reason := []; T_NextIDParsed := None; T_FallbackUsed := false; T_Envelope := [];
     T_Response := text; T_MarkerToken := []; T_StartedAt := 0; T_EndedAt := 0;
     T_CompletionConfidence := 1; T_ParserConfidence := 1; T_Warnings := [] |}.

Definition turns : list ConversationTurn := [turn 2 "two"; turn 1 "one"].
Definition lines : list gostring := ["{2}"; "{1}"].

Definition session (st : gostring) : Session :=
  {| S_ID := "s1"; S_Provider := "mock"; S_Status := st; S_StartedAt := 5; S_EndedAt := None;
     S_DurationMs := None; S_ExitCode := None; S_ParserConfidence := None;
     S_ObservationConfidence := None; S_AuthMode := []; S_BlockedReason := None;
     S_BytesCaptured := None; S_Warnings := []; S_TerminalCols := None; S_TerminalRows := None |}.

Definition single : Turn :=
  {| TU_SessionID := "s1"; TU_Index := 0; TU_Role := "user"; TU_Content := "hi"; TU_CreatedAt := 5 |}.

#[global] Instance jCT : JSON ConversationTurn := table_json (zip turns lines).
#[global] Instance jS : JSON Session :=
  table_json [(session RunRunning, "{running}"); (session RunCompleted, "{completed}")].
#[global] Instance jT : JSON Turn := table_json [(single, "{hi}")].
#[global] Instance jC : JSON Conversation := table_json [].

Definition event_json (e : StoredStreamEvent) : result gostring := Ok "{}".
Definition store : Store := {| st_root := "./logs"; st_debugRaw := false |}.
Definition empty : FS := {| fs_files := ∅; fs_dirs := ∅; fs_faults := [] |}.
Definition fresh : FS := snd (New "./logs" false empty).

Definition patch : SessionPatch :=
  {| SP_Status := Some RunCompleted; SP_EndedAt := None; SP_DurationMs := None; SP_ExitCode := None;
     SP_ParserConfidence := None; SP_ObservationConfidence := None; SP_AuthMode := None;
     SP_BlockedReason := None; SP_BytesCaptured := None; SP_Warnings := None;
     SP_TerminalCols := None; SP_TerminalRows := None |}.
End StoreSim.

(** A short JSON line, by evaluation. *)
Ltac eval_line :=
  split; [|vm_compute; reflexivity]; refine (conj _ (conj _ (conj _ (conj _ _))));
  first [vm_compute; reflexivity | apply (bool_decide_unpack _); vm_compute; reflexivity].

Import StoreSim.

(** The rename of an update fails: the session keeps its status. *)
Definition sim_created : FS := snd (CreateSession store (session RunRunning) fresh).
Definition sim_faulty : FS :=
  {| fs_files := fs_files sim_created; fs_dirs := fs_dirs sim_created;
     fs_faults := [NoFault; NoFault; FaultOpen] |}.

Lemma store_refines_witness :
  session_at store (snd (UpdateSession store "s1" patch sim_faulty)) "s1" = Some (session RunRunning)
  /\ session_at store (snd (UpdateSession store "s1" patch sim_created)) "s1" = Some (session RunCompleted)
  /\ let '(r, fs') := run_op event_json store (OUpdateSession "s1" patch) sim_faulty in
     step_ok event_json store (OUpdateSession "s1" patch) (is_ok r) sim_faulty fs'.
Proof.
  split; [vm_compute; reflexivity|]. split; [vm_compute; reflexivity|].
  apply store_refines.
  - discriminate.
  - apply (bool_decide_unpack _). reflexivity.
  - intros x Hx. vm_compute in Hx. injection Hx as <-. exists "{completed}". split; reflexivity.
Defined.

Definition sim_appended := append_all (AppendConversationTurn store) turns fresh.

Lemma sim_lines : Forall2 json_line turns lines.
Proof.
  repeat constructor; try discriminate; by apply (bool_decide_unpack _).
Qed.

Lemma conversation_log_roundtrip_witness :
  fst (PeekConversationTurns store "c1" 0 (snd sim_appended)) = Ok [turn 1 "one"; turn 2 "two"].
Proof.
  refine (conversation_log_roundtrip event_json store "c1" turns lines 0 fresh (snd sim_appended)
    (fst sim_appended) _ _ _ _ _ _ _ _ _).
  - discriminate.
  - apply (bool_decide_unpack _). reflexivity.
  - discriminate.
  - repeat constructor.
  - exact sim_lines.
  - vm_compute. reflexivity.
  - vm_compute. reflexivity.
  - vm_compute. repeat constructor.
  - vm_compute. reflexivity.
Defined.

Lemma PeekTurns_limit_witness :
  fst (PeekTurns store "s1" 1 (snd (AppendTurn store single fresh))) = Ok [single].
Proof.
  refine (PeekTurns_limit store "s1" [single] ["{hi}"] 1 _ _ _ _).
  - repeat constructor; try discriminate. by apply (bool_decide_unpack _).
  - vm_compute. reflexivity.
  - vm_compute. reflexivity.
Defined.
