(* ===== verification/StoreList.v ===== *)
(** * Listing records and upgrading old ones ([file_store_list.go], [internal/store/v1compat])

    The contract of the paginated listing over the file system, and the reader
    of conversations written before the N-peer format. *)
From S2P Require Import Prelude GoLib Model FileSys Store.

(** ** [v1compat] *)
Section V1.
(** [json.Unmarshal] into the struct with the schema version only. *)
Context (unmarshal_version : gostring -> result Z) {jC : JSON Conversation}.

Definition Detect (data : gostring) : bool :=
  match unmarshal_version data with Err _ => false | Ok v => v <? 2 end.

(** The fields [UpgradeConversation] assigns. *)
Definition upgrade (c : Conversation) : Conversation :=
  if 2 <=? SchemaVersion c then c
  else with_v2 c 2
         [{| PP_ID := "a"; PP_Spec := C_PeerA c |}; {| PP_ID := "b"; PP_Spec := C_PeerB c |}]
         (<["b" := SeedB c]> {[ "a" := SeedA c ]})
         (if bool_decide (Opener c = []) then "a" else Opener c).

Definition UpgradeConversation (data : gostring) : result Conversation :=
  c ← json_Unmarshal data; Ok (upgrade c).
End V1.

Definition upgrade_turn (i : nat) (t : ConversationTurn) : ConversationTurn :=
  let from := T_From t in
  with_routing t from
    (if bool_decide (from = "a") then "b" else if bool_decide (from = "b") then "a" else T_ToID t)
    (if bool_decide (T_Reason t = [])
     then (if (i =? 0)%nat then TurnReasonOpener else TurnReasonAddressed) else T_Reason t)
    (T_NextIDParsed t) (T_FallbackUsed t).

Definition UpgradeTurns (turns : list ConversationTurn) : list ConversationTurn :=
  imap upgrade_turn turns.

(** ** Lemmas on directories *)

Lemma JoinPath_entry p d f :
  p <> [] -> plain d -> plain f ->
  JoinPath [JoinPath [p; d]; f] = JoinPath [p; d] ++ "/" ++ f.
Proof.
  intros Hp Hd Hf. rewrite JoinPath_plain2, (JoinPath_plain p d) by done.
  unfold render_path. cbn [rev]. rewrite (Join_snoc (rev _ ++ [d])) by by destruct (rev _).
  destruct (fst (clean_path p)); by rewrite <- ?app_assoc.
Qed.

Lemma entry_of_spec d p name :
  entry_of d p = Some name <-> p = d ++ "/" ++ name /\ "/"%char ∉ name /\ name <> [].
Proof.
  unfold entry_of. split.
  - intros H. destruct (_ && _) eqn:E; [|done]. injection H as <-. bool_facts. done.
  - intros (-> & H1 & H2). rewrite app_assoc.
    assert (drop (length d + 1) ((d ++ "/") ++ name) = name) as ->.
    { rewrite drop_app_length'; [done|]. rewrite length_app. cbn. lia. }
    rewrite !bool_decide_true, !bool_decide_false by (try done; by rewrite <- app_assoc). done.
Qed.

Lemma json_name_plain name : "/"%char ∉ name -> Ext name = ".json" -> plain name.
Proof. intros H1 H2. unfold plain. split_and!; [done|by intros ->..]. Qed.

(** The names of the JSON files of a directory. *)
Definition json_names (fs : FS) (dir : gostring) : list gostring :=
  filter (fun n => Ext n = ".json") (omap (entry_of dir) (fst <$> map_to_list (fs_files fs))).

Lemma json_names_spec fs dir name :
  name ∈ json_names fs dir <->
  is_Some (fs_files fs !! (dir ++ "/" ++ name)) /\ "/"%char ∉ name /\ Ext name = ".json".
Proof.
  unfold json_names. rewrite list_elem_of_filter, list_elem_of_omap. split.
  - intros (He & p & Hp & Hn). apply entry_of_spec in Hn as (-> & H1 & _).
    apply list_elem_of_fmap in Hp as ([q b] & Hq & Hin). cbn in Hq. subst q.
    apply elem_of_map_to_list in Hin. split_and!; [by eexists|done|done].
  - intros ([b Hb] & H1 & He). split; [done|]. exists (dir ++ "/" ++ name). split.
    + apply list_elem_of_fmap. exists (dir ++ "/" ++ name, b). split; [done|].
      by apply elem_of_map_to_list.
    + apply entry_of_spec. split_and!; [done|done|by intros ->].
Qed.

Lemma omap_NoDup {A B} (f : A -> option B) (l : list A) :
  NoDup l -> (forall x y b, f x = Some b -> f y = Some b -> x = y) -> NoDup (omap f l).
Proof.
  intros Hl Hinj. induction Hl as [|x l Hx Hl IH]; cbn; [constructor|].
  destruct (f x) as [b|] eqn:E; [|done]. constructor; [|done].
  intros (y & Hy & Hb)%list_elem_of_omap. apply Hx. by rewrite (Hinj x y b).
Qed.

Lemma json_names_NoDup fs dir : NoDup (json_names fs dir).
Proof.
  apply NoDup_filter, omap_NoDup; [apply NoDup_fst_map_to_list|].
  intros x y b Hx Hy. apply entry_of_spec in Hx as [-> _]. by apply entry_of_spec in Hy as [-> _].
Qed.

Section List.
Context {A : Type} {jA : JSON A}.
Variables (keep : A -> bool) (started : A -> time).

(** What the file of a name holds, when the filter keeps it. *)
Definition kept (fs : FS) (dir name : gostring) : option A :=
  a ← json_at fs (dir ++ "/" ++ name); if keep a then Some a else None.

Definition wanted (e : gostring * bool) : bool := negb (snd e) && bool_decide (Ext (fst e) = ".json").

Lemma list_entries_spec fs dir es :
  fs_faults fs = [] ->
  (forall name, (name, false) ∈ es -> Ext name = ".json" -> JoinPath [dir; name] = dir ++ "/" ++ name) ->
  list_entries keep dir es fs
  = (omap (fun e : gostring * bool => if wanted e then kept fs dir (fst e) else None) es, fs).
Proof.
  intros Hf Hj. induction es as [|[name isdir] es IH]; [done|].
  assert (Hes : forall name, (name, false) ∈ es -> Ext name = ".json" ->
    JoinPath [dir; name] = dir ++ "/" ++ name) by (intros; apply Hj; [by right|done]).
  cbn [list_entries omap list_omap]. unfold wanted at 1. cbn [fst snd].
  destruct isdir; cbn [orb negb andb]; [by apply IH|].
  case_bool_decide as He; cbn [negb]; [|by apply IH].
  rewrite Hj by (try done; by left).
  assert (ReadFile (dir ++ "/" ++ name) fs =
    (match fs_files fs !! (dir ++ "/" ++ name) with
     | Some b => Ok b
     | None => if is_dir fs (dir ++ "/" ++ name)
               then Err (ErrNew ("read " ++ (dir ++ "/" ++ name) ++ ": is a directory"))
               else Err (ErrNoEnt (dir ++ "/" ++ name))
     end, fs)) as ->.
  { destruct fs as [files dirs faults]. cbn in Hf. subst faults. unfold ReadFile. cbn.
    by destruct (files !! _). }
  rewrite IH by done. unfold kept, json_at.
  destruct (fs_files fs !! (dir ++ "/" ++ name)) as [b|]; cbn [mbind option_bind].
  - destruct (json_Unmarshal b) as [a|e]; cbn [mbind option_bind]; [|done]. by destruct (keep a).
  - by destruct (is_dir _ _).
Qed.

Lemma omap_perm {B C} (f : B -> option C) l k : l ≡ₚ k -> omap f l ≡ₚ omap f k.
Proof. induction 1; cbn; repeat case_match; try done; [by constructor..|by etrans]. Qed.

Lemma page_spec {B} limit offset (all : list B) :
  0 < limit -> 0 <= offset -> page limit offset all = take (Z.to_nat limit) (drop (Z.to_nat offset) all).
Proof.
  intros Hl Ho. unfold page. destruct (Z.leb_spec (Z.of_nat (length all)) offset).
  { rewrite drop_ge by lia. by rewrite take_nil. }
  assert ((if 0 <? offset then drop (Z.to_nat offset) all else all) = drop (Z.to_nat offset) all) as ->.
  { destruct (Z.ltb_spec 0 offset); [done|]. by replace offset with 0 by lia. }
  cbv zeta. destruct (Z.ltb_spec 0 limit); [|lia]. cbn [andb].
  destruct (Z.ltb_spec limit (Z.of_nat (length (drop (Z.to_nat offset) all)))); [done|].
  by rewrite take_ge by lia.
Qed.

Lemma wanted_names fs dir (ps : list gostring) :
  omap (fun e : gostring * bool => if wanted e then kept fs dir (fst e) else None)
    (omap (fun p => (fun n => (n, false)) <$> entry_of dir p) ps)
  = omap (kept fs dir) (filter (fun n => Ext n = ".json") (omap (entry_of dir) ps)).
Proof.
  induction ps as [|p ps IH]; [done|]. cbn [omap list_omap].
  destruct (entry_of dir p) as [n|]; cbn [fmap option_fmap option_map]; [|done].
  cbn [omap list_omap]. rewrite filter_cons. unfold wanted at 1. cbn [fst snd negb andb].
  case_bool_decide; [rewrite decide_True by done|rewrite decide_False by done]; [|done].
  cbn [omap list_omap]. by destruct (kept fs dir n); rewrite <- IH.
Qed.

Lemma unwanted_dirs fs dir (ps : list gostring) :
  omap (fun e : gostring * bool => if wanted e then kept fs dir (fst e) else None)
    (omap (fun p => (fun n => (n, true)) <$> entry_of dir p) ps) = [].
Proof.
  induction ps as [|p ps IH]; [done|]. cbn [omap list_omap].
  by destruct (entry_of dir p) as [n|]; cbn.
Qed.

Lemma newest_first {srt : SortSlice} (l : list A) :
  StronglySorted (fun x y => started y <= started x)
    (sort_Slice (fun x y => started y <? started x) l).
Proof.
  pose proof (sort_Slice_sorted A (fun x y => started y <? started x) (fun x => - started x) l) as H.
  assert (forall k, StronglySorted (fun x y => - started x <= - started y) k ->
    StronglySorted (fun x y => started y <= started x) k) as Hk.
  { induction 1 as [|x k _ IH Hx]; constructor; [done|].
    eapply Forall_impl; [exact Hx|]. cbn. lia. }
  apply Hk, H. intros x y. by destruct (Z.ltb_spec (started y) (started x)), (Z.ltb_spec (- started x) (- started y)); try lia.
Qed.

Lemma list_dir_spec {srt : SortSlice} dir fs :
  fs_faults fs = [] -> is_dir fs dir = true ->
  (forall name, "/"%char ∉ name -> Ext name = ".json" -> JoinPath [dir; name] = dir ++ "/" ++ name) ->
  exists all, StronglySorted (fun x y => started y <= started x) all
  /\ all ≡ₚ omap (kept fs dir) (json_names fs dir)
  /\ forall limit offset, 0 < limit -> 0 <= offset ->
     list_dir keep started limit offset dir fs
     = (Ok (take (Z.to_nat limit) (drop (Z.to_nat offset) all), Z.of_nat (length all)), fs).
Proof.
  intros Hf Hd Hj.
  set (raw := omap (fun p => (fun n => (n, false)) <$> entry_of dir p) (fst <$> map_to_list (fs_files fs))
              ++ omap (fun p => (fun n => (n, true)) <$> entry_of dir p) (elements (fs_dirs fs))).
  assert (ReadDir dir fs = (Ok (merge_sort entry_le raw), fs)) as HR.
  { destruct fs as [files dirs faults]. cbn in Hf. subst faults. unfold ReadDir. cbn [next_fault fs_faults].
    change (is_dir _ dir) with (is_dir {| fs_files := files; fs_dirs := dirs; fs_faults := [] |} dir).
    by rewrite Hd. }
  pose proof (merge_sort_Permutation entry_le raw) as Hperm.
  set (es := merge_sort entry_le raw) in *.
  assert (Hes : forall name, (name, false) ∈ es -> Ext name = ".json" ->
    JoinPath [dir; name] = dir ++ "/" ++ name).
  { intros name Hin He. apply Hj; [|done]. rewrite Hperm in Hin.
    apply elem_of_app in Hin as [Hin|Hin]; apply list_elem_of_omap in Hin as (p & _ & Hp);
      destruct (entry_of dir p) as [n|] eqn:En; cbn in Hp; try done.
    injection Hp as <-. by apply entry_of_spec in En as (_ & ? & _). }
  exists (sort_Slice (fun x y => started y <? started x)
    (omap (fun e : gostring * bool => if wanted e then kept fs dir (fst e) else None) es)).
  split_and!.
  - apply newest_first.
  - rewrite sort_Slice_perm. rewrite (omap_perm _ _ _ Hperm). unfold raw.
    by rewrite omap_app, wanted_names, unwanted_dirs, app_nil_r.
  - intros limit offset Hl Ho. unfold list_dir. rewrite HR.
    rewrite (list_entries_spec fs dir es Hf Hes). by rewrite page_spec.
Qed.
End List.

Lemma UpgradeTurns_ok turns :
  Forall (fun t => T_From t ∈ [PeerSlotA; PeerSlotB]) turns ->
  Forall (fun t => T_Reason t <> [] /\ T_FromID t = T_From t
                   /\ T_ToID t = PeerSlot_Other (T_From t)) (UpgradeTurns turns).
Proof.
  intros H. unfold UpgradeTurns. apply Forall_lookup. intros i t Ht.
  rewrite list_lookup_imap in Ht. destruct (turns !! i) as [t0|] eqn:E; [|done].
  injection Ht as <-. rewrite Forall_lookup in H. specialize (H i t0 E). cbn.
  split_and!; [case_bool_decide; [by destruct i|done]|done|].
  apply elem_of_cons in H as [->| ->%list_elem_of_singleton]; done.
Qed.

(** ** Properties *)

Definition has_status (st : option ConversationStatus) (c : Conversation) : bool :=
  match st with Some st => bool_decide (C_Status c = st) | None => true end.

(** The conversation list.  The pages that [ListConversations] returns are the
    windows of one list: every stored conversation that decodes and has the
    status asked for, once per file, the newest first; the total is its length,
    whatever the page. *)
Theorem ListConversations_pages {jC : JSON Conversation} {srt : SortSlice} (s : Store) (fs : FS)
    (st : option ConversationStatus) (Hroot : st_root s <> []) (Hfaults : fs_faults fs = [])
    (Hdir : is_dir fs (conversationsDir s) = true) :
  exists all,
    StronglySorted (fun x y => CreatedAt y <= CreatedAt x) all
    /\ all ≡ₚ omap (kept (has_status st) fs (conversationsDir s)) (json_names fs (conversationsDir s))
    /\ forall limit offset, 0 < limit -> 0 <= offset ->
       ListConversations s {| CF_Status := st; CF_Limit := limit; CF_Offset := offset |} fs
       = (Ok (take (Z.to_nat limit) (drop (Z.to_nat offset) all), Z.of_nat (length all)), fs).
Proof.
  apply (list_dir_spec (has_status st) CreatedAt); try done.
  intros name H1 H2. apply JoinPath_entry; [done|split_and!; try done; by apply (bool_decide_unpack _)|].
  by apply json_name_plain.
Qed.

(** The upgrade of old conversations.  A conversation the upgrade returns has
    schema version at least 2; one that had less declares the peers a and b with
    the old specifications and seeds and an opener that is never empty; upgrading
    again changes nothing, every other field is kept, and every turn of the
    upgraded log has a reason, its speaker and the other peer as recipient. *)
Theorem upgrade_spec (c : Conversation) (turns : list ConversationTurn) :
  let c' := upgrade c in
  2 <= SchemaVersion c' /\ upgrade c' = c'
  /\ (SchemaVersion c < 2 ->
      (PP_ID <$> C_Peers c') = ["a"; "b"] /\ Seeds c' !! "a" = Some (SeedA c)
      /\ Seeds c' !! "b" = Some (SeedB c) /\ OpenerID c' <> [])
  /\ c = with_v2 c' (SchemaVersion c) (C_Peers c) (Seeds c) (OpenerID c)
  /\ (Forall (fun t => T_From t ∈ [PeerSlotA; PeerSlotB]) turns ->
      Forall (fun t => T_Reason t <> [] /\ T_FromID t = T_From t
                       /\ T_ToID t = PeerSlot_Other (T_From t)) (UpgradeTurns turns)).
Proof.
  intros c'. unfold c', upgrade. destruct (Z.leb_spec 2 (SchemaVersion c)) as [Hv|Hv].
  - rewrite (proj2 (Z.leb_le _ _) Hv). split_and!; [done|done|lia|by destruct c|].
    apply UpgradeTurns_ok.
  - cbn. split_and!; [lia|done| |by destruct c|apply UpgradeTurns_ok].
    intros _. split_and!; [done| |apply lookup_insert_eq|by case_bool_decide].
    rewrite lookup_insert_ne by done. apply lookup_insert_eq.
Qed.

Import StoreSim.

Lemma ListConversations_pages_witness :
  exists all : list Conversation, StronglySorted (fun x y => CreatedAt y <= CreatedAt x) all
  /\ forall limit offset, 0 < limit -> 0 <= offset ->
     ListConversations store {| CF_Status := None; CF_Limit := limit; CF_Offset := offset |} (snd sim_appended)
     = (Ok (take (Z.to_nat limit) (drop (Z.to_nat offset) all), Z.of_nat (length all)), snd sim_appended).
Proof.
  destruct (ListConversations_pages store (snd sim_appended) None ltac:(discriminate)
    ltac:(vm_compute; reflexivity) ltac:(vm_compute; reflexivity)) as (all & H1 & _ & H2).
  by exists all.
Defined.
