(* ===== verification/System.v ===== *)
(** * The broker over the file store

    [BrokerDeps.Store] is the file store: the broker's environment with its three
    store operations run on the file system, and everything else - peers, bus,
    terminator, clock - any environment.  [disk_step] says what each call of a
    run does to the files, and the environment is [Observed] to do so; with the
    protocol and the store's contract this gives what a finished run leaves on
    disk: in any environment that is observed so, of which the broker over the
    store alone is the first. *)
From S2P Require Import Prelude GoLib Model Policy Sentinel Envelope Bus Broker Protocol Trace BrokerRun Turns FileSys Store.

Definition err_of {A} (r : result A) : option goerr :=
  match r with Ok _ => None | Err e => Some e end.

Section System.
Context {jS : JSON Session} {jT : JSON Turn} {jC : JSON Conversation} {jCT : JSON ConversationTurn}.
Context {srt : SortSlice} (marshal_event : StoredStreamEvent -> result gostring).
Variable s : Store.
Context {World Transport : Type} {env0 : BrokerEnv World Transport}.

(** A store operation; the calls on the rest of the environment are [on_snd]. *)
Definition on_store (o : op) (x : FS * World) : option goerr * (FS * World) :=
  let '(r, fs) := run_op marshal_event s o (fst x) in (err_of r, (fs, snd x)).

#[export] Instance store_env : BrokerEnv (FS * World) Transport := {|
  env_CreateConversation c := on_store (OCreateConversation c);
  env_UpdateConversation id p := on_store (OUpdateConversation id p);
  env_AppendConversationTurn t := on_store (OAppendConversationTurn t);
  env_Start t spec id slot := on_snd (env_Start t spec id slot);
  env_Deliver t e := on_snd (env_Deliver t e);
  env_Stop t g := on_snd (env_Stop t g);
  env_TerminatorStart c := on_snd (env_TerminatorStart c);
  env_TerminatorStop := on_snd env_TerminatorStop;
  env_Publish t m := on_snd (env_Publish t m);
  env_Subscribe t := on_snd (env_Subscribe t);
  env_Cancel ch x := (fst x, env_Cancel ch (snd x));
  env_recv_within ch d := on_snd (env_recv_within ch d);
  env_recv_ready ch := on_snd (env_recv_ready ch);
  env_ctx_done := on_snd env_ctx_done;
  env_now := on_snd env_now;
  env_random n := on_snd (env_random n);
|}.

(** The store operation of a call, with the outcome the log has for it. *)
Definition stored_op (c : call Transport) : option (op * option goerr) :=
  match c with
  | KCreate conv e => Some (OCreateConversation conv, e)
  | KUpdate id p e => Some (OUpdateConversation id p, e)
  | KAppend t e => Some (OAppendConversationTurn t, e)
  | _ => None
  end.

(** What a call does to the files: those of the store run their operation. *)
Definition disk_step (c : call Transport) (fs fs' : FS) : Prop :=
  match stored_op c with
  | Some (o, e) => exists r, run_op marshal_event s o fs = (r, fs') /\ e = err_of r
  | None => fs' = fs
  end.

#[local] Abbreviation replays := (trace disk_step).

Lemma store_explains o (k : option goerr -> call Transport) :
  (forall e, stored_op (k e) = Some (o, e)) -> explains fst disk_step k (on_store o).
Proof.
  intros Hk [fs w]. unfold on_store, disk_step. cbn [fst snd]. rewrite Hk.
  destruct (run_op marshal_event s o fs) as [r fs'] eqn:E. by exists r.
Qed.

(** An operation that leaves the files alone. *)
Lemma rest_explains {A} (k : A -> call Transport) (f : World -> A * World) :
  (forall a, stored_op (k a) = None) -> explains fst disk_step k (on_snd f).
Proof. intros Hk [fs w]. unfold on_snd, disk_step. cbn [fst snd]. rewrite Hk. by destruct (f w). Qed.

Lemma rest_unseen {A} (f : World -> A * World) : unseen (World := FS * World) fst (on_snd f).
Proof. intros [fs w]. unfold on_snd. cbn [fst snd]. by destruct (f w). Qed.

#[export] Instance store_observed : Observed fst disk_step.
Proof.
  split; intros; first [by apply store_explains|by apply rest_explains|by apply rest_unseen|idtac].
  - by intros [fs w].
  - intros [fs w]. cbn. unfold on_snd. cbn. destruct (env_recv_within ch dl w) as [[m|] w1]; [|done]. cbn.
    by destruct (env_recv_ready ch w1).
Qed.

(** What the rest of the environment holds is stepped as before. *)
Lemma store_observed_rest {State} (proj : World -> State) (does : call Transport -> State -> State -> Prop) :
  Observed proj does -> (forall c z, stored_op c <> None -> does c z z) ->
  Observed (env := store_env) (fun x => proj (snd x)) does.
Proof.
  intros O Hdoes.
  assert (forall o (k : option goerr -> call Transport), (forall e, stored_op (k e) <> None) ->
    explains (World := FS * World) (fun x => proj (snd x)) does k (on_store o)) as Hst.
  { intros o k Hk [fs w]. unfold on_store. cbn [fst snd]. destruct (run_op marshal_event s o fs) as [r fs'].
    cbn [fst snd]. by apply Hdoes. }
  assert (forall A (k : A -> call Transport) (f : World -> A * World), explains proj does k f ->
    explains (World := FS * World) (fun x => proj (snd x)) does k (on_snd f)) as Hrest.
  { intros A k f Hf [fs w]. specialize (Hf w). unfold on_snd. cbn [fst snd]. by destruct (f w). }
  assert (forall A (f : World -> A * World), unseen proj f ->
    unseen (World := FS * World) (fun x => proj (snd x)) (on_snd f)) as Hun.
  { intros A f Hf [fs w]. specialize (Hf w). unfold on_snd. cbn [fst snd]. by destruct (f w). }
  split; intros; try (by apply Hst); try (apply Hrest, O); try (apply Hun, O).
  - intros [fs w]. exact (ob_cancel proj does ch w).
  - intros [fs w]. pose proof (ob_drain proj does ch dl w) as H. revert H. cbn. unfold on_snd. cbn.
    destruct (env_recv_within ch dl w) as [[m|] w1]; [|done]. cbn. by destruct (env_recv_ready ch w1).
Qed.

Variable d : BrokerDeps Transport.

(** Without a warning every store operation succeeded. *)
Lemma warnings_none l c o e :
  warnings_of l = [] -> c ∈ l -> stored_op c = Some (o, e) -> e = None.
Proof.
  intros Hw Hc Hs. induction l as [|c' l IH]; [by apply elem_of_nil in Hc|].
  rewrite warnings_of_cons in Hw. apply app_nil in Hw as [Hw1 Hw2].
  apply elem_of_cons in Hc as [->|Hc]; [|by apply IH].
  destruct c'; try done; injection Hs as _ <-; by destruct e0.
Qed.

(** ** What the operations of a log leave on disk *)

Definition patches (l : list (call Transport)) : list ConversationPatch := snd <$> updates l.

Definition patched (old : option Conversation) (ps : list ConversationPatch) : option Conversation :=
  foldl (fun o p => patch_conversation p <$> o) old ps.

(** The records an update makes survive JSON. *)
Fixpoint updates_faithful (old : option Conversation) (ps : list ConversationPatch) : Prop :=
  match ps with
  | [] => True
  | p :: ps => (forall c, old = Some c -> json_faithful (patch_conversation p c))
               /\ updates_faithful (patch_conversation p <$> old) ps
  end.

Definition short_line (t : ConversationTurn) : Prop :=
  exists b, json_line t b /\ fits maxConversationLine b = true.

(** The operations of a log that all succeeded and wrote one conversation. *)
Definition all_for (id : gostring) (l : list (call Transport)) : Prop :=
  forall c o e, c ∈ l -> stored_op c = Some (o, e) -> e = None /\ snd (op_target o) = id.

Hypothesis root : st_root s <> [].

Lemma replays_disk id l fs fs' :
  safe_id id -> replays l fs fs' -> creates l = [] -> all_for id l ->
  Forall short_line (appended l) -> updates_faithful (conversation_at s fs id) (patches l) ->
  conversation_at s fs' id = patched (conversation_at s fs id) (patches l)
  /\ exists bs, Forall2 json_line (appended l) bs /\ forallb (fits maxConversationLine) bs = true
     /\ log_at s fs' FConversationTurn id = log_at s fs FConversationTurn id ++ log_text bs.
Proof.
  intros Hid Hr. induction Hr as [fs|c l fs fs1 fs' Hstep _ IH]; intros Hc Hall Hs Hf.
  { split; [done|]. exists []. split_and!; [constructor|done|]. by rewrite app_nil_r. }
  unfold disk_step in Hstep. destruct (stored_op c) as [[o e0]|] eqn:Ho.
  - destruct Hstep as (r & Hop & ->). destruct (Hall c o (err_of r) ltac:(by left) Ho) as [Hok Ht].
    assert (is_ok r = true) as Hr by by destruct r.
    assert (all_for id l) as Hall' by (intros c' o' e' Hin; apply Hall; by right).
    destruct c as [| id' p e|t e| | | | | | | | | |]; try discriminate Ho; [discriminate Hc|..]; injection Ho as <- ->;
      cbn [op_target snd] in Ht; subst.
    + pose proof (run_op_step marshal_event s root (OUpdateConversation id p) fs Hid (proj1 Hf)) as HS.
      rewrite Hop, Hr in HS.
      assert (conversation_at s fs1 id = patch_conversation p <$> conversation_at s fs id) as Hc1.
      { rewrite (so_conversation _ _ _ _ _ _ HS id Hid). cbn [op_target andb].
        rewrite bool_decide_true by done. reflexivity. }
      destruct IH as [IH1 (bs & IH2 & IH3 & IH4)]; [done|done|done|rewrite Hc1; apply Hf|].
      split; [rewrite IH1, Hc1; reflexivity|]. exists bs. split_and!; [done|done|]. rewrite IH4. f_equal.
      exact (so_log _ _ _ _ _ _ HS FConversationTurn id Hid ltac:(set_solver)).
    + cbn [appended omap list_omap] in Hs. apply Forall_cons in Hs as [(b & Hb & Hfit) Hs].
      pose proof (run_op_step marshal_event s root (OAppendConversationTurn t) fs Hid I) as HS.
      rewrite Hop, Hr in HS.
      assert (conversation_at s fs1 (T_ConversationID t) = conversation_at s fs (T_ConversationID t)) as Hc1.
      { rewrite (so_conversation _ _ _ _ _ _ HS _ Hid). cbn [op_target]. by rewrite bool_decide_false. }
      pose proof (so_log _ _ _ _ _ _ HS FConversationTurn _ Hid ltac:(set_solver)) as Hg.
      cbn [op_line op_target] in Hg. rewrite (proj1 Hb), bool_decide_true in Hg by done.
      destruct Hg as (k & Hk & Hfull). rewrite Hfull in Hk by done.
      destruct IH as [IH1 (bs & IH2 & IH3 & IH4)]; [done|done|done|rewrite Hc1; exact Hf|].
      split; [rewrite IH1, Hc1; reflexivity|]. exists (b :: bs).
      split_and!; [by constructor|cbn; by rewrite Hfit|]. rewrite IH4, Hk, <- app_assoc. done.
  - subst fs1. destruct c; try discriminate Ho; (apply IH; [done|intros c' o' e' Hin; apply Hall; by right|done|done]).
Qed.

Lemma numbered_sort id ts : numbered id ts -> sort_Slice (fun x y => T_Index x <? T_Index y) ts = ts.
Proof. intros Hn. apply (indexed_sort T_Index 1). intros i t Ht. apply (Hn i t Ht). Qed.

(** The rest of the log after the conversation was created. *)
Lemma replays_created conv e l fs fs' :
  head l = Some (KCreate conv e) -> creates l = [conv] -> replays l fs fs' ->
  warnings_of l = [] -> safe_id (C_ID conv) -> json_faithful (stampSchemaVersion conv) ->
  exists l' fs1, l = KCreate conv e :: l' /\ creates l' = [] /\ replays l' fs1 fs'
  /\ conversation_at s fs1 (C_ID conv) = Some (stampSchemaVersion conv)
  /\ forall id, safe_id id -> log_at s fs1 FConversationTurn id = log_at s fs FConversationTurn id.
Proof.
  intros Hh Hc Hr Hw Hid Hf. destruct l as [|c l]; [done|]. injection Hh as ->.
  apply trace_cons_inv in Hr as (fs1 & (r & Hop & ->) & Hl). rewrite warnings_of_cons in Hw. apply app_nil in Hw as [Hw _].
  assert (is_ok r = true) as Hr1 by by destruct r.
  pose proof (run_op_step marshal_event s root (OCreateConversation conv) fs Hid Hf) as HS.
  rewrite Hop, Hr1 in HS. exists l, fs1. split_and!; [done|by injection Hc|done| |].
  - rewrite (so_conversation _ _ _ _ _ _ HS _ Hid). cbn [op_target andb]. by rewrite bool_decide_true.
  - intros id Hid'. exact (so_log _ _ _ _ _ _ HS FConversationTurn id Hid' ltac:(set_solver)).
Qed.

Lemma get_conversation id c fs :
  fs_faults fs = [] -> conversation_at s fs id = Some c -> fst (GetConversation s id fs) = Ok (Some c).
Proof. apply get_at. Qed.

(** Every store operation of a run writes its conversation. *)
Lemma run_all_for l r :
  run_facts d l r -> FR_Warnings r = [] ->
  numbered (C_ID (deps_Conversation d)) (appended l) ->
  forall c o e, c ∈ l -> stored_op c = Some (o, e) ->
  (forall conv e', c <> KCreate conv e') -> e = None /\ snd (op_target o) = C_ID (deps_Conversation d).
Proof.
  intros Hrf Hw Hn c o e Hin Ho Hne. rewrite (rf_warnings _ _ _ Hrf) in Hw.
  split; [by eapply warnings_none|].
  destruct c as [conv e'|id' p e'|t e'| | | | | | | | | |]; try discriminate Ho; [by destruct (Hne conv e')|..];
    injection Ho as <- <-; cbn [op_target snd].
  - assert ((id', p) ∈ updates l) as Hu by (apply list_elem_of_omap; by eexists).
    rewrite (rf_update _ _ _ Hrf), list_elem_of_singleton in Hu. by injection Hu.
  - assert (t ∈ appended l) as Hu by (apply list_elem_of_omap; by eexists).
    apply list_elem_of_lookup in Hu as [i Hi]. apply (Hn i t Hi).
Qed.

(** The patch that closes a conversation, applied to the stored record. *)
Lemma patch_final conv st now n :
  patch_conversation (final_patch st now n) (stampSchemaVersion conv)
  = stampSchemaVersion (final_conv conv st now n).
Proof. unfold stampSchemaVersion. cbn. by repeat case_match. Qed.

Lemma patch_result c0 f :
  f = final_conv (created_conv d c0) (C_Status f) (default 0 (C_EndedAt f)) (TurnsConsumed f) ->
  patch_conversation {| CP_Status := Some (C_Status f); CP_EndedAt := C_EndedAt f;
    CP_TurnsConsumed := Some (TurnsConsumed f) |} (stampSchemaVersion (created_conv d (CreatedAt f)))
  = stampSchemaVersion f.
Proof.
  intros Hf. assert (CreatedAt f = c0) as -> by by rewrite Hf.
  assert (C_EndedAt f = Some (default 0 (C_EndedAt f))) as He by by rewrite Hf at 1.
  rewrite He at 1. etrans; [apply patch_final|]. by rewrite <- Hf.
Qed.

(** *** Any environment whose files the calls of the store step *)
Section Observed.
Context {W : Type} {envW : BrokerEnv W Transport} (files : W -> FS) {observed : Observed files disk_step}.

Lemma run_on_disk fuel w r w' log :
  deps_ok d -> random_ok (env := envW) ->
  Z.max 1 (MaxTurns (deps_Conversation d)) <= Z.of_nat fuel ->
  Broker.Run d fuel (w, []) = (Some r, (w', log)) -> honest log ->
  let id := C_ID (deps_Conversation d) in
  safe_id id -> FR_Warnings r = [] -> Forall short_line (appended log) ->
  json_faithful (stampSchemaVersion (created_conv d (CreatedAt (FR_Conversation r)))) ->
  json_faithful (stampSchemaVersion (FR_Conversation r)) ->
  conversation_at s (files w') id = Some (stampSchemaVersion (FR_Conversation r))
  /\ numbered id (appended log)
  /\ exists bs, Forall2 json_line (appended log) bs /\ forallb (fits maxConversationLine) bs = true
     /\ log_at s (files w') FConversationTurn id = log_at s (files w) FConversationTurn id ++ log_text bs.
Proof.
  intros Hok Hrand Hfuel HR Hh id Hid Hw Hs Hf1 Hf2.
  destruct (Run_facts d fuel w r w' log Hok Hrand Hfuel HR) as [Hl Hrf].
  destruct (run_log_numbered d log r Hok Hl Hh) as (Hn & e & Hhd & Hc).
  destruct (trace_Run files disk_step d fuel w []) as (o & k & z & E & Hk).
  rewrite HR in E. injection E as _ <- ->. cbn [app] in *.
  set (conv := created_conv d (CreatedAt (FR_Conversation r))) in *.
  assert (C_ID conv = id) as Hcid by done.
  assert (warnings_of k = []) as Hwk by by rewrite <- (rf_warnings _ _ _ Hrf).
  destruct (replays_created conv e k (files w) (files w') Hhd Hc Hk Hwk) as (l & fs1 & -> & Hc1 & Hk1 & Hat & Hlog);
    [by rewrite Hcid|done|]. rewrite Hcid in Hat.
  assert (patches l = patches (KCreate conv e :: l)) as Hp by done.
  unfold patches in Hp. rewrite (rf_update _ _ _ Hrf) in Hp. cbn in Hp.
  destruct (rf_created _ _ _ Hrf) as [c0 Hfin%patch_result]. fold conv in Hfin.
  destruct (replays_disk id l fs1 (files w') Hid Hk1 Hc1) as (H1 & bs & H2 & H3 & H4).
  - intros c o' e' Hin Ho. apply (run_all_for _ r Hrf Hw Hn c o' e'); [by right|done|].
    intros cv e2 ->. assert (cv ∈ creates l) as Hx by (apply list_elem_of_omap; by eexists).
    rewrite Hc1 in Hx. by apply elem_of_nil in Hx.
  - done.
  - unfold patches. rewrite Hp, Hat. split; [|done]. intros c [= <-]. by rewrite Hfin.
  - split_and!; [|done|].
    + unfold patches in H1. rewrite H1, Hp, Hat. cbn. by rewrite Hfin.
    + exists bs. split_and!; [done|done|]. by rewrite H4, Hlog.
Qed.

Lemma run_reads_back (fuel : nat) (w w' : W) (r : FinalResult)
    (log : list (call Transport)) (n : Z) (Hok : deps_ok d) (Hrand : random_ok (env := envW))
    (Hfuel : Z.max 1 (MaxTurns (deps_Conversation d)) <= Z.of_nat fuel)
    (HR : Broker.Run d fuel (w, []) = (Some r, (w', log)))
    (Hhonest : honest log) (Hid : safe_id (C_ID (deps_Conversation d)))
    (Hempty : log_at s (files w) FConversationTurn (C_ID (deps_Conversation d)) = [])
    (Hw : FR_Warnings r = []) (Hlines : Forall short_line (appended log))
    (Hj1 : json_faithful (stampSchemaVersion (created_conv d (CreatedAt (FR_Conversation r)))))
    (Hj2 : json_faithful (stampSchemaVersion (FR_Conversation r)))
    (Hfaults : fs_faults (files w') = []) :
  fst (GetConversation s (C_ID (deps_Conversation d)) (files w'))
    = Ok (Some (stampSchemaVersion (FR_Conversation r)))
  /\ (FR_Turns r <> [] -> fst (PeekConversationTurns s (C_ID (deps_Conversation d)) n (files w'))
                          = Ok (last_n n (appended log)))
  /\ Forall2 (routed d (FR_Conversation r)) (appended log) (FR_Turns r).
Proof.
  destruct (Run_facts d fuel w r w' log Hok Hrand Hfuel HR) as [_ Hrf].
  destruct (run_on_disk fuel w r w' log) as (H1 & Hn & bs & H2 & H3 & H4); try done.
  pose proof (rf_appended _ _ _ Hrf) as Ha.
  split_and!; [by apply get_conversation| |done]. intros Hne.
  unfold PeekConversationTurns. rewrite (peek_log _ _ _ (appended log) bs); [|done| |done].
  - rewrite H3, (numbered_sort _ _ Hn). done.
  - apply default_Some; [by rewrite Hempty in H4|]. apply log_text_nonempty. intros ->.
    apply Forall2_nil_inv_r in H2. rewrite H2 in Ha. by apply Forall2_nil_inv_l in Ha.
Qed.
End Observed.

End System.

(** ** A run over a fresh store *)
Module SystemSim.
#[export] Instance jC : JSON Conversation := StoreSim.table_json
  [(stampSchemaVersion (created_conv Sim.deps (CreatedAt (FR_Conversation Sim.res))), "{running}");
   (stampSchemaVersion (FR_Conversation Sim.res), "{completed}")].
#[export] Instance jCT : JSON ConversationTurn := StoreSim.table_json (zip (appended sim_log) ["{1}"; "{2}"]).
#[export] Instance env : BrokerEnv (FS * Sim.world) gostring :=
  store_env (jS := StoreSim.jS) (jT := StoreSim.jT) StoreSim.event_json StoreSim.store.

Definition run : option FinalResult * ((FS * Sim.world) * list (call gostring)) :=
  Broker.Run (env := env) Sim.deps 2 ((StoreSim.fresh, Sim.start), []).
Definition files : FS := fst (fst (snd run)).
Definition res : FinalResult := default Sim.res (fst run).
Definition log : list (call gostring) := snd (snd run).

Lemma disk_run_eq : Broker.Run (env := env) Sim.deps 2 ((StoreSim.fresh, Sim.start), [])
  = (Some res, ((files, snd (fst (snd run))), log)).
Proof.
  etrans; [apply (returned run Sim.res); vm_compute; reflexivity|]. unfold res, files, log.
  by destruct (snd run) as [[fs w] l].
Qed.

Definition turn (i : nat) : ConversationTurn := default (StoreSim.turn 0 []) (appended log !! i).
Lemma appended_eq : appended log = [turn 0; turn 1].
Proof. vm_compute. reflexivity. Qed.

Lemma disk_random_ok : random_ok (World := FS * Sim.world) (Transport := gostring) (env := env).
Proof. intros m [fs w]. by eexists. Qed.
End SystemSim.

#[local] Existing Instance SystemSim.jC.
#[local] Existing Instance SystemSim.jCT.

