(* ===== verification/Postgres.v ===== *)
(** * The Postgres store ([internal/store/postgres])

    The store builds SQL statements and hands them to a connection pool.  The
    pool is an interface; its laws say what the statements of this file mean on
    the tables of its schema, an execution that reports an error may or may not
    have taken effect.  The reader of turns is the program's own: the default
    for the count, the allocation, the scan and the reversal in place.  The last
    section compares the two stores. *)
From S2P Require Import Prelude GoLib Model FileSys Store.

(** ** The statements *)

(** A row of [stream_events]. *)
Record EventRow := {
  ev_session : gostring;
  ev_timestamp : time;
  ev_kind : gostring;
  ev_chunk_raw : gostring;
  ev_chunk_text : gostring;
  ev_chunk_encoding : gostring;
}.

(** The statements that change the tables, with their arguments. *)
Inductive stmt :=
| migrationSQL
| InsertSession (x : Session)
| UpdateSessions (id : gostring) (p : SessionPatch)
| InsertTurn (t : Turn)
| InsertStreamEvent (r : EventRow).

(** The pool.  A query gives the rows [Next] finds, each with the outcome of
    its [Scan], and [Err]. *)
Class Pool (DB : Type) := {
  pool_New : gostring -> DB -> option goerr * DB;
  pool_Exec : stmt -> DB -> option goerr * DB;
  pool_Query : gostring -> Z -> DB -> result (list (result Turn) * option goerr) * DB;
  pool_Close : DB -> DB;
}.

(** ** What the statements mean *)
Record tables := {
  tb_sessions : gmap gostring Session;
  tb_turns : list Turn;
  tb_events : list EventRow;
}.

(** [COALESCE] of a column that may be null, and of one that may not. *)
Definition COALESCE {A} (arg column : option A) : option A :=
  match arg with Some _ => arg | None => column end.
Definition COALESCE_value {A} (arg : option A) (column : A) : A :=
  match arg with Some a => a | None => column end.

Section Tables.
(** A [TIMESTAMPTZ] column keeps microseconds. *)
Variable timestamptz : time -> time.

Definition stored_session (x : Session) : Session :=
  {| S_ID := S_ID x; S_Provider := S_Provider x; S_Status := S_Status x;
     S_StartedAt := timestamptz (S_StartedAt x); S_EndedAt := timestamptz <$> S_EndedAt x;
     S_DurationMs := S_DurationMs x; S_ExitCode := S_ExitCode x;
     S_ParserConfidence := S_ParserConfidence x; S_ObservationConfidence := S_ObservationConfidence x;
     S_AuthMode := S_AuthMode x; S_BlockedReason := S_BlockedReason x;
     S_BytesCaptured := S_BytesCaptured x; S_Warnings := S_Warnings x;
     S_TerminalCols := S_TerminalCols x; S_TerminalRows := S_TerminalRows x |}.

Definition stored_turn (t : Turn) : Turn :=
  {| TU_SessionID := TU_SessionID t; TU_Index := TU_Index t; TU_Role := TU_Role t;
     TU_Content := TU_Content t; TU_CreatedAt := timestamptz (TU_CreatedAt t) |}.

Definition stored_event (r : EventRow) : EventRow :=
  {| ev_session := ev_session r; ev_timestamp := timestamptz (ev_timestamp r); ev_kind := ev_kind r;
     ev_chunk_raw := ev_chunk_raw r; ev_chunk_text := ev_chunk_text r;
     ev_chunk_encoding := ev_chunk_encoding r |}.

(** The assignments of the [UPDATE]. *)
Definition update_row (p : SessionPatch) (row : Session) : Session :=
  {| S_ID := S_ID row; S_Provider := S_Provider row; S_Status := COALESCE_value (SP_Status p) (S_Status row);
     S_StartedAt := S_StartedAt row; S_EndedAt := COALESCE (timestamptz <$> SP_EndedAt p) (S_EndedAt row);
     S_DurationMs := COALESCE (SP_DurationMs p) (S_DurationMs row);
     S_ExitCode := COALESCE (SP_ExitCode p) (S_ExitCode row);
     S_ParserConfidence := COALESCE (SP_ParserConfidence p) (S_ParserConfidence row);
     S_ObservationConfidence := COALESCE (SP_ObservationConfidence p) (S_ObservationConfidence row);
     S_AuthMode := COALESCE_value (SP_AuthMode p) (S_AuthMode row);
     S_BlockedReason := COALESCE (SP_BlockedReason p) (S_BlockedReason row);
     S_BytesCaptured := COALESCE (SP_BytesCaptured p) (S_BytesCaptured row);
     S_Warnings := COALESCE_value (SP_Warnings p) (S_Warnings row);
     S_TerminalCols := COALESCE (SP_TerminalCols p) (S_TerminalCols row);
     S_TerminalRows := COALESCE (SP_TerminalRows p) (S_TerminalRows row) |}.

Definition apply_stmt (st : stmt) (tb : tables) : tables :=
  match st with
  | migrationSQL => tb
  | InsertSession x => {| tb_sessions := <[S_ID x := stored_session x]> (tb_sessions tb);
                          tb_turns := tb_turns tb; tb_events := tb_events tb |}
  | UpdateSessions id p => {| tb_sessions := alter (update_row p) id (tb_sessions tb);
                              tb_turns := tb_turns tb; tb_events := tb_events tb |}
  | InsertTurn t => {| tb_sessions := tb_sessions tb; tb_turns := tb_turns tb ++ [stored_turn t];
                       tb_events := tb_events tb |}
  | InsertStreamEvent r => {| tb_sessions := tb_sessions tb; tb_turns := tb_turns tb;
                              tb_events := tb_events tb ++ [stored_event r] |}
  end.

(** The primary key, the foreign keys and the unique index of the schema.  The
    [NOT NULL] columns are left out: only [warnings] could be sent as null, for a
    nil slice, which the model does not tell from an empty one; the law of the pool
    allows any statement to fail. *)
Definition constraints (st : stmt) (tb : tables) : bool :=
  match st with
  | migrationSQL | UpdateSessions _ _ => true
  | InsertSession x => bool_decide (tb_sessions tb !! S_ID x = None)
  | InsertTurn t =>
      bool_decide (is_Some (tb_sessions tb !! TU_SessionID t))
      && forallb (fun u => negb (bool_decide (TU_SessionID u = TU_SessionID t) && (TU_Index u =? TU_Index t)))
           (tb_turns tb)
  | InsertStreamEvent r => bool_decide (is_Some (tb_sessions tb !! ev_session r))
  end.

(** [WHERE session_id = $1 ORDER BY turn_index DESC LIMIT $2] *)
Definition selects (id : gostring) (n : Z) (tb : tables) (rows : list Turn) : Prop :=
  exists l, StronglySorted (fun x y => TU_Index y <= TU_Index x) l
  /\ l ≡ₚ filter (fun t => TU_SessionID t = id) (tb_turns tb) /\ rows = take (Z.to_nat n) l.
End Tables.

(** The documented behaviour of the pool and the database behind it. *)
Class PoolLaws (DB : Type) `{Pool DB} (timestamptz : time -> time) (view : DB -> tables) := {
  law_Exec : forall st db, let '(e, db') := pool_Exec st db in
    let done := constraints st (view db) = true /\ view db' = apply_stmt timestamptz st (view db) in
    match e with None => done | Some _ => done \/ view db' = view db end;
  law_Query : forall id n db, let '(r, db') := pool_Query id n db in
    view db' = view db
    /\ match r with
       | Ok (rows, None) => exists ts, rows = Ok <$> ts /\ selects id n (view db) ts
       | _ => True
       end;
}.

(** ** The store *)
Section Store.
Context {DB : Type} `{Pool DB}.

Definition New (databaseURL : gostring) (db : DB) : option goerr * DB :=
  let '(e, db) := pool_New databaseURL db in
  match e with
  | Some e => (Some (ErrWrapped "connect postgres: " e), db)
  | None =>
      let '(e, db) := pool_Exec migrationSQL db in
      match e with
      | Some e => (Some (ErrWrapped "apply migrations: " e), pool_Close db)
      | None => (None, db)
      end
  end.

Definition CreateSession (x : Session) : DB -> option goerr * DB := pool_Exec (InsertSession x).
Definition UpdateSession (id : gostring) (p : SessionPatch) : DB -> option goerr * DB :=
  pool_Exec (UpdateSessions id p).
Definition AppendTurn (t : Turn) : DB -> option goerr * DB := pool_Exec (InsertTurn t).
Definition AppendStreamEvent (e : StoredStreamEvent) : DB -> option goerr * DB :=
  pool_Exec (InsertStreamEvent
    {| ev_session := SSE_SessionID e; ev_timestamp := SSE_Timestamp e; ev_kind := SSE_Kind e;
       ev_chunk_raw := SSE_Data e; ev_chunk_text := SSE_Data e; ev_chunk_encoding := "raw" |}).

(** [make(\[\]model.Turn, 0, n)] panics when the 80-byte elements exceed the
    48-bit address space. *)
Definition turns_ok (n : Z) : bool := (0 <=? n) && (n * 80 <=? 2 ^ 48).

Fixpoint scan_rows (rows : list (result Turn)) : result (list Turn) :=
  match rows with
  | [] => Ok []
  | r :: rows => t ← r; ts ← scan_rows rows; Ok (t :: ts)
  end.

(** [turns\[i\], turns\[j\] = turns\[j\], turns\[i\]]; [None] is an index out of range. *)
Definition swap {A} (i j : nat) (l : list A) : option (list A) :=
  x ← l !! i; y ← l !! j; Some (<[j := x]> (<[i := y]> l)).

Fixpoint reverse_loop {A} (fuel : nat) (i j : Z) (l : list A) : option (list A) :=
  if i <? j then
    match fuel with
    | O => None
    | S fuel => l ← swap (Z.to_nat i) (Z.to_nat j) l; reverse_loop fuel (i + 1) (j - 1) l
    end
  else Some l.

Definition reverse {A} (l : list A) : option (list A) :=
  reverse_loop (length l) 0 (Z.of_nat (length l) - 1) l.

Definition peek_limit (lastN : Z) : Z := if lastN <=? 0 then 10 else lastN.

(** [None] is a panic. *)
Definition PeekTurns (id : gostring) (lastN : Z) (db : DB) : option (result (list Turn)) * DB :=
  let lastN := peek_limit lastN in
  let '(r, db) := pool_Query id lastN db in
  (match r with
   | Err e => Some (Err e)
   | Ok (rows, err) =>
       if turns_ok lastN then
         match scan_rows rows with
         | Err e => Some (Err e)
         | Ok turns =>
             turns ← reverse turns;
             Some (match err with Some e => Err e | None => Ok turns end)
         end
       else None
   end, db).

Definition Close (db : DB) : option goerr * DB := (None, pool_Close db).

Definition not_in_M1 (name : gostring) : goerr :=
  ErrNew ("postgres backend: " ++ name ++ " not implemented in M1 (plan 3 adds it)").
Definition not_implemented : goerr := ErrNew "not implemented".

Definition CreateConversation (c : Conversation) (db : DB) : option goerr * DB :=
  (Some (not_in_M1 "CreateConversation"), db).
Definition UpdateConversation (id : gostring) (p : ConversationPatch) (db : DB) : option goerr * DB :=
  (Some (not_in_M1 "UpdateConversation"), db).
Definition AppendConversationTurn (t : ConversationTurn) (db : DB) : option goerr * DB :=
  (Some (not_in_M1 "AppendConversationTurn"), db).
Definition PeekConversationTurns (id : gostring) (lastN : Z) (db : DB) : result (list ConversationTurn) * DB :=
  (Err (not_in_M1 "PeekConversationTurns"), db).
Definition ListSessions (f : SessionFilter) (db : DB) : result (list Session * Z) * DB :=
  (Err not_implemented, db).
Definition ListConversations (f : ConversationFilter) (db : DB) : result (list Conversation * Z) * DB :=
  (Err not_implemented, db).
Definition GetSession (id : gostring) (db : DB) : result (option Session) * DB := (Err not_implemented, db).
Definition GetConversation (id : gostring) (db : DB) : result (option Conversation) * DB :=
  (Err not_implemented, db).

(** The operations that write, as the file store has them. *)
Definition run_op (o : op) : DB -> option goerr * DB :=
  match o with
  | OCreateSession x => CreateSession x
  | OUpdateSession id p => UpdateSession id p
  | OAppendTurn t => AppendTurn t
  | OAppendStreamEvent e => AppendStreamEvent e
  | OCreateConversation c => CreateConversation c
  | OUpdateConversation id p => UpdateConversation id p
  | OAppendConversationTurn t => AppendConversationTurn t
  end.
End Store.

(** ** Lemmas *)

Lemma insert_at {A} (c e : list A) (u v : A) : <[length c := v]> (c ++ u :: e) = c ++ v :: e.
Proof. induction c as [|z c IH]; [done|]. cbn. by f_equal. Qed.

(** The loop with two indices reverses the list. *)
Lemma swap_ends {A} (a b m : list A) (x y : A) (i j : nat) :
  i = length a -> j = S (length a + length m) ->
  swap i j (a ++ x :: m ++ y :: b) = Some (a ++ y :: m ++ x :: b).
Proof.
  intros -> ->. unfold swap. rewrite (list_lookup_middle a _ x (length a)) by reflexivity. cbn [mbind option_bind].
  assert (forall z, (a ++ z :: m ++ y :: b) !! S (length a + length m) = Some y) as Hj.
  { intros z. rewrite lookup_app_r by lia. replace (S (length a + length m) - length a)%nat with (S (length m)) by lia.
    change ((m ++ y :: b) !! length m = Some y). by rewrite list_lookup_middle. }
  rewrite Hj. cbn [mbind option_bind]. f_equal. rewrite insert_at.
  rewrite (cons_middle y a (m ++ y :: b)), !(app_assoc _ _ (m ++ y :: b)), (app_assoc _ m), <- (app_assoc a [y] m).
  replace (S (length a + length m)) with (length (a ++ [y] ++ m)) by (rewrite !length_app; cbn; lia).
  rewrite insert_at. by rewrite <- !app_assoc.
Qed.

Lemma reverse_loop_spec {A} fuel (a b m : list A) i j :
  (length m <= fuel)%nat -> i = Z.of_nat (length a) -> j = i + Z.of_nat (length m) - 1 ->
  reverse_loop fuel i j (a ++ m ++ b) = Some (a ++ rev m ++ b).
Proof.
  revert a b m i j. induction fuel as [|fuel IH]; intros a b m i j Hf -> ->.
  { destruct m; [|cbn in Hf; lia]. cbn [reverse_loop length rev]. by rewrite (proj2 (Z.ltb_ge _ _)) by lia. }
  destruct m as [|x m].
  { cbn [reverse_loop length rev]. by rewrite (proj2 (Z.ltb_ge _ _)) by lia. }
  destruct m as [|y m _] using rev_ind.
  { cbn [reverse_loop length rev]. by rewrite (proj2 (Z.ltb_ge _ _)) by lia. }
  cbn [length] in *. rewrite length_app in *. cbn [length] in *.
  cbn [reverse_loop]. rewrite (proj2 (Z.ltb_lt _ _)) by lia.
  cbn [app]. rewrite <- app_assoc. cbn [app].
  rewrite swap_ends by lia. cbn [mbind option_bind].
  rewrite (cons_middle y a), app_assoc.
  rewrite IH by (rewrite ?length_app; cbn; lia).
  cbn [rev]. rewrite rev_app_distr. cbn. f_equal. by rewrite <- !app_assoc.
Qed.

Lemma reverse_rev {A} (l : list A) : reverse l = Some (rev l).
Proof.
  unfold reverse. pose proof (reverse_loop_spec (length l) [] [] l 0 (Z.of_nat (length l) - 1)) as H0.
  rewrite !app_nil_r in H0. by apply H0.
Qed.

Lemma scan_rows_ok (ts : list Turn) : scan_rows (Ok <$> ts) = Ok ts.
Proof. induction ts as [|t ts IH]; [done|]. cbn [fmap list_fmap scan_rows]. by rewrite IH. Qed.

Lemma last_n_rev {A} n (l : list A) : 0 < n -> rev (take (Z.to_nat n) l) = last_n n (rev l).
Proof.
  intros Hn. unfold last_n. rewrite (proj2 (Z.ltb_lt 0 n)), length_rev by done. cbn [andb].
  destruct (Z.ltb_spec n (Z.of_nat (length l))) as [Hl|Hl]; [|by rewrite take_ge by lia].
  rewrite <- (take_drop (Z.to_nat n) l) at 3. rewrite rev_app_distr, drop_app_length'; [done|].
  rewrite length_rev, length_drop. lia.
Qed.

Lemma sorted_rev (l : list Turn) :
  StronglySorted (fun x y => TU_Index y <= TU_Index x) l ->
  StronglySorted (fun x y => TU_Index x <= TU_Index y) (rev l).
Proof.
  induction 1 as [|x l _ IH Hx]; [constructor|]. cbn [rev].
  apply StronglySorted_app_2; [|done|by repeat constructor].
  intros y z Hy ->%list_elem_of_singleton. rewrite Forall_forall in Hx. apply Hx.
  by rewrite <- Permutation_rev in Hy.
Qed.

(** The [UPDATE] patches the stored row as the file store patches its record. *)
Lemma update_row_patch tz p x : update_row tz p (stored_session tz x) = stored_session tz (patch_session p x).
Proof.
  unfold update_row, stored_session, patch_session, COALESCE, COALESCE_value, set_option, set_default.
  cbn [S_EndedAt S_ID S_Provider S_Status S_StartedAt]. f_equal. by destruct (SP_EndedAt p).
Qed.

(** ** The two stores compared *)

Section Backends.
Context {jS : JSON Session} {jT : JSON Turn} {jC : JSON Conversation} {jCT : JSON ConversationTurn}.
Context {srt : SortSlice} (marshal_event : StoredStreamEvent -> result gostring).
Variable s : Store.
Hypothesis root : st_root s <> [].
Context {DB : Type} {pool : Pool DB} {tz : time -> time} {view : DB -> tables} {laws : PoolLaws DB tz view}.

Definition turns_of (id : gostring) (tb : tables) : list Turn :=
  filter (fun t => TU_SessionID t = id) (tb_turns tb).

(** The turn of an operation survives JSON. *)
Definition op_line_ok (o : op) : Prop :=
  match o with OAppendTurn t => exists b, json_line t b | _ => True end.

(** Operations that both stores did without error. *)
Inductive ran_both : list op -> FS * DB -> FS * DB -> Prop :=
| ran_nil x : ran_both [] x x
| ran_cons o os fs db fs1 db1 x :
    safe_id (snd (op_target o)) -> op_faithful s o fs -> op_line_ok o ->
    Store.run_op marshal_event s o fs = (Ok tt, fs1) -> run_op o db = (None, db1) ->
    ran_both os (fs1, db1) x -> ran_both (o :: os) (fs, db) x.

(** The files and the tables hold the same sessions and turns, the tables with
    their times to the microsecond. *)
Definition agree_on (id : gostring) (fs : FS) (tb : tables) : Prop :=
  tb_sessions tb !! id = stored_session tz <$> session_at s fs id
  /\ exists ts bs, Forall2 json_line ts bs /\ log_at s fs FTurn id = log_text bs
     /\ turns_of id tb = stored_turn tz <$> ts /\ NoDup (TU_Index <$> ts).

Definition agree (fs : FS) (tb : tables) : Prop := forall id, safe_id id -> agree_on id fs tb.

Definition fresh_files (fs : FS) : Prop :=
  forall id, safe_id id -> session_at s fs id = None /\ log_at s fs FTurn id = [].
Definition fresh_tables (tb : tables) : Prop := tb_sessions tb = ∅ /\ tb_turns tb = [].

Lemma agree_fresh fs tb : fresh_files fs -> fresh_tables tb -> agree fs tb.
Proof.
  intros Hf [Hs Ht] id Hid. destruct (Hf id Hid) as [H1 H2]. split.
  - by rewrite Hs, H1, lookup_empty.
  - exists [], []. unfold turns_of. rewrite Ht. split_and!; [constructor|done|done|constructor].
Qed.

(** The statement of an operation. *)
Definition op_stmt (o : op) (st : stmt) : Prop :=
  match o, st with
  | OCreateSession x, InsertSession x' => x' = x
  | OUpdateSession i p, UpdateSessions i' p' => i' = i /\ p' = p
  | OAppendTurn t, InsertTurn t' => t' = t
  | OAppendStreamEvent e, InsertStreamEvent _ => True
  | _, _ => False
  end.

Lemma run_op_stmt o db db1 :
  run_op o db = (None, db1) ->
  exists st, constraints st (view db) = true /\ view db1 = apply_stmt tz st (view db)
  /\ op_stmt o st.
Proof.
  destruct o as [x|id p|t|e|c|id p|t]; cbn [run_op]; try discriminate;
    unfold CreateSession, UpdateSession, AppendTurn, AppendStreamEvent; intros Hr.
  all: match type of Hr with pool_Exec ?st ?db = _ =>
    pose proof (law_Exec (PoolLaws := laws) st db) as HL; rewrite Hr in HL; destruct HL as [Hc Hv]; by exists st end.
Qed.

Lemma sessions_step o fs fs1 st tb id :
  safe_id (snd (op_target o)) -> step_ok marshal_event s o true fs fs1 -> safe_id id ->
  op_stmt o st ->
  tb_sessions tb !! id = stored_session tz <$> session_at s fs id ->
  tb_sessions (apply_stmt tz st tb) !! id = stored_session tz <$> session_at s fs1 id.
Proof.
  intros Ho HS Hid Hst Hag. rewrite (so_session _ _ _ _ _ _ HS id Hid). cbn [andb].
  destruct o as [x|i p|t|e|c|i p|t], st as [|x'|i' p'|t'|r]; try done; cbn [op_stmt] in Hst; cbn [op_target apply_stmt tb_sessions op_session].
  - subst x'. case_bool_decide as E.
    + injection E as ->. by rewrite lookup_insert_eq.
    + rewrite lookup_insert_ne; [done|congruence].
  - destruct Hst as [-> ->]. case_bool_decide as E.
    + injection E as ->. rewrite lookup_alter_eq, Hag. destruct (session_at s fs id) as [x|]; [|done].
      cbn. f_equal. apply update_row_patch.
    + rewrite lookup_alter_ne; [done|congruence].
Qed.

Lemma turns_step o fs fs1 st tb id :
  safe_id (snd (op_target o)) -> step_ok marshal_event s o true fs fs1 -> safe_id id -> op_line_ok o ->
  constraints st tb = true ->
  op_stmt o st ->
  agree_on id fs tb ->
  exists ts bs, Forall2 json_line ts bs /\ log_at s fs1 FTurn id = log_text bs
  /\ turns_of id (apply_stmt tz st tb) = stored_turn tz <$> ts /\ NoDup (TU_Index <$> ts).
Proof.
  intros Ho HS Hid Hl Hc Hst (_ & ts & bs & H1 & H2 & H3 & H4).
  pose proof (so_log _ _ _ _ _ _ HS FTurn id Hid ltac:(set_solver)) as Hg.
  destruct o as [x|i p|t|e|c|i p|t], st as [|x'|i' p'|t'|r]; try done; cbn [op_stmt] in Hst; cbn [op_line op_target op_line_ok] in *.
  1,2: exists ts, bs; split_and!; [done|by rewrite Hg|done|done].
  - subst t'. destruct Hl as (b & Hm & Hl). rewrite Hm in Hg. unfold turns_of in *.
    cbn [apply_stmt tb_turns]. rewrite filter_app.
    case_bool_decide as E.
    + injection E as Et. destruct Hg as (k & Hk & Hfull). rewrite (Hfull eq_refl) in Hk.
      exists (ts ++ [t]), (bs ++ [b]). rewrite !fmap_app, log_text_app, Hk, H2, H3. split_and!.
      * apply Forall2_app; [done|]. constructor; [done|constructor].
      * done.
      * f_equal. cbn. by rewrite decide_True.
      * apply NoDup_app. split_and!; [done| |apply NoDup_singleton].
        intros k' Hk' ->%list_elem_of_singleton. apply list_elem_of_fmap in Hk' as (u & Hu & Hin).
        cbn in Hc. apply andb_true_iff in Hc as [_ Hc]. rewrite forallb_forall in Hc.
        assert (stored_turn tz u ∈ filter (fun t => TU_SessionID t = id) (tb_turns tb)) as Hf
          by (rewrite H3; by apply list_elem_of_fmap_2).
        apply list_elem_of_filter in Hf as [Hi Hf]. apply list_elem_of_In in Hf. specialize (Hc _ Hf).
        rewrite bool_decide_true in Hc by congruence. cbn in Hc. rewrite <- Hu, Z.eqb_refl in Hc. done.
    + exists ts, bs. split_and!; [done|by rewrite Hg| |done].
      rewrite <- H3. cbn. rewrite decide_False by (cbn; congruence). by rewrite app_nil_r.
  - exists ts, bs. destruct (st_debugRaw s); [|split_and!; [done|by rewrite Hg|done|done]].
    destruct (marshal_event e); [|by destruct Hg].
    rewrite bool_decide_false in Hg by done. split_and!; [done|by rewrite Hg|done|done].
Qed.

Lemma ran_both_agree os x y :
  ran_both os x y -> agree (fst x) (view (snd x)) -> agree (fst y) (view (snd y)).
Proof.
  induction 1 as [x|o os fs db fs1 db1 x Ho Hf Hl Hr Hp _ IH]; [done|]. cbn [fst snd] in *. intros Hag.
  apply IH. intros id Hid. destruct (run_op_stmt o db db1 Hp) as (st & Hc & -> & Hst).
  pose proof (run_op_step marshal_event s root o fs Ho Hf) as HS. rewrite Hr in HS. cbn [is_ok] in HS.
  split; [by eapply sessions_step; [| | | |apply Hag]|]. by eapply turns_step; [..|apply Hag].
Qed.

Lemma last_n_fmap {A B} (f : A -> B) n l : last_n n (f <$> l) = f <$> last_n n l.
Proof. unfold last_n. rewrite length_fmap. destruct (_ && _); [|done]. by rewrite fmap_drop. Qed.

(** The rows of a query, reversed, are the last turns in order. *)
Lemma selects_sorted id n tb rows ts :
  0 < n -> selects id n tb rows -> turns_of id tb = stored_turn tz <$> ts -> NoDup (TU_Index <$> ts) ->
  rev rows = stored_turn tz <$> last_n n (sort_Slice (fun x y => TU_Index x <? TU_Index y) ts).
Proof.
  intros Hn (l & Hl & Hp & ->) Ht Hd. rewrite last_n_rev, <- last_n_fmap by done. f_equal.
  unfold turns_of in Ht. rewrite Ht in Hp.
  assert (forall k, TU_Index <$> (stored_turn tz <$> k) = TU_Index <$> k) as Hk
    by (intros k; rewrite <- list_fmap_compose; by apply list_fmap_ext).
  pose proof (sort_Slice_perm _ (fun x y => TU_Index x <? TU_Index y) ts) as Hs.
  apply (sorted_unique TU_Index).
  - by rewrite <- Permutation_rev, Hp, Hs.
  - by rewrite <- Permutation_rev, Hp, Hk.
  - by apply sorted_rev.
  - pose proof (sort_Slice_sorted _ (fun x y => TU_Index x <? TU_Index y) TU_Index ts ltac:(done)) as Hso.
    revert Hso. generalize (sort_Slice (fun x y : Turn => TU_Index x <? TU_Index y) ts) as k.
    induction 1 as [|x k _ IH Hx]; [constructor|]. cbn. constructor; [exact IH|].
    by apply Forall_fmap.
Qed.

Lemma PeekTurns_rows id n db rows db' ts :
  turns_ok (peek_limit n) = true -> pool_Query id (peek_limit n) db = (Ok (rows, None), db') ->
  rows = Ok <$> ts -> fst (PeekTurns id n db) = Some (Ok (rev ts)).
Proof.
  intros Hok Hq ->. unfold PeekTurns. rewrite Hq, Hok, scan_rows_ok, reverse_rev. done.
Qed.

(** The reader panics exactly when the database answers and the count is too
    large to allocate for. *)
Theorem PeekTurns_panics (id : gostring) (n : Z) (db : DB) :
  fst (PeekTurns id n db) = None
  <-> turns_ok (peek_limit n) = false /\ exists a, fst (pool_Query id (peek_limit n) db) = Ok a.
Proof.
  unfold PeekTurns. destruct (pool_Query id (peek_limit n) db) as [[[rows err]|e] db1]; cbn [fst].
  - destruct (turns_ok (peek_limit n)); [|by split; [split; [|eexists]|]].
    split; [|by intros [? _]]. destruct (scan_rows rows) as [ts|e]; [|done]. by rewrite reverse_rev.
  - split; [done|]. by intros [_ [a Ha]].
Qed.

(** C27: the two stores agree.  After the same operations, all of which both did
    without error and whose records survive JSON, from empty ones: the sessions
    table holds the sessions of the files, times to the microsecond; and a query
    that succeeds makes [PeekTurns] of the database return the last of the turns
    that are in the log of the files, in order, the last ten when the count is not
    positive.  [PeekTurns] of the files returns the same turns, or all of them when
    the count is not positive, if each line of the log is shorter than 64 KiB; with
    one longer line it fails, though both stores took the turn without an error. *)
Theorem backends_agree (os : list op) (fs fs' : FS) (db db' : DB)
    (Hf : fresh_files fs) (Ht : fresh_tables (view db)) (Hran : ran_both os (fs, db) (fs', db')) :
  (forall id, safe_id id -> tb_sessions (view db') !! id = stored_session tz <$> session_at s fs' id)
  /\ forall id n rows db'', safe_id id -> log_at s fs' FTurn id <> [] -> fs_faults fs' = [] ->
     turns_ok (peek_limit n) = true -> pool_Query id (peek_limit n) db' = (Ok (rows, None), db'') ->
     exists ts bs, Forall2 json_line ts bs /\ log_at s fs' FTurn id = log_text bs
     /\ let turns := sort_Slice (fun x y => TU_Index x <? TU_Index y) ts in
        fst (PeekTurns id n db') = Some (Ok (stored_turn tz <$> last_n (peek_limit n) turns))
        /\ if forallb (fits MaxScanTokenSize) bs then fst (Store.PeekTurns s id n fs') = Ok (last_n n turns)
           else exists e, fst (Store.PeekTurns s id n fs') = Err e.
Proof.
  pose proof (ran_both_agree os _ _ Hran (agree_fresh _ _ Hf Ht)) as Hag. cbn [fst snd] in Hag.
  split; [intros id Hid; apply (Hag id Hid)|]. intros id n rows db'' Hid Hne Hfl Hok Hq.
  destruct (Hag id Hid) as (_ & ts & bs & H1 & H2 & H3 & H4). exists ts, bs. split_and!; [done|done|].
  intros turns. split.
  - pose proof (law_Query (PoolLaws := laws) id (peek_limit n) db') as HL. rewrite Hq in HL.
    destruct HL as [_ (l & Hrows & Hsel)]. rewrite (PeekTurns_rows id n db' rows db'' l) by done.
    do 2 f_equal. eapply selects_sorted; [|done..]. unfold peek_limit. destruct (Z.leb_spec n 0); lia.
  - unfold Store.PeekTurns. rewrite (peek_log _ _ _ ts bs); [|done| |done].
    + destruct (forallb (fits MaxScanTokenSize) bs); [done|by eexists].
    + apply default_Some; [done|]. by rewrite <- H2.
Qed.
End Backends.

(** ** A database of tables *)
Module PgSim.
Import StoreSim.

Definition micro (t : time) : time := t / 1000 * 1000.

Definition newer (x y : Turn) : Prop := TU_Index y <= TU_Index x.
#[export] Instance newer_dec : RelDecision newer.
Proof. intros x y. unfold newer. apply _. Defined.
#[export] Instance newer_trans : Transitive newer.
Proof. intros x y z. unfold newer. lia. Qed.
#[export] Instance newer_total : Total newer.
Proof. intros x y. unfold newer. lia. Qed.

#[export] Instance pool : Pool tables := {|
  pool_New _ tb := (None, tb);
  pool_Exec st tb := if constraints st tb then (None, apply_stmt micro st tb)
                     else (Some (ErrNew "violates a constraint"), tb);
  pool_Query id n tb := (Ok (Ok <$> take (Z.to_nat n) (merge_sort newer (turns_of id tb)), None), tb);
  pool_Close tb := tb;
|}.

#[export] Instance laws : PoolLaws tables micro id.
Proof.
  split.
  - intros st tb. cbn. destruct (constraints st tb) eqn:E; [done|by right].
  - intros i n tb. cbn. split; [done|]. eexists. split; [done|].
    exists (merge_sort newer (turns_of i tb)). split_and!; [|apply merge_sort_Permutation|done].
    apply (StronglySorted_merge_sort newer).
Qed.

Definition empty : tables := {| tb_sessions := ∅; tb_turns := []; tb_events := [] |}.
Definition ops : list op := [OCreateSession (session RunRunning); OAppendTurn single; OUpdateSession "s1" patch].

(** The stores after the first operations. *)
Definition files (k : nat) : FS := foldl (fun fs o => snd (Store.run_op event_json store o fs)) fresh (take k ops).
Definition db (k : nat) : tables := foldl (fun db o => snd (run_op o db)) empty (take k ops).

Lemma ran : ran_both event_json store ops (files 0, db 0) (files 3, db 3).
Proof.
  unfold ops.
  apply ran_cons with (fs1 := files 1) (db1 := db 1);
    [apply (bool_decide_unpack _); reflexivity| |exact I|vm_compute; reflexivity|vm_compute; reflexivity|].
  { exists "{running}". split; reflexivity. }
  apply ran_cons with (fs1 := files 2) (db1 := db 2);
    [apply (bool_decide_unpack _); reflexivity|exact I| |vm_compute; reflexivity|vm_compute; reflexivity|].
  { exists "{hi}".
    refine (conj _ (conj _ (conj _ (conj _ _)))); first [reflexivity|discriminate|by apply (bool_decide_unpack _)]. }
  apply ran_cons with (fs1 := files 3) (db1 := db 3);
    [apply (bool_decide_unpack _); reflexivity| |exact I|vm_compute; reflexivity|vm_compute; reflexivity|apply ran_nil].
  intros x Hx. vm_compute in Hx. injection Hx as <-. exists "{completed}". split; reflexivity.
Qed.

Lemma fresh_ok : fresh_files store fresh.
Proof.
  intros id _. unfold session_at, json_at, log_at.
  assert (fs_files fresh = ∅) as -> by (vm_compute; reflexivity). by rewrite !lookup_empty.
Qed.
End PgSim.

#[local] Existing Instance PgSim.pool.
#[local] Existing Instance PgSim.laws.

(** The database has the session of the files, its start truncated. *)
Lemma backends_agree_witness :
  tb_sessions (PgSim.db 3) !! ("s1" : gostring) = Some (stored_session PgSim.micro (StoreSim.session RunCompleted))
  /\ exists ts, fst (Store.PeekTurns StoreSim.store "s1" 0 (PgSim.files 3)) = Ok (last_n 0 ts)
     /\ fst (PeekTurns "s1" 0 (PgSim.db 3)) = Some (Ok (stored_turn PgSim.micro <$> last_n 10 ts)).
Proof.
  destruct (backends_agree StoreSim.event_json StoreSim.store ltac:(discriminate) (tz := PgSim.micro) (view := id)
    PgSim.ops (PgSim.files 0) (PgSim.files 3) (PgSim.db 0) (PgSim.db 3)
    PgSim.fresh_ok (conj eq_refl eq_refl) PgSim.ran) as [H1 H2]. split.
  - etrans; [apply (H1 "s1"); apply (bool_decide_unpack _); reflexivity|]. vm_compute. reflexivity.
  - destruct (H2 "s1" 0 _ (PgSim.db 3) ltac:(apply (bool_decide_unpack _); reflexivity)
      ltac:(intros Hl; vm_compute in Hl; discriminate) ltac:(vm_compute; reflexivity) eq_refl
      ltac:(vm_compute; reflexivity)) as (ts & bs & _ & Hlog & Hdb & Hfiles).
    exists (sort_Slice (fun x y => TU_Index x <? TU_Index y) ts). split; [|exact Hdb].
    destruct (forallb (fits MaxScanTokenSize) bs); [exact Hfiles|]. destruct Hfiles as [e He].
    exfalso. revert He. vm_compute. discriminate.
Defined.
