(* ===== verification/Regex.v ===== *)
(** * The regular expressions of the adapters ([regexp])

    An interpreter for the constructs the pattern files use, over positions of
    the text: the byte before, and the rest.  All patterns are ASCII up to the
    case folds of [k] and [s], and a dot occurs only under a star, so bytes stand
    for runes.  [ends] is the set of positions where a match can end;
    [MatchString] asks for a match anywhere. *)
From S2P Require Import Prelude GoLib.

Inductive re :=
| Eps
| Cls (f : ascii -> bool)
| Seq (a b : re)
| Alt (a b : re)
| Star (a : re)
| WordB
| EndText
| BegLine
| EndLine.

Definition position : Type := option ascii * gostring.

Definition is_word (c : ascii) : bool :=
  is_digit c || ((65 <=? ord c) && (ord c <=? 90)) || ((97 <=? ord c) && (ord c <=? 122)) || ceq c "_".

Definition word_opt (o : option ascii) : bool := match o with Some c => is_word c | None => false end.

Definition lf_opt (o : option ascii) : bool := match o with Some c => ceq c LF | None => true end.

(** [\s]: tab, line feed, form feed, carriage return and space. *)
Definition re_s (c : ascii) : bool :=
  ceq c TAB || ceq c LF || ceq c "012" || ceq c CR || ceq c SP.

(** The positions a star reaches; each step must consume. *)
Fixpoint star_ends (step : position -> list position) (fuel : nat) (p : position) : list position :=
  match fuel with
  | O => [p]
  | S fuel =>
      p :: (filter (fun q => (length (snd q) < length (snd p))%nat) (step p) ≫= star_ends step fuel)
  end.

Fixpoint ends (r : re) (p : position) : list position :=
  match r with
  | Eps => [p]
  | Cls f => match snd p with c :: s => if f c then [(Some c, s)] else [] | [] => [] end
  | Seq a b => ends a p ≫= ends b
  | Alt a b => ends a p ++ ends b p
  | Star a => star_ends (ends a) (length (snd p)) p
  | WordB => if xorb (word_opt (fst p)) (word_opt (head (snd p))) then [p] else []
  | EndText => if bool_decide (snd p = []) then [p] else []
  | BegLine => if lf_opt (fst p) then [p] else []
  | EndLine => if lf_opt (head (snd p)) then [p] else []
  end.

(** Every position of a text. *)
Fixpoint positions (prev : option ascii) (s : gostring) : list position :=
  (prev, s) :: match s with [] => [] | c :: r => positions (Some c) r end.

Definition MatchString (r : re) (s : gostring) : bool :=
  existsb (fun p => negb (bool_decide (length (ends r p) = 0%nat))) (positions None s).

(** ** Building patterns *)
Definition chr1 (c : ascii) : re := Cls (ceq c).

Fixpoint lit (s : gostring) : re :=
  match s with
  | [] => Eps
  | [c] => chr1 c
  | c :: s => Seq (chr1 c) (lit s)
  end.

(** A letter under [(?i)]: both cases, and the long s and the Kelvin sign. *)
Definition ci1 (c : ascii) : re :=
  let both := Cls (fun d => ceq (lower1 d) (lower1 c)) in
  if ceq (lower1 c) "s" then Alt both (lit [chr 197; chr 191])
  else if ceq (lower1 c) "k" then Alt both (lit [chr 226; chr 132; chr 170])
  else both.

Fixpoint ci (s : gostring) : re :=
  match s with
  | [] => Eps
  | [c] => ci1 c
  | c :: s => Seq (ci1 c) (ci s)
  end.

Fixpoint alts (l : list re) : re :=
  match l with
  | [] => Cls (fun _ => false)
  | [r] => r
  | r :: l => Alt r (alts l)
  end.

Fixpoint seqs (l : list re) : re :=
  match l with
  | [] => Eps
  | [r] => r
  | r :: l => Seq r (seqs l)
  end.

(** [.*] without the flag [s] *)
Definition dots : re := Star (Cls (fun c => negb (ceq c LF))).
Definition spaces : re := Star (Cls re_s).

(** [\b(w1|w2|...)\b] under [(?i)] *)
Definition words (l : list gostring) : re := seqs [WordB; alts (ci <$> l); WordB].

Definition matchAny (patterns : list re) (input : gostring) : bool :=
  existsb (fun r => MatchString r input) patterns.

Example words_matches :
  (fun s => MatchString (words ["log in"; "login"]) s) <$>
    ["please LOG IN now"; "relogin"; "login."; "logins"; ""] = [true; false; true; false; false].
Proof. reflexivity. Qed.

(** ** What a match is *)

Inductive matches : re -> position -> position -> Prop :=
| m_eps p : matches Eps p p
| m_cls f o c s : f c = true -> matches (Cls f) (o, c :: s) (Some c, s)
| m_seq a b p q r : matches a p q -> matches b q r -> matches (Seq a b) p r
| m_alt_l a b p q : matches a p q -> matches (Alt a b) p q
| m_alt_r a b p q : matches b p q -> matches (Alt a b) p q
| m_star_nil a p : matches (Star a) p p
| m_star_cons a p q r : matches a p q -> matches (Star a) q r -> matches (Star a) p r
| m_word p : word_opt (fst p) <> word_opt (head (snd p)) -> matches WordB p p
| m_end o : matches EndText (o, []) (o, [])
| m_beg_line p : lf_opt (fst p) = true -> matches BegLine p p
| m_end_line p : lf_opt (head (snd p)) = true -> matches EndLine p p.

(** A match moves forward, and one that consumes nothing stays. *)
Lemma matches_shrinks r p q : matches r p q -> p = q \/ (length (snd q) < length (snd p))%nat.
Proof. induction 1; cbn in *; try (by left); try (right; lia); naive_solver lia. Qed.

Lemma star_ends_sound a step fuel p q :
  (forall p q, q ∈ step p -> matches a p q) -> q ∈ star_ends step fuel p -> matches (Star a) p q.
Proof.
  intros Hs. revert p. induction fuel as [|fuel IH]; intros p Hq; cbn in Hq.
  - apply list_elem_of_singleton in Hq as ->. constructor.
  - apply elem_of_cons in Hq as [->|Hq]; [constructor|].
    apply list_elem_of_bind in Hq as (x & Hq & Hx). apply list_elem_of_filter in Hx as [_ Hx].
    eapply m_star_cons; [by apply Hs|by apply IH].
Qed.

Lemma star_ends_complete a step p q :
  (forall p q, matches a p q -> q ∈ step p) -> matches (Star a) p q ->
  forall fuel, (length (snd p) <= fuel)%nat -> q ∈ star_ends step fuel p.
Proof.
  intros Hs Hm. remember (Star a) as r eqn:Er. induction Hm as
    [| | | | |a' p|a' p q r Hpq _ Hqr IH| | | |]; try done; injection Er as ->; intros fuel Hf.
  - destruct fuel; by left.
  - destruct (matches_shrinks _ _ _ Hpq) as [<-|Hlt]; [by apply IH|].
    destruct fuel as [|fuel]; [lia|]. cbn. apply elem_of_cons. right.
    apply list_elem_of_bind. exists q. split; [apply IH; [done|lia]|].
    apply list_elem_of_filter. split; [done|by apply Hs].
Qed.

(** The interpreter computes the relation. *)
Lemma ends_matches r p q : q ∈ ends r p <-> matches r p q.
Proof.
  revert p q. induction r as [|f|a IHa b IHb|a IHa b IHb|a IHa| | | |]; intros p q; cbn [ends].
  - rewrite list_elem_of_singleton. split; [intros ->; constructor|by inversion 1].
  - destruct p as [o [|c s]]; cbn; [split; [by intros ?%elem_of_nil|by inversion 1]|].
    destruct (f c) eqn:E.
    + rewrite list_elem_of_singleton. split; [intros ->; by constructor|by inversion 1].
    + split; [by intros ?%elem_of_nil|]. inversion 1; congruence.
  - rewrite list_elem_of_bind. split.
    + intros (x & H1 & H2). eapply m_seq; [by apply IHa|by apply IHb].
    + inversion 1; subst. eexists. split; [by apply IHb|by apply IHa].
  - rewrite elem_of_app, IHa, IHb. split; [by intros [?|?]; [apply m_alt_l|apply m_alt_r]|].
    inversion 1; subst; auto.
  - split.
    + apply star_ends_sound. intros p' q' H. by apply IHa.
    + intros H. eapply star_ends_complete; [|done|done]. intros p' q' H'. by apply IHa.
  - destruct (xorb _ _) eqn:E.
    + rewrite list_elem_of_singleton. split; [intros ->|by inversion 1].
      constructor. intros H. by rewrite H, xorb_nilpotent in E.
    + split; [by intros ?%elem_of_nil|]. inversion 1; subst. apply xorb_eq in E. done.
  - destruct p as [o s]. cbn. case_bool_decide as E.
    + subst s. rewrite list_elem_of_singleton. split; [intros ->; constructor|by inversion 1].
    + split; [by intros ?%elem_of_nil|]. by inversion 1.
  - destruct (lf_opt _) eqn:E.
    + rewrite list_elem_of_singleton. split; [intros ->; by constructor|by inversion 1].
    + split; [by intros ?%elem_of_nil|]. inversion 1; congruence.
  - destruct (lf_opt (head _)) eqn:E.
    + rewrite list_elem_of_singleton. split; [intros ->; by constructor|by inversion 1].
    + split; [by intros ?%elem_of_nil|]. inversion 1; congruence.
Qed.

(** ** Whole-line patterns *)

Lemma lit_match w o t q :
  matches (lit w) (o, t) q -> t = w ++ snd q.
Proof.
  revert o t q. induction w as [|c w IH]; intros o t q H; [by inversion H|].
  assert (forall o t q, matches (chr1 c) (o, t) q -> t = c :: snd q) as H1.
  { intros o1 t1 q1 H1. inversion H1; subst. bool_facts. done. }
  destruct w as [|d w]; [by apply H1 in H|]. change (lit (c :: d :: w)) with (Seq (chr1 c) (lit (d :: w))) in H.
  inversion H as [| |? ? ? [o2 t2] ? Ha Hb| | | | | | | |]; subst. apply H1 in Ha as ->.
  apply IH in Hb. cbn in *. by rewrite Hb.
Qed.

Lemma spaces_match p q : matches spaces p q -> exists ws, snd p = ws ++ snd q /\ Forall (fun c => re_s c = true) ws.
Proof.
  intros H. unfold spaces in H. remember (Star (Cls re_s)) as r eqn:E.
  induction H as [| | | | |a p|a p q r Hpq _ _ IH| | | |]; try done; injection E as ->.
  - by exists [].
  - inversion Hpq as [|f o c s Hc| | | | | | | | |]; subst. destruct (IH eq_refl) as (ws & Hs & Hw).
    cbn in Hs. exists (c :: ws). split; [cbn; by rewrite Hs|by constructor].
Qed.

Lemma positions_no_lf prev s p : LF ∉ s -> p ∈ positions prev s -> fst p = prev \/ lf_opt (fst p) = false.
Proof.
  revert prev. induction s as [|c s IH]; intros prev Hs Hp; cbn in Hp.
  - apply list_elem_of_singleton in Hp as ->. by left.
  - apply elem_of_cons in Hp as [->|Hp]; [by left|]. right.
    apply IH in Hp as [E|?]; [|done|set_solver]. rewrite E. cbn. apply ceq_false. set_solver.
Qed.

Lemma positions_head prev s p : p ∈ positions prev s -> lf_opt (fst p) = true -> LF ∉ s ->
  lf_opt prev = true -> s = [] \/ p = (prev, s) \/ fst p = prev.
Proof. intros Hp Hl Hs _. destruct (positions_no_lf _ _ _ Hs Hp) as [?|?]; [by right; right|congruence]. Qed.

(** A pattern [^w\s*$] on a text of one line without trailing blanks. *)
Lemma whole_line w t :
  LF ∉ t -> (forall c, last t = Some c -> re_s c = false) -> w <> [] ->
  MatchString (seqs [BegLine; lit w; spaces; EndLine]) t = true -> t = w.
Proof.
  intros Hlf Hlast Hw H. unfold MatchString in H. apply existsb_exists in H as (p & Hp & He).
  apply list_elem_of_In in Hp. bool_facts.
  destruct (ends (seqs [BegLine; lit w; spaces; EndLine]) p) as [|q qs] eqn:E; [done|].
  assert (matches (seqs [BegLine; lit w; spaces; EndLine]) p q) as Hm
    by (apply ends_matches; rewrite E; by left).
  cbn [seqs] in Hm.
  inversion Hm as [| |? ? ? p1 ? Hb Hm1| | | | | | | |]; subst.
  inversion Hb as [| | | | | | | | |? Hbl|]; subst.
  inversion Hm1 as [| |? ? ? p2 ? Hl Hm2| | | | | | | |]; subst.
  inversion Hm2 as [| |? ? ? p3 ? Hs Hm3| | | | | | | |]; subst.
  inversion Hm3 as [| | | | | | | | | |? Hel]; subst.
  destruct p1 as [o s1]. apply lit_match in Hl. apply spaces_match in Hs as (ws & Hs & Hws).
  assert (exists pre, t = pre ++ s1) as [pre Hpre].
  { clear -Hp. revert Hp. generalize (@None ascii). induction t as [|c t IH]; intros o1 Hp; cbn in Hp.
    - apply list_elem_of_singleton in Hp. injection Hp as -> ->. by exists [].
    - apply elem_of_cons in Hp as [Hp|Hp]; [injection Hp as -> ->; by exists []|].
      destruct (IH _ Hp) as [pre ->]. by exists (c :: pre). }
  assert (pre = []) as ->.
  { destruct pre as [|c pre]; [done|exfalso]. cbn in Hbl.
    assert (o = None \/ lf_opt o = false) as [->|?] by (by apply (positions_no_lf _ _ _ Hlf Hp)); [|congruence].
    clear -Hp Hpre. subst t. cbn in Hp. apply elem_of_cons in Hp as [Hp|Hp].
    - injection Hp as Hp. apply (f_equal length) in Hp. cbn in Hp. rewrite length_app in Hp. lia.
    - assert (forall prev s o, (o, s1) ∈ positions prev s -> prev <> None -> o <> None) as Hn.
      { clear. intros prev s. revert prev. induction s as [|c s IH]; intros prev o H Hp; cbn in H.
        - apply list_elem_of_singleton in H. by injection H as -> _.
        - apply elem_of_cons in H as [H|H]; [by injection H as -> _|]. by eapply IH. }
      by eapply Hn in Hp. }
  cbn in Hpre. rewrite Hs, <- Hpre in Hl. clear Hpre.
  assert (snd q = []) as Hq.
  { destruct (snd q) as [|c s] eqn:Eq; [done|]. exfalso. cbn in Hel. apply ceq_true in Hel as ->. apply Hlf.
    rewrite Hl, !elem_of_app. right. right. by left. }
  rewrite Hq, app_nil_r in Hl.
  destruct (decide (ws = [])) as [->|Hne]; [by rewrite Hl, app_nil_r|].
  exfalso. destruct (last ws) as [c|] eqn:Ec; [|by apply last_None in Ec].
  assert (re_s c = false) as Hc by (apply Hlast; rewrite Hl, last_app, Ec; done).
  apply last_Some in Ec as [ws' ->]. apply Forall_app in Hws as [_ Hws].
  apply Forall_cons in Hws as [Hws _]. congruence.
Qed.

Lemma trim_gen_head s1 s2 s3 s c r : trim_gen s1 s2 s3 s = c :: r -> s1 c = false.
Proof.
  revert c r. induction s as [s IH] using (induction_ltof1 _ (@length ascii)). unfold ltof in IH.
  intros c r. destruct s as [|d [|e [|f s]]]; cbn.
  - done.
  - destruct (s1 d) eqn:E; [done|]. by intros [= <- <-].
  - destruct (s1 d) eqn:E; [apply (IH [e]); cbn; lia|]. destruct (s2 d e); [done|]. by intros [= <- <-].
  - destruct (s1 d) eqn:E; [apply (IH (e :: f :: s)); cbn; lia|].
    destruct (s2 d e); [apply (IH (f :: s)); cbn; lia|].
    destruct (s3 d e f); [apply (IH s); cbn; lia|]. by intros [= <- <-].
Qed.

Lemma TrimSpace_last s c : last (TrimSpace s) = Some c -> space1 c = false.
Proof.
  unfold TrimSpace, trim_space_rev. destruct (trim_gen _ _ _ _) as [|d r] eqn:E; [done|].
  cbn [rev]. rewrite last_snoc. intros [= <-]. by apply trim_gen_head in E.
Qed.

Lemma re_s_space c : re_s c = true -> space1 c = true.
Proof.
  unfold re_s. rewrite !orb_true_iff. intros H. destruct H as [[[[H|H]|H]|H]|H]; apply ceq_true in H; by subst.
Qed.

(** What the adapters ask of a trimmed line. *)
Lemma trimmed_line w l :
  LF ∉ l -> w <> [] -> MatchString (seqs [BegLine; lit w; spaces; EndLine]) (TrimSpace l) = true ->
  TrimSpace l = w.
Proof.
  intros Hl Hw. apply whole_line; [|intros c Hc|done].
  - intros Hin. apply Hl.
    unfold TrimSpace, trim_space_rev, trim_space_left in Hin.
    assert (forall s1 s2 s3 s x, x ∈ trim_gen s1 s2 s3 s -> x ∈ s) as Ht.
    { clear. intros s1 s2 s3 s x. induction s as [s IH] using (induction_ltof1 _ (@length ascii)).
      unfold ltof in IH. destruct s as [|d [|e [|f s]]]; cbn; try done.
      - destruct (s1 d); [set_solver|done].
      - destruct (s1 d); [intros H; right; apply (IH [e]); [cbn; lia|done]|].
        destruct (s2 d e); [set_solver|done].
      - destruct (s1 d); [intros H; right; apply (IH (e :: f :: s)); [cbn; lia|done]|].
        destruct (s2 d e); [intros H; do 2 right; apply (IH (f :: s)); [cbn; lia|done]|].
        destruct (s3 d e f); [intros H; do 3 right; apply (IH s); [cbn; lia|done]|done]. }
    apply list_elem_of_In, in_rev in Hin. rewrite rev_involutive in Hin || idtac.
    apply list_elem_of_In, Ht in Hin. apply list_elem_of_In, in_rev, list_elem_of_In in Hin.
    rewrite rev_involutive in Hin || idtac. by apply Ht in Hin.
  - apply TrimSpace_last in Hc. destruct (re_s c) eqn:E; [|done]. apply re_s_space in E. congruence.
Qed.
