(* ===== verification/Adapter.v ===== *)
(** * Provider adapters ([internal/adapter], [claudecode], [codex])

    What an adapter tells the orchestrator: the command to spawn, the prompt to
    write, what the tail of a transcript shows and the response it holds.  The
    process environment ([os.Getenv]) is a parameter. *)
From S2P Require Import Prelude GoLib Model Regex.

Record SpawnSpec := {
  Command : gostring;
  Args : list gostring;
  Env : gmap gostring gostring;
  Cwd : gostring;
  HomeDir : gostring;
  TerminalCols : Z;
  TerminalRows : Z;
  PromptInArgs : bool;
}.

Record TranscriptObservation := {
  O_Status : RunStatus;
  O_Terminal : bool;
  O_Confidence : confidence;
  O_Reason : gostring;
  O_Evidence : list gostring;
}.

Record ExtractionResult := {
  X_Response : gostring;
  X_ParserConfidence : confidence;
  X_Notes : list gostring;
}.

Record CompletionContext := {
  NormalizedTail : gostring;
  IdleMs : Z;
  ExitCode : option Z;
  BytesSeen : Z;
}.

(** The interface [Adapter]; what none of the adapters reads is left out. *)
Record Adapter := {
  ad_ID : gostring;
  ad_BuildSpawnSpec : gostring -> gmap gostring gostring -> gostring -> Z -> Z -> gostring -> SpawnSpec;
  ad_FormatPrompt : gostring -> gostring;
  ad_Observe : CompletionContext -> option TranscriptObservation;
  ad_ExtractResponse : gostring -> ExtractionResult;
}.

(** [Registry]: the last adapter registered under an id. *)
Definition Registry : Type := gmap gostring Adapter.
Definition Register (r : Registry) (a : Adapter) : Registry := <[ad_ID a := a]> r.
Definition NewRegistry (items : list Adapter) : Registry := foldl Register ∅ items.
Definition Registry_Get (r : Registry) (id : gostring) : result Adapter :=
  match r !! id with
  | Some a => Ok a
  | None => Err (ErrNew ("unknown provider " ++ DQ :: id ++ [DQ]))
  end.

Definition observation (st : RunStatus) (terminal : bool) (c : confidence) (reason evidence : gostring)
    : option TranscriptObservation :=
  Some {| O_Status := st; O_Terminal := terminal; O_Confidence := c; O_Reason := reason;
          O_Evidence := [evidence] |}.

Definition extraction (response : gostring) (c : confidence) (notes : list gostring) : ExtractionResult :=
  {| X_Response := response; X_ParserConfidence := c; X_Notes := notes |}.

Fixpoint firstNonEmpty (values : list gostring) : gostring :=
  match values with
  | [] => []
  | v :: values => if bool_decide (TrimSpace v <> []) then v else firstNonEmpty values
  end.

(** [validateExecutable], whether it returns nil. *)
Definition validateExecutable (s : gostring) : bool :=
  forallb (fun c => negb (Contains s [c])) [";"; "&"; "|"; "$"; "`"; "("; ")"; LF]%char.

(** The binary and the arguments that the two [ResolveCommand]s share. *)
Definition resolve_binary (getenv : gostring -> gostring) (env : gmap gostring gostring) (key default_binary : gostring) : gostring :=
  let o := firstNonEmpty [map_get env key; getenv key] in
  if bool_decide (o <> []) then (if validateExecutable o then o else default_binary)
  else default_binary.

Definition split_args (s : gostring) : list gostring := filter (fun a => a <> []) (Fields s).

Module Claude.
Section Claude.
Variable getenv : gostring -> gostring.

Definition ResolveCommand (env : gmap gostring gostring) : gostring * list gostring :=
  (resolve_binary getenv env "VITIS_CLAUDE_BINARY" "claude",
   split_args (firstNonEmpty [map_get env "VITIS_CLAUDE_ARGS"; getenv "VITIS_CLAUDE_ARGS"])).

Definition BuildSpawnSpec (cwd : gostring) (env : gmap gostring gostring) (homeDir : gostring)
    (cols rows : Z) (_ : gostring) : SpawnSpec :=
  let '(command, args) := ResolveCommand env in
  let args := if bool_decide (map_get env "VITIS_MODEL" <> [])
              then args ++ ["--model"; map_get env "VITIS_MODEL"] else args in
  {| Command := command; Args := args; Env := env; Cwd := cwd; HomeDir := homeDir;
     TerminalCols := cols; TerminalRows := rows; PromptInArgs := false |}.

Definition FormatPrompt (raw : gostring) : gostring := TrimRight raw [LF] ++ [LF].

Definition blockedPromptPatterns : list re :=
  [ seqs [lit "("; Alt (ci "y") (ci "yes"); lit "/"; Alt (ci "n") (ci "no"); lit ")"];
    seqs [lit "["; Alt (ci "y") (ci "yes"); lit "/"; Alt (ci "n") (ci "no"); lit "]"];
    words ["press enter"; "press any key"];
    seqs [WordB; alts (ci <$> ["continue?"; "overwrite?"; "are you sure?"])];
    seqs [words ["do you"; "would you"; "shall i"; "ready to"]; dots; lit "?"; EndText] ].

Definition authPatterns : list re :=
  [ words ["log in"; "login"; "sign in"; "authenticate"; "authentication required"];
    seqs [WordB; alts [ci "oauth"; seqs [ci "browser"; dots; ci "open"];
                       seqs [ci "api key"; dots; ci "required"]]; WordB] ].

Definition rateLimitPatterns : list re :=
  [ ci "you've hit your";
    words ["rate limit"; "usage limit"; "session limit"; "weekly limit"];
    words ["out of extra usage"; "too many requests"] ].

Definition permissionPatterns : list re :=
  [ words ["permission"; "approval"; "approve"; "deny"; "allow this"];
    seqs [ci "enter"; dots; ci "confirm"; dots; ci "esc"; dots; ci "cancel"];
    ci "entertoconfirm" ].

Definition promptReappearancePatterns : list re :=
  [ seqs [BegLine; lit ">"; spaces; EndLine];
    seqs [BegLine; lit [chr 226; chr 128; chr 186]; spaces; EndLine];
    seqs [BegLine; lit "claude>"; spaces; EndLine] ].

Definition Observe (c : CompletionContext) : option TranscriptObservation :=
  let tail := TrimSpace (NormalizedTail c) in
  if (BytesSeen c =? 0) && bool_decide (ExitCode c <> None) then
    observation RunPartial true 0.7 "process exited without output" "exit_no_output"
  else
    let idle := 1500 <=? IdleMs c in
    if idle && matchAny blockedPromptPatterns tail then
      observation RunBlockedOnInput true 0.92 "interactive prompt detected" "blocked_prompt"
    else if idle && matchAny authPatterns tail then
      observation RunAuthRequired true 0.9 "authentication prompt detected" "auth_prompt"
    else if idle && matchAny rateLimitPatterns tail then
      observation RunRateLimited true 0.88 "rate limit or usage limit detected" "rate_limit"
    else if idle && matchAny permissionPatterns tail then
      observation RunPermissionPrompt false 0.7 "permission prompt detected" "permission_prompt"
    else match ExitCode c with
    | Some 0 => observation RunCompleted true 1 "process exited successfully" "exit_zero"
    | Some _ => observation RunCrashed true 0.95 "process exited with non-zero status" "exit_non_zero"
    | None =>
        if idle && matchAny promptReappearancePatterns tail
        then observation RunCompleted true 0.75 "prompt reappeared" "prompt_reappeared"
        else None
    end.

(** The prompt glyphs: [>], U+203A and U+276F. *)
Definition prompt_line (trimmed : gostring) : bool :=
  HasPrefix trimmed ">" || HasPrefix trimmed [chr 226; chr 128; chr 186]
  || HasPrefix trimmed [chr 226; chr 157; chr 175].

Definition cleanBlock (block : gostring) : gostring :=
  TrimSpace (Join (filter (fun l => TrimSpace l <> [] /\ prompt_line (TrimSpace l) = false)
                     (SplitByte LF block)) [LF]).

Definition looksLikeNonResponse (block : gostring) : bool :=
  let lower := ToLower (TrimSpace block) in
  bool_decide (lower = []) || HasPrefix lower "login" || Contains lower "press enter"
  || Contains lower "permission" || Contains lower "approve" || Contains lower "rate limit"
  || HasPrefix lower "claude>".

Definition splitBlocks (text : gostring) : list gostring := Split text [LF; LF].

(** The last block, cleaned, that looks like a response. *)
Fixpoint last_block (rev_blocks : list gostring) : option gostring :=
  match rev_blocks with
  | [] => None
  | b :: bs =>
      let block := TrimSpace (cleanBlock b) in
      if bool_decide (block = []) || looksLikeNonResponse block then last_block bs else Some block
  end.

Fixpoint last_line (rev_lines : list gostring) : option gostring :=
  match rev_lines with
  | [] => None
  | l :: ls =>
      let line := TrimSpace l in
      if bool_decide (line = []) || looksLikeNonResponse line then last_line ls else Some line
  end.

Definition ExtractResponse (normalizedTranscript : gostring) : ExtractionResult :=
  let text := TrimSpace normalizedTranscript in
  if bool_decide (text = []) then extraction [] 0.1 ["empty transcript"]
  else
    let blocks := splitBlocks text in
    match last_block (rev blocks) with
    | Some block => extraction block (if (1 <? length blocks)%nat then 0.8 else 0.65)%Q []
    | None =>
        match last_line (rev (SplitByte LF text)) with
        | Some line => extraction line 0.4 ["fell back to last non-empty line"]
        | None => extraction [] 0.1 ["no extractable response found"]
        end
    end.

Definition New : Adapter :=
  {| ad_ID := "claude-code"; ad_BuildSpawnSpec := BuildSpawnSpec; ad_FormatPrompt := FormatPrompt;
     ad_Observe := Observe; ad_ExtractResponse := ExtractResponse |}.
End Claude.
End Claude.

Module Codex.
Section Codex.
Variable getenv : gostring -> gostring.

Definition ResolveCommand (env : gmap gostring gostring) : gostring * list gostring :=
  let argsStr := firstNonEmpty [map_get env "VITIS_CODEX_ARGS"; getenv "VITIS_CODEX_ARGS"] in
  (resolve_binary getenv env "VITIS_CODEX_BINARY" "codex",
   if bool_decide (argsStr <> []) then split_args argsStr
   else ["exec"; "--full-auto"; "--skip-git-repo-check"]).

Definition model_args (env : gmap gostring gostring) : list gostring :=
  (if bool_decide (map_get env "VITIS_MODEL" <> [])
   then ["--model"; map_get env "VITIS_MODEL"] else [])
  ++ (if bool_decide (map_get env "VITIS_REASONING_EFFORT" <> [])
      then ["--reasoning-effort"; map_get env "VITIS_REASONING_EFFORT"] else []).

Definition BuildSpawnSpec (cwd : gostring) (env : gmap gostring gostring) (homeDir : gostring)
    (cols rows : Z) (prompt : gostring) : SpawnSpec :=
  let '(command, args) := ResolveCommand env in
  {| Command := command; Args := args ++ model_args env ++ [prompt]; Env := env; Cwd := cwd;
     HomeDir := homeDir; TerminalCols := cols; TerminalRows := rows; PromptInArgs := true |}.

Definition FormatPrompt (raw : gostring) : gostring := raw ++ [LF].

Definition blockedPromptPatterns : list re :=
  [ seqs [words ["approve"; "deny"; "allow"; "decline"]; dots; lit "?"]; words ["y/n"; "yes/no"] ].

Definition authPatterns : list re :=
  [ words ["log in"; "login"; "sign in"; "authenticate"];
    seqs [WordB; alts [ci "api key"; ci "refresh token"; ci "expired";
                       seqs [ci "invalid"; dots; ci "token"]]; WordB];
    ci "codex login" ].

Definition rateLimitPatterns : list re :=
  [ words ["rate limit"; "too many requests"];
    seqs [WordB; ci "error:"; dots; words ["limit"; "quota"; "exceeded"]] ].

Definition codexResponsePrefix : re := seqs [BegLine; lit "codex"; spaces; EndLine].
Definition tokenUsageLine : re := seqs [BegLine; lit "tokens used"; spaces; EndLine].

Definition Observe (c : CompletionContext) : option TranscriptObservation :=
  let tail := TrimSpace (NormalizedTail c) in
  match ExitCode c with
  | Some 0 => observation RunCompleted true 1 "process exited successfully" "exit_zero"
  | Some _ => observation RunCrashed true 0.95 "process exited with non-zero status" "exit_non_zero"
  | None =>
      if 1500 <=? IdleMs c then
        if matchAny authPatterns tail then
          observation RunAuthRequired true 0.9 "authentication prompt detected" "auth_prompt"
        else if matchAny rateLimitPatterns tail then
          observation RunRateLimited true 0.88 "rate limit detected" "rate_limit"
        else if matchAny blockedPromptPatterns tail then
          observation RunBlockedOnInput true 0.85 "interactive prompt detected" "blocked_prompt"
        else None
      else None
  end.

(** The scan from the last line up: the lines seen, in order, up to the prefix
    line, cut at the token usage line nearest the end. *)
Fixpoint scan_up (rev_lines : list gostring) (seen : list gostring) (cut : bool)
    : option (list gostring) :=
  match rev_lines with
  | [] => None
  | l :: ls =>
      let trimmed := TrimSpace l in
      let hit := negb cut && MatchString tokenUsageLine trimmed in
      if MatchString codexResponsePrefix trimmed then Some seen
      else if hit then scan_up ls [] true
      else scan_up ls (l :: seen) cut
  end.

Fixpoint last_paragraph (rev_paragraphs : list gostring) : option gostring :=
  match rev_paragraphs with
  | [] => None
  | p :: ps => if bool_decide (TrimSpace p = []) then last_paragraph ps else Some (TrimSpace p)
  end.

Definition ExtractResponse (normalizedTranscript : gostring) : ExtractionResult :=
  let text := TrimSpace normalizedTranscript in
  if bool_decide (text = []) then extraction [] 0.1 ["empty transcript"]
  else
    let response := match scan_up (rev (SplitByte LF text)) [] false with
                    | Some ls => TrimSpace (Join ls [LF])
                    | None => [] end in
    if bool_decide (response <> []) then extraction response 0.9 []
    else match last_paragraph (rev (Split text [LF; LF])) with
         | Some p => extraction p 0.4 ["fell back to last non-empty paragraph"]
         | None => extraction [] 0.1 ["no extractable response found"]
         end.

Definition New : Adapter :=
  {| ad_ID := "codex"; ad_BuildSpawnSpec := BuildSpawnSpec; ad_FormatPrompt := FormatPrompt;
     ad_Observe := Observe; ad_ExtractResponse := ExtractResponse |}.
End Codex.
End Codex.

(** ** Lemmas *)

Lemma codex_prefix_line l :
  LF ∉ l -> MatchString Codex.codexResponsePrefix (TrimSpace l) = bool_decide (TrimSpace l = "codex").
Proof.
  intros Hl. case_bool_decide as E; [rewrite E; by vm_compute|].
  destruct (MatchString _ _) eqn:Em; [|done]. by apply trimmed_line in Em.
Qed.

Lemma codex_tokens_line l :
  LF ∉ l -> MatchString Codex.tokenUsageLine (TrimSpace l) = bool_decide (TrimSpace l = "tokens used").
Proof.
  intros Hl. case_bool_decide as E; [rewrite E; by vm_compute|].
  destruct (MatchString _ _) eqn:Em; [|done]. by apply trimmed_line in Em.
Qed.

(** Lines that do not begin a response, scanned upwards. *)
Lemma scan_up_app ls rest seen cut :
  Forall (fun l => LF ∉ l) ls -> Forall (fun l => TrimSpace l <> "codex") ls ->
  (cut = true \/ Forall (fun l => TrimSpace l <> "tokens used") ls) ->
  Codex.scan_up (rev ls ++ rest) seen cut = Codex.scan_up rest (ls ++ seen) cut.
Proof.
  revert seen. induction ls as [|l ls IH] using rev_ind; intros seen Hlf Hc Ht; [done|].
  rewrite rev_app_distr. cbn [rev app Codex.scan_up].
  apply Forall_app in Hlf as [Hlf Hl]. apply Forall_app in Hc as [Hc Hcl].
  apply Forall_cons in Hl as [Hl _]. apply Forall_cons in Hcl as [Hcl _].
  rewrite codex_prefix_line, bool_decide_false by done.
  assert (negb cut && MatchString Codex.tokenUsageLine (TrimSpace l) = false) as ->.
  { destruct Ht as [->|Ht]; [done|]. apply Forall_app in Ht as [_ Ht]. apply Forall_cons in Ht as [Ht _].
    rewrite codex_tokens_line, bool_decide_false by done. apply andb_false_r. }
  rewrite IH; [by rewrite <- app_assoc|done|done|].
  destruct Ht as [?|Ht]; [by left|right]. by apply Forall_app in Ht as [? _].
Qed.

(** ** Properties *)

(** C28: the response of a codex transcript.  When the transcript has a line [codex],
    the reply, a line [tokens used] and a trailer without either line, the
    response is exactly the reply, trimmed, whatever came before - earlier
    exchanges included - and whatever the reply says about tokens. *)
Theorem codex_ExtractResponse_reply (transcript : gostring) (pre reply post : list gostring)
    (p u : gostring)
    (Hlines : SplitByte LF (TrimSpace transcript) = pre ++ p :: reply ++ u :: post)
    (Hp : TrimSpace p = "codex") (Hu : TrimSpace u = "tokens used")
    (Hcodex : Forall (fun l => TrimSpace l <> "codex") (reply ++ post))
    (Htokens : Forall (fun l => TrimSpace l <> "tokens used") post)
    (Hne : TrimSpace (Join reply [LF]) <> []) :
  Codex.ExtractResponse transcript = extraction (TrimSpace (Join reply [LF])) 0.9 [].
Proof.
  unfold Codex.ExtractResponse. rewrite bool_decide_false.
  2: { intros E. rewrite E in Hlines. destruct pre as [|x pre].
       - injection Hlines as <- Hr. by destruct reply.
       - injection Hlines as _ Hr. by destruct pre. }
  pose proof (SplitByte_lines LF (TrimSpace transcript)) as Hlf. rewrite Hlines in Hlf |- *.
  apply Forall_app in Hlf as [_ Hlf]. apply Forall_cons in Hlf as [Hlp Hlf].
  apply Forall_app in Hlf as [Hlr Hlf]. apply Forall_cons in Hlf as [Hlu Hlf].
  apply Forall_app in Hcodex as [Hcr Hcp].
  assert (rev (pre ++ p :: reply ++ u :: post) = rev post ++ u :: rev reply ++ p :: rev pre) as ->.
  { rewrite rev_app_distr. cbn [rev]. rewrite rev_app_distr. cbn [rev].
    rewrite <- !app_assoc. done. }
  rewrite scan_up_app by (done || by right). rewrite app_nil_r. cbn [Codex.scan_up].
  rewrite (codex_prefix_line u), (codex_tokens_line u), Hu by done.
  rewrite (bool_decide_false ("tokens used"%go = "codex")) by done.
  rewrite (bool_decide_true ("tokens used"%go = "tokens used")) by done. cbn [negb andb].
  rewrite scan_up_app by (done || by left). rewrite app_nil_r. cbn [Codex.scan_up].
  rewrite (codex_prefix_line p), Hp, (bool_decide_true ("codex"%go = "codex")) by done.
  cbv zeta. by rewrite bool_decide_true by done.
Qed.

Definition demo_transcript : gostring := "user
say hi
codex
earlier
codex
hi
there
tokens used
1,234
".

Lemma codex_ExtractResponse_reply_witness :
  Codex.ExtractResponse demo_transcript = extraction "hi
there" 0.9 [].
Proof.
  apply (codex_ExtractResponse_reply demo_transcript ["user"; "say hi"; "codex"; "earlier"] ["hi"; "there"]
           ["1,234"] "codex" "tokens used");
    try (vm_compute; reflexivity); try (vm_compute; discriminate);
    repeat constructor; vm_compute; discriminate.
Defined.
