(* ===== verification/Provider.v ===== *)
(** * Peer transports ([internal/peer/provider], [internal/peer/mock])

    What the broker calls: the PTY transport over a persistent process, the
    scripted transport of the tests, and the command that a peer specification
    is turned into, with the adapters that tests register.  [os.Getenv] and [os.Getwd] are parameters. *)
From S2P Require Import Prelude GoLib Model Envelope Persistent Ansi Adapter.

(** ** The spawner *)
Definition allowedEnvKeys : list gostring :=
  ["ANTHROPIC_API_KEY"; "OPENAI_API_KEY"; "MOCK_RESPONSE"; "MOCK_SENTINEL_AT_TURN"; "MOCK_DELAY_MS"].

(** An option that the environment of the peer gets. *)
Definition env_option (kv : gostring * gostring) : option (gostring * gostring) :=
  let '(k, v) := kv in
  if HasPrefix k "env_" && bool_decide (TrimPrefix k "env_" ∈ allowedEnvKeys)
  then Some (TrimPrefix k "env_", v) else None.

Definition set_nonempty (k v : gostring) (m : gmap gostring gostring) : gmap gostring gostring :=
  if bool_decide (v <> []) then <[k := v]> m else m.

Definition buildPeerEnv (options : gmap gostring gostring) : gmap gostring gostring :=
  set_nonempty "VITIS_REASONING_EFFORT" (map_get options "reasoning-effort")
    (set_nonempty "VITIS_MODEL" (map_get options "model")
       (list_to_map (omap env_option (map_to_list options)))).

(** The adapters that tests register, by provider id. *)
Abbreviation AdapterFactories := (gmap gostring (gmap gostring gostring -> Adapter)).

Definition RegisterTestAdapterFactory (m : AdapterFactories) (id : gostring)
    (factory : gmap gostring gostring -> Adapter) : AdapterFactories := <[id := factory]> m.

Section Spawner.
Variables (getenv : gostring -> gostring) (getwd : gostring) (testAdapterFactories : AdapterFactories).

Definition unsupported_scheme (spec : PeerSpec) : goerr :=
  ErrNew ("provider transport: unsupported URI scheme: " ++ URI spec).
Definition unknown_provider (id : gostring) : goerr :=
  ErrNew ("provider transport: unknown provider " ++ DQ :: id ++ [DQ]).

Definition buildPersistentSpawnSpec (spec : PeerSpec) : result SpawnSpec :=
  if HasPrefix (URI spec) "provider:" then
    let id := TrimPrefix (URI spec) "provider:" in
    let cwd := if bool_decide (map_get (Options spec) "cwd" = []) then getwd
               else map_get (Options spec) "cwd" in
    let homeDir := if bool_decide (map_get (Options spec) "home" = []) then getenv "HOME"
                   else map_get (Options spec) "home" in
    let env := buildPeerEnv (Options spec) in
    if bool_decide (id ∈ ["claude-code"; "claudecode"]%go) then
      Ok (ad_BuildSpawnSpec (Claude.New getenv) cwd env homeDir 80 24 [])
    else if bool_decide (id = "codex") then
      Ok {| Command := fst (Codex.ResolveCommand getenv env); Args := Codex.model_args env;
            Env := env; Cwd := cwd; HomeDir := homeDir; TerminalCols := 80; TerminalRows := 24;
            PromptInArgs := false |}
    else match testAdapterFactories !! id with
         | Some factory => Ok (ad_BuildSpawnSpec (factory (Options spec)) cwd env homeDir 80 24 [])
         | None => Err (unknown_provider id)
         end
  else Err (unsupported_scheme spec).

(** The same resolution without the command. *)
Definition resolveAdapter (spec : PeerSpec) : result Adapter :=
  if HasPrefix (URI spec) "provider:" then
    let id := TrimPrefix (URI spec) "provider:" in
    if bool_decide (id ∈ ["claude-code"; "claudecode"]%go) then Ok (Claude.New getenv)
    else if bool_decide (id = "codex") then Ok (Codex.New getenv)
    else match testAdapterFactories !! id with
         | Some factory => Ok (factory (Options spec))
         | None => Err (unknown_provider id)
         end
  else Err (unsupported_scheme spec).

(** What [NewTerminalSpawner] asks the runtime to spawn. *)
Definition spawn_spec (spec : PeerSpec) : result SpawnSpec :=
  s ← buildPersistentSpawnSpec spec;
  Ok {| Command := Command s; Args := Args s; Env := Env s; Cwd := Cwd s; HomeDir := HomeDir s;
        TerminalCols := TerminalCols s; TerminalRows := TerminalRows s; PromptInArgs := false |}.
End Spawner.

(** ** The PTY transport *)
Record Transport := {
  tr_perTurnTimeout : Z;
  tr_process : option PersistentProcess;
  tr_conversationID : gostring;
  tr_slot : PeerSlot;
}.

Definition New (perTurnTimeout : Z) : Transport :=
  {| tr_perTurnTimeout := if perTurnTimeout <=? 0 then 300 * Second else perTurnTimeout;
     tr_process := None; tr_conversationID := []; tr_slot := [] |}.

(** [Start], given the error of the spawner. *)
Definition Start (t : Transport) (spawn_err : option goerr) (conversationID : gostring)
    (slot : PeerSlot) : option goerr * Transport :=
  match tr_process t with
  | Some _ => (Some (ErrNew "provider transport: already started"), t)
  | None =>
      match spawn_err with
      | Some e => (Some (ErrWrapped ("spawn peer " ++ slot ++ ": ") e), t)
      | None => (None, {| tr_perTurnTimeout := tr_perTurnTimeout t;
                          tr_process := Some NewPersistentProcess;
                          tr_conversationID := conversationID; tr_slot := slot |})
      end
  end.

Definition set_process (t : Transport) (p : option PersistentProcess) : Transport :=
  {| tr_perTurnTimeout := tr_perTurnTimeout t; tr_process := p;
     tr_conversationID := tr_conversationID t; tr_slot := tr_slot t |}.

(** The turn a transport makes of a response to an envelope. *)
Definition turn_for (conversationID : gostring) (slot : PeerSlot) (e : Envelope) (response : gostring)
    (startedAt endedAt : time) (c : confidence) : ConversationTurn :=
  {| T_ConversationID := conversationID; T_Index := E_TurnIndex e; T_From := slot; T_FromID := [];
     T_ToID := []; T_Reason := []; T_NextIDParsed := None; T_FallbackUsed := false;
     T_Envelope := E_Body e; T_Response := response; T_MarkerToken := E_MarkerToken e;
     T_StartedAt := startedAt; T_EndedAt := endedAt; T_CompletionConfidence := c;
     T_ParserConfidence := c; T_Warnings := [] |}.

(** [Deliver]: [write_err] and the wakeups are those of [ConverseTurn], [timeout]
    is the printed timeout; [None] while the turn is still waiting. *)
Definition Deliver (t : Transport) (e : Envelope) (timeout : gostring) (write_err : option goerr)
    (ws : list wakeup) (startedAt endedAt : time)
    : option (result ConversationTurn * Transport) :=
  match tr_process t with
  | None => Some (Err (ErrNew "provider transport: deliver before start"), t)
  | Some pp =>
      '(r, pp) ← ConverseTurn pp (E_MarkerToken e) timeout write_err ws;
      Some (match r with
            | Err err => Err err
            | Ok resp => Ok (turn_for (tr_conversationID t) (tr_slot t) e (NormalizePTYText resp)
                               startedAt endedAt 0.95)
            end, set_process t (Some pp))
  end.

(** [Stop]: the grace period given to [Terminate], if there is a live process. *)
Definition Stop (t : Transport) (grace : Z) : Transport * option Z :=
  match tr_process t with
  | None => (t, None)
  | Some pp => (set_process t None, snd (Close pp grace))
  end.

(** ** The scripted transport *)
Module Mock.

Record Script := {
  Responses : list gostring;
  sc_Err : option goerr;
  StartErr : option goerr;
}.

Record Transport := {
  script : Script;
  delivered : nat;
  started : bool;
  stopped : bool;
  stopCalls : Z;
  conversationID : gostring;
  slot : PeerSlot;
  envelopeHistory : list Envelope;
}.

Definition New (s : Script) : Transport :=
  {| script := s; delivered := 0; started := false; stopped := false; stopCalls := 0;
     conversationID := []; slot := []; envelopeHistory := [] |}.

Definition Start (p : Transport) (id : gostring) (sl : PeerSlot) : option goerr * Transport :=
  match StartErr (script p) with
  | Some e => (Some e, p)
  | None =>
      if started p then (Some (ErrNew "mock peer: already started"), p)
      else (None, {| script := script p; delivered := delivered p; started := true;
                     stopped := stopped p; stopCalls := stopCalls p; conversationID := id;
                     slot := sl; envelopeHistory := envelopeHistory p |})
  end.

(** [deliverLocked]: [Ok None] when the script is exhausted. *)
Definition deliverLocked (p : Transport) (e : Envelope) (now : time)
    : result (option ConversationTurn) * Transport :=
  if negb (started p) then (Err (ErrNew "mock peer: deliver before start"), p)
  else if stopped p then (Err (ErrNew "mock peer: deliver after stop"), p)
  else match sc_Err (script p) with
  | Some err =>
      (Err err, {| script := {| Responses := Responses (script p); sc_Err := None;
                                StartErr := StartErr (script p) |};
                   delivered := delivered p; started := started p; stopped := stopped p;
                   stopCalls := stopCalls p; conversationID := conversationID p; slot := slot p;
                   envelopeHistory := envelopeHistory p |})
  | None =>
      match Responses (script p) !! delivered p with
      | None => (Ok None, p)
      | Some resp =>
          (Ok (Some (turn_for (conversationID p) (slot p) e resp now now 1)),
           {| script := script p; delivered := S (delivered p); started := started p;
              stopped := stopped p; stopCalls := stopCalls p; conversationID := conversationID p;
              slot := slot p; envelopeHistory := envelopeHistory p ++ [e] |})
      end
  end.

(** [Deliver]: [ctx_err] is the context's error on entry, [later_err] the one that
    ends the wait of an exhausted script. *)
Definition Deliver (p : Transport) (e : Envelope) (now : time) (ctx_err : option goerr)
    (later_err : goerr) : result ConversationTurn * Transport :=
  match ctx_err with
  | Some err => (Err err, p)
  | None =>
      match deliverLocked p e now with
      | (Err err, p) => (Err err, p)
      | (Ok None, p) => (Err later_err, p)
      | (Ok (Some t), p) => (Ok t, p)
      end
  end.

Definition Stop (p : Transport) : Transport :=
  {| script := script p; delivered := delivered p; started := started p; stopped := true;
     stopCalls := stopCalls p + 1; conversationID := conversationID p; slot := slot p;
     envelopeHistory := envelopeHistory p |}.
End Mock.

(** ** Lemmas on the environment of a peer *)

Lemma env_option_spec k v k' v' :
  env_option (k, v) = Some (k', v') <-> k = "env_" ++ k' /\ v' = v /\ k' ∈ allowedEnvKeys.
Proof.
  unfold env_option. split.
  - intros H. destruct (HasPrefix k "env_") eqn:E; [|done]. apply HasPrefix_spec in E as [t ->].
    unfold TrimPrefix in H. rewrite (HasPrefix_app "env_"), drop_app_length in H. cbn [andb] in H.
    case_bool_decide; [|done]. by injection H as <- <-.
  - intros (-> & -> & H). unfold TrimPrefix. rewrite (HasPrefix_app "env_"), drop_app_length.
    by rewrite bool_decide_true.
Qed.

Lemma list_to_map_omap_env (options : gmap gostring gostring) k v :
  (list_to_map (omap env_option (map_to_list options)) : gmap gostring gostring) !! k = Some v <->
  k ∈ allowedEnvKeys /\ options !! ("env_" ++ k) = Some v.
Proof.
  assert (NoDup (fst <$> omap env_option (map_to_list options))) as Hnd.
  { assert (fst <$> omap env_option (map_to_list options)
      = omap (fun kv => fst <$> env_option kv) (map_to_list options)) as ->
      by (induction (map_to_list options) as [|x l IH]; [done|]; cbn [omap list_omap]; destruct (env_option x); cbn; by rewrite IH).
    pose proof (NoDup_fst_map_to_list options) as H. revert H.
    induction (map_to_list options) as [|[k1 v1] l IH]; intros H; [constructor|].
    cbn [omap list_omap]. cbn in H. apply NoDup_cons in H as [Hn H].
    destruct (env_option (k1, v1)) as [[k2 v2]|] eqn:E; cbn [fmap option_fmap option_map fst]; [|by apply IH].
    apply NoDup_cons. split; [|by apply IH]. intros ([k3 v3] & Hin & Hk)%list_elem_of_omap.
    destruct (env_option (k3, v3)) as [[k4 v4]|] eqn:E3; cbn [fmap option_fmap option_map fst] in Hk; [|done]. injection Hk as ->.
    apply env_option_spec in E as (-> & _). apply env_option_spec in E3 as (-> & _).
    apply Hn. apply list_elem_of_fmap. by exists ("env_" ++ k2, v3). }
  rewrite <- elem_of_list_to_map by done. rewrite list_elem_of_omap. split.
  - intros ([k1 v1] & Hin & H). apply env_option_spec in H as (-> & -> & H).
    split; [done|]. by apply elem_of_map_to_list.
  - intros [H1 H2]. exists ("env_" ++ k, v). split; [by apply elem_of_map_to_list|].
    by apply env_option_spec.
Qed.

Lemma set_nonempty_lookup k v m i :
  set_nonempty k v m !! i = if bool_decide (i = k /\ v <> []) then Some v else m !! i.
Proof.
  unfold set_nonempty. destruct (bool_decide (v <> [])) eqn:E; bool_facts.
  - case_bool_decide as H; [destruct H as [-> _]; apply lookup_insert_eq|].
    apply lookup_insert_ne. naive_solver.
  - rewrite bool_decide_false by naive_solver. done.
Qed.

Lemma buildPeerEnv_spec (options : gmap gostring gostring) :
  (forall k v, k <> "VITIS_MODEL" -> k <> "VITIS_REASONING_EFFORT" ->
    buildPeerEnv options !! k = Some v <-> k ∈ allowedEnvKeys /\ options !! ("env_" ++ k) = Some v)
  /\ map_get (buildPeerEnv options) "VITIS_MODEL" = map_get options "model"
  /\ map_get (buildPeerEnv options) "VITIS_REASONING_EFFORT" = map_get options "reasoning-effort"
  /\ Forall (fun k => buildPeerEnv options !! k = None)
       ["VITIS_CLAUDE_BINARY"; "VITIS_CLAUDE_ARGS"; "VITIS_CODEX_BINARY"; "VITIS_CODEX_ARGS"; "LD_PRELOAD"; "PATH"].
Proof.
  set (base := list_to_map (omap env_option (map_to_list options)) : gmap gostring gostring).
  assert (forall k, k ∉ allowedEnvKeys -> base !! k = None) as Hnone.
  { intros k Hk. destruct (base !! k) as [v|] eqn:E; [|done].
    apply list_to_map_omap_env in E as [? _]. done. }
  unfold buildPeerEnv. fold base. split_and!.
  - intros k v H1 H2. rewrite !set_nonempty_lookup, !bool_decide_false by naive_solver.
    apply list_to_map_omap_env.
  - unfold map_get at 1. rewrite !set_nonempty_lookup, bool_decide_false by naive_solver.
    case_bool_decide as H; [done|]. rewrite Hnone by (by apply (bool_decide_unpack _)).
    destruct (map_get options "model"); [done|]. by exfalso; apply H.
  - unfold map_get at 1. rewrite !set_nonempty_lookup.
    case_bool_decide as H; [done|]. rewrite bool_decide_false by naive_solver.
    rewrite Hnone by (by apply (bool_decide_unpack _)).
    destruct (map_get options "reasoning-effort"); [done|]. by exfalso; apply H.
  - repeat (apply Forall_cons; split;
      [rewrite !set_nonempty_lookup, !bool_decide_false by naive_solver;
       apply Hnone; by apply (bool_decide_unpack _)|]). constructor.
Qed.

Lemma resolve_binary_safe getenv env key d :
  validateExecutable d = true -> validateExecutable (resolve_binary getenv env key d) = true.
Proof.
  intros Hd. unfold resolve_binary. cbv zeta. destruct (bool_decide _); [|done].
  by destruct (validateExecutable (firstNonEmpty _)) eqn:E.
Qed.

(** ** Lemmas on markers and envelopes *)

Lemma hex_digit_ok n : 0 <= n < 16 ->
  is_hws (hex_digit n) = false /\ hex_digit n <> LF /\ hex_digit n <> "o"%char.
Proof.
  intros H. assert (n ∈ [0;1;2;3;4;5;6;7;8;9;10;11;12;13;14;15]) as Hin.
  { rewrite !elem_of_cons. lia. }
  repeat (apply elem_of_cons in Hin as [->|Hin]; [by repeat split|]). by apply elem_of_nil in Hin.
Qed.

Lemma marker_facts buf : length buf = markerSuffixBytes ->
  marker_ok (NewMarkerToken buf) /\ "o"%char ∉ NewMarkerToken buf
  /\ (17 < length (NewMarkerToken buf))%nat /\ LF ∉ NewMarkerToken buf.
Proof.
  intros Hl.
  assert (Forall (fun c => is_hws c = false /\ c <> LF /\ c <> "o"%char) (NewMarkerToken buf)) as Hf.
  { unfold NewMarkerToken. apply Forall_app. split.
    - by apply (bool_decide_unpack _).
    - apply Forall_hex. intros n. apply hex_digit_ok. }
  rewrite Forall_forall in Hf. split_and!.
  - split; [done|]. apply Forall_forall. intros c Hc. destruct (Hf c Hc) as (? & ? & _). done.
  - intros Hin. by destruct (Hf _ Hin) as (_ & _ & ?).
  - unfold NewMarkerToken. rewrite length_app, length_hex, Hl. cbn. lia.
  - intros Hin. by destruct (Hf _ Hin) as (_ & ? & _).
Qed.

(** What every envelope ends with. *)
Definition instruction (marker : gostring) : gostring :=
  "output the token " ++ marker ++ " on its own line." ++ [LF].

Definition has_instruction (e : Envelope) (P : gostring) : Prop :=
  E_Body e = P ++ instruction (E_MarkerToken e).

Lemma renderBody_instruction id n mx from content marker :
  renderBody id n mx from content marker
  = ("[conversation: " ++ id ++ "  turn " ++ Itoa n ++ " of " ++ Itoa mx ++ "  from: " ++ from ++ "]
" ++ content ++ (if HasSuffix content [LF] then [] else [LF]) ++ [LF] ++ "When you finish your reply, ")
    ++ instruction marker.
Proof. unfold renderBody, instruction. rewrite <- !app_assoc. done. Qed.

Lemma BuildEnvelopeTurn1_instruction conv slot marker :
  exists P, has_instruction (BuildEnvelopeTurn1 conv slot marker) P.
Proof.
  eexists. unfold has_instruction, BuildEnvelopeTurn1. cbn [E_Body E_MarkerToken].
  rewrite renderBody_instruction. rewrite !app_comm_cons, app_assoc. reflexivity.
Qed.

Lemma BuildEnvelopeTurnN_instruction conv n from prev marker :
  exists P, has_instruction (BuildEnvelopeTurnN conv n from prev marker) P.
Proof.
  eexists. unfold has_instruction, BuildEnvelopeTurnN. cbn [E_Body E_MarkerToken].
  rewrite renderBody_instruction. reflexivity.
Qed.

(** The echo of a terminal that turns line feeds into CR LF, or does not. *)
Definition crlf (s : gostring) : gostring := s ≫= (fun c => if ceq c LF then [CR; LF] else [c]).

Lemma crlf_no_lf s : LF ∉ s -> crlf s = s.
Proof.
  induction s as [|c s IH]; intros H; [done|]. unfold crlf in *. cbn.
  rewrite (proj2 (ceq_false c LF)) by set_solver. cbn. by rewrite IH by set_solver.
Qed.

Definition echo_of (onlcr : bool) (s : gostring) : gostring := if onlcr then crlf s else s.

Lemma echo_instruction onlcr P m : LF ∉ m ->
  echo_of onlcr (P ++ instruction m)
  = turn_echo m (echo_of onlcr P) (" on its own line." ++ if onlcr then [CR] else []).
Proof.
  intros Hm. unfold instruction, turn_echo, echo_of. destruct onlcr.
  - unfold crlf. rewrite !bind_app. fold (crlf P) (crlf m). rewrite (crlf_no_lf m) by done.
    reflexivity.
  - by rewrite app_nil_r.
Qed.

(** ** Properties *)

(** Nothing but the listed keys reaches the environment of a peer.  The
    environment built from the options of a peer holds, of the keys the options
    can name, exactly the listed ones, under [env_]; the model and the reasoning
    effort come from their own options; and the binary and the arguments that the
    environment could override are not among them. *)
Theorem buildPeerEnv_allowlist (options : gmap gostring gostring) :
  (forall k v, k <> "VITIS_MODEL" -> k <> "VITIS_REASONING_EFFORT" ->
    buildPeerEnv options !! k = Some v <-> k ∈ allowedEnvKeys /\ options !! ("env_" ++ k) = Some v)
  /\ map_get (buildPeerEnv options) "VITIS_MODEL" = map_get options "model"
  /\ map_get (buildPeerEnv options) "VITIS_REASONING_EFFORT" = map_get options "reasoning-effort"
  /\ Forall (fun k => buildPeerEnv options !! k = None)
       ["VITIS_CLAUDE_BINARY"; "VITIS_CLAUDE_ARGS"; "VITIS_CODEX_BINARY"; "VITIS_CODEX_ARGS"; "LD_PRELOAD"; "PATH"].
Proof. apply buildPeerEnv_spec. Qed.

(** The peer's options have no say in the binary. *)
Lemma peer_binary getenv options k d : k ∈ ["VITIS_CLAUDE_BINARY"; "VITIS_CODEX_BINARY"]%go ->
  resolve_binary getenv (buildPeerEnv options) k d = resolve_binary getenv ∅ k d.
Proof.
  intros Hk. unfold resolve_binary, map_get. destruct (buildPeerEnv_spec options) as (_ & _ & _ & Hf).
  rewrite Forall_forall in Hf. rewrite Hf; [done|]. set_solver.
Qed.

Lemma unknown_uri uri : HasPrefix uri "provider:" = false ->
  uri ∉ ["provider:claude-code"; "provider:claudecode"; "provider:codex"]%go.
Proof.
  intros E H. rewrite !elem_of_cons in H.
  destruct H as [H|[H|[H|H]]]; [by rewrite H in E..|by apply elem_of_nil in H].
Qed.

(** An argument and its value, when the option is set. *)
Definition option_flag (name value : gostring) : list gostring :=
  if bool_decide (value = []) then [] else [name; value].

Lemma codex_args options :
  Codex.model_args (buildPeerEnv options)
  = option_flag "--model" (map_get options "model") ++ option_flag "--reasoning-effort" (map_get options "reasoning-effort").
Proof.
  destruct (buildPeerEnv_spec options) as (_ & Hm & Hr & _). unfold Codex.model_args, option_flag. rewrite Hm, Hr.
  by repeat case_bool_decide.
Qed.

Lemma claude_args getenv options cwd home cols rows prompt :
  Args (Claude.BuildSpawnSpec getenv cwd (buildPeerEnv options) home cols rows prompt)
  = snd (Claude.ResolveCommand getenv ∅) ++ option_flag "--model" (map_get options "model").
Proof.
  destruct (buildPeerEnv_spec options) as (_ & Hm & _ & Hf). unfold Claude.BuildSpawnSpec, Claude.ResolveCommand, option_flag.
  rewrite Forall_forall in Hf. pose proof (Hf "VITIS_CLAUDE_ARGS"%go ltac:(set_solver)) as Hn.
  assert (map_get (buildPeerEnv options) "VITIS_CLAUDE_ARGS" = []) as -> by (unfold map_get; by rewrite Hn).
  assert (map_get (∅ : gmap gostring gostring) "VITIS_CLAUDE_ARGS" = []) as -> by done.
  rewrite Hm. cbn [Args snd]. repeat case_bool_decide; try done. by rewrite app_nil_r.
Qed.

(** C30: the command of a peer is the operator's choice.  Whatever the options of a
    peer specification say, the command that is spawned is the one the process
    environment chooses for that provider - never one with a shell
    metacharacter.  Its arguments are those the process environment gives for
    claude, and the model and, for codex, the reasoning effort of the options, and
    no others: no subcommand and no prompt.  It is the command of the adapter that
    the other resolution of the URI gives, which fails for the same URIs with the
    same errors: all but the three known ones and those that a test has
    registered. *)
Theorem spawn_spec_command (getenv : gostring -> gostring) (getwd : gostring)
    (factories : AdapterFactories) (spec : PeerSpec) :
  match spawn_spec getenv getwd factories spec with
  | Ok s =>
      PromptInArgs s = false
      /\ (exists a cwd home, resolveAdapter getenv factories spec = Ok a
          /\ Command s = Command (ad_BuildSpawnSpec a cwd (buildPeerEnv (Options spec)) home 80 24 []))
      /\ ((URI spec ∈ ["provider:claude-code"; "provider:claudecode"]%go
             /\ Command s = fst (Claude.ResolveCommand getenv ∅)
             /\ Args s = snd (Claude.ResolveCommand getenv ∅) ++ option_flag "--model" (map_get (Options spec) "model")
           \/ (URI spec = "provider:codex") /\ Command s = fst (Codex.ResolveCommand getenv ∅)
             /\ Args s = option_flag "--model" (map_get (Options spec) "model")
                         ++ option_flag "--reasoning-effort" (map_get (Options spec) "reasoning-effort"))
          /\ validateExecutable (Command s) = true /\ Env s = buildPeerEnv (Options spec)
          \/ (exists id, URI spec = "provider:" ++ id /\ is_Some (factories !! id)))
  | Err e =>
      resolveAdapter getenv factories spec = Err e
      /\ URI spec ∉ ["provider:claude-code"; "provider:claudecode"; "provider:codex"]%go
      /\ forall id, (URI spec = "provider:" ++ id) -> factories !! id = None
  end.
Proof.
  unfold spawn_spec, buildPersistentSpawnSpec, resolveAdapter.
  destruct (HasPrefix (URI spec) "provider:") eqn:E.
  2: { cbn [mbind result_bind]. split_and!; [done|by apply unknown_uri|]. intros id H. by rewrite H, HasPrefix_app in E. }
  apply HasPrefix_spec in E as [id E]. unfold TrimPrefix.
  rewrite E, (HasPrefix_app "provider:"), drop_app_length. cbv zeta.
  destruct (bool_decide (id ∈ ["claude-code"; "claudecode"]%go)) eqn:Ec; bool_facts.
  - cbn [mbind result_bind ad_BuildSpawnSpec Claude.New Args]. rewrite claude_args.
    unfold Claude.BuildSpawnSpec, Claude.ResolveCommand.
    cbn [fst Command PromptInArgs Env]. split_and!; [done|by eexists _, [], []|left].
    rewrite peer_binary by by left. split_and!; try done; [|apply resolve_binary_safe; done].
    left. split; [set_solver|done].
  - destruct (bool_decide (id = "codex")) eqn:Ed; bool_facts.
    + subst id. cbn [mbind result_bind Command PromptInArgs Env Args]. rewrite codex_args. unfold Codex.ResolveCommand. cbn [fst].
      split_and!; [done|by eexists _, [], []|left]. rewrite peer_binary by set_solver.
      split_and!; try done; [by right; split_and!|apply resolve_binary_safe; done].
    + destruct (factories !! id) as [f|] eqn:Ef; cbn [mbind result_bind Command PromptInArgs].
      * split_and!; [done|by eexists _, _, _|right]. eauto.
      * split_and!; [done| |].
        -- intros H. rewrite !elem_of_cons in H.
           destruct H as [H|[H|[H|H]]]; [| | |by apply elem_of_nil in H];
             apply (app_inv_head "provider:" id) in H; set_solver.
        -- intros id' H. apply (app_inv_head "provider:") in H. congruence.
Qed.

Lemma Deliver_turn (t : Transport) (pp : PersistentProcess) (e : Envelope) (buf P R tail : gostring)
    (onlcr : bool) (timeout : gostring) (ws : list wakeup) (t0 t1 : time)
    (Hstarted : tr_process t = Some pp) (Hidle : idle_with pp [])
    (Hmarker : E_MarkerToken e = NewMarkerToken buf) (Hbuf : length buf = markerSuffixBytes)
    (Hbody : has_instruction e P)
    (Hfresh : ~ occurs (E_MarkerToken e) (echo_of onlcr P)) (HR : ~ occurs (E_MarkerToken e) R)
    (Hws : Forall quiet ws) (Htail : blank (until_lf tail))
    (Hout : schedule_output ws = echo_of onlcr (E_Body e) ++ R ++ LF :: E_MarkerToken e ++ tail)
    (Hmax : Z.of_nat (length (schedule_output ws)) <= maxBufferBytes) :
  exists t', Deliver t e timeout None ws t0 t1
    = Some (Ok (turn_for (tr_conversationID t) (tr_slot t) e
                  (NormalizePTYText (trim_echo_ws R)) t0 t1 0.95), t')
  /\ exists pp', tr_process t' = Some pp' /\ idle_with pp' [].
Proof.
  destruct (marker_facts buf Hbuf) as (H1 & H2 & H3 & H4). rewrite <- Hmarker in H1, H2, H3, H4.
  unfold has_instruction in Hbody.
  assert (schedule_output ws = turn_output (E_MarkerToken e) (echo_of onlcr P)
    (" on its own line." ++ if onlcr then [CR] else []) R tail) as Ho.
  { rewrite Hout, Hbody, echo_instruction by done. reflexivity. }
  destruct (turn_extracts (E_MarkerToken e) (echo_of onlcr P) (" on its own line." ++ if onlcr then [CR] else [])
    R tail pp timeout ws) as (pp' & Hc & Hi); try done.
  { destruct onlcr; by apply (bool_decide_unpack _). }
  { by rewrite <- Ho. }
  unfold Deliver. rewrite Hstarted, Hc. cbn. eexists. split; [reflexivity|]. by exists pp'.
Qed.

(** C29: a turn over a PTY.  A started transport is handed an envelope of the broker
    with a fresh marker; the terminal echoes it, with or without CR LF
    translation, and the peer prints its reply and the marker on a line of its
    own, in any chunks.  Then [Deliver] returns the turn of that envelope whose
    response is the reply, trimmed and normalised: nothing of the envelope and
    nothing of the marker. *)
Theorem Deliver_reply (t : Transport) (pp : PersistentProcess) (e : Envelope) (buf P R tail : gostring)
    (onlcr : bool) (timeout : gostring) (ws : list wakeup) (t0 t1 : time)
    (Hstarted : tr_process t = Some pp) (Hidle : idle_with pp [])
    (Hmarker : E_MarkerToken e = NewMarkerToken buf) (Hbuf : length buf = markerSuffixBytes)
    (Hbody : has_instruction e P)
    (Hfresh : ~ occurs (E_MarkerToken e) (echo_of onlcr P)) (HR : ~ occurs (E_MarkerToken e) R)
    (Hws : Forall quiet ws) (Htail : blank (until_lf tail))
    (Hout : schedule_output ws = echo_of onlcr (E_Body e) ++ R ++ LF :: E_MarkerToken e ++ tail)
    (Hmax : Z.of_nat (length (schedule_output ws)) <= maxBufferBytes) :
  exists t', Deliver t e timeout None ws t0 t1
    = Some (Ok (turn_for (tr_conversationID t) (tr_slot t) e
                  (NormalizePTYText (trim_echo_ws R)) t0 t1 0.95), t')
  /\ exists pp', tr_process t' = Some pp' /\ idle_with pp' [].
Proof. by eapply Deliver_turn. Qed.

(** ** The turn of a terminal that translates line feeds *)

Definition demo_conv : Conversation :=
  {| C_ID := "c1"; SchemaVersion := 0; CreatedAt := 0; C_EndedAt := None; C_Status := ConvRunning;
     MaxTurns := 3; PerTurnTimeout := 0; OverallTimeout := 0;
     C_Terminator := {| TS_Kind := "sentinel"; TS_Sentinel := []; TS_JudgeURI := [] |};
     C_Peers := []; Seeds := ∅; OpenerID := []; C_PeerA := zeroPeerSpec; C_PeerB := zeroPeerSpec;
     SeedA := "hi"; SeedB := []; Opener := PeerSlotA; TurnsConsumed := 0; C_ReplyStyle := [] |}.

Definition demo_env : Envelope := BuildEnvelopeTurnN demo_conv 2 "a" "hi" (NewMarkerToken "abcdef").
Definition demo_P : gostring := "[conversation: c1  turn 2 of 3  from: peer-a]
hi

When you finish your reply, ".
Definition demo_output : gostring :=
  crlf (E_Body demo_env) ++ "fine, thanks" ++ LF :: E_MarkerToken demo_env ++ [CR; LF].

Lemma Deliver_reply_witness :
  exists t', Deliver (snd (Start (New 0) None "c1" "b")) demo_env "5m0s" None
      [{| w_events := [PumpOutput demo_output]; w_ctx := None; w_late := false |}] 1 2
    = Some (Ok (turn_for "c1" "b" demo_env "fine, thanks" 1 2 0.95), t')
  /\ exists pp', tr_process t' = Some pp' /\ idle_with pp' [].
Proof.
  apply (Deliver_reply (snd (Start (New 0) None "c1" "b")) NewPersistentProcess demo_env "abcdef" demo_P
           "fine, thanks" [CR; LF] true "5m0s"
           [{| w_events := [PumpOutput demo_output]; w_ctx := None; w_late := false |}] 1 2).
  - reflexivity.
  - repeat split.
  - reflexivity.
  - reflexivity.
  - vm_compute. reflexivity.
  - apply occurs_dec_false. vm_compute. reflexivity.
  - apply occurs_dec_false. vm_compute. reflexivity.
  - repeat (apply List.Forall_cons || apply List.Forall_nil || split || (eexists; reflexivity)).
  - vm_compute. reflexivity.
  - vm_compute. reflexivity.
  - vm_compute. discriminate.
Defined.
