(* ===== verification/PtyPeers.v ===== *)
(** * The broker over its pseudo-terminal peers

    [BrokerDeps.PeersByID] as the commands build it: a provider transport per
    peer, named by its id.  [pty_env] is an environment of the broker in which
    starting, delivering to and stopping a peer are the operations of its
    transport; starting a process, and what it does while a turn is awaited,
    come from the system below.  What [Run_on_disk] asks of the peers is then a
    theorem; every process that a run started was terminated; and no call blocks
    when the waits are fair. *)
From S2P Require Import Prelude GoLib Model Policy Sentinel Envelope Bus Broker Protocol Trace BrokerRun Turns Persistent TurnWait Adapter Provider FileSys Store System.

(** What happens in a turn: the outcome of writing the envelope, if the write
    returns at all, and the schedule of the threads that wait for the reply. *)
Record turn_io := {
  io_write : option (option goerr);
  io_schedule : list turn_label;
  io_written : time;
  io_started : time;
  io_ended : time;
}.

(** What happens when a process is closed: the error of [Terminate], and what the
    pump receives from then on. *)
Record close_io := {
  ci_err : option goerr;
  ci_events : list pump_event;
}.

Class PtyEnv (World : Type) := {
  (** the process environment, the working directory and the adapters of tests *)
  p_getenv : gostring -> gostring;
  p_getwd : gostring;
  p_factories : AdapterFactories;
  p_spawn : SpawnSpec -> World -> option goerr * World;
  (** a turn with its timeout, and [Terminate] with its grace in milliseconds *)
  p_turn : PeerID -> Envelope -> Z -> World -> turn_io * World;
  p_close : PeerID -> Z -> World -> close_io * World;
  (** [Duration.String] *)
  p_duration : Z -> gostring;
}.

(** What the waits rely on.  Of a turn: the write of the envelope returns, and
    the schedule is fair - the context ends or the deadline comes, and then the
    watcher and the waiter run.  Of a close: the pump of a process that was asked
    to terminate receives its exit or the end of its output. *)
Definition turn_fair (timeout : Z) (io : turn_io) : Prop :=
  is_Some (io_write io) /\ fair_turn (io_written io + timeout) (io_schedule io).
Definition pump_ends (io : close_io) : Prop :=
  exists ev, ev ∈ ci_events io /\ forall data, ev <> PumpOutput data.

Definition turns_end {World} {pty : PtyEnv World} : Prop :=
  forall id e timeout w, turn_fair timeout (fst (p_turn id e timeout w)).
Definition closes_end {World} {pty : PtyEnv World} : Prop :=
  forall id grace w, pump_ends (fst (p_close id grace w)).

Abbreviation transports := (gmap PeerID Provider.Transport).

(** The transports, and what was done to their processes: one was started,
    [Terminate] was called with a grace, or a call waits for ever. *)
Inductive process_event :=
| Spawned
| Terminated (graceMs : Z)
| Blocked.

#[export] Instance process_event_eq_dec : EqDecision process_event.
Proof. solve_decision. Defined.

Record terminals := {
  tms_transports : transports;
  tms_ledger : list (PeerID * process_event);
}.

Definition transport_of (ps : terminals) (id : PeerID) : Provider.Transport :=
  default (Provider.New 0) (tms_transports ps !! id).

Definition set_transport (ps : terminals) (id : PeerID) (t : Provider.Transport) (evs : list process_event) : terminals :=
  {| tms_transports := <[id := t]> (tms_transports ps); tms_ledger := tms_ledger ps ++ (pair id <$> evs) |}.

(** The transports that [runNPeerConverse] makes. *)
Definition new_transports (conv : Conversation) (ids : list PeerID) : terminals :=
  {| tms_transports := foldl (fun m id => <[id := Provider.New (PerTurnTimeoutDuration conv)]> m) ∅ ids;
     tms_ledger := [] |}.

(** Nothing happens in a turn of a transport that has no process. *)
Definition no_io : turn_io :=
  {| io_write := Some None; io_schedule := []; io_written := 0; io_started := 0; io_ended := 0 |}.

(** A call that does not return has no result; the model goes on with this one,
    after it has recorded [Blocked]. *)
Definition blocked_err : goerr := ErrNew "blocked".

(** [Deliver] over the schedule of its turn; [None] if it never returns. *)
Definition deliver_turn (t : Provider.Transport) (e : Envelope) (timeout : gostring) (io : turn_io)
    : option (result ConversationTurn * Provider.Transport) :=
  werr ← io_write io;
  Provider.Deliver t e timeout werr
    match tr_process t with
    | Some pp => passes pp (E_MarkerToken e) timeout (io_written io) (io_written io + tr_perTurnTimeout t) (io_schedule io)
    | None => []
    end (io_started io) (io_ended io).

(** [<-pumpDone] *)
Definition pump_waits (t : Provider.Transport) (io : close_io) : bool :=
  match tr_process t with
  | Some pp => negb (Persistent.pumpDone (fold_left pump_step (ci_events io) pp))
  | None => false
  end.

Section PtyEnv.
Context {World : Type} {pty : PtyEnv World} {env0 : BrokerEnv World PeerID}.

(** The command of a peer, and the spawner that starts it. *)
Definition peer_command (spec : PeerSpec) : result SpawnSpec := spawn_spec p_getenv p_getwd p_factories spec.

Definition NewTerminalSpawner (spec : PeerSpec) (w : World) : option goerr * World :=
  match peer_command spec with
  | Err e => (Some e, w)
  | Ok sp =>
      let '(err, w) := p_spawn sp w in
      (match err with Some e => Some (ErrWrapped ("spawn pty for " ++ URI spec ++ ": ") e) | None => None end, w)
  end.

Definition pty_start (id : PeerID) (spec : PeerSpec) (cid : gostring) (slot : PeerSlot)
    (x : terminals * World) : option goerr * (terminals * World) :=
  let t := transport_of (fst x) id in
  match tr_process t with
  | Some _ => let '(e, t) := Provider.Start t None cid slot in (e, (set_transport (fst x) id t [], snd x))
  | None =>
      let '(err, w) := NewTerminalSpawner spec (snd x) in
      let '(e, t) := Provider.Start t err cid slot in
      (e, (set_transport (fst x) id t (match e with None => [Spawned] | Some _ => [] end), w))
  end.

Definition pty_deliver (id : PeerID) (e : Envelope) (x : terminals * World)
    : result ConversationTurn * (terminals * World) :=
  let t := transport_of (fst x) id in
  let '(io, w) := match tr_process t with
                  | Some _ => p_turn id e (tr_perTurnTimeout t) (snd x)
                  | None => (no_io, snd x)
                  end in
  match deliver_turn t e (p_duration (tr_perTurnTimeout t)) io with
  | Some (r, t) => (r, (set_transport (fst x) id t [], w))
  | None => (Err blocked_err, (set_transport (fst x) id t [Blocked], w))
  end.

(** [Stop] and [Close]: the error of [Terminate] is dropped. *)
Definition pty_stop (id : PeerID) (grace : Z) (x : terminals * World) : option goerr * (terminals * World) :=
  let t := transport_of (fst x) id in
  let '(t', g) := Provider.Stop t grace in
  match g with
  | None => (None, (set_transport (fst x) id t' [], snd x))
  | Some ms =>
      let '(io, w) := p_close id ms (snd x) in
      (None, (set_transport (fst x) id t' (Terminated ms :: if pump_waits t io then [Blocked] else []), w))
  end.

#[export] Instance pty_env : BrokerEnv (terminals * World) PeerID := {|
  env_CreateConversation c := on_snd (env_CreateConversation c);
  env_UpdateConversation id p := on_snd (env_UpdateConversation id p);
  env_AppendConversationTurn t := on_snd (env_AppendConversationTurn t);
  env_Start := pty_start;
  env_Deliver := pty_deliver;
  env_Stop := pty_stop;
  env_TerminatorStart c := on_snd (env_TerminatorStart c);
  env_TerminatorStop := on_snd env_TerminatorStop;
  env_Publish t m := on_snd (env_Publish t m);
  env_Subscribe t := on_snd (env_Subscribe t);
  env_Cancel ch x := (fst x, env_Cancel ch (snd x));
  env_recv_within ch d := on_snd (env_recv_within ch d);
  env_recv_ready ch := on_snd (env_recv_ready ch);
  env_ctx_done := on_snd env_ctx_done;
  env_now := on_snd env_now;
  env_random n := on_snd (env_random n);
|}.

(** What a call of the broker does to the transports.  A call blocks only if
    what the waits rely on fails. *)
Definition peer_step (c : call PeerID) (ps ps' : terminals) : Prop :=
  match c with
  | KStart id spec cid slot e => exists err t',
      (forall err', peer_command spec = Err err' -> err = Some err')
      /\ Provider.Start (transport_of ps id) err cid slot = (e, t')
      /\ ps' = set_transport ps id t' (match e with None => [Spawned] | Some _ => [] end)
  | KDeliver id e r =>
      (exists timeout werr ws t0 t1 t',
        Provider.Deliver (transport_of ps id) e timeout werr ws t0 t1 = Some (r, t') /\ ps' = set_transport ps id t' [])
      \/ ~ turns_end /\ r = Err blocked_err /\ ps' = set_transport ps id (transport_of ps id) [Blocked]
  | KStop id => exists blocked,
      ps' = set_transport ps id (fst (Provider.Stop (transport_of ps id) Second))
              match snd (Provider.Stop (transport_of ps id) Second) with
              | Some ms => Terminated ms :: blocked
              | None => []
              end
      /\ (blocked = [] \/ blocked = [Blocked] /\ ~ closes_end)
  | _ => ps' = ps
  end.

(** A fair turn returns. *)
Lemma deliver_returns t e timeout io :
  match tr_process t with Some _ => turn_fair (tr_perTurnTimeout t) io | None => is_Some (io_write io) end ->
  is_Some (deliver_turn t e timeout io).
Proof.
  unfold deliver_turn, Provider.Deliver. destruct (tr_process t) as [pp|].
  - intros [[werr ->] Hf]. cbn. unfold ConverseTurn.
    case_bool_decide; [by eexists|]. destruct werr; [by eexists|]. rewrite passes_run.
    destruct (fair_turn_returns (E_MarkerToken e) timeout _ pp (io_written io) _ Hf) as [[r pp'] ->]. by eexists.
  - intros [werr ->]. by eexists.
Qed.

Lemma deliver_turn_step t e timeout io r t' : deliver_turn t e timeout io = Some (r, t') ->
  exists werr ws, Provider.Deliver t e timeout werr ws (io_started io) (io_ended io) = Some (r, t').
Proof. unfold deliver_turn. destruct (io_write io) as [werr|]; [|done]. cbn. eauto. Qed.

Lemma pump_step_done p ev : Persistent.pumpDone p = true -> Persistent.pumpDone (pump_step p ev) = true.
Proof. intros H. unfold pump_step. by rewrite H. Qed.

Lemma pump_fold_done evs p : Persistent.pumpDone p = true -> Persistent.pumpDone (fold_left pump_step evs p) = true.
Proof. revert p. induction evs as [|ev evs IH]; intros p H; [done|]. by apply IH, pump_step_done. Qed.

(** The pump of a process that was terminated ends. *)
Lemma close_returns t io : pump_ends io -> pump_waits t io = false.
Proof.
  intros (ev & (a & b & E)%list_elem_of_split & Hev). unfold pump_waits. destruct (tr_process t) as [pp|]; [|done].
  rewrite E, fold_left_app, negb_false_iff. cbn. apply pump_fold_done.
  set (q := fold_left pump_step a pp). unfold pump_step. destruct (Persistent.pumpDone q) eqn:Ed; [done|].
  destruct ev; [by edestruct Hev|done|done].
Qed.

Lemma pty_unseen {A} (f : World -> A * World) : unseen (World := terminals * World) fst (on_snd f).
Proof. intros [ps w]. unfold on_snd. cbn [fst snd]. by destruct (f w). Qed.

Lemma pty_deliver_step id e x : peer_step (KDeliver id e (fst (pty_deliver id e x))) (fst x) (fst (snd (pty_deliver id e x))).
Proof.
  destruct x as [ps w]. unfold pty_deliver. cbn [fst snd]. set (t := transport_of ps id).
  destruct (match tr_process t with Some _ => _ | None => _ end) as [io w'] eqn:Eio.
  destruct (deliver_turn t e (p_duration (tr_perTurnTimeout t)) io) as [[r t']|] eqn:E; cbn [fst snd peer_step].
  - left. destruct (deliver_turn_step _ _ _ _ _ _ E) as (werr & ws & Ed). by do 6 eexists.
  - right. split; [|done]. intros Hf.
    destruct (deliver_returns t e (p_duration (tr_perTurnTimeout t)) io) as [? Hd]; [|congruence].
    destruct (tr_process t); [|injection Eio as <- _; by eexists].
    specialize (Hf id e (tr_perTurnTimeout t) w). by rewrite Eio in Hf.
Qed.

Lemma pty_stop_step id x : peer_step (KStop id) (fst x) (fst (snd (pty_stop id Second x))).
Proof.
  destruct x as [ps w]. unfold pty_stop. cbn [fst snd peer_step].
  destruct (Provider.Stop (transport_of ps id) Second) as [t' [ms|]]; [|exists []; cbn; auto].
  destruct (p_close id ms w) as [io w'] eqn:Ec. cbn [fst snd].
  eexists. split; [done|]. destruct (pump_waits _ io) eqn:E; [right|by left]. split; [done|]. intros Hc.
  specialize (Hc id ms w). rewrite Ec in Hc. by rewrite (close_returns _ _ Hc) in E.
Qed.

#[export] Instance pty_observed : Observed (env := pty_env) fst peer_step.
Proof.
  split; intros; try (apply pty_unseen); try (intros [ps w]; cbn; unfold on_snd; cbn; by case_match).
  - intros [ps w]. cbn. unfold pty_start. cbn [fst snd].
    destruct (tr_process (transport_of ps t)) as [pp|] eqn:Et.
    + exists (match peer_command spec with Err e => Some e | Ok _ => None end).
      destruct (Provider.Start _ None id slot) as [e t'] eqn:E. exists t'. split; [by intros err' ->|].
      unfold Provider.Start in *. rewrite Et in *. by injection E as <- <-.
    + destruct (NewTerminalSpawner spec w) as [err w'] eqn:Ep. destruct (Provider.Start _ err id slot) as [e t'] eqn:E.
      exists err, t'. split; [|done]. intros err' He. unfold NewTerminalSpawner in Ep. rewrite He in Ep. by injection Ep as <- _.
  - intros x. apply pty_deliver_step.
  - intros x. apply pty_stop_step.
  - by intros [ps w].
  - intros [ps w]. cbn. unfold on_snd. cbn. destruct (env_recv_within ch dl w) as [[m|] w1]; [|done]. cbn.
    by destruct (env_recv_ready ch w1).
Qed.
End PtyEnv.

(** ** Processes *)
Section Peers.
Context {World : Type} {pty : PtyEnv World}.

(** The peer has a process. *)
Definition live (ps : terminals) (id : PeerID) : Prop := is_Some (tr_process (transport_of ps id)).

Lemma transport_insert ps i t evs id :
  transport_of (set_transport ps i t evs) id = if decide (i = id) then t else transport_of ps id.
Proof.
  unfold transport_of, set_transport. cbn.
  destruct (decide (i = id)) as [->|Hne]; [by rewrite lookup_insert_eq|by rewrite lookup_insert_ne].
Qed.

Lemma Start_process t err cid slot e t' : Provider.Start t err cid slot = (e, t') ->
  match e with
  | None => is_Some (tr_process t') /\ tr_conversationID t' = cid
  | Some _ => t' = t
  end.
Proof.
  unfold Provider.Start. destruct (tr_process t); [by intros [= <- <-]|].
  destruct err; intros [= <- <-]; [done|]. split; [by eexists|done].
Qed.

Lemma Deliver_process t e timeout werr ws t0 t1 r t' :
  Provider.Deliver t e timeout werr ws t0 t1 = Some (r, t') ->
  tr_conversationID t' = tr_conversationID t /\ (is_Some (tr_process t') <-> is_Some (tr_process t))
  /\ forall turn, r = Ok turn -> is_Some (tr_process t)
     /\ T_ConversationID turn = tr_conversationID t /\ T_Index turn = E_TurnIndex e.
Proof.
  unfold Provider.Deliver. destruct (tr_process t) as [pp|] eqn:Et.
  2: { intros [= <- <-]. by rewrite Et. }
  destruct (ConverseTurn _ _ _ _ _) as [[x pp']|]; [|done]. intros [= <- <-]. cbn [set_process tr_conversationID tr_process].
  split; [done|]. split; [split; by eexists|]. intros turn Ht. destruct x; [|done]. injection Ht as <-. by split; [eexists|].
Qed.

Lemma Stop_process t g : ~ is_Some (tr_process (fst (Provider.Stop t g))).
Proof. unfold Provider.Stop. destruct (tr_process t) eqn:E; cbn; [|rewrite E]; by intros []. Qed.

(** How a call changes which peers have a process. *)
Lemma live_step c ps ps' id : peer_step c ps ps' ->
  live ps' id <-> match c with
                  | KStart i _ _ _ None => i = id \/ live ps id
                  | KStop i => i <> id /\ live ps id
                  | _ => live ps id
                  end.
Proof.
  destruct c as [| | |i spec cid slot e|i e r|i| | | | | | |]; cbn [peer_step]; try (by intros ->); unfold live.
  - intros (err & t' & _ & HS & ->). apply Start_process in HS. rewrite transport_insert.
    destruct e as [e|]; [subst t'|]; destruct (decide (i = id)); naive_solver.
  - intros [(timeout & werr & ws & t0 & t1 & t' & HD & ->)|(_ & _ & ->)]; rewrite transport_insert.
    + apply Deliver_process in HD as (_ & HD & _). destruct (decide (i = id)) as [->|]; [|done]. exact HD.
    + by destruct (decide (i = id)) as [->|].
  - intros (blocked & -> & _). rewrite transport_insert. pose proof (Stop_process (transport_of ps i) Second).
    destruct (decide (i = id)); naive_solver.
Qed.

Lemma live_started l ps ps' id :
  trace peer_step l ps ps' -> live ps' id -> live ps id \/ id ∈ started l.
Proof.
  induction 1 as [ps|c l ps ps1 ps' Hc Ht IH]; [by left|]. intros [Hl|Hl]%IH.
  - apply (live_step _ _ _ id Hc) in Hl. destruct c as [| | |i spec cid slot [e|]| | | | | | | | |]; try tauto.
    destruct Hl as [->|Hl]; [right; by left|by left].
  - right. destruct c as [| | |i spec cid slot [e|]| | | | | | | | |]; try exact Hl. by right.
Qed.

Lemma live_stopped l ps ps' id : started l = [] ->
  trace peer_step l ps ps' -> live ps' id -> live ps id /\ id ∉ stopped l.
Proof.
  intros Hs Ht. induction Ht as [ps|c l ps ps1 ps' Hc Ht IH]; [split; [done|set_solver]|].
  assert (started l = []) as Hs' by (destruct c as [| | |i spec cid slot [e|]| | | | | | | | |]; done).
  intros [Hl Hn]%(IH Hs'). apply (live_step _ _ _ id Hc) in Hl.
  destruct c as [| | |i spec cid slot [e|]| |i| | | | | | |]; try done. destruct Hl as [Hne Hl].
  split; [done|]. intros [->|Hin]%elem_of_cons; done.
Qed.

(** No process outlives a run. *)
Lemma run_leaves_none d l r ps ps' : deps_ok d -> run_log d l r ->
  trace peer_step l ps ps' -> (forall id, ~ live ps id) -> forall id, ~ live ps' id.
Proof.
  intros Hok Hl Ht H0 id Hlive. pose proof (rf_lifecycle _ _ _ (run_log_facts d l r Hok Hl)) as Hlc.
  destruct (stops_last d l r Hok Hl) as (pre & post & -> & H1 & _ & H2).
  apply trace_app_inv in Ht as (ps1 & Hpre & Hpost).
  destruct (live_stopped post ps1 ps' id H2 Hpost Hlive) as [Hl1 Hn].
  unfold started, stopped in *. rewrite !omap_app, H1, H2, app_nil_r in Hlc. cbn [app] in Hlc.
  destruct (live_started pre ps ps1 id Hpre Hl1) as [Hz|Hz]; [by apply (H0 id)|]. apply Hn. by rewrite <- Hlc.
Qed.

(** ** What was done to the processes of a peer *)

(** The starts and the terminations of a peer's processes, in order. *)
Definition handled (ps : terminals) (id : PeerID) : list process_event :=
  omap (fun e => if bool_decide (fst e = id /\ snd e <> Blocked) then Some (snd e) else None) (tms_ledger ps).

(** [n] processes, each terminated with a grace of a second. *)
Definition lives (n : nat) : list process_event := concat (replicate n [Spawned; Terminated 1000]).

(** The successful starts of a peer among the calls of a run. *)
Definition starts_of (l : list (call PeerID)) (id : PeerID) : nat := length (filter (fun i => i = id) (started l)).

Lemma handled_set ps i t evs id :
  handled (set_transport ps i t evs) id
  = handled ps id ++ if decide (i = id) then filter (fun ev => ev <> Blocked) evs else [].
Proof.
  unfold handled, set_transport. cbn. rewrite omap_app. f_equal.
  induction evs as [|ev evs IH]; cbn; [by case_decide|].
  destruct (decide (i = id)) as [->|Hne].
  - destruct (decide (ev <> Blocked)) as [He|He].
    + rewrite bool_decide_true by done. by rewrite IH.
    + by rewrite bool_decide_false by naive_solver.
  - by rewrite bool_decide_false by naive_solver.
Qed.

(** Each process of a peer was terminated, but for the one that its transport
    holds. *)
Definition accounted (ps : terminals) (id : PeerID) (n : nat) : Prop :=
  match tr_process (transport_of ps id) with
  | Some pp => Persistent.closed pp = false /\ exists k, n = S k /\ handled ps id = lives k ++ [Spawned]
  | None => handled ps id = lives n
  end.

Lemma lives_S k : lives (S k) = lives k ++ [Spawned; Terminated 1000].
Proof. unfold lives. by rewrite replicate_S_end, concat_app. Qed.
Lemma converse_loop_closed p marker timeout ws r p' :
  converse_loop p marker timeout ws = Some (r, p') -> Persistent.closed p' = Persistent.closed p.
Proof.
  assert (forall q ev, Persistent.closed (pump_step q ev) = Persistent.closed q) as Hs
    by (intros q []; unfold pump_step; cbn; by destruct (Persistent.pumpDone q)).
  assert (forall evs q, Persistent.closed (fold_left pump_step evs q) = Persistent.closed q) as Hf.
  { induction evs as [|ev evs IH]; intros q; [done|]. cbn. by rewrite IH. }
  revert p. induction ws as [|w ws IH]; intros p; [done|]. cbn [converse_loop].
  destruct (converse_check _ _ _ _ _) as [[r1 p1]|] eqn:E; [intros [= -> ->]|intros H; apply IH in H; by rewrite H].
  rewrite <- (Hf (w_events w) p). revert E. unfold converse_check. by repeat (case_match; try done); intros [= <- <-].
Qed.

Lemma Deliver_closed t e timeout werr ws t0 t1 r t' : Provider.Deliver t e timeout werr ws t0 t1 = Some (r, t') ->
  Persistent.closed <$> tr_process t' = Persistent.closed <$> tr_process t.
Proof.
  unfold Provider.Deliver. destruct (tr_process t) as [pp|] eqn:Et; [|by intros [= <- <-]; rewrite Et].
  destruct (ConverseTurn _ _ _ _ _) as [[x pp']|] eqn:E; [|done]. intros [= <- <-]. cbn. f_equal. revert E.
  unfold ConverseTurn. case_bool_decide; [by intros [= _ <-]|]. destruct werr; [by intros [= _ <-]|].
  apply converse_loop_closed.
Qed.

Lemma accounted_same ps ps' id n :
  Persistent.closed <$> tr_process (transport_of ps' id) = Persistent.closed <$> tr_process (transport_of ps id) ->
  handled ps' id = handled ps id -> accounted ps id n -> accounted ps' id n.
Proof.
  unfold accounted. intros H ->. destruct (tr_process (transport_of ps' id)), (tr_process (transport_of ps id)); try done.
  by injection H as ->.
Qed.

Lemma accounted_step c ps ps' id n :
  peer_step c ps ps' -> accounted ps id n -> accounted ps' id (n + starts_of [c] id).
Proof.
  assert (forall i t evs n, i <> id -> accounted ps id n -> accounted (set_transport ps i t evs) id n) as Hother.
  { intros i t evs m Hne. apply accounted_same; [rewrite transport_insert|rewrite handled_set]; rewrite decide_False by done;
      [done|by rewrite app_nil_r]. }
  destruct c as [| | |i spec cid slot e|i e r|i| | | | | | |]; cbn [peer_step]; unfold starts_of, started; cbn [omap list_omap];
    try (by intros ->; rewrite Nat.add_0_r).
  - intros (err & t' & _ & HS & ->) H. destruct (decide (i = id)) as [->|Hne].
    2: { destruct e; rewrite ?filter_cons_False by done; cbn; rewrite Nat.add_0_r; by apply Hother. }
    unfold Provider.Start in HS. unfold accounted in *. rewrite transport_insert, handled_set, !decide_True by done.
    destruct (tr_process (transport_of ps id)) as [pp|] eqn:Et.
    + injection HS as <- <-. cbn. rewrite Et, app_nil_r, Nat.add_0_r. done.
    + destruct err; injection HS as <- <-; cbn.
      * by rewrite Et, app_nil_r, Nat.add_0_r.
      * rewrite !decide_True by done. split; [done|]. exists n. split; [cbn; lia|]. by rewrite H.
  - intros HD H. rewrite Nat.add_0_r. destruct (decide (i = id)) as [->|Hne].
    + revert H. destruct HD as [(timeout & werr & ws & t0 & t1 & t' & HD & ->)|(_ & _ & ->)];
        apply accounted_same; rewrite ?transport_insert, ?handled_set, ?decide_True by done; cbn; rewrite ?app_nil_r; try done.
      by eapply Deliver_closed.
    + destruct HD as [(timeout & werr & ws & t0 & t1 & t' & HD & ->)|(_ & _ & ->)]; by apply Hother.
  - intros (blocked & -> & Hb) H. rewrite Nat.add_0_r. destruct (decide (i = id)) as [->|Hne]; [|by apply Hother].
    unfold accounted in *. rewrite transport_insert, handled_set, !decide_True by done. unfold Provider.Stop, Close.
    destruct (tr_process (transport_of ps id)) as [pp|] eqn:Et; [|cbn; by rewrite Et, app_nil_r].
    destruct H as [Hc (k & -> & H)]. rewrite Hc, H, lives_S. cbn. rewrite <- app_assoc. do 2 f_equal.
    by destruct Hb as [->|[-> _]].
Qed.

Lemma starts_of_cons c l id : starts_of (c :: l) id = (starts_of [c] id + starts_of l id)%nat.
Proof.
  unfold starts_of, started. change (c :: l) with ([c] ++ l). by rewrite omap_app, filter_app, length_app.
Qed.

Lemma trace_accounted l ps ps' id n :
  trace peer_step l ps ps' -> accounted ps id n -> accounted ps' id (n + starts_of l id).
Proof.
  intros Ht. revert n. induction Ht as [ps|c l ps ps1 ps' Hc Ht IH]; intros n H; [by rewrite Nat.add_0_r|].
  rewrite starts_of_cons, Nat.add_assoc. by apply IH, (accounted_step c ps).
Qed.

(** No call waits for ever. *)
Definition unblocked (ps : terminals) : Prop := Forall (fun e => snd e <> Blocked) (tms_ledger ps).

Lemma trace_unblocked l ps ps' : turns_end -> closes_end ->
  trace peer_step l ps ps' -> unblocked ps -> unblocked ps'.
Proof.
  intros Hturns Hcloses Ht. induction Ht as [ps|c l ps ps1 ps' Hc Ht IH]; [done|]. intros H. apply IH. revert Hc.
  assert (forall i t evs, Forall (fun ev => ev <> Blocked) evs -> unblocked (set_transport ps i t evs)) as Hset.
  { intros i t evs Hevs. unfold unblocked. cbn. apply Forall_app. split; [done|]. by apply Forall_fmap. }
  destruct c as [| | |i spec cid slot e|i e r|i| | | | | | |]; cbn [peer_step]; try (by intros ->).
  - intros (err & t' & _ & _ & ->). apply Hset. destruct e; repeat constructor. done.
  - intros [(timeout & werr & ws & t0 & t1 & t' & _ & ->)|(Hn & _)]; [by apply Hset|done].
  - intros (blocked & -> & [->|[_ Hn]]); [|done]. apply Hset. case_match; repeat constructor. done.
Qed.

(** ** The peers answer for the envelope they were given *)

(** A peer with a process was started for the conversation. *)
Definition started_for (cid : gostring) (ps : terminals) : Prop :=
  forall id, live ps id -> tr_conversationID (transport_of ps id) = cid.

Lemma started_for_step cid c ps ps' :
  peer_step c ps ps' -> call_ok cid c -> started_for cid ps -> started_for cid ps' /\ honest_call c.
Proof.
  unfold started_for, live.
  destruct c as [| | |i spec cid' slot e|i e r|i| | | | | | |]; cbn [peer_step call_ok honest_call]; try (by intros ->).
  - intros (err & t' & _ & HS & ->) -> H. apply Start_process in HS. split; [|done]. intros id.
    rewrite transport_insert. destruct (decide (i = id)) as [->|]; [|apply H].
    destruct e; [subst t'; apply H|by intros _; apply HS].
  - intros [(timeout & werr & ws & t0 & t1 & t' & HD & ->)|(_ & -> & ->)] He H.
    2: { split; [|done]. intros id. rewrite transport_insert. destruct (decide (i = id)) as [->|]; apply H. }
    apply Deliver_process in HD as (Hid & Hl & Hr). split.
    + intros id. rewrite transport_insert. destruct (decide (i = id)) as [->|]; [|apply H]. rewrite Hl, Hid. apply H.
    + destruct r as [turn|]; [|done]. destruct (Hr turn eq_refl) as (Hp & -> & ->). split; [|done].
      rewrite He. by apply H.
  - intros (blocked & -> & _) _ H. split; [|done]. intros id. rewrite transport_insert.
    destruct (decide (i = id)) as [->|]; [|apply H]. by intros ?%Stop_process.
Qed.

Lemma trace_honest cid l ps ps' :
  trace peer_step l ps ps' -> Forall (call_ok cid) l -> started_for cid ps -> honest l.
Proof.
  induction 1 as [ps|c l ps ps1 ps' Hc Ht IH]; intros Hl H; [constructor|].
  apply Forall_cons in Hl as [Hc' Hl]. destruct (started_for_step cid c ps ps1 Hc Hc' H) as [H1 H2].
  constructor; [done|by apply IH].
Qed.

Lemma run_honest d l r ps ps' :
  run_log d l r -> trace peer_step l ps ps' -> (forall id, ~ live ps id) -> honest l.
Proof.
  intros Hl Ht H0. eapply trace_honest; [exact Ht|by eapply run_log_calls|]. intros id Hid. by apply H0 in Hid.
Qed.

Lemma new_transports_idle conv ids id : ~ live (new_transports conv ids) id.
Proof.
  unfold new_transports, live, transport_of. cbn. assert (~ is_Some (tr_process (default (Provider.New 0) ((∅ : transports) !! id))))
    as H by (intros []; done). revert H. generalize (∅ : transports) as m.
  induction ids as [|i ids IH]; intros m H; [done|]. cbn [foldl]. apply IH.
  destruct (decide (i = id)) as [->|Hne]; [rewrite lookup_insert_eq; by intros []|by rewrite lookup_insert_ne].
Qed.

(** Every process of a run was terminated. *)
Lemma run_terminates d l r conv ids ps : deps_ok d -> run_log d l r ->
  trace peer_step l (new_transports conv ids) ps ->
  forall id, handled ps id = lives (starts_of l id) /\ ~ live ps id.
Proof.
  intros Hok Hl Ht id. pose proof (new_transports_idle conv ids) as Hidle.
  assert (~ live ps id) as Hlive by by eapply run_leaves_none. split; [|done].
  assert (accounted (new_transports conv ids) id 0) as H0.
  { specialize (Hidle id). unfold accounted, live in *. destruct (tr_process _); [by destruct Hidle; eexists|done]. }
  apply (trace_accounted _ _ _ _ _ Ht) in H0. unfold accounted, live in *.
  destruct (tr_process (transport_of ps id)); [by destruct Hlive; eexists|done].
Qed.

(** A peer that was started has a command. *)
Lemma started_command l ps ps' id spec cid slot e :
  trace peer_step l ps ps' -> peer_command spec = Err e -> KStart id spec cid slot None ∉ l.
Proof.
  induction 1 as [ps|c l ps ps1 ps' Hc Ht IH]; intros He; [by apply not_elem_of_nil|].
  apply not_elem_of_cons. split; [|by apply IH]. intros <-. destruct Hc as (err & t' & Herr & HS & _).
  rewrite (Herr e He) in HS. unfold Provider.Start in HS. by destruct (tr_process _).
Qed.

Lemma peerIDs_peers (d : BrokerDeps PeerID) id : deps_ok d -> id ∈ peerIDs d -> exists tr, (id, tr) ∈ peers d.
Proof.
  intros Hok Hid. unfold peers. destruct (peerIDs_cases d Hok) as [[E Ep]|[E Ep]]; rewrite E; rewrite Ep in Hid.
  - destruct (dok_peers _ Hok E) as [_ Hp]. destruct (Hp id Hid) as [tr Htr]. exists tr.
    apply list_elem_of_omap. exists id. by rewrite Htr.
  - destruct (dok_legacy _ Hok E) as [[a ->] [b ->]].
    apply elem_of_cons in Hid as [->|Hid%list_elem_of_singleton]; [exists a; by left|exists b; subst id; right; by left].
Qed.

(** A URI that no adapter serves. *)
Lemma unserved_command (spec : PeerSpec) :
  URI spec ∉ ["provider:claude-code"; "provider:claudecode"; "provider:codex"]%go ->
  (forall name, (URI spec = "provider:" ++ name) -> p_factories !! name = None) ->
  exists e, peer_command spec = Err e.
Proof.
  intros Hu Hf. unfold peer_command, spawn_spec, buildPersistentSpawnSpec.
  destruct (HasPrefix (URI spec) "provider:") eqn:E; [|by eexists].
  apply HasPrefix_spec in E as [name E]. specialize (Hf name E). unfold TrimPrefix. rewrite E in Hu |- *.
  rewrite (HasPrefix_app "provider:"), drop_app_length, Hf.
  rewrite (bool_decide_false (name ∈ _)) by (intros H; apply Hu; set_solver).
  rewrite (bool_decide_false (name = "codex")) by (intros ->; apply Hu; set_solver). by eexists.
Qed.

(** A declared peer without a command: no turn is taken. *)
Lemma run_without_command d l r ps ps' id e :
  deps_ok d -> run_log d l r -> trace peer_step l ps ps' -> id ∈ peerIDs d ->
  peer_command (peer_spec d (deps_Conversation d) id) = Err e ->
  FR_Turns r = [] /\ C_Status (FR_Conversation r) = ConvError.
Proof.
  intros Hok Hl Ht Hid Hc. destruct (peerIDs_peers d id Hok Hid) as [tr Hin].
  assert (forall created, start_call d (created_conv d created) None (id, tr) ∉ l) as Hno
    by (intros created; by eapply started_command).
  destruct Hl as [created e0 starts note now e1 conv Hs log0 n
    |created e0 et err now e1 conv log0 n
    |created e0 et ch rounds turns active env1 seg turns2 status note now e1 conv Hr He log0 n]; [done|done|].
  destruct (Hno created). unfold log0. do 2 (apply elem_of_app; left). right. apply elem_of_app. left.
  by apply list_elem_of_fmap_2.
Qed.
End Peers.

(** ** Properties *)
Section Properties.
Context {jS : JSON Session} {jT : JSON Turn} {jC : JSON Conversation} {jCT : JSON ConversationTurn}.
Context {srt : SortSlice} (marshal_event : StoredStreamEvent -> result gostring).
Variable s : Store.
Context {World : Type} {pty : PtyEnv World} {env0 : BrokerEnv World PeerID}.
Variable d : BrokerDeps PeerID.

#[local] Abbreviation full_env := (store_env marshal_event s (env0 := pty_env)).
#[local] Abbreviation id := (C_ID (deps_Conversation d)).

Lemma full_observed : Observed (env := full_env) (fun x => fst (snd x)) peer_step.
Proof. apply (store_observed_rest marshal_event s fst peer_step); [apply pty_observed|]. by intros [] z. Qed.

(** The broker over its peers and its store.  A run whose peers are the provider
    transports that the command makes, each over its own terminal process, and
    whose store is the file store, from files with no log of the conversation:
    when it returns, whatever the spawner and the processes did, no peer has a
    process left; and if it returned without a warning, the store reads back the
    conversation of the result and the turns that the transports made, in order,
    all or the last [n]. *)
Theorem pty_run_on_disk (fuel : nat) (ids : list PeerID) (fs fs' : FS) (w w' : World) (ps' : terminals)
    (r : FinalResult) (log : list (call PeerID)) (n : Z) (Hroot : st_root s <> []) (Hok : deps_ok d)
    (Hrand : random_ok (World := FS * (terminals * World)) (Transport := PeerID) (env := full_env))
    (Hfuel : Z.max 1 (MaxTurns (deps_Conversation d)) <= Z.of_nat fuel)
    (HR : Broker.Run (env := full_env) d fuel ((fs, (new_transports (deps_Conversation d) ids, w)), [])
          = (Some r, ((fs', (ps', w')), log)))
    (Hid : safe_id id) (Hempty : log_at s fs FConversationTurn id = [])
    (Hlines : Forall short_line (appended log))
    (Hj1 : json_faithful (stampSchemaVersion (created_conv d (CreatedAt (FR_Conversation r)))))
    (Hj2 : json_faithful (stampSchemaVersion (FR_Conversation r)))
    (Hfaults : fs_faults fs' = []) :
  (forall i, ~ live ps' i)
  /\ (FR_Warnings r = [] ->
      fst (GetConversation s id fs') = Ok (Some (stampSchemaVersion (FR_Conversation r)))
      /\ (FR_Turns r <> [] -> fst (PeekConversationTurns s id n fs') = Ok (last_n n (appended log)))).
Proof.
  destruct (Run_facts d fuel _ r _ log Hok Hrand Hfuel HR) as [Hl _].
  destruct (trace_Run (observed := full_observed) _ _ d fuel (fs, (new_transports (deps_Conversation d) ids, w)) [])
    as (o & k & z & E & Ht).
  rewrite HR in E. injection E as _ <- ->. cbn [app fst snd] in *.
  pose proof (new_transports_idle (deps_Conversation d) ids) as Hidle.
  split; [by eapply run_leaves_none|]. intros Hw.
  destruct (run_reads_back marshal_event s d Hroot fst fuel _ _ r k n Hok Hrand Hfuel HR) as (H1 & H2 & _); try done.
  by eapply run_honest.
Qed.
End Properties.

(** ** A run over echoing terminals and a fresh store *)
Module PtySim.

(** Each peer's terminal echoes the envelope, with translated line feeds, and
    then shows the next reply of the script under the marker. *)
Definition output (e : Envelope) (reply : gostring) : gostring :=
  crlf (E_Body e) ++ reply ++ LF :: E_MarkerToken e ++ [CR; LF].

#[export] Instance pty : PtyEnv Sim.world := {|
  p_getenv _ := [];
  p_getwd := "/srv";
  p_factories := {[ "mock"%go := fun _ => Claude.New (fun _ => []) ]};
  p_spawn _ w := (None, w);
  p_turn _ e timeout w :=
    ({| io_write := Some None;
        io_schedule := [LWaiter; LPump (PumpOutput (output e (default [] (head (Sim.script w))))); LWaiter;
                        LTick (Sim.clock w + timeout); LWatcher; LWatcher; LWaiter];
        io_written := Sim.clock w; io_started := Sim.clock w; io_ended := Sim.clock w + 1 |},
     {| Sim.script := tail (Sim.script w); Sim.bus := Sim.bus w; Sim.clock := Sim.clock w + 2 |});
  p_close _ _ w := ({| ci_err := None; ci_events := [PumpDone (Some {| X_Code := 130; X_Err := None |})] |}, w);
  p_duration _ := "5m0s";
|}.

(** The deadline of a turn comes after its reply, and Terminate ends a process. *)
Lemma turns_fair : turns_end (pty := pty).
Proof.
  intros id e timeout w. split; [by eexists|]. exists [LWaiter; LPump (PumpOutput (output e (default [] (head (Sim.script w))))); LWaiter].
  eexists _, _. split; [reflexivity|]. split; [|done]. cbn. lia.
Qed.
Lemma closes_fair : closes_end (pty := pty).
Proof. intros id ms w. eexists. split; [by left|done]. Qed.

Definition mock : PeerSpec := {| URI := "provider:mock"; Options := ∅ |}.
Definition conv : Conversation :=
  {| C_ID := "c1"; SchemaVersion := 0; CreatedAt := 0; C_EndedAt := None; C_Status := [];
     MaxTurns := 2; PerTurnTimeout := 0; OverallTimeout := 0; C_Terminator := C_Terminator Sim.conv;
     C_Peers := []; Seeds := ∅; OpenerID := []; C_PeerA := mock; C_PeerB := mock;
     SeedA := "hi"; SeedB := "hello"; Opener := PeerSlotB; TurnsConsumed := 0; C_ReplyStyle := [] |}.

Definition deps : BrokerDeps PeerID :=
  {| deps_Conversation := conv; deps_PeerA := Some "a"%go; deps_PeerB := Some "b"%go; deps_DrainWindow := 0;
     deps_Policy := None; deps_PeersByID := ∅; deps_PeerOrder := [] |}.

Definition world0 : Sim.world :=
  {| Sim.script := ["fine, thanks"; "good bye"]%go; Sim.bus := Bus.New []; Sim.clock := 1 |}.
Definition idle : terminals := new_transports conv ["a"; "b"]%go.

(** The run without a store tells what the store will write. *)
Definition plain_run : option FinalResult * ((terminals * Sim.world) * list (call PeerID)) :=
  Broker.Run (env := pty_env (env0 := Sim.env)) deps 2 ((idle, world0), []).
Definition plain_res : FinalResult := default Sim.res (fst plain_run).

#[export] Instance jC : JSON Conversation := StoreSim.table_json
  [(stampSchemaVersion (created_conv deps (CreatedAt (FR_Conversation plain_res))), "{running}"%go);
   (stampSchemaVersion (FR_Conversation plain_res), "{completed}"%go)].
#[export] Instance jCT : JSON ConversationTurn :=
  StoreSim.table_json (zip (appended (snd (snd plain_run))) ["{1}"; "{2}"]%go).
#[export] Instance env : BrokerEnv (FS * (terminals * Sim.world)) PeerID :=
  store_env (jS := StoreSim.jS) (jT := StoreSim.jT) StoreSim.event_json StoreSim.store
    (env0 := pty_env (env0 := Sim.env)).

Definition run : option FinalResult * ((FS * (terminals * Sim.world)) * list (call PeerID)) :=
  Broker.Run (env := env) deps 2 ((StoreSim.fresh, (idle, world0)), []).
Definition files : FS := fst (fst (snd run)).
Definition peers_after : terminals := fst (snd (fst (snd run))).
Definition res : FinalResult := default Sim.res (fst run).
Definition log : list (call PeerID) := snd (snd run).

Lemma pty_run_eq : run = (Some res, ((files, (peers_after, snd (snd (fst (snd run))))), log)).
Proof.
  etrans; [apply (returned run Sim.res); vm_compute; reflexivity|]. unfold res, files, peers_after, log.
  by destruct (snd run) as [[fs [ps w]] l].
Qed.
Lemma pty_replies : (T_Response <$> FR_Turns res) = ["fine, thanks"; "good bye"]%go /\ FR_Warnings res = [].
Proof. vm_compute. by split. Qed.

Definition turn (i : nat) : ConversationTurn := default (StoreSim.turn 0 []) (appended log !! i).
Lemma pty_turns : appended log = [turn 0; turn 1].
Proof. vm_compute. reflexivity. Qed.

Lemma pty_deps_ok : deps_ok deps.
Proof. constructor; [done|done|by split; eexists|done]. Qed.
Lemma pty_random_ok : random_ok (World := FS * (terminals * Sim.world)) (Transport := PeerID) (env := env).
Proof. intros m [fs [ps w]]. by eexists. Qed.
End PtySim.

#[local] Existing Instance PtySim.jC.
#[local] Existing Instance PtySim.jCT.

Lemma short_pty : Forall short_line (appended PtySim.log).
Proof.
  rewrite PtySim.pty_turns.
  apply Forall_cons_2; [exists "{1}"%go|apply Forall_cons_2; [exists "{2}"%go|apply Forall_nil_2]].
  all: eval_line.
Qed.

Lemma pty_run_on_disk_witness :
  (forall i, ~ live PtySim.peers_after i)
  /\ fst (PeekConversationTurns StoreSim.store "c1"%go 1 PtySim.files) = Ok [PtySim.turn 1].
Proof.
  destruct (pty_run_on_disk (jS := StoreSim.jS) (jT := StoreSim.jT) StoreSim.event_json StoreSim.store
    (pty := PtySim.pty) (env0 := Sim.env) PtySim.deps 2 ["a"; "b"]%go StoreSim.fresh PtySim.files PtySim.world0 _
    PtySim.peers_after PtySim.res PtySim.log 1 ltac:(discriminate) PtySim.pty_deps_ok PtySim.pty_random_ok Sim.fuel_ok
    PtySim.pty_run_eq ltac:(apply (bool_decide_unpack _); reflexivity) ltac:(vm_compute; reflexivity) short_pty
    ltac:(exists "{running}"%go; split; vm_compute; reflexivity)
    ltac:(exists "{completed}"%go; split; vm_compute; reflexivity) ltac:(vm_compute; reflexivity)) as [H1 H2].
  destruct (H2 (proj2 PtySim.pty_replies)) as [_ H3]. split; [exact H1|]. rewrite PtySim.pty_turns in H3.
  apply H3. vm_compute. discriminate.
Defined.
