(* ===== verification/MockAgent.v ===== *)
(** * The mock agent ([internal/testutil/mockagent/main.go])

    The agent that the integration tests run in place of a provider: the loop
    that answers the envelopes of a conversation, and the single answer of a
    plain run.  The environment is a partial function of its variables; sleeping
    is left out.  The loop reads from all of its input: [ReadString] is
    [bufio.Reader.ReadString] of a newline, with whether the input ended. *)
From S2P Require Import Prelude GoLib Model Policy Sentinel Envelope Persistent Ansi Adapter Provider.

Definition env (lookup : gostring -> option gostring) (key fallback : gostring) : gostring :=
  default fallback (lookup key).

(** The value of [strconv.Atoi] when its error is ignored: 0 for bad syntax, the
    nearest integer when out of range. *)
Definition atoi_value (s : gostring) : Z :=
  let '(neg, ds) :=
    match s with
    | "+"%char :: r => (false, r)
    | "-"%char :: r => (true, r)
    | _ => (false, s)
    end in
  match ds with
  | [] => 0
  | _ => match digits_val 0 ds with
         | None => 0
         | Some n => if neg : bool then Z.max MinInt (- n) else Z.min MaxInt n
         end
  end.

(** ** The marker *)
Definition needle : gostring := "output the token ".

(** [strings.IndexAny] for ASCII characters. *)
Fixpoint IndexAny (s chars : gostring) : option nat :=
  match s with
  | [] => None
  | c :: s => if in_cutset chars c then Some 0%nat else S <$> IndexAny s chars
  end.

Definition extractMarker (line : gostring) : gostring :=
  match Index line needle with
  | None => []
  | Some idx =>
      let rest := drop (idx + length needle) line in
      match IndexAny rest [SP; CR; LF] with
      | None => []
      | Some e => take e rest
      end
  end.

Fixpoint ReadString (s : gostring) : gostring * gostring * bool :=
  match s with
  | [] => ([], [], true)
  | c :: s =>
      if ceq c LF then ([c], s, false)
      else let '(line, rest, eof) := ReadString s in (c :: line, rest, eof)
  end.

(** The marker of the next envelope and what is left to read; [None] at the end. *)
Fixpoint readEnvelopeMarker (fuel : nat) (input : gostring) : option (gostring * gostring) :=
  match fuel with
  | O => None
  | S fuel =>
      let '(line, rest, eof) := ReadString input in
      let tok := if bool_decide (line <> []) then extractMarker line else [] in
      if bool_decide (tok <> []) then Some (tok, rest)
      else if eof then None
      else readEnvelopeMarker fuel rest
  end.

(** ** The conversation *)
Record mock := {
  mk_response : gostring;
  mk_sentinelAt : Z;
  mk_nextTrailer : gostring;
}.

Definition mock_body (m : mock) (turn : Z) : gostring :=
  mk_response m
  ++ (if bool_decide (mk_nextTrailer m <> []) then LF :: "<<NEXT: " ++ mk_nextTrailer m ++ ">>" else [])
  ++ (if (0 <? mk_sentinelAt m) && (turn =? mk_sentinelAt m) then LF :: "<<END>>" else []).

Definition mock_text (m : mock) (turn : Z) : gostring := "turn " ++ Itoa turn ++ ": " ++ mock_body m turn.

(** What is printed for one envelope. *)
Definition mock_reply (m : mock) (turn : Z) (marker : gostring) : gostring :=
  mock_text m turn ++ LF :: marker ++ [LF].

Fixpoint turn_loop (fuel : nat) (m : mock) (turn : Z) (input : gostring) : gostring :=
  match fuel with
  | O => []
  | S fuel =>
      match readEnvelopeMarker (S (length input)) input with
      | None => []
      | Some (marker, rest) =>
          let turn := turn + 1 in mock_reply m turn marker ++ turn_loop fuel m turn rest
      end
  end.

(** Every round reads at least a line, so the input's length is rounds enough. *)
Definition runMultiTurn (m : mock) (input : gostring) : gostring := turn_loop (S (length input)) m 0 input.

(** ** The single answer *)
Definition TrimSuffix (s suffix : gostring) : gostring :=
  if HasSuffix s suffix then take (length s - length suffix) s else s.

Definition answer (mode response : gostring) (exitCode : Z) : gostring * Z :=
  if bool_decide (mode = "blocked") then ("Continue? (y/n)" ++ [LF], exitCode)
  else if bool_decide (mode = "auth") then ("Authentication required. Please log in." ++ [LF], exitCode)
  else if bool_decide (mode = "rate_limit") then ("You've hit your session limit" ++ [LF], exitCode)
  else if bool_decide (mode = "ansi") then (ESC :: "[32m" ++ response ++ ESC :: "[0m" ++ [LF], exitCode)
  else if bool_decide (mode = "partial") then (TrimSuffix response [LF], exitCode)
  else if bool_decide (mode = "crash") then
    ("fatal: crashed" ++ [LF], if exitCode =? 0 then 1 else exitCode)
  else (response ++ [LF], exitCode).

(** The output for an input, and the exit code. *)
Definition main (lookup : gostring -> option gostring) (input : gostring) : gostring * Z :=
  let mode := env lookup "MOCK_MODE" "happy" in
  let response := env lookup "MOCK_RESPONSE" "mock response" in
  let exitCode := atoi_value (env lookup "MOCK_EXIT_CODE" "0") in
  if bool_decide (env lookup "MOCK_MULTI_TURN" "0" = "1") then
    (runMultiTurn {| mk_response := response;
                     mk_sentinelAt := atoi_value (env lookup "MOCK_SENTINEL_AT_TURN" "0");
                     mk_nextTrailer := env lookup "MOCK_NEXT_TRAILER" [] |} input, 0)
  else answer mode response exitCode.

(** ** Lemmas on the reader *)

Lemma ReadString_line l r : LF ∉ l -> ReadString (l ++ LF :: r) = (l ++ [LF], r, false).
Proof.
  induction l as [|c l IH]; intros H; cbn [app ReadString]; [by rewrite ceq_refl|].
  apply not_elem_of_cons in H as [Hc H]. rewrite (proj2 (ceq_false c LF)) by congruence. by rewrite IH.
Qed.

Lemma ReadString_length s l r eof : ReadString s = (l, r, eof) -> (length s = length l + length r)%nat.
Proof.
  revert l r. induction s as [|c s IH]; intros l r H; cbn [ReadString] in H; [by injection H as <- <-|].
  destruct (ceq c LF); [by injection H as <- <-|]. destruct (ReadString s) as [[l' r'] e'].
  injection H as <- <- ->. cbn [length]. by rewrite (IH _ _ eq_refl).
Qed.

Lemma occurs_prefix_drop n s i : HasPrefix (drop i s) n = true -> occurs n s.
Proof. intros [t Ht]%HasPrefix_spec. exists (take i s), t. by rewrite <- Ht, take_drop. Qed.

Lemma extractMarker_absent line : ~ occurs needle line -> extractMarker line = [].
Proof.
  intros H. unfold extractMarker. destruct (Index line needle) as [i|] eqn:E; [|done].
  apply Index_Some in E as [E _]. by apply occurs_prefix_drop in E.
Qed.

Lemma IndexAny_app s c r chars :
  Forall (fun d => in_cutset chars d = false) s -> in_cutset chars c = true ->
  IndexAny (s ++ c :: r) chars = Some (length s).
Proof. intros Hs Hc. induction Hs as [|d s Hd _ IH]; cbn [app IndexAny]; [by rewrite Hc|by rewrite Hd, IH]. Qed.

Lemma needle_length : length needle = 17%nat.
Proof. reflexivity. Qed.

(** No other occurrence of the needle comes before the one that ends the text. *)
Lemma needle_at P z : ~ occurs needle (P ++ "output the token") -> Index (P ++ needle ++ z) needle = Some (length P).
Proof.
  intros H. apply Index_first.
  - rewrite drop_app_length. apply HasPrefix_app.
  - rewrite length_app. lia.
  - intros j Hj. apply not_true_is_false. intros [t Ht]%HasPrefix_spec. apply H.
    exists (take j P). exists (drop (j + length needle) (P ++ "output the token")).
    rewrite <- (take_drop (j + length needle) (P ++ "output the token")) at 1.
    rewrite (app_assoc (take j P)). f_equal.
    assert (take (j + length needle) (P ++ "output the token") = take (j + length needle) (P ++ needle ++ z)) as ->.
    { change (needle ++ z) with ("output the token" ++ SP :: z). rewrite (app_assoc P "output the token").
      rewrite (take_app_le (P ++ "output the token")); [done|].
      rewrite length_app, needle_length. change (length ("output the token" : gostring)) with 16%nat. lia. }
    set (D := P ++ needle ++ z) in *.
    rewrite <- (take_drop j D), Ht.
    assert (length (take j D) = j) as Hl by (rewrite length_take; unfold D; rewrite length_app; lia).
    rewrite take_app_ge by lia. rewrite Hl. replace (j + length needle - j)%nat with (length needle) by lia.
    rewrite take_app_length. f_equal. unfold D. by rewrite take_app_le by lia.
Qed.

(** A marker as the broker draws them. *)
Definition token_ok (m : gostring) : Prop :=
  m <> [] /\ Forall (fun c => in_cutset [SP; CR; LF] c = false) m.

Lemma NewMarkerToken_token buf : length buf = markerSuffixBytes -> token_ok (NewMarkerToken buf).
Proof.
  intros Hb. destruct (marker_facts buf Hb) as ([Hne Hm] & _). split; [done|].
  eapply Forall_impl; [exact Hm|]. intros c [Hc Hl]. unfold is_hws in Hc. apply orb_false_iff in Hc as [Hc Hr].
  apply orb_false_iff in Hc as [Hs _]. cbn. by rewrite Hs, Hr, (proj2 (ceq_false c LF)).
Qed.

Lemma token_no_lf m : token_ok m -> LF ∉ m.
Proof. intros [_ H] Hin. rewrite Forall_forall in H. by specialize (H _ Hin). Qed.

Lemma extractMarker_instruction P m :
  token_ok m -> ~ occurs needle (P ++ "output the token") -> extractMarker (P ++ instruction m) = m.
Proof.
  intros [Hne Hm] H. unfold extractMarker, instruction. change "output the token " with needle.
  rewrite needle_at by done. rewrite app_assoc, drop_app_length' by (by rewrite length_app).
  cbn [app]. rewrite IndexAny_app by done. by rewrite take_app_length.
Qed.

(** The reader skips the lines of the envelope up to its instruction. *)
Lemma readEnvelopeMarker_body f P m rest :
  token_ok m -> ~ occurs needle (P ++ "output the token") -> (length P < f)%nat ->
  readEnvelopeMarker f (P ++ instruction m ++ rest) = Some (m, rest).
Proof.
  intros Hm. revert P. induction f as [|f IH]; intros P HP Hf; [lia|]. cbn [readEnvelopeMarker].
  destruct (decide (LF ∈ P)) as [Hin|Hin].
  - apply list_elem_of_split_l in Hin as (l & r & -> & Hl). rewrite <- app_assoc. cbn [app].
    rewrite ReadString_line by done. rewrite extractMarker_absent.
    2: { intros Ho. apply HP. change (LF :: r) with ([LF] ++ r). rewrite app_assoc, <- (app_assoc _ r). by apply occurs_app_l. }
    assert ((if bool_decide (l ++ [LF] <> []) then [] else []) = ([] : gostring)) as -> by by case_bool_decide.
    cbn. apply IH.
    + intros Ho. apply HP. rewrite <- app_assoc. apply occurs_app_r. cbn [app].
      by apply (occurs_app_r _ [LF]).
    + rewrite length_app in Hf. cbn in Hf. lia.
  - set (l := P ++ needle ++ m ++ " on its own line.").
    assert (P ++ instruction m ++ rest = l ++ LF :: rest) as ->.
    { unfold l, instruction. rewrite <- !app_assoc. cbn [app]. done. }
    rewrite ReadString_line.
    2: { unfold l. rewrite !not_elem_of_app. split_and!; [done|by apply (bool_decide_unpack _)|by apply token_no_lf|by apply (bool_decide_unpack _)]. }
    assert (l ++ [LF] = P ++ instruction m) as Hl by (unfold l, instruction; by rewrite <- !app_assoc).
    rewrite Hl, extractMarker_instruction by done.
    rewrite (bool_decide_true (P ++ instruction m <> [])) by (by intros [_ ?]%app_nil). rewrite bool_decide_true by apply Hm. done.
Qed.

(** ** Properties *)

(** An envelope as the broker builds it: its text asks for a fresh token, and
    for no other. *)
Definition asks (e : Envelope) : Prop :=
  exists buf P, length buf = markerSuffixBytes /\ E_MarkerToken e = NewMarkerToken buf
  /\ has_instruction e P /\ ~ occurs needle (P ++ "output the token").

Lemma turn_loop_answers f m k es :
  Forall asks es -> (length (concat (E_Body <$> es)) < f)%nat ->
  turn_loop f m k (concat (E_Body <$> es))
  = concat (imap (fun i e => mock_reply m (k + Z.of_nat i + 1) (E_MarkerToken e)) es).
Proof.
  intros Hes. revert f k. induction Hes as [|e es (buf & P & Hb & Hm & Hi & Hn) _ IH]; intros f k Hf.
  { destruct f; [done|]. reflexivity. }
  destruct f as [|f]; [lia|]. cbn [turn_loop fmap list_fmap concat imap] in *.
  unfold has_instruction in Hi. rewrite Hi in *. rewrite <- app_assoc, Hm.
  rewrite readEnvelopeMarker_body; [|by apply NewMarkerToken_token|done|rewrite length_app; lia].
  rewrite length_app in Hf. rewrite IH.
  - rewrite Z.add_0_r. f_equal. f_equal. apply imap_ext. intros i x _. unfold compose. f_equal. lia.
  - assert (length (P ++ instruction (E_MarkerToken e)) <> 0)%nat; [|lia].
    unfold instruction. rewrite !length_app. cbn. lia.
Qed.

Lemma norm_loop_crlf s rest f :
  Forall (fun c => visible c = true) s -> (length (crlf s) + length rest <= f)%nat ->
  norm_loop f (crlf s ++ rest) = s ++ norm_loop f rest.
Proof.
  intros Hs. revert f. induction Hs as [|c s Hc _ IH]; intros f Hf; [done|].
  unfold crlf in *. cbn [mbind list_bind] in *. destruct (visible_not_control _ Hc) as (He & Hr & H0).
  destruct (ceq c LF) eqn:El.
  - apply ceq_true in El as ->. cbn [app length] in *. destruct f as [|[|f]]; [lia|lia|].
    transitivity (LF :: norm_loop f (crlf s ++ rest)); [done|]. unfold crlf. cbn [app]. rewrite IH by lia.
    do 2 f_equal. apply (norm_loop_fuel f (S (S f))); lia.
  - cbn [app length] in *. destruct f as [|f]; [lia|]. cbn [norm_loop]. rewrite He, Hr, H0, Hc. f_equal.
    rewrite IH by lia. f_equal. apply (norm_loop_fuel f (S f)); lia.
Qed.

(** The normalised text of a terminal that translates line feeds, or does not. *)
Lemma Normalize_echo_of onlcr s :
  Forall (fun c => visible c = true) s -> NormalizePTYText (echo_of onlcr s) = s.
Proof.
  intros Hs. rewrite (NormalizePTYText_loop _ (length (echo_of onlcr s))) by done. destruct onlcr; unfold echo_of.
  - rewrite <- (app_nil_r (crlf s)) at 2. rewrite norm_loop_crlf by (done || cbn; lia).
    destruct (length (crlf s)); by rewrite app_nil_r.
  - rewrite <- (app_nil_r s) at 2. rewrite norm_loop_plain by (done || cbn; lia).
    destruct (length s); by rewrite app_nil_r.
Qed.

(** What the mock is given to say: printable text that does not end in blanks. *)
Definition says_ok (m : mock) : Prop :=
  Forall (fun c => visible c = true) (mk_response m) /\ Forall (fun c => visible c = true) (mk_nextTrailer m)
  /\ exists c, last (mk_response m) = Some c /\ echo_ws c = false.

Lemma string_of_uint_visible d :
  Forall (fun c => visible c = true) (String.list_ascii_of_string (NilEmpty.string_of_uint d)).
Proof. induction d; cbn; by constructor. Qed.

Lemma Itoa_visible z : Forall (fun c => visible c = true) (Itoa z).
Proof.
  unfold Itoa, NilZero.string_of_int, NilZero.string_of_uint. destruct (Z.to_int z) as [d|d].
  - destruct d; try apply (string_of_uint_visible (_ _)). repeat constructor.
  - cbn. constructor; [done|]. destruct d; try apply (string_of_uint_visible (_ _)). repeat constructor.
Qed.

Lemma mock_text_ok m k : says_ok m ->
  Forall (fun c => visible c = true) (mock_text m k)
  /\ exists l c, mock_text m k = "t"%char :: l ++ [c] /\ echo_ws c = false.
Proof.
  intros (H1 & H2 & c & [l Hl]%last_Some & Hc). unfold mock_text, mock_body. rewrite Hl. split.
  - rewrite <- Hl, !Forall_app. split_and!; try done; try (by apply (bool_decide_unpack _)); [apply Itoa_visible| |].
    + case_bool_decide; [|done]. apply Forall_cons. split; [done|]. rewrite !Forall_app. split_and!; [|done|];
        by apply (bool_decide_unpack _).
    + destruct (_ && _); [|done]. by apply (bool_decide_unpack _).
  - destruct ((0 <? mk_sentinelAt m) && _).
    { exists ("urn " ++ Itoa k ++ ": " ++ (l ++ [c]) ++ (if bool_decide (mk_nextTrailer m <> [])
        then LF :: "<<NEXT: " ++ mk_nextTrailer m ++ ">>" else []) ++ LF :: "<<END>"), ">"%char.
      split; [|done]. rewrite <- !app_assoc. done. }
    case_bool_decide.
    { exists ("urn " ++ Itoa k ++ ": " ++ (l ++ [c]) ++ LF :: "<<NEXT: " ++ mk_nextTrailer m ++ ">"), ">"%char.
      split; [|done]. rewrite <- !app_assoc. cbn. rewrite <- !app_assoc. done. }
    exists ("urn " ++ Itoa k ++ ": " ++ l), c. split; [|done]. rewrite !app_nil_r, <- !app_assoc. done.
Qed.

Lemma trim_echo_text onlcr l c k : echo_ws c = false -> Forall (fun c => echo_ws c = true) k ->
  trim_echo_ws (echo_of onlcr ("t"%char :: l ++ [c]) ++ k) = echo_of onlcr ("t"%char :: l ++ [c]).
Proof.
  intros Hc Hk. rewrite trim_echo_ws_app by done. unfold trim_echo_ws.
  assert (exists l', echo_of onlcr ("t"%char :: l ++ [c]) = "t"%char :: l' ++ [c]) as [l' ->].
  { destruct onlcr; [|by exists l]. exists (crlf l). unfold echo_of, crlf. cbn [mbind list_bind].
    rewrite bind_app. cbn [mbind list_bind]. destruct (ceq c LF) eqn:E; [|done].
    apply ceq_true in E as ->. done. }
  cbn [drop_while]. change (echo_ws "t") with false. cbn iota. rewrite app_comm_cons. by apply drop_while_end_stop.
Qed.

(** The terminal's bytes for one turn of the mock. *)
Lemma echo_of_turn onlcr m k e :
  LF ∉ E_MarkerToken e ->
  echo_of onlcr (E_Body e ++ mock_reply m k (E_MarkerToken e))
  = echo_of onlcr (E_Body e) ++ (echo_of onlcr (mock_text m k) ++ if onlcr then [CR] else [])
    ++ LF :: E_MarkerToken e ++ (if onlcr then [CR; LF] else [LF]).
Proof.
  intros Hm. unfold mock_reply. destruct onlcr; unfold echo_of; [|by rewrite app_nil_r].
  unfold crlf. rewrite !bind_app. cbn [mbind list_bind]. rewrite ceq_refl, !bind_app.
  fold (crlf (E_MarkerToken e)). rewrite (crlf_no_lf (E_MarkerToken e)) by done. cbn [mbind list_bind].
  rewrite ceq_refl. cbn [app]. by rewrite <- !app_assoc.
Qed.

(** C32: a conversation with the mock agent.  Whatever envelopes of the broker it
    reads one after the other, whose text before the instruction does not itself
    hold [output the token ] (the mock would take what follows for its token), it
    prints one reply for each, with that envelope's token on a line of its own; and
    when the mock is given printable text that does not end in a blank, and the
    terminal gives the transport the echo of an envelope and that reply, in any
    chunks and with or without CR LF translation, [Deliver] returns the turn of the
    envelope whose response is exactly the text of the mock's turn, provided that
    the token is fresh for the text of both. *)
Theorem mock_conversation (m : mock) (es : list Envelope) (i : nat) (e : Envelope) (t : Transport)
    (pp : PersistentProcess) (onlcr : bool) (timeout : gostring) (ws : list wakeup) (t0 t1 : time)
    (Hes : Forall asks es) (Hi : es !! i = Some e) (Hsays : says_ok m)
    (Hstarted : tr_process t = Some pp) (Hidle : idle_with pp [])
    (Hfresh : forall P, has_instruction e P -> ~ occurs (E_MarkerToken e) (echo_of onlcr P))
    (Htext : ~ occurs (E_MarkerToken e) (echo_of onlcr (mock_text m (Z.of_nat i + 1)) ++ if onlcr then [CR] else []))
    (Hws : Forall quiet ws)
    (Hout : schedule_output ws = echo_of onlcr (E_Body e ++ mock_reply m (Z.of_nat i + 1) (E_MarkerToken e)))
    (Hmax : Z.of_nat (length (schedule_output ws)) <= maxBufferBytes) :
  runMultiTurn m (concat (E_Body <$> es))
    = concat (imap (fun j e => mock_reply m (Z.of_nat j + 1) (E_MarkerToken e)) es)
  /\ exists t', Deliver t e timeout None ws t0 t1
       = Some (Ok (turn_for (tr_conversationID t) (tr_slot t) e (mock_text m (Z.of_nat i + 1)) t0 t1 0.95), t').
Proof.
  split; [unfold runMultiTurn; by rewrite turn_loop_answers by (done || lia)|].
  assert (asks e) as (buf & P & Hb & Hm & HP & _) by (eapply Forall_lookup_1; done).
  destruct (marker_facts buf Hb) as (_ & _ & _ & Hlf). rewrite <- Hm in Hlf.
  rewrite echo_of_turn in Hout by done.
  destruct (mock_text_ok m (Z.of_nat i + 1) Hsays) as (Hvis & l & c & Hl & Hc).
  destruct (Deliver_turn t pp e buf P (echo_of onlcr (mock_text m (Z.of_nat i + 1)) ++ if onlcr then [CR] else [])
    (if onlcr then [CR; LF] else [LF]) onlcr timeout ws t0 t1 Hstarted Hidle Hm Hb HP (Hfresh P HP) Htext Hws)
    as (t' & Ht & _); [|exact Hout|done|].
  { destruct onlcr; by apply (bool_decide_unpack _). }
  exists t'. rewrite Ht, Hl, trim_echo_text, <- Hl, Normalize_echo_of; try done.
  destruct onlcr; repeat constructor.
Qed.

(** ** The second turn of a mock that names the next speaker *)
Module MockSim.
Definition agent : mock := {| mk_response := "hi there"; mk_sentinelAt := 3; mk_nextTrailer := "bob" |}.
Definition first : Envelope := BuildEnvelopeTurnN demo_conv 1 "a" "hello" (NewMarkerToken "ABCDEF").
Definition ws : list wakeup :=
  [{| w_events := [PumpOutput (crlf (E_Body demo_env ++ mock_reply agent 2 (E_MarkerToken demo_env)))];
      w_ctx := None; w_late := false |}].

Lemma asks_first : asks first.
Proof.
  exists "ABCDEF", "[conversation: c1  turn 1 of 3  from: peer-a]
hello

When you finish your reply, ". split_and!; try (vm_compute; reflexivity). apply occurs_dec_false. vm_compute. reflexivity.
Qed.
Lemma asks_demo : asks demo_env.
Proof.
  exists "abcdef", demo_P. split_and!; try (vm_compute; reflexivity). apply occurs_dec_false. vm_compute. reflexivity.
Qed.
Lemma demo_text P : has_instruction demo_env P -> P = demo_P.
Proof.
  unfold has_instruction. change (E_Body demo_env) with (demo_P ++ instruction (E_MarkerToken demo_env)).
  intros H. symmetry. by apply app_inv_tail in H.
Qed.
End MockSim.

Lemma mock_conversation_witness :
  exists t', Deliver (snd (Start (New 0) None "c1" "b")) demo_env "5m0s" None MockSim.ws 1 2
    = Some (Ok (turn_for "c1" "b" demo_env "turn 2: hi there
<<NEXT: bob>>" 1 2 0.95), t').
Proof.
  destruct (mock_conversation MockSim.agent [MockSim.first; demo_env] 1 demo_env (snd (Start (New 0) None "c1" "b"))
    NewPersistentProcess true "5m0s" MockSim.ws 1 2) as [_ H].
  - repeat constructor; [apply MockSim.asks_first|apply MockSim.asks_demo].
  - reflexivity.
  - split_and!; [by apply (bool_decide_unpack _)|by apply (bool_decide_unpack _)|by exists "e"%char].
  - reflexivity.
  - repeat split.
  - intros P ->%MockSim.demo_text. apply occurs_dec_false. vm_compute. reflexivity.
  - apply occurs_dec_false. vm_compute. reflexivity.
  - repeat (apply List.Forall_cons || apply List.Forall_nil || split || (eexists; reflexivity)).
  - vm_compute. reflexivity.
  - vm_compute. discriminate.
  - exact H.
Defined.
