(* ===== verification/Orchestrator.v ===== *)
(** * Single-shot runs ([internal/orchestrator], [terminal/transcript.go], [config], [util])

    The transcript of a process, the completion loop as steps over what its
    [select] receives, and [Run] as a program over the store, the process and
    the clock, which are the class [OrchEnv]; its calls are logged. *)
From S2P Require Import Prelude GoLib Model Ansi FileSys Adapter.

(** ** [util] *)
Definition ErrDotDot (path : gostring) : goerr := ErrNew ("env-file path must not contain '..': " ++ path).

Fixpoint env_lines (ls : list gostring) (env : gmap gostring gostring) : result (gmap gostring gostring) :=
  match ls with
  | [] => Ok env
  | l :: ls =>
      let line := TrimSpace l in
      if bool_decide (line = []) || HasPrefix line "#" then env_lines ls env
      else match Cut line "=" with
           | (key, value, true) => env_lines ls (<[TrimSpace key := TrimSpace value]> env)
           | (_, _, false) => Err (ErrNew ("invalid env line " ++ DQ :: line ++ [DQ]))
           end
  end.

Definition LoadEnvFile (path : gostring) : IO (gmap gostring gostring) := fun fs =>
  if bool_decide (path = []) then (Ok ∅, fs)
  else if Contains (Clean path) ".." then (Err (ErrDotDot path), fs)
  else match OpenScan (64 * 1024) path fs with
       | (Err e, fs) => (Err (ErrWrapped "open env file: " e), fs)
       | (Ok (ls, err), fs) =>
           (env ← env_lines ls ∅;
            match err with Some e => Err (ErrWrapped "scan env file: " e) | None => Ok env end, fs)
       end.

Definition NewSessionID (raw : gostring) : gostring := "sess_" ++ EncodeToString raw.

(** [None]: the panic when the random source fails. *)
Definition NewID (prefix : gostring) (raw : option gostring) : option gostring :=
  raw ← raw; Some (prefix ++ EncodeToString raw).

(** ** [config] *)
Record RunConfig := {
  cfg_Prompt : gostring;
  cfg_PromptFile : gostring;
  cfg_Cwd : gostring;
  cfg_TimeoutSec : Z;
  cfg_LogBackend : gostring;
  cfg_LogPath : gostring;
  cfg_DatabaseURL : gostring;
  cfg_DebugRaw : bool;
  cfg_Cols : Z;
  cfg_Rows : Z;
}.

Definition Validate (c : RunConfig) : option goerr :=
  let no s := bool_decide (s = []) in
  if no (cfg_Prompt c) && no (cfg_PromptFile c)
  then Some (ErrNew "one of --prompt or --prompt-file must be set")
  else if negb (no (cfg_Prompt c)) && negb (no (cfg_PromptFile c))
  then Some (ErrNew "--prompt and --prompt-file are mutually exclusive")
  else if cfg_TimeoutSec c <=? 0
  then Some (ErrNew ("timeout must be > 0, got " ++ Itoa (cfg_TimeoutSec c)))
  else if bool_decide (cfg_LogBackend c = "file") then
    if no (cfg_LogPath c) then Some (ErrNew "--log-path must be set when --log-backend=file") else None
  else if bool_decide (cfg_LogBackend c = "postgres") then
    if no (cfg_DatabaseURL c)
    then Some (ErrNew "--database-url must be set when --log-backend=postgres") else None
  else if bool_decide (cfg_LogBackend c = "db") then
    if no (cfg_DatabaseURL c)
    then Some (ErrNew "--database-url must be set when --log-backend=db") else None
  else Some (ErrNew ("unknown --log-backend " ++ DQ :: cfg_LogBackend c ++ DQ :: "; must be file, postgres, or db")).

Definition ToRunRequest (c : RunConfig) (provider : gostring) : RunRequest :=
  {| RR_Provider := provider; RR_Prompt := cfg_Prompt c; RR_PromptFile := cfg_PromptFile c;
     RR_TimeoutSec := cfg_TimeoutSec c; RR_Cwd := cfg_Cwd c; RR_EnvFile := [];
     RR_LogBackend := cfg_LogBackend c; RR_LogPath := cfg_LogPath c;
     RR_DatabaseURL := cfg_DatabaseURL c; RR_PeekLast := 0; RR_DebugRaw := cfg_DebugRaw c;
     RR_TerminalCols := cfg_Cols c; RR_TerminalRows := cfg_Rows c; RR_HomeDir := [];
     RR_Model := []; RR_ReasoningEffort := [] |}.

(** ** [Transcript] *)
Record Transcript := {
  fullRaw : gostring;
  tail : gostring;
  tailCapacity : Z;
  lastOutputAt : option time;
  firstOutputAt : option time;
  exitCode : option Z;
  bytesSeen : Z;
}.

Definition NewTranscript (capacity : Z) : Transcript :=
  {| fullRaw := []; tail := []; tailCapacity := if capacity <=? 0 then 64 * 1024 else capacity;
     lastOutputAt := None; firstOutputAt := None; exitCode := None; bytesSeen := 0 |}.

Definition Append (t : Transcript) (e : StreamEvent) : Transcript :=
  if bool_decide (SE_Data e = []) then t
  else
    let tl := tail t ++ SE_Data e in
    {| fullRaw := fullRaw t ++ SE_Data e;
       tail := if tailCapacity t <? Z.of_nat (length tl)
               then drop (length tl - Z.to_nat (tailCapacity t)) tl else tl;
       tailCapacity := tailCapacity t; lastOutputAt := Some (SE_Timestamp e);
       firstOutputAt := match firstOutputAt t with Some f => Some f | None => Some (SE_Timestamp e) end;
       exitCode := exitCode t;
       bytesSeen := bytesSeen t + Z.of_nat (length (SE_Data e)) |}.

Definition RecordExit (t : Transcript) (code : Z) : Transcript :=
  {| fullRaw := fullRaw t; tail := tail t; tailCapacity := tailCapacity t;
     lastOutputAt := lastOutputAt t; firstOutputAt := firstOutputAt t; exitCode := Some code;
     bytesSeen := bytesSeen t |}.

Definition Normalized (t : Transcript) : gostring := NormalizePTYText (fullRaw t).
Definition TailNormalized (t : Transcript) : gostring := NormalizePTYText (tail t).

Definition IdleSince (t : Transcript) (now : time) : Z :=
  match lastOutputAt t with None => 0 | Some l => now - l end.

(** [Duration.Milliseconds] *)
Definition Milliseconds (d : Z) : Z := Z.quot d 1000000.

(** ** The completion loop *)

(** What one [select] of the loop receives. *)
Inductive loop_event :=
| LCancelled
| LOutput (e : StreamEvent)
| LOutputClosed
| LDone (r : ExitResult)
| LDoneClosed
| LTick (now : time).

Record completionResult := {
  cr_Observation : TranscriptObservation;
  cr_Transcript : Transcript;
  cr_ExitCode : option Z;
}.

Record loop_state := {
  ls_transcript : Transcript;
  ls_exitCode : option Z;
}.

Definition loop_init : loop_state := {| ls_transcript := NewTranscript (64 * 1024); ls_exitCode := None |}.

(** What the loop does to the process and the store. *)
Inductive loop_action :=
| ATerminate (grace : Z)
| AWrite (data : gostring)
| AStreamEvent (e : StreamEvent).

Definition timeout_observation : TranscriptObservation :=
  {| O_Status := RunTimeout; O_Terminal := true; O_Confidence := 1;
     O_Reason := "context deadline exceeded"; O_Evidence := ["timeout"] |}.

Definition completion_context (st : loop_state) (now : time) : CompletionContext :=
  {| NormalizedTail := TailNormalized (ls_transcript st);
     IdleMs := Milliseconds (IdleSince (ls_transcript st) now);
     ExitCode := ls_exitCode st; BytesSeen := bytesSeen (ls_transcript st) |}.

Definition finish (st : loop_state) (o : TranscriptObservation) : completionResult :=
  {| cr_Observation := o; cr_Transcript := ls_transcript st; cr_ExitCode := ls_exitCode st |}.

Definition record_exit (st : loop_state) (code : Z) : loop_state :=
  {| ls_transcript := RecordExit (ls_transcript st) code; ls_exitCode := Some code |}.

(** One iteration of [waitForCompletionLoop]. *)
Definition loop_step (provider : Adapter) (debugRaw : bool) (st : loop_state) (ev : loop_event)
    : (loop_state + completionResult) * list loop_action :=
  match ev with
  | LCancelled => (inr (finish st timeout_observation), [ATerminate 5000])
  | LOutputClosed => (inl st, [])
  | LOutput e =>
      (inl {| ls_transcript := Append (ls_transcript st) e; ls_exitCode := ls_exitCode st |},
       if debugRaw then [AStreamEvent e] else [])
  | LDone r => (inl (record_exit st (X_Code r)), [])
  | LDoneClosed => (inl (record_exit st 0), [])
  | LTick now =>
      match ad_Observe provider (completion_context st now) with
      | None => (inl st, [])
      | Some o =>
          if O_Terminal o then (inr (finish st o), [])
          else (inl st, if bool_decide (O_Status o = RunPermissionPrompt) then [AWrite [CR]] else [])
      end
  end.

(** The loop over a schedule; [None] when it has not ended by then. *)
Fixpoint waitForCompletionLoop (provider : Adapter) (debugRaw : bool) (st : loop_state)
    (evs : list loop_event) : option completionResult * list loop_action :=
  match evs with
  | [] => (None, [])
  | ev :: evs =>
      match loop_step provider debugRaw st ev with
      | (inr r, acts) => (Some r, acts)
      | (inl st, acts) =>
          let '(r, acts') := waitForCompletionLoop provider debugRaw st evs in (r, acts ++ acts')
      end
  end.

(** ** [Run] *)

(** The run's environment.  [o_events p] is what the completion loop of the
    process receives before its context ends it. *)
Class OrchEnv (World Process : Type) := {
  o_LoadEnvFile : gostring -> World -> result (gmap gostring gostring) * World;
  o_ReadFile : gostring -> World -> result gostring * World;
  o_UserHomeDir : World -> result gostring * World;
  o_random : nat -> World -> result gostring * World;
  o_now : World -> time * World;
  o_Spawn : SpawnSpec -> World -> result Process * World;
  o_Terminate : Process -> Z -> World -> World;
  o_Write : Process -> gostring -> World -> option goerr * World;
  o_events : Process -> Z -> World -> list loop_event * World;
  o_CreateSession : Session -> World -> option goerr * World;
  o_UpdateSession : gostring -> SessionPatch -> World -> option goerr * World;
  o_AppendTurn : Turn -> World -> option goerr * World;
  o_PeekTurns : gostring -> Z -> World -> result (list Turn) * World;
  o_AppendStreamEvent : StoredStreamEvent -> World -> option goerr * World;
}.

Inductive run_call {Process : Type} :=
| CSpawn (spec : SpawnSpec) (r : result Process)
| CTerminate (p : Process) (grace : Z)
| CWrite (p : Process) (data : gostring) (e : option goerr)
| CCreateSession (s : Session) (e : option goerr)
| CUpdateSession (id : gostring) (p : SessionPatch) (e : option goerr)
| CAppendTurn (t : Turn) (e : option goerr)
| CPeekTurns (id : gostring) (n : Z)
| CAppendStreamEvent (e : StoredStreamEvent).
Arguments run_call Process : clear implicits.

(** The error a run returns: a coded one, or a plain one. *)
Inductive run_error :=
| Coded (e : RunError)
| Plain (e : goerr).

Definition coded (code : ErrorCode) (msg : gostring) : run_error :=
  Coded {| RE_Code := code; RE_Message := msg |}.

(** The defaults [Run] gives to unset fields. *)
Definition with_defaults (r : RunRequest) : RunRequest :=
  {| RR_Provider := if bool_decide (RR_Provider r = []) then "claude-code" else RR_Provider r;
     RR_Prompt := RR_Prompt r; RR_PromptFile := RR_PromptFile r;
     RR_TimeoutSec := if RR_TimeoutSec r <=? 0 then 600 else RR_TimeoutSec r;
     RR_Cwd := RR_Cwd r; RR_EnvFile := RR_EnvFile r; RR_LogBackend := RR_LogBackend r;
     RR_LogPath := RR_LogPath r; RR_DatabaseURL := RR_DatabaseURL r;
     RR_PeekLast := if RR_PeekLast r <=? 0 then 10 else RR_PeekLast r;
     RR_DebugRaw := RR_DebugRaw r;
     RR_TerminalCols := if RR_TerminalCols r <=? 0 then 80 else RR_TerminalCols r;
     RR_TerminalRows := if RR_TerminalRows r <=? 0 then 24 else RR_TerminalRows r;
     RR_HomeDir := RR_HomeDir r; RR_Model := RR_Model r; RR_ReasoningEffort := RR_ReasoningEffort r |}.

Definition set_if (k v : gostring) (env : gmap gostring gostring) : gmap gostring gostring :=
  if bool_decide (v = []) then env else <[k := v]> env.

(** The statuses that carry a reason for being blocked. *)
Definition is_blocked (s : RunStatus) : bool :=
  bool_decide (s ∈ [RunBlockedOnInput; RunPermissionPrompt; RunAuthRequired; RunRateLimited]).

Definition assembleResult (session : Session) (obs : TranscriptObservation) (ex : ExtractionResult)
    (transcript : Transcript) (exit : option Z) (endedAt : time) : RunResult * SessionPatch :=
  let duration := Milliseconds (endedAt - S_StartedAt session) in
  let reason := if is_blocked (O_Status obs) then Some (O_Reason obs) else None in
  ({| R_SessionID := S_ID session; R_Provider := S_Provider session; R_Status := O_Status obs;
      R_Response := X_Response ex; R_Peek := [];
      R_Meta := {| M_DurationMs := duration; M_ExitCode := exit;
                   M_ParserConfidence := X_ParserConfidence ex;
                   M_ObservationConfidence := O_Confidence obs;
                   M_BytesCaptured := bytesSeen transcript; M_BlockedReason := reason;
                   M_Warnings := O_Evidence obs ++ X_Notes ex |};
      R_Error := None |},
   {| SP_Status := Some (O_Status obs); SP_EndedAt := Some endedAt; SP_DurationMs := Some duration;
      SP_ExitCode := exit; SP_ParserConfidence := Some (X_ParserConfidence ex);
      SP_ObservationConfidence := Some (O_Confidence obs); SP_AuthMode := None;
      SP_BlockedReason := reason; SP_BytesCaptured := Some (bytesSeen transcript);
      SP_Warnings := match X_Notes ex with [] => None | ns => Some ns end;
      SP_TerminalCols := None; SP_TerminalRows := None |}).

Definition with_peek (r : RunResult) (ts : list Turn) : RunResult :=
  {| R_SessionID := R_SessionID r; R_Provider := R_Provider r; R_Status := R_Status r;
     R_Response := R_Response r; R_Peek := ts; R_Meta := R_Meta r; R_Error := R_Error r |}.

Section Run.
Context {World Process : Type} {env : OrchEnv World Process}.
Variable registry : Registry.

Definition rstate : Type := World * list (run_call Process).

(** Programs that return a value or the run's error. *)
Definition RM (A : Type) : Type := rstate -> (run_error + A) * rstate.

#[export] Instance RM_ret : MRet RM := fun _ a s => (inr a, s).
#[export] Instance RM_bind : MBind RM := fun _ _ f m s =>
  match m s with
  | (inr a, s) => f a s
  | (inl e, s) => (inl e, s)
  end.

Definition fail {A} (e : run_error) : RM A := fun s => (inl e, s).
Definition quiet {A} (f : World -> A * World) : RM A :=
  fun '(w, l) => let '(a, w) := f w in (inr a, (w, l)).
Definition noted {A} (k : A -> run_call Process) (f : World -> A * World) : RM A :=
  fun '(w, l) => let '(a, w) := f w in (inr a, (w, l ++ [k a])).

Definition or_fail {A} (code : ErrorCode) (r : result A) : RM A :=
  match r with Ok a => mret a | Err e => fail (coded code (Error e)) end.
Definition no_error (code : ErrorCode) (e : option goerr) : RM unit :=
  match e with None => mret tt | Some e => fail (coded code (Error e)) end.

Definition resolvePrompt (r : RunRequest) : RM gostring :=
  if negb (bool_decide (RR_Prompt r = [])) && negb (bool_decide (RR_PromptFile r = []))
  then fail (coded ErrorConfig "exactly one of --prompt or --prompt-file must be set")
  else if negb (bool_decide (RR_Prompt r = [])) then mret (RR_Prompt r)
  else if negb (bool_decide (RR_PromptFile r = [])) then
    if Contains (Clean (RR_PromptFile r)) ".."
    then fail (Plain (ErrNew ("prompt-file path must not contain '..': " ++ RR_PromptFile r)))
    else d ← quiet (o_ReadFile (RR_PromptFile r));
         match d with
         | Ok data => mret data
         | Err e => fail (coded ErrorInput ("read prompt file: " ++ Error e))
         end
  else fail (coded ErrorConfig "missing prompt input").

(** [buildSession]: the session of a new run. *)
Definition new_session (r : RunRequest) (id : gostring) (now : time) : Session :=
  {| S_ID := id; S_Provider := RR_Provider r; S_Status := RunRunning; S_StartedAt := now;
     S_EndedAt := None; S_DurationMs := None; S_ExitCode := None; S_ParserConfidence := None;
     S_ObservationConfidence := None; S_AuthMode := "unknown"; S_BlockedReason := None;
     S_BytesCaptured := None; S_Warnings := []; S_TerminalCols := Some (RR_TerminalCols r);
     S_TerminalRows := Some (RR_TerminalRows r) |}.

Definition append_turn (t : Turn) : RM unit :=
  e ← noted (CAppendTurn t) (o_AppendTurn t); no_error ErrorStore e.

Definition terminate (p : Process) (grace : Z) : RM unit :=
  noted (fun _ => CTerminate p grace) (fun w => (tt, o_Terminate p grace w)).

(** The loop's own calls; their errors are dropped. *)
Definition act (p : Process) (id : gostring) (a : loop_action) : RM unit :=
  match a with
  | ATerminate g => terminate p g
  | AWrite data => _ ← noted (CWrite p data) (o_Write p data); mret tt
  | AStreamEvent e =>
      let ev := {| SSE_SessionID := id; SSE_Timestamp := SE_Timestamp e; SSE_Kind := SE_Kind e;
                   SSE_Data := SE_Data e |} in
      _ ← noted (fun _ => CAppendStreamEvent ev) (o_AppendStreamEvent ev); mret tt
  end.

Fixpoint act_all (p : Process) (id : gostring) (l : list loop_action) : RM unit :=
  match l with [] => mret tt | a :: l => _ ← act p id a; act_all p id l end.

Definition peek_turns (id : gostring) (n : Z) : RM (result (list Turn)) :=
  noted (fun _ => CPeekTurns id n) (o_PeekTurns id n).

Definition failed_patch (now : time) (duration : Z) : SessionPatch :=
  {| SP_Status := Some RunFailed; SP_EndedAt := Some now; SP_DurationMs := Some duration;
     SP_ExitCode := None; SP_ParserConfidence := None; SP_ObservationConfidence := None;
     SP_AuthMode := None; SP_BlockedReason := None; SP_BytesCaptured := None; SP_Warnings := None;
     SP_TerminalCols := None; SP_TerminalRows := None |}.

(** [resultWithError] *)
Definition resultWithError (id provider : gostring) (n : Z) (e : RunError) : RM RunResult :=
  r ← peek_turns id n;
  match r with
  | Err e => fail (Plain e)
  | Ok ts => mret {| R_SessionID := id; R_Provider := provider; R_Status := RunFailed; R_Response := [];
      R_Peek := ts;
      R_Meta := {| M_DurationMs := 0; M_ExitCode := None; M_ParserConfidence := 0;
                   M_ObservationConfidence := 0; M_BytesCaptured := 0; M_BlockedReason := None;
                   M_Warnings := [] |};
      R_Error := Some e |}
  end.

Definition turn_of (id : gostring) (index : Z) (role content : gostring) (now : time) : Turn :=
  {| TU_SessionID := id; TU_Index := index; TU_Role := role; TU_Content := content; TU_CreatedAt := now |}.

(** From the end of the loop to the result. *)
Definition conclude (r : RunRequest) (provider : Adapter) (session : Session) (c : completionResult)
    : RM RunResult :=
  let ex := ad_ExtractResponse provider (Normalized (cr_Transcript c)) in
  _ ← (if bool_decide (X_Response ex = []) then mret tt
       else now ← quiet o_now; append_turn (turn_of (S_ID session) 1 "assistant" (X_Response ex) now));
  endedAt ← quiet o_now;
  let '(result, patch) :=
    assembleResult session (cr_Observation c) ex (cr_Transcript c) (cr_ExitCode c) endedAt in
  e ← noted (CUpdateSession (S_ID session) patch) (o_UpdateSession (S_ID session) patch);
  _ ← no_error ErrorStore e;
  p ← peek_turns (S_ID session) (RR_PeekLast r);
  ts ← or_fail ErrorStore p;
  mret (with_peek result ts).

(** From the spawned process to the result.  The loop is given what it receives
    before its context ends; then it receives the end of the context. *)
Definition converse (r : RunRequest) (provider : Adapter) (session : Session) (spec : SpawnSpec)
    (prompt : gostring) (p : Process) : RM RunResult :=
  e ← noted (CCreateSession session) (o_CreateSession session);
  match e with
  | Some e => _ ← terminate p 500; fail (coded ErrorStore ("create session: " ++ Error e))
  | None =>
      now ← quiet o_now;
      _ ← append_turn (turn_of (S_ID session) 0 "user" prompt now);
      e ← (if PromptInArgs spec then mret None
           else let data := ad_FormatPrompt provider prompt in noted (CWrite p data) (o_Write p data));
      match e with
      | Some e =>
          now ← quiet o_now;
          let patch := failed_patch now (Milliseconds (now - S_StartedAt session)) in
          _ ← noted (CUpdateSession (S_ID session) patch) (o_UpdateSession (S_ID session) patch);
          resultWithError (S_ID session) (RR_Provider r) (RR_PeekLast r)
            {| RE_Code := ErrorPromptIO; RE_Message := Error e |}
      | None =>
          evs ← quiet (o_events p (RR_TimeoutSec r));
          let '(c, acts) := waitForCompletionLoop provider (RR_DebugRaw r) loop_init (evs ++ [LCancelled]) in
          _ ← act_all p (S_ID session) acts;
          match c with
          | Some c => conclude r provider session c
          | None => fail (coded ErrorRuntime [])
          end
      end
  end.

Definition Run (request : RunRequest) : RM RunResult :=
  let r := with_defaults request in
  prompt ← resolvePrompt r;
  provider ← or_fail ErrorProvider (Registry_Get registry (RR_Provider r));
  f ← quiet (o_LoadEnvFile (RR_EnvFile r));
  env ← or_fail ErrorConfig f;
  let env := set_if "VITIS_REASONING_EFFORT" (RR_ReasoningEffort r)
               (set_if "VITIS_MODEL" (RR_Model r) env) in
  h ← (if bool_decide (RR_HomeDir r = []) then quiet o_UserHomeDir else mret (Ok (RR_HomeDir r)));
  let homeDir := match h with Ok h => h | Err _ => [] end in
  raw ← quiet (o_random 8);
  raw ← or_fail ErrorInternal (match raw with Ok b => Ok b | Err e => Err (ErrWrapped "generate session id: " e) end);
  now ← quiet o_now;
  let session := new_session r (NewSessionID raw) now in
  let spec := ad_BuildSpawnSpec provider (RR_Cwd r) env homeDir (RR_TerminalCols r)
                (RR_TerminalRows r) prompt in
  s ← noted (CSpawn spec) (o_Spawn spec);
  p ← or_fail ErrorSpawn s;
  converse r provider session spec prompt p.
End Run.

(** ** Lemmas on the loop *)

(** The output a schedule delivers. *)
Definition outputs (evs : list loop_event) : gostring :=
  evs ≫= (fun ev => match ev with LOutput e => SE_Data e | _ => [] end).

(** The exit code the loop holds after a schedule. *)
Definition exit_after (old : option Z) (evs : list loop_event) : option Z :=
  foldl (fun o ev => match ev with LDone r => Some (X_Code r) | LDoneClosed => Some 0 | _ => o end) old evs.

Definition transcript_ok (t : Transcript) : Prop :=
  0 < tailCapacity t
  /\ tail t = drop (length (fullRaw t) - Z.to_nat (tailCapacity t)) (fullRaw t)
  /\ bytesSeen t = Z.of_nat (length (fullRaw t)).

Lemma NewTranscript_ok n : transcript_ok (NewTranscript n).
Proof. unfold transcript_ok, NewTranscript. cbn. destruct (Z.leb_spec n 0); by split_and!. Qed.

Lemma Append_ok t e : transcript_ok t ->
  transcript_ok (Append t e) /\ fullRaw (Append t e) = fullRaw t ++ SE_Data e
  /\ tailCapacity (Append t e) = tailCapacity t.
Proof.
  intros (Hc & Ht & Hb). unfold Append. destruct (decide (SE_Data e = [])) as [E|E].
  { rewrite bool_decide_true, E, app_nil_r by done. done. }
  rewrite bool_decide_false by done. cbn. split; [|done]. unfold transcript_ok. cbn. split_and!; [done| |].
  - rewrite Ht. set (cap := Z.to_nat (tailCapacity t)). set (raw := fullRaw t). set (d := SE_Data e).
    assert (drop (length raw - cap) raw ++ d = drop (length raw - cap) (raw ++ d)) as ->.
    { rewrite drop_app. by replace (length raw - cap - length raw)%nat with 0%nat by lia. }
    destruct (Z.ltb_spec (tailCapacity t) (Z.of_nat (length (drop (length raw - cap) (raw ++ d))))) as [H|H];
      rewrite length_drop, length_app in *.
    + rewrite drop_drop. f_equal. unfold cap in *. lia.
    + f_equal. unfold cap in *. lia.
  - rewrite Hb, length_app. lia.
Qed.

Lemma RecordExit_ok t c : transcript_ok t -> transcript_ok (RecordExit t c).
Proof. done. Qed.

(** Which actions terminate the process. *)
Definition terminations (acts : list loop_action) : list Z :=
  omap (fun a => match a with ATerminate g => Some g | _ => None end) acts.

(** How the loop ends: at the end of the context, or at a tick whose
    observation is terminal. *)
Definition ended_by (provider : Adapter) (debugRaw : bool) (evs : list loop_event) (c : completionResult)
    (acts : list loop_action) : Prop :=
  exists pre ev post, evs = pre ++ ev :: post
  /\ fullRaw (cr_Transcript c) = outputs pre
  /\ transcript_ok (cr_Transcript c)
  /\ cr_ExitCode c = exit_after None pre
  /\ ((ev = LCancelled /\ cr_Observation c = timeout_observation /\ terminations acts = [5000])
      \/ (exists now, ev = LTick now /\ terminations acts = []
          /\ O_Terminal (cr_Observation c) = true
          /\ ad_Observe provider
               (completion_context {| ls_transcript := cr_Transcript c; ls_exitCode := cr_ExitCode c |} now)
             = Some (cr_Observation c))).

Lemma loop_step_go provider debugRaw st ev st' acts :
  transcript_ok (ls_transcript st) ->
  loop_step provider debugRaw st ev = (inl st', acts) ->
  transcript_ok (ls_transcript st')
  /\ fullRaw (ls_transcript st') = fullRaw (ls_transcript st) ++ outputs [ev]
  /\ ls_exitCode st' = exit_after (ls_exitCode st) [ev] /\ terminations acts = [].
Proof.
  intros Hok H. destruct ev as [|e| |r| |now]; cbn [loop_step] in H.
  - done.
  - injection H as <- <-. destruct (Append_ok (ls_transcript st) e Hok) as (H1 & H2 & _).
    split_and!; [done| |done|by destruct debugRaw].
    cbn [ls_transcript]. rewrite H2. unfold outputs. cbn. by rewrite app_nil_r.
  - injection H as <- <-. cbn. by rewrite app_nil_r.
  - injection H as <- <-. cbn. by rewrite app_nil_r.
  - injection H as <- <-. cbn. by rewrite app_nil_r.
  - destruct (ad_Observe provider _) as [o|]; [destruct (O_Terminal o); [done|]|];
      injection H as <- <-; cbn; rewrite app_nil_r; split_and!; try done. by case_bool_decide.
Qed.

Lemma completion_ends provider debugRaw st evs pre0 c acts :
  transcript_ok (ls_transcript st) -> fullRaw (ls_transcript st) = outputs pre0 ->
  ls_exitCode st = exit_after None pre0 ->
  waitForCompletionLoop provider debugRaw st evs = (Some c, acts) ->
  ended_by provider debugRaw (pre0 ++ evs) c acts.
Proof.
  revert st pre0 acts. induction evs as [|ev evs IH]; intros st pre0 acts Hok Hraw Hexit H; [done|].
  cbn [waitForCompletionLoop] in H.
  destruct (loop_step provider debugRaw st ev) as [[st1|c1] acts1] eqn:E.
  - destruct (waitForCompletionLoop provider debugRaw st1 evs) as [r acts2] eqn:E2.
    injection H as -> <-. destruct (loop_step_go _ _ _ _ _ _ Hok E) as (H1 & H2 & H3 & H4).
    assert (pre0 ++ ev :: evs = (pre0 ++ [ev]) ++ evs) as -> by by rewrite <- app_assoc.
    assert (ended_by provider debugRaw ((pre0 ++ [ev]) ++ evs) c acts2) as He.
    { eapply IH; [exact H1| | |exact E2].
      - rewrite H2, Hraw. unfold outputs. by rewrite bind_app.
      - rewrite H3, Hexit. unfold exit_after. by rewrite foldl_app. }
    destruct He as (pre & ev' & post & He1 & He2 & He3 & He4 & He5). exists pre, ev', post.
    split_and!; try done. unfold terminations in *. rewrite omap_app, H4. done.
  - injection H as -> <-. exists pre0, ev, evs.
    destruct ev as [|e| |r| |now]; cbn [loop_step] in E; try discriminate.
    + injection E as <- <-. split_and!; try done. by left.
    + destruct (ad_Observe provider _) as [o|] eqn:Eo; [|discriminate].
      destruct (O_Terminal o) eqn:Et; [|discriminate]. injection E as <- <-.
      split_and!; try done. right. exists now. split_and!; try done.
Qed.

Lemma loop_returns provider debugRaw st evs :
  LCancelled ∈ evs -> exists c acts, waitForCompletionLoop provider debugRaw st evs = (Some c, acts).
Proof.
  revert st. induction evs as [|ev evs IH]; intros st Hin; [by apply elem_of_nil in Hin|].
  cbn [waitForCompletionLoop].
  destruct (loop_step provider debugRaw st ev) as [[st1|c1] acts1] eqn:E; [|by eexists _, _].
  apply elem_of_cons in Hin as [<-|Hin]; [done|].
  destruct (IH st1 Hin) as (c & acts & ->). by eexists _, _.
Qed.

(** ** Lemmas on [Run] *)
Section RunLemmas.
Context {World Process : Type} {env : OrchEnv World Process}.
Implicit Types (w : World) (l : list (run_call Process)).

Definition spawned l : list Process :=
  omap (fun c => match c with CSpawn _ (Ok p) => Some p | _ => None end) l.
Definition terminated l : list (Process * Z) :=
  omap (fun c => match c with CTerminate p g => Some (p, g) | _ => None end) l.
Definition created l : list Session :=
  omap (fun c => match c with CCreateSession s _ => Some s | _ => None end) l.
Definition updated l : list (gostring * SessionPatch) :=
  omap (fun c => match c with CUpdateSession id p _ => Some (id, p) | _ => None end) l.
(** The session turns that were stored. *)
Definition stored l : list Turn :=
  omap (fun c => match c with CAppendTurn t None => Some t | _ => None end) l.

(** The calls of [l'] after [l]: what they spawned, created, terminated and updated. *)
Record added l l' (sp : list Process) (cr : list Session) (te : list (Process * Z))
    (up : list (gostring * SessionPatch)) (st : list Turn) : Prop := {
  ad_sp : spawned l' = spawned l ++ sp;
  ad_cr : created l' = created l ++ cr;
  ad_te : terminated l' = terminated l ++ te;
  ad_up : updated l' = updated l ++ up;
  ad_st : stored l' = stored l ++ st;
}.

Lemma added_app l k : added l (l ++ k) (spawned k) (created k) (terminated k) (updated k) (stored k).
Proof. split; apply omap_app. Qed.

Lemma act_all_ok p id acts w l : exists w' k,
  act_all p id acts (w, l) = (inr tt, (w', l ++ k))
  /\ spawned k = [] /\ created k = [] /\ terminated k = pair p <$> terminations acts /\ updated k = []
  /\ stored k = [].
Proof.
  revert w l. induction acts as [|a acts IH]; intros w l.
  - exists w, []. cbn. by rewrite app_nil_r.
  - assert (exists w1 c, act p id a (w, l) = (inr tt, (w1, l ++ [c]))
      /\ spawned [c] = [] /\ created [c] = []
      /\ terminated [c] = pair p <$> terminations [a] /\ updated [c] = [] /\ stored [c] = [])
      as (w1 & c & H1 & H2 & H3 & H4 & H5 & H6).
    { destruct a as [g|data|e]; cbn [act]; unfold terminate, noted, mbind, RM_bind.
      - by eexists _, (CTerminate p g).
      - destruct (o_Write p data w) as [e w1] eqn:Ew. by eexists _, (CWrite p data e).
      - destruct (o_AppendStreamEvent _ w) as [e1 w1] eqn:Ew. by eexists _, (CAppendStreamEvent _). }
    destruct (IH w1 (l ++ [c])) as (w2 & k & H & K1 & K2 & K3 & K4 & K5). exists w2, (c :: k).
    cbn [act_all]. unfold mbind, RM_bind. rewrite H1. unfold mbind, RM_bind in H. rewrite H.
    rewrite <- app_assoc. split; [done|].
    unfold spawned, created, terminated, updated, stored, terminations in *.
    change (c :: k) with ([c] ++ k). change (a :: acts) with ([a] ++ acts).
    rewrite !omap_app, fmap_app. rewrite H2, H3, H4, H5, H6, K1, K2, K3, K4, K5. done.
Qed.

(** Run a program symbolically: expose the next environment call. *)
Ltac expose H :=
  cbv [mbind RM_bind mret RM_ret noted quiet fail or_fail no_error append_turn peek_turns terminate] in H.

(** The stored tail of a run: at most the assistant's turn. *)
Definition assistant (response : gostring) (tn : list Turn) : Prop :=
  (TU_Role <$> tn, TU_Content <$> tn)
  = if bool_decide (response = []) then ([], []) else (["assistant"], [response]).

Lemma conclude_ok r provider session c w l res w' l' :
  conclude r provider session c (w, l) = (inr res, (w', l')) ->
  let ex := ad_ExtractResponse provider (Normalized (cr_Transcript c)) in
  exists patch endedAt result ts tn,
  assembleResult session (cr_Observation c) ex (cr_Transcript c) (cr_ExitCode c) endedAt = (result, patch)
  /\ res = with_peek result ts
  /\ added l l' [] [] [] [(S_ID session, patch)] tn /\ assistant (X_Response ex) tn.
Proof.
  intros H ex. unfold conclude in H. fold ex in H. cbv zeta in H. unfold assistant.
  destruct (bool_decide (X_Response ex = [])) eqn:Eb; expose H.
  - destruct (o_now w) as [endedAt w1].
    destruct (assembleResult _ _ _ _ _ endedAt) as [result patch] eqn:Ea.
    destruct (o_UpdateSession _ patch w1) as [[e|] w2]; [discriminate|].
    destruct (o_PeekTurns _ _ w2) as [[ts|e] w3]; [|discriminate]. injection H as <- <- <-.
    exists patch, endedAt, result, ts, []. split_and!; try done.
    rewrite <- app_assoc. apply added_app.
  - destruct (o_now w) as [now w1]. destruct (o_AppendTurn _ w1) as [[e|] w2]; [discriminate|].
    destruct (o_now w2) as [endedAt w3].
    destruct (assembleResult _ _ _ _ _ endedAt) as [result patch] eqn:Ea.
    destruct (o_UpdateSession _ patch w3) as [[e|] w4]; [discriminate|].
    destruct (o_PeekTurns _ _ w4) as [[ts|e] w5]; [|discriminate]. injection H as <- <- <-.
    exists patch, endedAt, result, ts, [turn_of (S_ID session) 1 "assistant" (X_Response ex) now].
    split_and!; try done. rewrite <- !app_assoc. apply added_app.
Qed.

(** A run that returns a result. *)
Record run_ok (r : RunRequest) (provider : Adapter) (prompt : gostring) (l : list (run_call Process))
    (res : RunResult) : Prop := {
  ro_spawned : exists p s patch, spawned l = [p] /\ created l = [s] /\ S_ID s = R_SessionID res
    /\ updated l = [(R_SessionID res, patch)] /\ SP_Status patch = Some (R_Status res)
    /\ (terminated l = [] \/ terminated l = [(p, 5000)] /\ R_Status res = RunTimeout);
  ro_turns : exists user tn, stored l = user :: tn
    /\ TU_Content user = prompt /\ TU_Role user = "user" /\ assistant (R_Response res) tn;
  ro_loop : R_Error res = None -> exists p w c acts,
    let evs := fst (o_events p (RR_TimeoutSec r) w) in
    spawned l = [p]
    /\ waitForCompletionLoop provider (RR_DebugRaw r) loop_init (evs ++ [LCancelled]) = (Some c, acts)
    /\ ended_by provider (RR_DebugRaw r) (evs ++ [LCancelled]) c acts
    /\ R_Status res = O_Status (cr_Observation c)
    /\ R_Response res = X_Response (ad_ExtractResponse provider (Normalized (cr_Transcript c)))
    /\ M_ExitCode (R_Meta res) = cr_ExitCode c
    /\ M_BytesCaptured (R_Meta res) = bytesSeen (cr_Transcript c);
}.

Lemma added_trans l l1 l' sp cr te up st sp' cr' te' up' st' :
  added l l1 sp cr te up st -> added l1 l' sp' cr' te' up' st' ->
  added l l' (sp ++ sp') (cr ++ cr') (te ++ te') (up ++ up') (st ++ st').
Proof.
  intros [A1 A2 A3 A4 A5] [B1 B2 B3 B4 B5].
  by split; rewrite ?B1, ?B2, ?B3, ?B4, ?B5, ?A1, ?A2, ?A3, ?A4, ?A5, app_assoc.
Qed.

(** From the completion loop to the result. *)
Lemma loop_part_ok r provider session p evs w l res w' l' :
  (let '(c, acts) := waitForCompletionLoop provider (RR_DebugRaw r) loop_init (evs ++ [LCancelled]) in
   _ ← act_all p (S_ID session) acts;
   match c with
   | Some c => conclude r provider session c
   | None => fail (coded ErrorRuntime [])
   end) (w, l) = (inr res, (w', l')) ->
  exists c acts patch tn,
  waitForCompletionLoop provider (RR_DebugRaw r) loop_init (evs ++ [LCancelled]) = (Some c, acts)
  /\ ended_by provider (RR_DebugRaw r) (evs ++ [LCancelled]) c acts
  /\ R_Status res = O_Status (cr_Observation c)
  /\ R_Response res = X_Response (ad_ExtractResponse provider (Normalized (cr_Transcript c)))
  /\ M_ExitCode (R_Meta res) = cr_ExitCode c
  /\ M_BytesCaptured (R_Meta res) = bytesSeen (cr_Transcript c)
  /\ R_SessionID res = S_ID session /\ R_Error res = None
  /\ SP_Status patch = Some (R_Status res)
  /\ added l l' [] [] (pair p <$> terminations acts) [(S_ID session, patch)] tn
  /\ assistant (R_Response res) tn.
Proof.
  intros H. destruct (loop_returns provider (RR_DebugRaw r) loop_init (evs ++ [LCancelled]))
    as (c & acts & E); [apply elem_of_app; right; by left|]. rewrite E in H.
  assert (ended_by provider (RR_DebugRaw r) (evs ++ [LCancelled]) c acts) as He.
  { by apply (completion_ends provider (RR_DebugRaw r) loop_init (evs ++ [LCancelled]) []). }
  destruct (act_all_ok p (S_ID session) acts w l) as (w1 & k & Ha & K1 & K2 & K3 & K4 & K5).
  unfold mbind at 1, RM_bind at 1 in H. rewrite Ha in H.
  apply conclude_ok in H as (patch & endedAt & result & ts & tn & Has & -> & Hadd & Htn).
  assert (added l (l ++ k) [] [] (pair p <$> terminations acts) [] []) as Hk
    by (rewrite <- K1 at 1; rewrite <- K2 at 1; rewrite <- K3; rewrite <- K4 at 1; rewrite <- K5 at 1;
        apply added_app).
  exists c, acts, patch, tn. unfold assembleResult in Has. injection Has as <- <-. cbn.
  split_and!; try done. pose proof (added_trans _ _ _ _ _ _ _ _ _ _ _ _ _ Hk Hadd) as HA.
  cbn [app] in HA. by rewrite app_nil_r in HA.
Qed.

Lemma converse_ok r provider session spec prompt p w l res w' l' :
  converse r provider session spec prompt p (w, l) = (inr res, (w', l')) ->
  spawned l = [p] -> created l = [] -> updated l = [] -> terminated l = [] -> stored l = [] ->
  run_ok r provider prompt l' res.
Proof.
  intros H S1 S2 S3 S4 S5. unfold converse in H. unfold mbind at 1, RM_bind at 1, noted at 1 in H.
  destruct (o_CreateSession session w) as [[e|] w1]; [expose H; discriminate|].
  unfold mbind at 1, RM_bind at 1, quiet at 1 in H. destruct (o_now w1) as [now w2].
  unfold mbind at 1, RM_bind at 1, append_turn in H.
  set (user := turn_of (S_ID session) 0 "user" prompt now) in *.
  unfold mbind at 1, RM_bind at 1, noted at 1 in H.
  destruct (o_AppendTurn user w2) as [[e|] w3]; [expose H; discriminate|].
  cbn [no_error] in H. unfold mret at 1, RM_ret at 1 in H.
  set (l1 := (l ++ [CCreateSession session None]) ++ [CAppendTurn user None]) in *.
  assert (added l l1 [] [session] [] [] [user]) as H1.
  { unfold l1. rewrite <- app_assoc. apply added_app. }
  unfold mbind at 1, RM_bind at 1 in H.
  assert (forall e w4 l2, added l1 l2 [] [] [] [] [] ->
    (match e with
     | Some e =>
         now ← quiet o_now;
         let patch := failed_patch now (Milliseconds (now - S_StartedAt session)) in
         _ ← noted (CUpdateSession (S_ID session) patch) (o_UpdateSession (S_ID session) patch);
         resultWithError (S_ID session) (RR_Provider r) (RR_PeekLast r)
           {| RE_Code := ErrorPromptIO; RE_Message := Error e |}
     | None =>
         evs ← quiet (o_events p (RR_TimeoutSec r));
         let '(c, acts) := waitForCompletionLoop provider (RR_DebugRaw r) loop_init (evs ++ [LCancelled]) in
         _ ← act_all p (S_ID session) acts;
         match c with
         | Some c => conclude r provider session c
         | None => fail (coded ErrorRuntime [])
         end
     end) (w4, l2) = (inr res, (w', l')) -> run_ok r provider prompt l' res) as Hrest.
  { clear H. intros e w4 l2 H2 H. pose proof (added_trans _ _ _ _ _ _ _ _ _ _ _ _ _ H1 H2) as H12.
    cbn [app] in H12. destruct e as [e|].
    - unfold mbind at 1, RM_bind at 1, quiet at 1 in H. destruct (o_now w4) as [now2 w5].
      cbv zeta in H. unfold mbind at 1, RM_bind at 1, noted at 1 in H.
      destruct (o_UpdateSession _ _ w5) as [eu w6]. unfold resultWithError in H. expose H.
      destruct (o_PeekTurns _ _ w6) as [[ts|e2] w7]; [|discriminate]. injection H as <- <- <-.
      rewrite <- app_assoc. match goal with |- run_ok _ _ _ (l2 ++ ?k) _ =>
        pose proof (added_trans _ _ _ _ _ _ _ _ _ _ _ _ _ H12 (added_app l2 k)) as [A1 A2 A3 A4 A5] end.
      rewrite S1 in A1; rewrite S2 in A2; rewrite S4 in A3; rewrite S3 in A4; rewrite S5 in A5.
      split; [|by exists user, []|done].
      exists p, session. eexists. split_and!; [exact A1|exact A2|done|exact A4|done|by left].
    - unfold mbind at 1, RM_bind at 1, quiet at 1 in H. destruct (o_events p _ w4) as [evs w5] eqn:Eo.
      apply loop_part_ok in H as (c & acts & patch & tn & Hl & He & R1 & R2 & R3 & Rb & R4 & R5 & R6 & R7 & R8).
      pose proof (added_trans _ _ _ _ _ _ _ _ _ _ _ _ _ H12 R7) as [A1 A2 A3 A4 A5].
      rewrite S1 in A1; rewrite S2 in A2; rewrite S4 in A3; rewrite S3 in A4; rewrite S5 in A5.
      cbn [app] in A1, A2, A3, A4, A5. split.
      + exists p, session, patch. rewrite R4. split_and!; try done. rewrite A3.
        destruct He as (pre & ev & post & _ & _ & _ & _ & [(_ & Ho & ->)|(now2 & _ & -> & _)]);
          [right|by left]. split; [done|]. by rewrite R1, Ho.
      + by exists user, tn.
      + intros _. exists p, w4, c, acts. rewrite Eo. by split_and!. }
  destruct (PromptInArgs spec).
  - unfold mret at 1, RM_ret at 1 in H. eapply (Hrest None); [|exact H]. split; by rewrite app_nil_r.
  - unfold noted at 1 in H. destruct (o_Write p (ad_FormatPrompt provider prompt) w3) as [e w4].
    eapply Hrest; [|exact H]. apply (added_app l1 [CWrite p _ e]).
Qed.
End RunLemmas.

(** ** Properties *)
Section Properties.
Context {World Process : Type} {env : OrchEnv World Process}.

Lemma resolvePrompt_quiet r (w : World) (l : list (run_call Process)) :
  exists o w1, resolvePrompt r (w, l) = (o, (w1, l))
  /\ forall prompt, o = inr prompt -> RR_Prompt r <> [] -> prompt = RR_Prompt r.
Proof.
  unfold resolvePrompt. destruct (negb _ && negb _); [by eexists _, w|].
  destruct (bool_decide (RR_Prompt r = [])) eqn:E; cbn [negb].
  - bool_facts. destruct (negb _); [|by eexists _, w]. destruct (Contains _ _); [by eexists _, w|].
    cbv [mbind RM_bind quiet]. destruct (o_ReadFile _ w) as [[d|e] w1]; by eexists _, w1.
  - eexists _, w. split; [done|]. by intros prompt [= <-].
Qed.

Lemma Run_books (registry : Registry) (request : RunRequest) (w w' : World)
    (l : list (run_call Process)) (res : RunResult)
    (HR : Run registry request (w, []) = (inr res, (w', l))) :
  exists provider prompt,
    Registry_Get registry (RR_Provider (with_defaults request)) = Ok provider
    /\ (RR_Prompt request <> [] -> prompt = RR_Prompt request)
    /\ run_ok (with_defaults request) provider prompt l res.
Proof.
  unfold Run in HR. cbv zeta in HR. set (r := with_defaults request) in *.
  unfold mbind at 1, RM_bind at 1 in HR.
  destruct (resolvePrompt_quiet r w []) as (o & w1 & Ho & Hprompt). rewrite Ho in HR.
  destruct o as [e|prompt]; [discriminate|]. unfold mbind at 1, RM_bind at 1 in HR.
  destruct (Registry_Get registry (RR_Provider r)) as [provider|e]; [|discriminate].
  cbn [or_fail] in HR. unfold mret at 1, RM_ret at 1 in HR.
  unfold mbind at 1, RM_bind at 1, quiet at 1 in HR.
  destruct (o_LoadEnvFile _ w1) as [[fenv|e] w2]; [|discriminate].
  unfold mbind at 1, RM_bind at 1 in HR. cbn [or_fail] in HR. unfold mret at 1, RM_ret at 1 in HR.
  cbv zeta in HR. unfold mbind at 1, RM_bind at 1 in HR.
  assert (exists h w3, (if bool_decide (RR_HomeDir r = []) then quiet o_UserHomeDir
    else mret (Ok (RR_HomeDir r)) : RM (Process := Process) (result gostring)) (w2, []) = (inr h, (w3, []))) as (h & w3 & Hh).
  { destruct (bool_decide _); [|by eexists _, w2]. unfold quiet.
    destruct (o_UserHomeDir w2) as [h w3]. by exists h, w3. }
  rewrite Hh in HR. unfold mbind at 1, RM_bind at 1, quiet at 1 in HR.
  destruct (o_random 8 w3) as [[raw|e] w4]; [|discriminate].
  unfold mbind at 1, RM_bind at 1 in HR. cbn [or_fail] in HR. unfold mret at 1, RM_ret at 1 in HR.
  unfold mbind at 1, RM_bind at 1, quiet at 1 in HR. destruct (o_now w4) as [now w5].
  unfold mbind at 1, RM_bind at 1, noted at 1 in HR.
  destruct (o_Spawn _ w5) as [[p|e] w6]; [|discriminate].
  unfold mbind at 1, RM_bind at 1 in HR. cbn [or_fail] in HR. unfold mret at 1, RM_ret at 1 in HR.
  exists provider, prompt. split; [done|]. split; [intros Hp; by apply Hprompt|].
  eapply converse_ok; [exact HR|done..].
Qed.

(** C31: a run that returns a result has kept its books.  It spawned one process,
    stored the prompt and then at most one answer - the response of the result -
    created one session and closed it once, with the status of the result; unless
    writing the prompt failed, the status, the response and the exit code are
    those that the completion loop's transcript shows; and the process was
    terminated only if the run timed out. *)
Theorem Run_closes_session (registry : Registry) (request : RunRequest) (w w' : World)
    (l : list (run_call Process)) (res : RunResult)
    (HR : Run registry request (w, []) = (inr res, (w', l))) :
  exists provider prompt,
    Registry_Get registry (RR_Provider (with_defaults request)) = Ok provider
    /\ (RR_Prompt request <> [] -> prompt = RR_Prompt request)
    /\ run_ok (with_defaults request) provider prompt l res.
Proof. by apply (Run_books registry request w w'). Qed.
End Properties.

(** A crash can be reported as a success.  The loop receives from the exit
    channel again after it is closed, and then sets the exit code to 0: a codex
    process that exits with a code other than 0 is reported crashed or completed
    depending on whether a tick or the closed channel comes first. *)
Theorem crash_reported_completed (getenv : gostring -> gostring) (debugRaw : bool) (r : ExitResult)
    (now : time) (Hcrash : X_Code r <> 0) :
  let status evs := O_Status ∘ cr_Observation
    <$> fst (waitForCompletionLoop (Codex.New getenv) debugRaw loop_init evs) in
  status [LDone r; LTick now] = Some RunCrashed
  /\ status [LDone r; LDoneClosed; LTick now] = Some RunCompleted.
Proof.
  intros status. unfold status. split; [|done].
  cbn [waitForCompletionLoop loop_step ad_Observe Codex.New]. unfold Codex.Observe.
  cbn [completion_context ExitCode ls_exitCode record_exit]. by destruct (X_Code r).
Qed.

(** The transcript.  After any events the normalised tail is that of the last
    [capacity] bytes of the output, the count of bytes that of all of it, and
    nothing is lost from the full text. *)
Theorem Transcript_tail (capacity : Z) (events : list StreamEvent) :
  let t := foldl Append (NewTranscript capacity) events in
  let out := events ≫= SE_Data in
  fullRaw t = out /\ bytesSeen t = Z.of_nat (length out)
  /\ tail t = drop (length out - Z.to_nat (if capacity <=? 0 then 65536 else capacity)) out.
Proof.
  intros t out.
  assert (transcript_ok t /\ fullRaw t = out
    /\ tailCapacity t = if capacity <=? 0 then 65536 else capacity) as (Hok & Hraw & Hcap).
  { unfold t, out. induction events as [|e events IH] using rev_ind.
    - split_and!; [apply NewTranscript_ok|done|done].
    - rewrite foldl_app. cbn [foldl]. destruct IH as (H1 & H2 & H3).
      destruct (Append_ok _ e H1) as (A1 & A2 & A3).
      split_and!; [done| |by rewrite A3]. rewrite A2, H2, bind_app. cbn. by rewrite app_nil_r. }
  destruct Hok as (_ & Ht & Hb). rewrite Hraw in *. rewrite Hcap in Ht. done.
Qed.

(** ** The properties at a concrete run *)
Module OrchSim.

#[global] Instance env : OrchEnv Z nat := {|
  o_LoadEnvFile _ w := (Ok ∅, w);
  o_ReadFile _ w := (Err (ErrNew "no file"), w);
  o_UserHomeDir w := (Ok "/home/me", w);
  o_random n w := (Ok (replicate n "0"%char), w);
  o_now w := (w, w + 1);
  o_Spawn _ w := (Ok 7%nat, w);
  o_Terminate _ _ w := w;
  o_Write _ _ w := (None, w);
  o_events _ _ w :=
    ([LOutput {| SE_Timestamp := 5; SE_Kind := StreamEventOutput; SE_Data := "codex
hi
tokens used" |}; LDone {| X_Code := 0; X_Err := None |}; LTick 9], w);
  o_CreateSession _ w := (None, w);
  o_UpdateSession _ _ w := (None, w);
  o_AppendTurn _ w := (None, w);
  o_PeekTurns _ _ w := (Ok [], w);
  o_AppendStreamEvent _ w := (None, w);
|}.

Definition registry : Registry := NewRegistry [Claude.New (fun _ => []); Codex.New (fun _ => [])].

Definition request : RunRequest :=
  {| RR_Provider := "codex"; RR_Prompt := "say hi"; RR_PromptFile := []; RR_TimeoutSec := 0;
     RR_Cwd := "/tmp"; RR_EnvFile := []; RR_LogBackend := []; RR_LogPath := []; RR_DatabaseURL := [];
     RR_PeekLast := 0; RR_DebugRaw := false; RR_TerminalCols := 0; RR_TerminalRows := 0;
     RR_HomeDir := []; RR_Model := []; RR_ReasoningEffort := [] |}.

Definition run := Run registry request (0, []).
Definition res : RunResult :=
  match fst run with
  | inr r => r
  | inl _ => {| R_SessionID := []; R_Provider := []; R_Status := []; R_Response := []; R_Peek := [];
                R_Meta := {| M_DurationMs := 0; M_ExitCode := None; M_ParserConfidence := 0;
                             M_ObservationConfidence := 0; M_BytesCaptured := 0;
                             M_BlockedReason := None; M_Warnings := [] |}; R_Error := None |}
  end.

Lemma orch_run_eq : run = (inr res, (fst (snd run), snd (snd run))).
Proof. unfold res. destruct run as [[e|r] [w l]] eqn:E; [|done]. vm_compute in E. discriminate. Qed.
End OrchSim.

Lemma Run_closes_session_witness :
  R_Response OrchSim.res = "hi" /\ R_Status OrchSim.res = RunCompleted
  /\ exists provider prompt, run_ok (with_defaults OrchSim.request) provider prompt (snd (snd OrchSim.run)) OrchSim.res.
Proof.
  split; [vm_compute; reflexivity|]. split; [vm_compute; reflexivity|].
  destruct (Run_closes_session OrchSim.registry OrchSim.request 0 _ _ _ OrchSim.orch_run_eq)
    as (provider & prompt & _ & _ & H).
  by exists provider, prompt.
Defined.

Lemma crash_reported_completed_witness :
  let r := {| X_Code := 1; X_Err := None |} in
  (O_Status ∘ cr_Observation
     <$> fst (waitForCompletionLoop (Codex.New (fun _ => [])) false loop_init [LDone r; LDoneClosed; LTick 0]))
  = Some RunCompleted.
Proof. exact (proj2 (crash_reported_completed (fun _ => []) false {| X_Code := 1; X_Err := None |} 0 ltac:(discriminate))). Defined.
