(* ===== verification/RunDisk.v ===== *)
(** * A single-shot run over the file store

    [orchestrator.Run] with the file store as its [store.Store]: the environment
    of the orchestrator with its five store operations run on the file system.
    A small program logic over runs - [post], with one rule per construct - shows
    what a run that returns a result leaves in the session record and in the
    turn log, and what it read back. *)
From S2P Require Import Prelude GoLib Model Adapter Orchestrator FileSys Store System.

(** ** A program logic for runs

    [post A m B]: from a state of [A], when [m] returns a value, the value and
    the state are in [B].  Programs that end with an error are left out. *)
Section Post.
Context {World Process : Type}.

#[local] Abbreviation state := (rstate (World := World) (Process := Process)).
#[local] Abbreviation RM := (RM (World := World) (Process := Process)).

Definition post {X} (A : state -> Prop) (m : RM X) (B : X -> state -> Prop) : Prop :=
  forall z x z', A z -> m z = (inr x, z') -> B x z'.

Lemma post_ret {X} A (x : X) (B : X -> state -> Prop) : (forall z, A z -> B x z) -> post A (mret x) B.
Proof. intros H z y z' Ha [= <- <-]. by apply H. Qed.

Lemma post_bind {X Y} A (m : RM X) (f : X -> RM Y) B C :
  post A m B -> (forall x, post (B x) (f x) C) -> post A (m ≫= f) C.
Proof.
  intros Hm Hf z y z' Ha. unfold mbind, RM_bind.
  destruct (m z) as [[e|x] z1] eqn:E; [done|]. intros H. eapply Hf; [|exact H]. by eapply Hm.
Qed.

Lemma post_seq {X Y} A A' (m : RM X) (f : X -> RM Y) C :
  post A m (fun _ => A') -> (forall x, post A' (f x) C) -> post A (m ≫= f) C.
Proof. intros Hm Hf. by apply (post_bind _ _ _ (fun _ => A')). Qed.

Lemma post_fail {X} A e (B : X -> state -> Prop) : post A (fail e) B.
Proof. by intros z x z' _ [=]. Qed.

Lemma post_quiet {X} A (f : World -> X * World) B :
  (forall w l, A (w, l) -> B (fst (f w)) (snd (f w), l)) -> post A (quiet f) B.
Proof.
  intros H [w l] x z' Ha. specialize (H w l Ha). unfold quiet. destruct (f w) as [y w1]. by intros [= <- <-].
Qed.

Lemma post_noted {X} A (k : X -> run_call Process) (f : World -> X * World) B :
  (forall w l, A (w, l) -> B (fst (f w)) (snd (f w), l ++ [k (fst (f w))])) -> post A (noted k f) B.
Proof.
  intros H [w l] x z' Ha. specialize (H w l Ha). unfold noted. destruct (f w) as [y w1]. by intros [= <- <-].
Qed.

Lemma post_or_fail {X} A code (r : result X) B :
  (forall x z, r = Ok x -> A z -> B x z) -> post A (or_fail code r) B.
Proof. destruct r as [x|e]; intros H; [apply post_ret; intros z Ha; by apply H|apply post_fail]. Qed.

Lemma post_no_error A code (e : option goerr) B :
  (e = None -> forall z, A z -> B tt z) -> post A (no_error code e) B.
Proof. destruct e; intros H; [apply post_fail|apply post_ret; by apply H]. Qed.

Lemma post_exists {X T} (A : T -> state -> Prop) (m : RM X) B :
  (forall t, post (A t) m B) -> post (fun z => exists t, A t z) m B.
Proof. intros H z x z' [t Ht]. by apply (H t). Qed.

Lemma post_pure {X} (P : Prop) A (m : RM X) B : (P -> post A m B) -> post (fun z => P /\ A z) m B.
Proof. intros H z x z' [HP HA]. by apply (H HP). Qed.

Lemma post_pre {X} (A A' : state -> Prop) (m : RM X) B : post A m B -> (forall z, A' z -> A z) -> post A' m B.
Proof. intros Hm Ha z x z' Hz. by apply Hm, Ha. Qed.
End Post.

(** ** The environment *)
Section RunDisk.
Context {jS : JSON Session} {jT : JSON Turn} {jC : JSON Conversation} {jCT : JSON ConversationTurn}.
Context {srt : SortSlice} (marshal_event : StoredStreamEvent -> result gostring).
Variable s : Store.
Context {World Process : Type} {env0 : OrchEnv World Process}.

#[local] Abbreviation on_files o := (on_store marshal_event s (World := World) o).

#[export] Instance disk_env : OrchEnv (FS * World) Process := {|
  o_LoadEnvFile p := on_snd (o_LoadEnvFile p);
  o_ReadFile p := on_snd (o_ReadFile p);
  o_UserHomeDir := on_snd o_UserHomeDir;
  o_random n := on_snd (o_random n);
  o_now := on_snd o_now;
  o_Spawn spec := on_snd (o_Spawn spec);
  o_Terminate p g x := (fst x, o_Terminate p g (snd x));
  o_Write p d := on_snd (o_Write p d);
  o_events p t := on_snd (o_events p t);
  o_CreateSession x := on_files (OCreateSession x);
  o_UpdateSession id p := on_files (OUpdateSession id p);
  o_AppendTurn t := on_files (OAppendTurn t);
  o_PeekTurns id n x := let '(r, fs) := PeekTurns s id n (fst x) in (r, (fs, snd x));
  o_AppendStreamEvent e := on_files (OAppendStreamEvent e);
|}.

(** ** What a run keeps on disk *)

(** The updates that succeeded. *)
Definition closed (l : list (run_call Process)) : list (gostring * SessionPatch) :=
  omap (fun c => match c with CUpdateSession id p None => Some (id, p) | _ => None end) l.

Definition short_turn (t : Turn) : Prop := exists b, json_line t b /\ fits MaxScanTokenSize b = true.

(** The records and turns a run writes survive JSON, and no line is too long. *)
Definition faithful (cr : list Session) (up : list (gostring * SessionPatch)) (ts : list Turn) : Prop :=
  Forall json_faithful cr
  /\ (forall x u, x ∈ cr -> u ∈ up -> json_faithful (patch_session (snd u) x))
  /\ Forall short_turn ts.

Definition session_record (cr : list Session) (cl : list (gostring * SessionPatch)) : option Session :=
  foldl (fun o u => patch_session (snd u) <$> o) (head cr) cl.

Variable fs0 : FS.
Hypothesis root : st_root s <> [].

(** The session record is [o], and the turn log has grown by [ts]. *)
Definition on_disk (id : gostring) (o : option Session) (ts : list Turn) (fs : FS) : Prop :=
  (forall x, o = Some x -> session_at s fs id = Some x)
  /\ exists bs, Forall2 json_line ts bs /\ forallb (fits MaxScanTokenSize) bs = true
     /\ log_at s fs FTurn id = log_at s fs0 FTurn id ++ log_text bs.

#[local] Abbreviation state := (rstate (World := FS * World) (Process := Process)).

(** Up to here a run has created [cr], updated [up], [cl] of them with success,
    and stored [ts]; all of it is on disk. *)
Record stage (id : gostring) (cr : list Session) (up cl : list (gostring * SessionPatch)) (ts : list Turn)
    (z : state) : Prop := {
  st_created : created (snd z) = cr;
  st_updated : updated (snd z) = up;
  st_closed : closed (snd z) = cl;
  st_stored : stored (snd z) = ts;
  st_disk : faithful cr up ts -> on_disk id (session_record cr cl) ts (fst (fst z));
}.

Lemma on_disk_files id o ts fs fs' : fs_files fs' = fs_files fs -> on_disk id o ts fs -> on_disk id o ts fs'.
Proof. unfold on_disk, session_at, json_at, log_at. by intros ->. Qed.

(** A call that does not write: the files and the books stay. *)
Definition no_entry (c : run_call Process) : Prop :=
  created [c] = [] /\ updated [c] = [] /\ closed [c] = [] /\ stored [c] = [].

Lemma stage_log (l : list (run_call Process)) c :
  created (l ++ [c]) = created l ++ created [c] /\ updated (l ++ [c]) = updated l ++ updated [c]
  /\ closed (l ++ [c]) = closed l ++ closed [c] /\ stored (l ++ [c]) = stored l ++ stored [c].
Proof. unfold created, updated, closed, stored. by rewrite !omap_app. Qed.

Lemma stage_off id cr up cl ts fs fs' w w' l c :
  no_entry c -> fs_files fs' = fs_files fs -> stage id cr up cl ts ((fs, w), l) ->
  stage id cr up cl ts ((fs', w'), l ++ [c]).
Proof.
  intros (N1 & N2 & N3 & N4) Hf [H1 H2 H3 H4 H5]. cbn [fst snd] in *.
  destruct (stage_log l c) as (L1 & L2 & L3 & L4).
  split; cbn [fst snd]; rewrite ?L1, ?L2, ?L3, ?L4, ?N1, ?N2, ?N3, ?N4, ?app_nil_r; try done.
  intros Hb. eapply on_disk_files; [done|]. by apply H5.
Qed.

Lemma faithful_less cr cr' up up' ts ts' :
  faithful (cr ++ cr') (up ++ up') (ts ++ ts') -> faithful cr up ts.
Proof.
  unfold faithful. rewrite !Forall_app. intros ([H1 _] & H2 & [H3 _]). split_and!; try done.
  intros x u Hx Hu. apply H2; by apply elem_of_app; left.
Qed.

(** The rules of the store's operations. *)
Section Rules.
Variable id : gostring.
Hypothesis safe : safe_id id.

Lemma post_off {X} cr up cl ts (k : X -> run_call Process) f :
  (forall x, no_entry (k x)) -> (forall x, fst (snd (f x)) = fst x) ->
  post (stage id cr up cl ts) (noted k f) (fun _ => stage id cr up cl ts).
Proof.
  intros Hk Hf. apply post_noted. intros [fs w] l Ha. specialize (Hf (fs, w)).
  destruct (f (fs, w)) as [x [fs' w']]. cbn in Hf |- *. subst fs'. by eapply stage_off.
Qed.

Lemma post_silent {X} cr up cl ts (f : World -> X * World) :
  post (stage id cr up cl ts) (quiet (on_snd f)) (fun _ => stage id cr up cl ts).
Proof.
  apply post_quiet. intros [fs w] l Ha. unfold on_snd. cbn [fst snd]. destruct (f w) as [x w']. cbn [fst snd].
  by destruct Ha.
Qed.

Lemma post_create x : S_ID x = id ->
  post (stage id [] [] [] []) (noted (CCreateSession x) (o_CreateSession x))
    (fun e z => e = None -> stage id [x] [] [] [] z).
Proof.
  intros Hx. apply post_noted. intros [fs w] l [H1 H2 H3 H4 H5]. cbn [fst snd] in *.
  change (o_CreateSession x (fs, w)) with (on_store marshal_event s (OCreateSession x) (fs, w)).
  unfold on_store. cbn [fst snd].
  destruct (run_op marshal_event s (OCreateSession x) fs) as [r fs'] eqn:E. cbn [fst snd]. intros Hr.
  destruct (stage_log l (CCreateSession x (err_of r))) as (L1 & L2 & L3 & L4).
  split; cbn [fst snd]; rewrite ?L1, ?L2, ?L3, ?L4, ?H1, ?H2, ?H3, ?H4; try done.
  intros Hb. assert (json_faithful x) as Hf by (destruct Hb as [Hb _]; by apply Forall_cons in Hb as [Hb _]).
  destruct H5 as [_ (bs & B1 & B2 & B3)]; [exact (faithful_less [] [x] [] [] [] [] Hb)|].
  pose proof (run_op_step marshal_event s root (OCreateSession x) fs) as HS. rewrite E in HS.
  destruct r as [[]|e]; [|done]. cbn [op_target snd] in HS. rewrite Hx in HS. specialize (HS safe Hf). split.
  - intros y [= <-]. rewrite (so_session _ _ _ _ _ _ HS _ safe). cbn [op_target]. by rewrite Hx, bool_decide_true.
  - exists bs. split_and!; [done|done|]. rewrite <- B3.
    exact (so_log _ _ _ _ _ _ HS FTurn id safe ltac:(set_solver)).
Qed.

Lemma post_append cr up cl ts t : TU_SessionID t = id ->
  post (stage id cr up cl ts) (append_turn t) (fun _ => stage id cr up cl (ts ++ [t])).
Proof.
  intros Ht. unfold append_turn. eapply (post_bind _ _ _ (fun e z => e = None -> stage id cr up cl (ts ++ [t]) z)).
  2: { intros e. apply post_no_error. auto. }
  apply post_noted. intros [fs w] l [H1 H2 H3 H4 H5]. cbn [fst snd] in *.
  change (o_AppendTurn t (fs, w)) with (on_store marshal_event s (OAppendTurn t) (fs, w)).
  unfold on_store. cbn [fst snd].
  destruct (run_op marshal_event s (OAppendTurn t) fs) as [r fs'] eqn:E. cbn [fst snd]. intros Hr.
  destruct (stage_log l (CAppendTurn t (err_of r))) as (L1 & L2 & L3 & L4). rewrite Hr in *.
  split; cbn [fst snd]; rewrite ?L1, ?L2, ?L3, ?L4, ?H1, ?H2, ?H3, ?H4; try apply app_nil_r; [done|].
  intros Hb. assert (short_turn t) as (b & Hj & Hfit).
  { destruct Hb as (_ & _ & Hb). apply Forall_app in Hb as [_ Hb]. by apply Forall_cons in Hb as [Hb _]. }
  destruct H5 as [Hs (bs & B1 & B2 & B3)]; [apply (faithful_less cr [] up [] ts [t]); by rewrite !app_nil_r|].
  pose proof (run_op_step marshal_event s root (OAppendTurn t) fs) as HS. rewrite E in HS.
  destruct r as [[]|e]; [|done]. cbn [op_target snd] in HS. rewrite Ht in HS. specialize (HS safe I). split.
  - intros x Hx. rewrite (so_session _ _ _ _ _ _ HS _ safe). cbn [op_target]. rewrite bool_decide_false by done. auto.
  - pose proof (so_log _ _ _ _ _ _ HS FTurn id safe ltac:(set_solver)) as Hg.
    cbn [op_line op_target] in Hg. rewrite (proj1 Hj), Ht, bool_decide_true in Hg by done.
    destruct Hg as (k & Hk & Hfull). rewrite Hfull, B3 in Hk by done.
    exists (bs ++ [b]). rewrite log_text_app, app_assoc. split_and!; [by apply Forall2_app; [|constructor]| |done].
    rewrite forallb_app. cbn. by rewrite B2, Hfit.
Qed.

Lemma post_event cr up cl ts ev :
  SSE_SessionID ev = id ->
  post (stage id cr up cl ts) (noted (fun _ => CAppendStreamEvent ev) (o_AppendStreamEvent ev))
    (fun _ => stage id cr up cl ts).
Proof.
  intros He. apply post_noted. intros [fs w] l [H1 H2 H3 H4 H5]. cbn [fst snd] in *.
  change (o_AppendStreamEvent ev (fs, w)) with (on_store marshal_event s (OAppendStreamEvent ev) (fs, w)).
  unfold on_store. cbn [fst snd].
  destruct (run_op marshal_event s (OAppendStreamEvent ev) fs) as [r fs'] eqn:E. cbn [fst snd].
  destruct (stage_log l (@CAppendStreamEvent Process ev)) as (L1 & L2 & L3 & L4).
  split; cbn [fst snd]; rewrite ?L1, ?L2, ?L3, ?L4, ?H1, ?H2, ?H3, ?H4; try apply app_nil_r.
  intros [Hs (bs & B1 & B2 & B3)]%H5.
  pose proof (run_op_step marshal_event s root (OAppendStreamEvent ev) fs) as HS. rewrite E in HS.
  cbn [op_target snd] in HS. rewrite He in HS. specialize (HS safe I). split.
  - intros x Hx. rewrite (so_session _ _ _ _ _ _ HS _ safe). cbn [op_target].
    rewrite bool_decide_false, andb_false_r by done. auto.
  - exists bs. split_and!; [done|done|]. rewrite <- B3.
    pose proof (so_log _ _ _ _ _ _ HS FTurn id safe ltac:(set_solver)) as Hg. cbn [op_line op_target] in Hg.
    rewrite He in Hg. destruct (st_debugRaw s); [|done]. destruct (marshal_event ev); [|by destruct Hg].
    by rewrite bool_decide_false in Hg.
Qed.

Lemma post_update x p ts : 
  post (stage id [x] [] [] ts) (noted (CUpdateSession id p) (o_UpdateSession id p))
    (fun e => stage id [x] [(id, p)] (match e with None => [(id, p)] | Some _ => [] end) ts).
Proof.
  apply post_noted. intros [fs w] l [H1 H2 H3 H4 H5]. cbn [fst snd] in *.
  change (o_UpdateSession id p (fs, w)) with (on_store marshal_event s (OUpdateSession id p) (fs, w)).
  unfold on_store. cbn [fst snd].
  destruct (run_op marshal_event s (OUpdateSession id p) fs) as [r fs'] eqn:E. cbn [fst snd].
  destruct (stage_log l (CUpdateSession id p (err_of r))) as (L1 & L2 & L3 & L4).
  split; cbn [fst snd]; rewrite ?L1, ?L2, ?L3, ?L4, ?H1, ?H2, ?H3, ?H4; try apply app_nil_r; [done|by destruct r|].
  intros Hb. destruct H5 as [Hs (bs & B1 & B2 & B3)];
    [apply (faithful_less [x] [] [] [(id, p)] ts []); by rewrite ?app_nil_r|].
  pose proof (run_op_step marshal_event s root (OUpdateSession id p) fs) as HS. rewrite E in HS.
  cbn [op_target snd] in HS. specialize (Hs x eq_refl).
  assert (op_faithful s (OUpdateSession id p) fs) as Hf.
  { intros y Hy. rewrite Hs in Hy. injection Hy as <-. destruct Hb as (_ & Hb & _). apply (Hb x (id, p)); by left. }
  specialize (HS safe Hf). split.
  - intros y Hy. rewrite (so_session _ _ _ _ _ _ HS _ safe). cbn [op_target op_session].
    rewrite bool_decide_true by done. rewrite Hs. by destruct r.
  - exists bs. split_and!; [done|done|]. rewrite <- B3.
    exact (so_log _ _ _ _ _ _ HS FTurn id safe ltac:(set_solver)).
Qed.

(** What a reading of the turns returns, when it returns. *)
Definition read_back (cr : list Session) (up : list (gostring * SessionPatch)) (ts : list Turn) (n : Z)
    (r : list Turn) : Prop :=
  faithful cr up ts -> log_at s fs0 FTurn id = [] -> ts <> [] ->
  r = last_n n (sort_Slice (fun x y => TU_Index x <? TU_Index y) ts).

Lemma post_peek cr up cl ts n :
  post (stage id cr up cl ts) (peek_turns id n)
    (fun r z => stage id cr up cl ts z /\ forall turns, r = Ok turns -> read_back cr up ts n turns).
Proof.
  apply post_noted. intros [fs w] l Ha. 
  change (o_PeekTurns id n (fs, w)) with (let '(r, fs) := PeekTurns s id n fs in (r, (fs, w))).
  destruct (PeekTurns s id n fs) as [r fs'] eqn:E. cbn [fst snd]. split.
  - apply (stage_off id cr up cl ts fs fs' w); [done| |done]. unfold PeekTurns in E.
    apply (f_equal snd) in E. cbn in E. rewrite <- E. apply peek_files.
  - intros turns -> Hb H0 Hne. destruct Ha as [_ _ _ _ Hd]. destruct (Hd Hb) as [_ (bs & B1 & B2 & B3)].
    apply (f_equal fst) in E. cbn in E.
    apply (peek_unfaulted _ _ _ _ _ _ {| fs_files := fs_files fs; fs_dirs := fs_dirs fs; fs_faults := [] |}) in E;
      [|done..]. unfold PeekTurns in E. rewrite (peek_log _ _ _ ts bs) in E; [|done| |done].
    + rewrite B2 in E. by injection E as <-.
    + rewrite H0 in B3. apply default_Some; [exact B3|]. apply log_text_nonempty. intros ->.
      by apply Forall2_nil_inv_r in B1.
Qed.

Lemma post_act_all cr up cl ts p acts :
  post (stage id cr up cl ts) (act_all p id acts) (fun _ => stage id cr up cl ts).
Proof.
  induction acts as [|a acts IH]; cbn [act_all]; [by apply post_ret|].
  eapply (post_seq _ (stage id cr up cl ts)); [|intros _; exact IH]. destruct a as [g|data|e]; cbn [act].
  - by apply post_off.
  - eapply (post_seq _ (stage id cr up cl ts)); [|intros x; by apply post_ret].
    apply post_off; [done|]. intros [fs w]. cbn. unfold on_snd. cbn. by destruct (o_Write _ _ _).
  - eapply (post_seq _ (stage id cr up cl ts)); [by apply post_event|]. intros x. by apply post_ret.
Qed.
(** What is known of a run that returned: its books, its turns in order, and
    that it read them back. *)
Definition numbered_turns (ts : list Turn) : Prop :=
  ts <> [] /\ forall i t, ts !! i = Some t -> TU_Index t = Z.of_nat i + 0.

Definition kept_books (n : Z) (res : RunResult) (z : state) : Prop :=
  exists cr up cl ts, stage id cr up cl ts z /\ R_SessionID res = id /\ (R_Error res = None -> cl = up)
  /\ numbered_turns ts /\ read_back cr up ts n (R_Peek res).

Lemma post_conclude r provider session c user :
  S_ID session = id -> TU_Index user = 0 ->
  post (stage id [session] [] [] [user]) (conclude r provider session c) (kept_books (RR_PeekLast r)).
Proof.
  intros Hid Hu. unfold conclude. cbv zeta. rewrite Hid.
  set (ex := ad_ExtractResponse provider _). clearbody ex.
  eapply (post_seq _ (fun z => exists ts, numbered_turns ts /\ stage id [session] [] [] ts z)).
  - destruct (bool_decide _).
    + apply post_ret. intros z Hz. exists [user]. split; [|done]. split; [done|].
      intros i t Ht. apply list_lookup_singleton_Some in Ht as [-> <-]. exact Hu.
    + eapply post_seq; [apply post_silent|]. intros now z x z' Hz Hx.
      eapply post_append in Hx; [|done..]. exists ([user] ++ [turn_of id 1 "assistant" (X_Response ex) now]).
      split; [|exact Hx]. split; [done|]. intros [|[|i]] t [= <-]; [exact Hu|done].
  - intros _. apply post_exists. intros ts. apply post_pure. intros Hts.
    eapply post_seq; [apply post_silent|]. intros endedAt.
    destruct (assembleResult session _ ex _ _ endedAt) as [result patch] eqn:Ea.
    eapply post_bind; [by apply post_update|]. intros e. cbv beta. eapply (post_seq _ (stage id [session] [(id, patch)] [(id, patch)] ts)).
    { apply post_no_error. by intros ->. }
    intros _. eapply post_bind; [apply post_peek|]. intros p. eapply post_bind.
    { apply (post_or_fail _ _ _ (fun turns z => stage id [session] [(id, patch)] [(id, patch)] ts z
        /\ read_back [session] [(id, patch)] ts (RR_PeekLast r) turns)).
      intros turns z -> [Hz Ht]. split; [done|]. by apply Ht. }
    intros turns. apply post_ret. intros z [Hz Hb]. exists [session], [(id, patch)], [(id, patch)], ts.
    unfold assembleResult in Ea. injection Ea as <- _. by split_and!.
Qed.

Lemma post_resultWithError provider n e cr up cl ts : numbered_turns ts ->
  post (stage id cr up cl ts) (resultWithError id provider n e) (kept_books n).
Proof.
  intros Hts. unfold resultWithError. eapply post_bind; [apply post_peek|]. intros [turns|e'].
  - apply post_ret. intros z [Hz Hb]. exists cr, up, cl, ts. split_and!; try done. by apply Hb.
  - apply post_fail.
Qed.

Lemma post_converse r provider session spec prompt p : S_ID session = id ->
  post (stage id [] [] [] []) (converse r provider session spec prompt p) (kept_books (RR_PeekLast r)).
Proof.
  intros Hid. unfold converse. eapply post_bind; [by apply post_create|]. intros [e|]; cbv beta.
  { eapply (post_seq _ (fun _ => True)); [by intros z x z' _ _|]. intros _. apply post_fail. }
  apply (post_pre (stage id [session] [] [] [])); [|by intros z Hz; apply Hz].
  rewrite Hid. eapply post_seq; [apply post_silent|]. intros now. set (user := turn_of _ 0 _ _ _).
  eapply post_seq; [by apply post_append|]. intros _. cbn [app].
  eapply (post_seq _ (stage id [session] [] [] [user])).
  { destruct (PromptInArgs spec); [by apply post_ret|]. apply post_off; [done|]. intros [fs w].
    cbn. unfold on_snd. cbn. by destruct (o_Write _ _ _). }
  intros [e|].
  - eapply post_seq; [apply post_silent|]. intros now2. cbv zeta. eapply post_bind; [by apply post_update|].
    intros e'. apply post_resultWithError. split; [done|]. intros i t Ht.
    by apply list_lookup_singleton_Some in Ht as [-> <-].
  - eapply post_seq; [apply post_silent|]. intros evs. destruct (waitForCompletionLoop _ _ _ _) as [c acts].
    eapply post_seq; [by apply post_act_all|]. intros _. destruct c as [c|]; [by apply post_conclude|apply post_fail].
Qed.
End Rules.

Lemma session_id_safe raw : safe_id (NewSessionID raw).
Proof.
  unfold safe_id, NewSessionID. assert (Forall (fun c => c <> "/"%char) ("sess_" ++ EncodeToString raw)) as H.
  { apply Forall_app. split; [by apply (bool_decide_unpack _)|]. apply Forall_hex. intros n Hn E.
    apply (f_equal ord) in E. unfold hex_digit in E.
    destruct (n <? 10); rewrite ord_chr in E by lia; change (ord "/") with 47 in E; lia. }
  rewrite Forall_forall in H. intros Hin. by apply (H _ Hin).
Qed.

(** Before the session is created, whatever its identifier will be. *)
Definition untouched (z : state) : Prop := forall id, stage id [] [] [] [] z.

Lemma post_untouched {X} (f : World -> X * World) : post untouched (quiet (on_snd f)) (fun _ => untouched).
Proof. intros z x z' Hz H id. exact (post_silent id [] [] [] [] f z x z' (Hz id) H). Qed.

Lemma post_resolvePrompt r : post untouched (resolvePrompt r) (fun _ => untouched).
Proof.
  unfold resolvePrompt. destruct (negb _ && negb _); [apply post_fail|].
  destruct (negb (bool_decide (RR_Prompt r = []))); [by apply post_ret|].
  destruct (negb _); [|apply post_fail]. destruct (Contains _ _); [apply post_fail|].
  eapply post_seq; [apply post_untouched|]. intros [data|e]; [by apply post_ret|apply post_fail].
Qed.

Lemma post_Run registry request :
  post untouched (Run registry request)
    (fun res => kept_books (R_SessionID res) (RR_PeekLast (with_defaults request)) res).
Proof.
  unfold Run. cbv zeta. set (r := with_defaults request). eapply post_seq; [apply post_resolvePrompt|].
  intros prompt. eapply (post_seq _ untouched); [by apply post_or_fail|]. intros provider.
  eapply post_seq; [apply post_untouched|]. intros f. eapply (post_seq _ untouched); [by apply post_or_fail|].
  intros fenv. eapply (post_seq _ untouched).
  { destruct (bool_decide _); [apply post_untouched|by apply post_ret]. }
  intros h. eapply post_seq; [apply post_untouched|]. intros raw0.
  eapply (post_seq _ untouched); [by apply post_or_fail|]. intros raw.
  eapply post_seq; [apply post_untouched|]. intros now. eapply (post_seq _ untouched).
  { intros z x z' Hz H id. revert z x z' Hz H. set (spec := ad_BuildSpawnSpec _ _ _ _ _ _ _).
    intros z x z' Hz. apply (post_off id [] [] [] [] (CSpawn spec) (o_Spawn spec)); [done| |apply Hz].
    intros [fs w]. cbn. unfold on_snd. cbn. by destruct (o_Spawn _ _). }
  intros sp. eapply (post_seq _ untouched); [by apply post_or_fail|]. intros p z res z' Hz Hres.
  assert (kept_books (NewSessionID raw) (RR_PeekLast r) res z') as Ho.
  { eapply (post_converse (NewSessionID raw) (session_id_safe raw) r); [|apply Hz|exact Hres]. done. }
  pose proof Ho as (cr & up & cl & ts & _ & -> & _). exact Ho.
Qed.
End RunDisk.

(** ** Properties *)
Section Properties.
Context {jS : JSON Session} {jT : JSON Turn} {jC : JSON Conversation} {jCT : JSON ConversationTurn}.
Context {srt : SortSlice} (marshal_event : StoredStreamEvent -> result gostring).
Variable s : Store.
Context {World Process : Type} {env0 : OrchEnv World Process}.

#[local] Abbreviation Run_files := (Run (env := disk_env marshal_event s)).

Lemma run_keeps_books registry request fs w res z :
  st_root s <> [] -> Run_files registry request ((fs, w), []) = (inr res, z) ->
  kept_books s fs (R_SessionID res) (RR_PeekLast (with_defaults request)) res z.
Proof.
  intros Hroot HR. eapply (post_Run marshal_event s fs Hroot registry request); [|exact HR].
  intros id. split; try done. intros _. split; [done|]. exists []. split_and!; [constructor|done|].
  by rewrite app_nil_r.
Qed.

Lemma run_files_read_back (registry : Registry) (request : RunRequest) (fs fs' : FS) (w w' : World)
    (l : list (run_call Process)) (res : RunResult) (n : Z) (Hroot : st_root s <> [])
    (HR : Run_files registry request ((fs, w), []) = (inr res, ((fs', w'), l)))
    (Hempty : log_at s fs FTurn (R_SessionID res) = [])
    (Hjson : faithful (created l) (updated l) (stored l)) (Hfaults : fs_faults fs' = []) :
  exists se user answer, created l = [se] /\ stored l = user :: answer
  /\ TU_Role user = "user" /\ (RR_Prompt request <> [] -> TU_Content user = RR_Prompt request)
  /\ assistant (R_Response res) answer
  /\ fst (PeekTurns s (R_SessionID res) n fs') = Ok (last_n n (user :: answer))
  /\ R_Peek res = last_n (RR_PeekLast (with_defaults request)) (user :: answer)
  /\ (R_Error res = None -> exists p, SP_Status p = Some (R_Status res)
      /\ fst (GetSession s (R_SessionID res) fs') = Ok (Some (patch_session p se))).
Proof.
  destruct (run_keeps_books registry request fs w res _ Hroot HR)
    as (cr & up & cl & ts & [<- <- <- <- Hd] & _ & Hcl & [Hne Hnum] & Hpeek). cbn [fst snd] in *.
  destruct (Run_books registry request _ _ l res HR) as (provider & prompt & _ & Hp & [Hsp Htu _]).
  destruct Hsp as (p0 & se & patch & _ & Hc & _ & Hup & Hst & _).
  destruct Htu as (user & answer & Hts & Hcont & Hrole & Hans).
  destruct (Hd Hjson) as [Hs (bs & B1 & B2 & B3)]. rewrite Hempty in B3. cbn [app] in B3.
  specialize (Hpeek Hjson Hempty Hne). rewrite (indexed_sort TU_Index 0) in Hpeek by exact Hnum.
  exists se, user, answer. rewrite <- Hts. split_and!; try done.
  - intros Hr. rewrite Hcont. by apply Hp.
  - unfold PeekTurns. rewrite (peek_log _ _ _ (stored l) bs); [|done| |done].
    + rewrite B2. by rewrite (indexed_sort TU_Index 0) by exact Hnum.
    + apply default_Some; [exact B3|]. apply log_text_nonempty. intros ->. by apply Forall2_nil_inv_r in B1.
  - intros He. exists patch. split; [done|]. apply get_at; [done|]. apply Hs. rewrite (Hcl He), Hc, Hup. done.
Qed.

(** A finished single-shot run is on disk.  When a run over the file store
    returns a result, from any files with no turns of its session, the store
    reads back, from the files it leaves, the turns the run stored - the prompt,
    then the response if there is one - all or the last [n]; the turns in the
    result are the last of these that were asked for; and, unless the prompt
    could not be written, the stored session is the one the run created, closed
    with the status of the result. *)
Theorem Run_on_files (registry : Registry) (request : RunRequest) (fs fs' : FS) (w w' : World)
    (l : list (run_call Process)) (res : RunResult) (n : Z) (Hroot : st_root s <> [])
    (HR : Run_files registry request ((fs, w), []) = (inr res, ((fs', w'), l)))
    (Hempty : log_at s fs FTurn (R_SessionID res) = [])
    (Hjson : faithful (created l) (updated l) (stored l)) (Hfaults : fs_faults fs' = []) :
  exists se user answer, created l = [se] /\ stored l = user :: answer
  /\ TU_Role user = "user" /\ (RR_Prompt request <> [] -> TU_Content user = RR_Prompt request)
  /\ assistant (R_Response res) answer
  /\ fst (PeekTurns s (R_SessionID res) n fs') = Ok (last_n n (user :: answer))
  /\ R_Peek res = last_n (RR_PeekLast (with_defaults request)) (user :: answer)
  /\ (R_Error res = None -> exists p, SP_Status p = Some (R_Status res)
      /\ fst (GetSession s (R_SessionID res) fs') = Ok (Some (patch_session p se))).
Proof. by apply (run_files_read_back registry request fs fs' w w' l). Qed.
End Properties.

(** ** A run over a fresh store *)
Module DiskSim.
Definition log0 : list (run_call nat) := snd (snd OrchSim.run).
Definition opened : Session := default (StoreSim.session []) (head (created log0)).
Definition completed : Session := default opened (session_record (created log0) (closed log0)).

#[export] Instance jS : JSON Session := StoreSim.table_json [(opened, "{running}"); (completed, "{completed}")].
#[export] Instance jT : JSON Turn := StoreSim.table_json (zip (stored log0) ["{0}"; "{1}"]).
#[export] Instance env : OrchEnv (FS * Z) nat :=
  disk_env (jC := StoreSim.jC) (jCT := StoreSim.jCT) StoreSim.event_json StoreSim.store (env0 := OrchSim.env).

Definition run := Run (env := env) OrchSim.registry OrchSim.request ((StoreSim.fresh, 0), []).
Definition files : FS := fst (fst (snd run)).
Definition log : list (run_call nat) := snd (snd run).

Lemma run_files_eq : run = (inr (with_peek OrchSim.res (stored log)), ((files, snd (fst (snd run))), log)).
Proof. vm_compute. reflexivity. Qed.
Lemma opened_eq : created log = [opened].
Proof. vm_compute. reflexivity. Qed.
Definition closing : gostring * SessionPatch := default ([], StoreSim.patch) (head (updated log0)).
Lemma updated_eq : updated log = [closing].
Proof. vm_compute. reflexivity. Qed.
Definition turn (i : nat) : Turn := default StoreSim.single (stored log0 !! i).
Lemma stored_eq : stored log = [turn 0; turn 1].
Proof. vm_compute. reflexivity. Qed.
Lemma completed_eq : patch_session (snd closing) opened = completed.
Proof. vm_compute. reflexivity. Qed.
End DiskSim.

#[local] Existing Instance DiskSim.jS.
#[local] Existing Instance DiskSim.jT.

Lemma disk_faithful : faithful (created DiskSim.log) (updated DiskSim.log) (stored DiskSim.log).
Proof.
  rewrite DiskSim.opened_eq, DiskSim.updated_eq, DiskSim.stored_eq. split_and!.
  - apply Forall_singleton. exists "{running}". split; vm_compute; reflexivity.
  - intros x u Hx%list_elem_of_singleton Hu%list_elem_of_singleton. subst x u. rewrite DiskSim.completed_eq.
    exists "{completed}". split; vm_compute; reflexivity.
  - apply Forall_cons_2; [exists "{0}"|apply Forall_cons_2; [exists "{1}"|apply Forall_nil_2]].
    all: eval_line.
Qed.

Lemma Run_on_files_witness :
  exists se user answer, created DiskSim.log = [se] /\ stored DiskSim.log = user :: answer
  /\ TU_Role user = "user" /\ (RR_Prompt OrchSim.request <> [] -> TU_Content user = "say hi")
  /\ assistant "hi" answer
  /\ fst (PeekTurns StoreSim.store (R_SessionID OrchSim.res) 0 DiskSim.files) = Ok (last_n 0 (user :: answer))
  /\ stored DiskSim.log = last_n 10 (user :: answer)
  /\ (R_Error OrchSim.res = None -> exists p, SP_Status p = Some RunCompleted
      /\ fst (GetSession StoreSim.store (R_SessionID OrchSim.res) DiskSim.files) = Ok (Some (patch_session p se))).
Proof.
  exact (Run_on_files StoreSim.event_json StoreSim.store OrchSim.registry OrchSim.request StoreSim.fresh DiskSim.files
    0 _ DiskSim.log (with_peek OrchSim.res (stored DiskSim.log)) 0 ltac:(discriminate) DiskSim.run_files_eq
    ltac:(vm_compute; reflexivity) disk_faithful ltac:(vm_compute; reflexivity)).
Defined.
