(* ===== verification/Process.v ===== *)
(** * The pseudo-terminal process ([internal/terminal/process.go], [runtime.go])

    A process is two goroutines and two channels between a child and the code
    that reads it.  [step] is one atomic step of the child, of [readOutput], of
    [wait], of a call of [Terminate], or of the reader; an execution is any
    sequence of enabled steps.  The kernel is modelled by what the code relies
    on: a read returns some of the bytes the child wrote and nobody read yet,
    and fails when there are none and the child is gone, or once the file is
    closed.  The bytes that [ChildWrites] carries are those that the line
    discipline makes readable: the output of the child after its translation of
    line feeds, and the echo of what was written to the terminal. *)
From S2P Require Import Prelude GoLib Model Ansi FileSys Adapter Orchestrator.

(** ** [process.go] *)

(** What [cmd.Wait] returns: nil, an [ExitError], another error. *)
Inductive wait_outcome :=
| WaitNil
| WaitExitError (code : Z)
| WaitFailed (e : goerr).

Definition exit_result (w : wait_outcome) : ExitResult :=
  match w with
  | WaitNil => {| X_Code := 0; X_Err := None |}
  | WaitExitError code => {| X_Code := code; X_Err := None |}
  | WaitFailed e => {| X_Code := 0; X_Err := Some e |}
  end.

(** Where [readOutput], [wait] and a call of [Terminate] are. *)
Inductive reader_pc :=
| RRead
| RSend (e : StreamEvent)
| RClosed.

Inductive waiter_pc :=
| WWait
| WSend (r : ExitResult)
| WClose
| WEnd.

Inductive term_pc :=
| TIdle
| TWaiting
| TEnded.

Record process := {
  pending : gostring;
  exited : option wait_outcome;
  ptmx_open : bool;
  reader : reader_pc;
  outputCh : list StreamEvent;
  waiter : waiter_pc;
  doneCh : list ExitResult;
  done_closed : bool;
  term : term_pc;
}.

(** [newProcess] *)
Definition newProcess : process :=
  {| pending := []; exited := None; ptmx_open := true; reader := RRead; outputCh := [];
     waiter := WWait; doneCh := []; done_closed := false; term := TIdle |}.

Definition outputCap : nat := 128.
Definition doneCap : nat := 1.
Definition readSize : nat := 4096.

Section Updates.
Variable p : process.
Definition set_child (b : gostring) (w : option wait_outcome) : process :=
  {| pending := b; exited := w; ptmx_open := ptmx_open p; reader := reader p; outputCh := outputCh p;
     waiter := waiter p; doneCh := doneCh p; done_closed := done_closed p; term := term p |}.
Definition set_reader (b : gostring) (pc : reader_pc) (q : list StreamEvent) : process :=
  {| pending := b; exited := exited p; ptmx_open := ptmx_open p; reader := pc; outputCh := q;
     waiter := waiter p; doneCh := doneCh p; done_closed := done_closed p; term := term p |}.
Definition set_waiter (o : bool) (pc : waiter_pc) (q : list ExitResult) (closed : bool) : process :=
  {| pending := pending p; exited := exited p; ptmx_open := o; reader := reader p; outputCh := outputCh p;
     waiter := pc; doneCh := q; done_closed := closed; term := term p |}.
Definition set_term (pc : term_pc) (q : list ExitResult) : process :=
  {| pending := pending p; exited := exited p; ptmx_open := ptmx_open p; reader := reader p;
     outputCh := outputCh p; waiter := waiter p; doneCh := q; done_closed := done_closed p; term := pc |}.
End Updates.

(** The steps.  The child, and what it leaves behind, may write at any time. *)
Inductive label :=
| ChildWrites (b : gostring)
| ChildExits (w : wait_outcome)
| ReaderReads (n : nat) (now : time)
| ReaderFails
| ReaderSends
| WaiterSteps
| TermCalled (kill_err : option goerr)
| TermTakes
| TermTimesOut
| RecvOutput
| RecvDone
| Ticks (now : time).

(** [readOutput]: a read of up to 4096 bytes, the send, and the end. *)
Definition readOutput (p : process) (l : label) : option process :=
  match reader p, l with
  | RRead, ReaderReads n now =>
      let chunk := take n (pending p) in
      if ptmx_open p && negb (bool_decide (chunk = [])) && (n <=? readSize)%nat then
        Some (set_reader p (drop n (pending p))
                (RSend {| SE_Timestamp := now; SE_Kind := StreamEventOutput; SE_Data := chunk |}) (outputCh p))
      else None
  | RRead, ReaderFails =>
      if negb (ptmx_open p) || (bool_decide (pending p = []) && bool_decide (exited p <> None))
      then Some (set_reader p (pending p) RClosed (outputCh p)) else None
  | RSend e, ReaderSends =>
      if (length (outputCh p) <? outputCap)%nat
      then Some (set_reader p (pending p) RRead (outputCh p ++ [e])) else None
  | _, _ => None
  end.

(** [wait]: [cmd.Wait], [ptmx.Close], the send on [doneCh], its close. *)
Definition wait (p : process) : option process :=
  match waiter p with
  | WWait => match exited p with
             | Some w => Some (set_waiter p false (WSend (exit_result w)) (doneCh p) (done_closed p))
             | None => None
             end
  | WSend r => if (length (doneCh p) <? doneCap)%nat
               then Some (set_waiter p (ptmx_open p) WClose (doneCh p ++ [r]) (done_closed p)) else None
  | WClose => Some (set_waiter p (ptmx_open p) WEnd (doneCh p) true)
  | WEnd => None
  end.

Definition ErrProcessDone : goerr := ErrNew "os: process already finished".

(** [Terminate], once: the signal, then the exit or the grace period. *)
Definition Terminate (p : process) (l : label) : option process :=
  match term p, l with
  | TIdle, TermCalled e => Some (set_term p (if bool_decide (e = None \/ e = Some ErrProcessDone) then TWaiting else TEnded) (doneCh p))
  | TWaiting, TermTakes =>
      match doneCh p with
      | _ :: q => Some (set_term p TEnded q)
      | [] => if done_closed p then Some (set_term p TEnded []) else None
      end
  | TWaiting, TermTimesOut => Some (set_term p TEnded (doneCh p))
  | _, _ => None
  end.

Definition step (p : process) (l : label) : option process :=
  match l with
  | ChildWrites b => Some (set_child p (pending p ++ b) (exited p))
  | ChildExits w => if bool_decide (exited p = None) then Some (set_child p (pending p) (Some w)) else None
  | ReaderReads _ _ | ReaderFails | ReaderSends => readOutput p l
  | WaiterSteps => wait p
  | TermCalled _ | TermTakes | TermTimesOut => Terminate p l
  | RecvOutput =>
      match outputCh p, reader p with
      | _ :: q, _ => Some (set_reader p (pending p) (reader p) q)
      | [], RClosed => Some p
      | [], _ => None
      end
  | RecvDone =>
      match doneCh p with
      | _ :: q => Some (set_term p (term p) q)
      | [] => if done_closed p then Some p else None
      end
  | Ticks _ => Some p
  end.

(** What the completion loop gets from a step. *)
Definition received (p : process) (l : label) : list loop_event :=
  match l with
  | RecvOutput => match outputCh p with e :: _ => [LOutput e] | [] => [LOutputClosed] end
  | RecvDone => match doneCh p with r :: _ => [LDone r] | [] => [LDoneClosed] end
  | Ticks now => [LTick now]
  | _ => []
  end.

Fixpoint exec (p : process) (ls : list label) : option (process * list loop_event) :=
  match ls with
  | [] => Some (p, [])
  | l :: ls =>
      p' ← step p l;
      '(p'', evs) ← exec p' ls;
      Some (p'', received p l ++ evs)
  end.

(** ** [runtime.go] *)

(** [cmd.Env]: the options in any order of the map's iteration. *)
Definition spawn_environ (environ : list gostring) (spec : SpawnSpec) (order : list (gostring * gostring))
    : list gostring :=
  environ ++ (if bool_decide (HomeDir spec = []) then [] else ["HOME=" ++ HomeDir spec])
          ++ ((fun kv : gostring * gostring => fst kv ++ "=" ++ snd kv) <$> order).

(** [uint16] of an [int]. *)
Definition uint16 (z : Z) : Z := z mod 65536.

Definition winsize (spec : SpawnSpec) : Z * Z :=
  let rows := uint16 (TerminalRows spec) in
  let cols := uint16 (TerminalCols spec) in
  (if rows =? 0 then 24 else rows, if cols =? 0 then 80 else cols).

(** [Runtime.Spawn] up to the call of [pty.StartWithSize]. *)
Record start := {
  start_Path : gostring;
  start_Args : list gostring;
  start_Dir : gostring;
  start_Env : list gostring;
  start_Size : Z * Z;
}.

Definition Spawn (environ : list gostring) (spec : SpawnSpec) (order : list (gostring * gostring)) : result start :=
  if bool_decide (Command spec = []) then Err (ErrNew "missing command")
  else Ok {| start_Path := Command spec; start_Args := Args spec; start_Dir := Cwd spec;
             start_Env := spawn_environ environ spec order; start_Size := winsize spec |}.

(** [os/exec] gives the child the last setting of each variable. *)
Fixpoint child_getenv (env : list gostring) (k : gostring) : option gostring :=
  match env with
  | [] => None
  | e :: env =>
      match child_getenv env k with
      | Some v => Some v
      | None => if HasPrefix e (k ++ "=") then Some (drop (length k + 1) e) else None
      end
  end.

(** ** Lemmas on executions *)

(** All that the child wrote. *)
Definition written (ls : list label) : gostring :=
  ls ≫= (fun l => match l with ChildWrites b => b | _ => [] end).

(** The exit results among what the loop received. *)
Definition results (evs : list loop_event) : list ExitResult :=
  omap (fun ev => match ev with LDone r => Some r | _ => None end) evs.

(** What is on its way from the child to the loop. *)
Definition sending (p : process) : gostring :=
  match reader p with RSend e => SE_Data e | _ => [] end.
Definition in_flight (p : process) : gostring :=
  (outputCh p ≫= SE_Data) ++ sending p ++ pending p.

Definition chunk_ok (e : StreamEvent) : Prop :=
  SE_Kind e = StreamEventOutput /\ SE_Data e <> [] /\ (length (SE_Data e) <= readSize)%nat.

#[export] Instance wait_outcome_eq_dec : EqDecision wait_outcome.
Proof. solve_decision. Defined.
#[export] Instance ExitResult_eq_dec : EqDecision ExitResult.
Proof. solve_decision. Defined.
#[export] Instance waiter_pc_eq_dec : EqDecision waiter_pc.
Proof. solve_decision. Defined.

(** What every execution keeps true of a process and of what was received. *)
Record proc_ok (out : gostring) (p : process) (evs : list loop_event) : Prop := {
  po_output : out = outputs evs ++ in_flight p;
  po_chunks : Forall chunk_ok (outputCh p) /\ (length (outputCh p) <= outputCap)%nat
              /\ match reader p with RSend e => chunk_ok e | _ => True end;
  po_ptmx : ptmx_open p = bool_decide (waiter p = WWait);
  po_closed : done_closed p = bool_decide (waiter p = WEnd) /\ (LDoneClosed ∈ evs -> waiter p = WEnd);
  po_done : match waiter p with
            | WWait => doneCh p = [] /\ results evs = []
            | WSend r => doneCh p = [] /\ results evs = [] /\ exists w, exited p = Some w /\ r = exit_result w
            | WClose | WEnd => exists w, exited p = Some w
                /\ (results evs ++ doneCh p = [] /\ term p = TEnded \/ results evs ++ doneCh p = [exit_result w])
            end;
}.

Lemma newProcess_ok : proc_ok [] newProcess [].
Proof.
  split; [done| |done| |done]; split_and!; try done; try (cbn; lia). by intros ?%elem_of_nil.
Qed.

(** Of at most one result none is left when one is taken. *)
Lemma take_result {A} (rs q : list A) x (P : Prop) :
  P -> rs ++ q = [] \/ rs ++ q = [x] -> rs ++ drop 1 q = [] /\ P \/ rs ++ drop 1 q = [x].
Proof.
  intros HP [H|H]; [left; by apply app_nil in H as [-> ->]|].
  destruct rs as [|r rs], q as [|y q]; cbn in *; auto.
  - injection H as _ ->. by left.
  - exfalso. apply (f_equal length) in H. rewrite !length_cons, length_app in H. cbn in H. lia.
Qed.

Lemma outputs_app a b : outputs (a ++ b) = outputs a ++ outputs b.
Proof. apply bind_app. Qed.

Lemma results_app a b : results (a ++ b) = results a ++ results b.
Proof. apply omap_app. Qed.

Lemma reader_ok out p evs l p' :
  proc_ok out p evs -> readOutput p l = Some p' -> proc_ok out p' evs.
Proof.
  intros [H1 (H2 & H3 & H4) H5 H6 H7] H. unfold readOutput in H. unfold in_flight, sending in H1.
  destruct (reader p) as [|e|] eqn:Er; [| |done]; destruct l; try done.
  - destruct (ptmx_open p) eqn:Eo; [|done]. cbn [andb] in H.
    destruct (bool_decide (take n (pending p) = [])) eqn:Et; [done|]. cbn [negb andb] in H.
    destruct (Nat.leb_spec n readSize) as [Hn|]; [|done]. injection H as <-. bool_facts.
    split; cbn; try done.
    + unfold in_flight, sending. cbn. by rewrite H1, take_drop.
    + split_and!; try done. split_and!; [done|done|]. cbn [SE_Data]. rewrite length_take. lia.
    + by rewrite Eo.
  - destruct (negb (ptmx_open p) || _); [|done]. injection H as <-.
    by split.
  - destruct (Nat.ltb_spec (length (outputCh p)) outputCap) as [Hlt|]; [|done]. injection H as <-.
    split; cbn; try done.
    + unfold in_flight, sending. cbn. rewrite bind_app. cbn. rewrite app_nil_r, <- app_assoc. exact H1.
    + split_and!; [apply Forall_app; split; [done|by apply Forall_singleton]|rewrite length_app; cbn; lia|done].
Qed.

Lemma waiter_ok out p evs p' : proc_ok out p evs -> wait p = Some p' -> proc_ok out p' evs.
Proof.
  intros [H1 H2 H5 [H6 H6'] H7] H. unfold wait in H. destruct (waiter p) as [|r| |] eqn:Ew; [| | |done].
  - destruct (exited p) as [w|] eqn:Ex; [|done]. injection H as <-. destruct H7 as [H7 H8].
    split; cbn [set_waiter outputCh reader ptmx_open waiter doneCh done_closed exited]; try done.
    + split; [done|]. intros Hin. by apply H6' in Hin.
    + split_and!; try done. by exists w.
  - destruct H7 as (H7 & H8 & w & Hw & ->). rewrite H7 in H. injection H as <-.
    split; cbn [set_waiter outputCh reader ptmx_open waiter doneCh done_closed exited]; try done.
    + split; [done|]. intros Hin. by apply H6' in Hin.
    + exists w. split; [done|]. right. by rewrite H8.
  - injection H as <-. by split.
Qed.

Lemma terminate_ok out p evs l p' :
  proc_ok out p evs -> Terminate p l = Some p' -> proc_ok out p' evs.
Proof.
  intros [H1 H2 H5 H6 H7] H.
  assert (term p <> TEnded /\ exists pc q, p' = set_term p pc q
    /\ (q = doneCh p \/ q = drop 1 (doneCh p) /\ waiter p <> WWait /\ pc = TEnded)) as (Ht & pc & q & -> & Hq).
  { unfold Terminate in H. destruct (term p), l; try done; split; try done; try (injection H as <-; eexists _, _; by auto).
    destruct (doneCh p) as [|r q] eqn:Ed.
    - destruct (done_closed p); [|done]. injection H as <-. eexists _, _. by auto.
    - injection H as <-. eexists _, _. split; [done|]. right. split_and!; try done. intros E. rewrite E in H7. by destruct H7. }
  assert (forall w, exited p = Some w -> results evs ++ doneCh p = [] /\ term p = TEnded \/ results evs ++ doneCh p = [exit_result w]
    -> exists w, exited p = Some w /\ (results evs ++ q = [] /\ pc = TEnded \/ results evs ++ q = [exit_result w])) as Hw.
  { intros w Hx [[_ ?]|H8]; [done|]. exists w. split; [done|]. destruct Hq as [->|(-> & _ & ->)]; [by right|].
    apply take_result; auto. }
  split; cbn; try done. destruct (waiter p) eqn:Ew; try done.
  - by destruct Hq as [->|(-> & ? & _)].
  - destruct H7 as (H7 & H8 & H9). by destruct Hq as [->|(-> & _)]; rewrite H7.
  - destruct H7 as (w & Hx & H7). by eapply Hw.
  - destruct H7 as (w & Hx & H7). by eapply Hw.
Qed.

Lemma step_ok out p evs l p' :
  proc_ok out p evs -> step p l = Some p' -> proc_ok (out ++ written [l]) p' (evs ++ received p l).
Proof.
  intros Hok H.
  assert (written [l] = [] -> received p l = [] -> proc_ok out p' evs -> proc_ok (out ++ written [l]) p' (evs ++ received p l)) as Hsame.
  { intros -> ->. by rewrite !app_nil_r. }
  destruct l; cbn [step] in H; try (apply Hsame; [done|done|]; first [by eapply reader_ok|by eapply waiter_ok|by eapply terminate_ok]).
  - injection H as <-. destruct Hok as [H1 H2 H5 H6 H7]. cbn [received]. unfold written. cbn [mbind list_bind]. rewrite !app_nil_r.
    split; cbn; try done.
    unfold in_flight, sending in *. cbn. rewrite H1, <- !app_assoc. done.
  - destruct (bool_decide (exited p = None)) eqn:E; [|done]. injection H as <-. bool_facts. apply Hsame; [done|done|].
    destruct Hok as [H1 H2 H5 H6 H7]. split; cbn; try done.
    destruct (waiter p); [done|destruct H7 as (? & ? & w' & Hw & _)|destruct H7 as (w' & Hw & _)..]; by rewrite Hw in E.
  - destruct Hok as [H1 (H2 & H3 & H4) H5 [H6 H6'] H7]. cbn [received]. rewrite app_nil_r.
    assert (forall ev, ev <> LDoneClosed -> LDoneClosed ∈ evs ++ [ev] -> waiter p = WEnd) as Hcl.
    { intros ev Hne [Hin|Hin%list_elem_of_singleton]%elem_of_app; [auto|congruence]. }
    destruct (outputCh p) as [|e q] eqn:Eq.
    + destruct (reader p) eqn:Er; try done. injection H as <-. split; rewrite ?results_app, ?app_nil_r; rewrite ?Eq, ?Er; try done.
      * rewrite outputs_app, app_nil_r. exact H1.
      * split; [done|]. by apply Hcl.
    + injection H as <-. cbn in H3. apply Forall_cons in H2 as [_ H2].
      split; cbn [set_reader outputCh reader ptmx_open waiter doneCh done_closed exited]; rewrite ?results_app, ?app_nil_r; try done.
      * rewrite outputs_app. unfold in_flight, sending in *. rewrite Eq in H1. cbn in *. by rewrite app_nil_r, H1, <- !app_assoc.
      * split_and!; [done|lia|done].
      * split; [done|]. by apply Hcl.
  - destruct Hok as [H1 H2 H5 [H6 H6'] H7]. cbn [received]. rewrite app_nil_r.
    destruct (doneCh p) as [|r q] eqn:Eq.
    + destruct (done_closed p) eqn:Ed; [|done]. injection H as <-. symmetry in H6. bool_facts.
      split; rewrite ?results_app, ?app_nil_r, ?outputs_app, ?Eq; try done; try (cbn; rewrite ?app_nil_r; done).
      rewrite Ed, bool_decide_true; done.
    + injection H as <-. split; cbn [set_term outputCh reader ptmx_open waiter doneCh done_closed exited in_flight sending].
      * rewrite outputs_app. cbn. rewrite app_nil_r. exact H1.
      * done.
      * done.
      * split; [done|]. intros [Hin|Hin%list_elem_of_singleton]%elem_of_app; [auto|discriminate].
      * rewrite results_app. cbn [results omap list_omap]. destruct (waiter p); [by destruct H7|by destruct H7|..];
          destruct H7 as (w & Hw & H7); exists w; (split; [done|]); by rewrite <- app_assoc.
  - injection H as <-. destruct Hok as [H1 H2 H5 [H6 H6'] H7]. cbn [received]. rewrite app_nil_r.
    split; rewrite ?results_app, ?outputs_app, ?app_nil_r; try done.
    split; [done|]. intros [Hin|Hin%list_elem_of_singleton]%elem_of_app; [auto|discriminate].
Qed.

Lemma proc_exec_ok ls out p evs p' evs' :
  proc_ok out p evs -> exec p ls = Some (p', evs') -> proc_ok (out ++ written ls) p' (evs ++ evs').
Proof.
  revert out p evs evs'. induction ls as [|l ls IH]; intros out p evs evs' Hok H.
  - injection H as <- <-. by rewrite !app_nil_r.
  - cbn [exec] in H. destruct (step p l) as [p1|] eqn:E; [|done]. cbn in H.
    destruct (exec p1 ls) as [[p2 evs2]|] eqn:E2; [|done]. injection H as <- <-.
    assert (written (l :: ls) = written [l] ++ written ls) as -> by (unfold written; by rewrite <- bind_app).
    rewrite !app_assoc. eapply IH; [|exact E2]. by apply step_ok.
Qed.

Lemma exec_newProcess_ok ls p evs :
  exec newProcess ls = Some (p, evs) -> proc_ok (written ls) p evs.
Proof. apply (proc_exec_ok ls [] newProcess []), newProcess_ok. Qed.

Lemma exec_app p ls1 ls2 :
  exec p (ls1 ++ ls2) = ('(p1, evs1) ← exec p ls1; '(p2, evs2) ← exec p1 ls2; Some (p2, evs1 ++ evs2)).
Proof.
  revert p. induction ls1 as [|l ls1 IH]; intros p; cbn [exec app].
  - cbn. by destruct (exec p ls2) as [[]|].
  - destruct (step p l) as [p1|]; [|done]. cbn. rewrite IH. destruct (exec p1 ls1) as [[p2 evs2]|]; [|done]. cbn.
    destruct (exec p2 ls2) as [[p3 evs3]|]; [|done]. cbn. by rewrite <- app_assoc.
Qed.

(** Where the exit code that the loop holds comes from. *)
Lemma exit_after_in evs old code :
  exit_after old evs = Some code ->
  old = Some code \/ code = 0 /\ LDoneClosed ∈ evs \/ exists r, r ∈ results evs /\ code = X_Code r.
Proof.
  revert old. induction evs as [|ev evs IH] using rev_ind; intros old H; [by left|].
  unfold exit_after in H. rewrite foldl_app in H. cbn in H. rewrite results_app.
  destruct ev as [|e| |r| |now].
  5: { injection H as <-. right. left. split; [done|]. apply elem_of_app. right. by left. }
  4: { injection H as <-. right. right. exists r. split; [|done]. apply elem_of_app. right. by left. }
  all: destruct (IH _ H) as [?|[[??]|(r & ? & ?)]]; [by left|right; left; split; [done|apply elem_of_app; by left]|];
    right; right; exists r; split; [apply elem_of_app; by left|done].
Qed.

(** The steps that [wait] has left once the child is gone. *)
Definition waits_left (p : process) : nat :=
  match waiter p with WWait => 3 | WSend _ => 2 | WClose => 1 | WEnd => 0 end.
#[export] Instance label_is_wait_dec l : Decision (l = WaiterSteps).
Proof. destruct l; try (right; discriminate). by left. Defined.
Definition waits (ls : list label) : nat :=
  length (filter (fun l => l = WaiterSteps) ls).


Lemma step_keeps_waiter p l p' : step p l = Some p' -> l <> WaiterSteps -> waiter p' = waiter p.
Proof.
  intros H Hl. destruct l; cbn [step] in H; try done;
    repeat (progress unfold readOutput, Terminate in H || case_match || done);
    by injection H as <-.
Qed.

Lemma step_waits p l p' : step p l = Some p' -> (waits [l] + waits_left p' = waits_left p)%nat.
Proof.
  intros H. unfold waits. rewrite filter_cons, filter_nil. destruct (decide (l = WaiterSteps)) as [->|Hl].
  - cbn [length step] in *. unfold wait in H. unfold waits_left.
    destruct (waiter p); [destruct (exited p); [|done]|destruct (_ <? _)%nat; [|done]| |done]; by injection H as <-.
  - unfold waits_left. by erewrite step_keeps_waiter.
Qed.

Lemma exec_waits p ls p' evs : exec p ls = Some (p', evs) -> (waits ls + waits_left p' = waits_left p)%nat.
Proof.
  revert p evs. induction ls as [|l ls IH]; intros p evs H; cbn [exec] in H.
  - by injection H as <- <-.
  - destruct (step p l) as [p1|] eqn:E; [|done]. cbn in H.
    destruct (exec p1 ls) as [[p2 evs2]|] eqn:E2; [|done]. cbn in H. injection H as <- <-.
    apply step_waits in E. apply IH in E2.
    assert (waits (l :: ls) = waits [l] + waits ls)%nat as ->; [|lia].
    unfold waits. rewrite <- length_app, <- filter_app. done.
Qed.

Lemma step_exited p l p' w : step p l = Some p' -> exited p = Some w -> exited p' = Some w.
Proof.
  intros H Hw. destruct l; cbn [step] in H;
    repeat (progress unfold readOutput, wait, Terminate in H || case_match || done);
    injection H as <-; cbn; bool_facts; congruence.
Qed.

Lemma exec_exited p ls p' evs w : exec p ls = Some (p', evs) -> exited p = Some w -> exited p' = Some w.
Proof.
  revert p evs. induction ls as [|l ls IH]; intros p evs H Hw; cbn [exec] in H.
  - by injection H as <- <-.
  - destruct (step p l) as [p1|] eqn:E; [|done]. cbn in H.
    destruct (exec p1 ls) as [[p2 evs2]|] eqn:E2; [|done]. cbn in H. injection H as <- <-.
    eapply IH; [exact E2|]. by eapply step_exited.
Qed.

Lemma wait_enabled out p evs :
  proc_ok out p evs -> exited p <> None -> waits_left p <> 0%nat -> step p WaiterSteps <> None.
Proof.
  intros [_ _ _ _ H7] Hx Hw. cbn [step]. unfold wait, waits_left in *.
  destruct (waiter p); [by destruct (exited p)| |done|done]. by destruct H7 as (-> & _).
Qed.

(** ** Lemmas on the environment *)
Lemma child_getenv_app e1 e2 k :
  child_getenv (e1 ++ e2) k = match child_getenv e2 k with Some v => Some v | None => child_getenv e1 k end.
Proof.
  induction e1 as [|e e1 IH]; cbn [child_getenv app]; [by destruct (child_getenv e2 k)|].
  rewrite IH. by destruct (child_getenv e2 k).
Qed.

Lemma setting_key (k k' v : gostring) :
  "="%char ∉ k -> "="%char ∉ k' -> HasPrefix (k' ++ "=" ++ v) (k ++ "=") = bool_decide (k = k').
Proof.
  intros Hk Hk'. apply eq_true_iff_eq. rewrite HasPrefix_spec, bool_decide_eq_true.
  split; [|intros ->; exists v; by rewrite <- app_assoc].
  intros [t Ht]. rewrite <- app_assoc in Ht. revert k' Hk' Ht. induction k as [|c k IH]; intros [|c' k'] Hk' Ht; cbn in Ht.
  - done.
  - injection Ht as -> _. exfalso. apply Hk'. by left.
  - injection Ht as <- _. exfalso. apply Hk. by left.
  - injection Ht as -> Ht. f_equal. apply IH; [| |done]; intros ?; [apply Hk|apply Hk']; by right.
Qed.

Lemma setting_value (k v : gostring) : drop (length k + 1) (k ++ "=" ++ v) = v.
Proof. rewrite app_assoc, drop_app_length'; [done|]. by rewrite length_app. Qed.

Lemma child_getenv_setting k k' v :
  "="%char ∉ k -> "="%char ∉ k' -> child_getenv [k' ++ "=" ++ v] k = if decide (k = k') then Some v else None.
Proof.
  intros Hk Hk'. cbn [child_getenv]. rewrite setting_key by done.
  destruct (decide (k = k')) as [->|Hne]; [rewrite bool_decide_true by done; by rewrite setting_value|by rewrite bool_decide_false].
Qed.

Lemma child_getenv_pairs (order : list (gostring * gostring)) k :
  NoDup order.*1 -> "="%char ∉ k -> (forall k', k' ∈ order.*1 -> "="%char ∉ k') ->
  child_getenv ((fun kv : gostring * gostring => fst kv ++ "=" ++ snd kv) <$> order) k
  = (list_to_map order : gmap gostring gostring) !! k.
Proof.
  intros Hnd Hk. induction order as [|[k1 v1] order IH]; intros Hks; [done|].
  cbn [fmap list_fmap fst snd] in *. apply NoDup_cons in Hnd as [Hnin Hnd].
  match goal with |- child_getenv (?e :: ?l) _ = _ => change (e :: l) with ([e] ++ l) end.
  rewrite child_getenv_app, child_getenv_setting by (done || apply Hks; by left).
  rewrite IH by (done || intros; apply Hks; by right). cbn [list_to_map foldr fst snd].
  destruct (decide (k = k1)) as [->|Hne]; [|rewrite lookup_insert_ne by done; by destruct (_ !! k)].
  rewrite lookup_insert_eq. by rewrite not_elem_of_list_to_map_1.
Qed.

(** ** Properties *)

Lemma loop_on_process (provider : Adapter) (debugRaw : bool) (ls : list label) (p : process)
    (evs : list loop_event) (Hrun : exec newProcess ls = Some (p, evs)) :
  exists c acts, waitForCompletionLoop provider debugRaw loop_init (evs ++ [LCancelled]) = (Some c, acts)
  /\ (exists lost, written ls = fullRaw (cr_Transcript c) ++ lost)
  /\ bytesSeen (cr_Transcript c) = Z.of_nat (length (fullRaw (cr_Transcript c)))
  /\ (forall code, cr_ExitCode c = Some code ->
        exists w, exited p = Some w /\ (code = X_Code (exit_result w) \/ code = 0))
  /\ (length (outputCh p) <= outputCap)%nat /\ (length (doneCh p) <= doneCap)%nat
  /\ Forall chunk_ok (outputCh p).
Proof.
  apply exec_newProcess_ok in Hrun as [H1 (H2 & H3 & _) _ [_ H6] H7].
  destruct (loop_returns provider debugRaw loop_init (evs ++ [LCancelled])) as (c & acts & E);
    [apply elem_of_app; right; by left|].
  exists c, acts. split; [done|].
  destruct (completion_ends provider debugRaw loop_init (evs ++ [LCancelled]) [] c acts
    (NewTranscript_ok _) eq_refl eq_refl E) as (pre & ev & post & Hevs & Hraw & (_ & _ & Hseen) & Hcode & _).
  assert (exists rest, evs = pre ++ rest) as [rest ->].
  { destruct post as [|e post _] using rev_ind; cbn in Hevs.
    - apply app_inj_tail in Hevs as [-> _]. exists []. by rewrite app_nil_r.
    - rewrite app_comm_cons, app_assoc in Hevs. apply app_inj_tail in Hevs as [-> _]. by eexists. }
  assert (waiter p <> WWait -> (forall r, waiter p <> WSend r) -> exists w, exited p = Some w
    /\ (forall r, r ∈ results (pre ++ rest) ++ doneCh p -> r = exit_result w)) as Hex.
  { intros N1 N2. destruct (waiter p) as [|r| |]; [done|by destruct (N2 r)|..]; destruct H7 as (w & Hw & H7);
      exists w; (split; [done|]); intros r Hr; destruct H7 as [[H7 _]|H7]; rewrite H7 in Hr;
      [by apply elem_of_nil in Hr|by apply list_elem_of_singleton in Hr
      |by apply elem_of_nil in Hr|by apply list_elem_of_singleton in Hr]. }
  split_and!; try done.
  - exists (outputs rest ++ in_flight p). by rewrite H1, Hraw, outputs_app, <- app_assoc.
  - intros code Hc. rewrite Hcode in Hc. apply exit_after_in in Hc as [?|[[-> Hin]|(r & Hin & ->)]]; [done|..].
    + assert (waiter p = WEnd) as Hw by (apply H6, elem_of_app; by left).
      destruct Hex as (w & Hw' & _); [congruence|congruence|]. exists w. auto.
    + destruct Hex as (w & Hw' & Hr).
      * intros Hw. rewrite Hw, results_app in H7. destruct H7 as [_ [H7 _]%app_nil]. rewrite H7 in Hin. by apply elem_of_nil in Hin.
      * intros r' Hw. rewrite Hw, results_app in H7. destruct H7 as (_ & [H7 _]%app_nil & _). rewrite H7 in Hin. by apply elem_of_nil in Hin.
      * exists w. split; [done|]. left. f_equal. apply Hr. rewrite results_app, !elem_of_app. auto.
  - unfold doneCap. destruct (waiter p) as [|r| |]; [destruct H7 as [-> _]; cbn; lia|destruct H7 as [-> _]; cbn; lia|..];
      destruct H7 as (w & _ & [[H7 _]|H7]); apply (f_equal length) in H7; rewrite length_app in H7; cbn in H7; lia.
Qed.

(** C33: what a run gets of a process.  For every interleaving of the child, the
    two goroutines, [Terminate] and the completion loop: the transcript is a
    prefix of what the child wrote, in order and without a gap; an exit code is
    held only after the child ended, and is the child's or the 0 of the closed
    channel; the buffers stay within their capacities. *)
Theorem run_on_process (provider : Adapter) (debugRaw : bool) (ls : list label) (p : process)
    (evs : list loop_event) (Hrun : exec newProcess ls = Some (p, evs)) :
  exists c acts, waitForCompletionLoop provider debugRaw loop_init (evs ++ [LCancelled]) = (Some c, acts)
  /\ (exists lost, written ls = fullRaw (cr_Transcript c) ++ lost)
  /\ bytesSeen (cr_Transcript c) = Z.of_nat (length (fullRaw (cr_Transcript c)))
  /\ (forall code, cr_ExitCode c = Some code ->
        exists w, exited p = Some w /\ (code = X_Code (exit_result w) \/ code = 0))
  /\ (length (outputCh p) <= outputCap)%nat /\ (length (doneCh p) <= doneCap)%nat
  /\ Forall chunk_ok (outputCh p).
Proof. by apply (loop_on_process provider debugRaw ls). Qed.

(** C34: the exit is always reported.  Once the child is gone, [wait] needs at
    most three steps, however the rest interleaves and whether or not anyone
    reads: it is never blocked before the channel is closed, and then the exit
    result is buffered or was received exactly once - by the loop, or by
    [Terminate]. *)
Theorem exit_reported (ls ls' : list label) (p p' : process) (evs evs' : list loop_event) (w : wait_outcome)
    (Hrun : exec newProcess ls = Some (p, evs)) (Hexited : exited p = Some w)
    (Hrun' : exec p ls' = Some (p', evs')) :
  (waits ls' + waits_left p' = waits_left p)%nat /\ (waits_left p <= 3)%nat
  /\ (waits_left p' <> 0%nat -> step p' WaiterSteps <> None)
  /\ (waits_left p' = 0%nat -> done_closed p' = true
        /\ (results (evs ++ evs') ++ doneCh p' = [exit_result w]
            \/ results (evs ++ evs') ++ doneCh p' = [] /\ term p' = TEnded)).
Proof.
  assert (exec newProcess (ls ++ ls') = Some (p', evs ++ evs')) as Hall
    by (rewrite exec_app, Hrun; cbn; by rewrite Hrun').
  apply exec_newProcess_ok in Hall as Hok. pose proof (exec_exited _ _ _ _ _ Hrun' Hexited) as Hx.
  split_and!; [by eapply exec_waits|unfold waits_left; destruct (waiter p); lia| |].
  - intros Hw. eapply wait_enabled; [done|congruence|done].
  - destruct Hok as [_ _ _ [H6 _] H7]. unfold waits_left. destruct (waiter p'); try done. intros _.
    split; [done|]. destruct H7 as (w' & Hw' & H7). assert (w' = w) as -> by congruence. destruct H7; auto.
Qed.

(** The output of a process that ended well can be lost.  [wait] closes the
    terminal when the child is gone, and a reader that has not read by then
    gets an error: the loop then sees the exit alone, and a codex run is reported
    completed with an empty response; had the reader come first the run would
    have had the whole reply. *)
Theorem exit_loses_output (getenv : gostring -> gostring) (reply : gostring) (t now : time)
    (Hreply : reply <> []) (Hsize : (length reply <= readSize)%nat) :
  let observe evs := (fun c => (O_Status (cr_Observation c), fullRaw (cr_Transcript c)))
    <$> fst (waitForCompletionLoop (Codex.New getenv) false loop_init evs) in
  let exit := [ChildExits WaitNil; WaiterSteps] in
  let report := [ReaderFails; WaiterSteps; WaiterSteps; RecvOutput; RecvDone; Ticks now] in
  (exists p evs, exec newProcess ([ChildWrites reply] ++ exit ++ report) = Some (p, evs)
     /\ observe evs = Some (RunCompleted, []))
  /\ (exists p evs, exec newProcess ([ChildWrites reply] ++ [ReaderReads (length reply) t; ReaderSends] ++ exit ++ report)
        = Some (p, evs) /\ observe evs = Some (RunCompleted, reply))
  /\ X_Response (ad_ExtractResponse (Codex.New getenv) []) = [].
Proof.
  intros observe exit report. split_and!; [by eexists _, _| |done].
  eexists _, _. split.
  - cbn. rewrite firstn_all, bool_decide_false by done. cbn.
    rewrite (proj2 (Nat.leb_le (length reply) readSize) Hsize). cbn. rewrite drop_all. reflexivity.
  - unfold observe. cbn [app waitForCompletionLoop loop_step]. unfold Append. cbn [SE_Data].
    rewrite bool_decide_false by done. reflexivity.
Qed.

(** The child's environment.  In whatever order the options are iterated, the
    child sees the peer's own setting of a variable, else the override of [HOME],
    else what it inherits; and its window has between 1 and 65535 rows and
    columns, those asked for when they are in that range. *)
Theorem Spawn_start (environ : list gostring) (spec : SpawnSpec) (order : list (gostring * gostring))
    (k : gostring) (s : start)
    (Horder : order ≡ₚ map_to_list (Env spec)) (Hk : "="%char ∉ k)
    (Hkeys : forall k', k' ∈ dom (Env spec) -> "="%char ∉ k')
    (Hspawn : Spawn environ spec order = Ok s) :
  child_getenv (start_Env s) k
    = match Env spec !! k with
      | Some v => Some v
      | None => if bool_decide (k = "HOME" /\ HomeDir spec <> []) then Some (HomeDir spec) else child_getenv environ k
      end
  /\ start_Path s = Command spec /\ Command spec <> [] /\ start_Args s = Args spec
  /\ 1 <= fst (start_Size s) <= 65535 /\ 1 <= snd (start_Size s) <= 65535
  /\ (1 <= TerminalRows spec <= 65535 -> fst (start_Size s) = TerminalRows spec)
  /\ (1 <= TerminalCols spec <= 65535 -> snd (start_Size s) = TerminalCols spec).
Proof.
  unfold Spawn in Hspawn. case_bool_decide as Hc; [done|]. injection Hspawn as <-. cbn.
  assert (NoDup order.*1) as Hnd by (rewrite Horder; apply NoDup_fst_map_to_list).
  split_and!; try done.
  2-7: unfold winsize, uint16; cbn; pose proof (Z.mod_pos_bound (TerminalRows spec) 65536);
    pose proof (Z.mod_pos_bound (TerminalCols spec) 65536).
  2-5: case_match; lia.
  2-3: intros Hr; rewrite Z.mod_small by lia; case_match; lia.
  unfold spawn_environ. rewrite !child_getenv_app, child_getenv_pairs; [|done|done|].
  - assert (list_to_map order = Env spec) as ->.
    { rewrite <- (list_to_map_to_list (Env spec)). by apply list_to_map_proper. }
    destruct (Env spec !! k); [done|]. destruct (decide (HomeDir spec = [])) as [E|E].
    + rewrite (bool_decide_true (HomeDir spec = [])), bool_decide_false by (done || tauto). done.
    + rewrite (bool_decide_false (HomeDir spec = [])) by done.
      change ("HOME=" ++ HomeDir spec) with ("HOME" ++ "=" ++ HomeDir spec).
      rewrite (child_getenv_setting k "HOME") by (done || set_solver). case_decide as Ek.
      * by rewrite bool_decide_true.
      * rewrite bool_decide_false by tauto. done.
  - intros k' Hk'. apply Hkeys. rewrite Horder in Hk'. apply list_elem_of_fmap in Hk' as ([k1 v1] & -> & Hin).
    apply elem_of_map_to_list in Hin. apply elem_of_dom. by eexists.
Qed.

(** ** The theorems at concrete inputs *)
Module ProcSim.
Definition labels : list label :=
  [ChildWrites "hello"; ReaderReads 3 5; ReaderSends; RecvOutput; ChildExits (WaitExitError 2);
   WaiterSteps; ReaderFails; WaiterSteps; RecvDone].
Definition ran := exec newProcess labels.
Definition p : process := from_option fst newProcess ran.
Definition evs : list loop_event := from_option snd [] ran.
Definition spec : SpawnSpec :=
  {| Command := "claude"; Args := ["-p"]; Env := {[ ("TERM" : gostring) := ("xterm" : gostring) ]}; Cwd := "/w";
     HomeDir := "/h"; TerminalCols := 0; TerminalRows := 65600; PromptInArgs := false |}.
Definition started : start :=
  {| start_Path := "claude"; start_Args := ["-p"]; start_Dir := "/w";
     start_Env := spawn_environ ["HOME=/root"] spec [(("TERM" : gostring), ("xterm" : gostring))];
     start_Size := (64, 80) |}.
End ProcSim.

Lemma run_on_process_witness :
  fst <$> ProcSim.ran = Some ProcSim.p
  /\ exists c acts, waitForCompletionLoop (Codex.New (fun _ => [])) false loop_init (ProcSim.evs ++ [LCancelled])
       = (Some c, acts)
     /\ exists lost, written ProcSim.labels = fullRaw (cr_Transcript c) ++ lost.
Proof.
  split; [vm_compute; reflexivity|].
  destruct (run_on_process (Codex.New (fun _ => [])) false ProcSim.labels ProcSim.p ProcSim.evs
    ltac:(vm_compute; reflexivity)) as (c & acts & H1 & H2 & _).
  by exists c, acts.
Defined.

Lemma exit_reported_witness :
  let q := from_option fst newProcess (exec ProcSim.p [WaiterSteps]) in
  waits_left q = 0%nat /\ done_closed q = true.
Proof.
  split; [vm_compute; reflexivity|].
  apply (exit_reported ProcSim.labels [WaiterSteps] ProcSim.p _ ProcSim.evs [] (WaitExitError 2));
    vm_compute; reflexivity.
Defined.

Lemma exit_loses_output_witness :
  exists p evs, exec newProcess [ChildWrites "codex"; ChildExits WaitNil; WaiterSteps; ReaderFails; WaiterSteps;
    WaiterSteps; RecvOutput; RecvDone; Ticks 9] = Some (p, evs).
Proof.
  destruct (exit_loses_output (fun _ => []) "codex" 1 9 ltac:(discriminate)
    ltac:(apply Nat.leb_le; reflexivity)) as [(p & evs & H & _) _]. by exists p, evs.
Defined.

Lemma Spawn_start_witness :
  child_getenv (start_Env ProcSim.started) "HOME" = Some ("/h" : gostring)
  /\ child_getenv (start_Env ProcSim.started) "TERM" = Some ("xterm" : gostring).
Proof.
  split; [vm_compute; reflexivity|].
  refine (proj1 (Spawn_start ["HOME=/root"] ProcSim.spec [(("TERM" : gostring), ("xterm" : gostring))] "TERM"
    ProcSim.started _ _ _ _)).
  - cbn [ProcSim.spec Env]. by rewrite map_to_list_singleton.
  - by apply (bool_decide_unpack _).
  - intros k'. cbn [ProcSim.spec Env]. rewrite dom_singleton_L, elem_of_singleton. intros ->. by apply (bool_decide_unpack _).
  - reflexivity.
Defined.
