(* ===== verification/Api.v ===== *)
(** * The HTTP API ([internal/api])

    Routing, the middleware and the REST handlers as one function from a request
    and the store's state to a response; the slots of the event streams as
    atomic steps of concurrent handlers; the bytes of a stream; and the watcher's
    view of file events.  [net/http] gives a request by its method, the unescaped
    segments of its path, whether dot segments among them came unescaped, its query
    and its [Authorization] header. *)
From S2P Require Import Prelude GoLib Model FileSys Store StoreList.

(** ** Requests and responses *)
Record Request := {
  rq_Method : gostring;
  rq_path : list gostring;
  rq_dots : bool;
  rq_query : list (gostring * gostring);
  rq_Authorization : gostring;
}.

(** [url.Values.Get] *)
Fixpoint Query_Get (q : list (gostring * gostring)) (k : gostring) : gostring :=
  match q with
  | [] => []
  | (k', v) :: q => if bool_decide (k' = k) then v else Query_Get q k
  end.

(** What a handler writes: the value it encodes, or a text. *)
Inductive Body :=
| BNone
| BText (msg : gostring)
| BError (msg : gostring)
| BStatus (sse_count : option Z)
| BSessions (data : list Session) (total limit offset : Z)
| BSession (data : Session)
| BConversations (data : list Conversation) (total limit offset : Z)
| BConversation (data : Conversation)
| BTurns (data : list ConversationTurn) (total : Z).

Record Response := {
  rs_Code : Z;
  rs_AllowOrigin : option gostring;
  rs_Body : Body;
}.

Definition reply (code : Z) (b : Body) : Response :=
  {| rs_Code := code; rs_AllowOrigin := None; rs_Body := b |}.

(** A response, or an event stream - of a conversation, or of the lifecycle -
    that the server begins when it has a slot for it. *)
Inductive outcome :=
| Reply (r : Response)
| OpenStream (id : option gostring) (AllowOrigin : option gostring).

Record Config := {
  cfg_Port : Z;
  cfg_APIKey : gostring;
  cfg_CORSOrigin : gostring;
  cfg_StoreRoot : gostring;
}.

(** ** The store the handlers read *)
Class StoreReader (World : Type) := {
  rd_ListSessions : SessionFilter -> World -> result (list Session * Z) * World;
  rd_GetSession : gostring -> World -> result (option Session) * World;
  rd_ListConversations : ConversationFilter -> World -> result (list Conversation * Z) * World;
  rd_GetConversation : gostring -> World -> result (option Conversation) * World;
  rd_PeekConversationTurns : gostring -> Z -> World -> result (list ConversationTurn) * World;
}.

(** ** [handlers_rest.go] *)
Definition maxLimit : Z := 500.

Definition valid_id_char (c : ascii) : bool :=
  is_lower c || ((65 <=? ord c) && (ord c <=? 90)) || is_digit c || ceq c "_" || ceq c "-".

Definition isValidID (id : gostring) : bool :=
  (1 <=? Z.of_nat (length id)) && (Z.of_nat (length id) <=? 128) && forallb valid_id_char id.

Definition parsePagination (r : Request) : Z * Z :=
  (match Atoi (Query_Get (rq_query r) "limit") with
   | Some n => if 0 <? n then Z.min n maxLimit else 20
   | None => 20
   end,
   match Atoi (Query_Get (rq_query r) "offset") with
   | Some n => if 0 <=? n then n else 0
   | None => 0
   end).

Definition writeError (code : Z) (msg : gostring) : Response := reply code (BError msg).
Definition internal_error : Response := writeError 500 "internal server error".

Definition status_filter (r : Request) : option gostring :=
  let v := Query_Get (rq_query r) "status" in if bool_decide (v = []) then None else Some v.

Section Handlers.
Context {World : Type} {rd : StoreReader World}.

Definition handleListSessions (r : Request) (w : World) : Response * World :=
  let '(limit, offset) := parsePagination r in
  let '(x, w) := rd_ListSessions {| SF_Status := status_filter r; SF_Limit := limit; SF_Offset := offset |} w in
  (match x with
   | Err _ => internal_error
   | Ok (sessions, total) => reply 200 (BSessions sessions total limit offset)
   end, w).

Definition handleGetSession (id : gostring) (w : World) : Response * World :=
  if negb (isValidID id) then (writeError 400 "invalid id", w)
  else let '(x, w) := rd_GetSession id w in
       (match x with
        | Err _ => internal_error
        | Ok None => writeError 404 "session not found"
        | Ok (Some sess) => reply 200 (BSession sess)
        end, w).

Definition handleListConversations (r : Request) (w : World) : Response * World :=
  let '(limit, offset) := parsePagination r in
  let '(x, w) := rd_ListConversations {| CF_Status := status_filter r; CF_Limit := limit; CF_Offset := offset |} w in
  (match x with
   | Err _ => internal_error
   | Ok (convs, total) => reply 200 (BConversations convs total limit offset)
   end, w).

Definition handleGetConversation (id : gostring) (w : World) : Response * World :=
  if negb (isValidID id) then (writeError 400 "invalid id", w)
  else let '(x, w) := rd_GetConversation id w in
       (match x with
        | Err _ => internal_error
        | Ok None => writeError 404 "conversation not found"
        | Ok (Some conv) => reply 200 (BConversation conv)
        end, w).

Definition handleListTurns (id : gostring) (w : World) : Response * World :=
  if negb (isValidID id) then (writeError 400 "invalid id", w)
  else let '(x, w) := rd_PeekConversationTurns id 0 w in
       (match x with
        | Err _ => internal_error
        | Ok turns => reply 200 (BTurns turns (Z.of_nat (length turns)))
        end, w).

(** ** [server.go]: the routes *)
Inductive endpoint :=
| EHealth | EStatus | ESessions | ESession (id : gostring)
| EConversations | EConversation (id : gostring) | ETurns (id : gostring)
| ELifecycle | EStream (id : gostring).

(** The pattern that matches a path; a literal segment wins over a wildcard,
    which matches no empty segment. *)
Definition route (path : list gostring) : option endpoint :=
  let same (a b : gostring) := bool_decide (a = b) in
  match path with
  | [a] => if same a "health" then Some EHealth else None
  | a :: v :: rest =>
      if same a "api" && same v "v1" then
        match rest with
        | [c] => if same c "status" then Some EStatus
                 else if same c "sessions" then Some ESessions
                 else if same c "conversations" then Some EConversations else None
        | [c; id] =>
            if same id [] then None
            else if same c "sessions" then Some (ESession id)
            else if same c "conversations"
                 then Some (if same id "stream" then ELifecycle else EConversation id) else None
        | [c; id; e] =>
            if same c "conversations" && negb (same id [])
            then if same e "turns" then Some (ETurns id)
                 else if same e "stream" then Some (EStream id) else None
            else None
        | _ => None
        end
      else None
  | [] => None
  end.

(** [handleConversationStream] and [handleConversationsLifecycleStream], up to
    the slot. *)
Definition handleStream (id : gostring) (w : World) : outcome * World :=
  (if isValidID id then OpenStream (Some id) None else Reply (writeError 400 "invalid id"), w).

Definition call (h : Response * World) : outcome * World := let '(r, w) := h in (Reply r, w).

Definition handle (e : endpoint) (sse_count : Z) (r : Request) (w : World) : outcome * World :=
  match e with
  | EHealth => (Reply (reply 200 (BStatus None)), w)
  | EStatus => (Reply (reply 200 (BStatus (Some sse_count))), w)
  | ESessions => call (handleListSessions r w)
  | ESession id => call (handleGetSession id w)
  | EConversations => call (handleListConversations r w)
  | EConversation id => call (handleGetConversation id w)
  | ETurns id => call (handleListTurns id w)
  | ELifecycle => (OpenStream None None, w)
  | EStream id => handleStream id w
  end.

(** A path that the multiplexer cleans: with an empty segment before its end, or
    with a literal dot segment. *)
Definition unclean (r : Request) : bool :=
  existsb (fun x => bool_decide (x = [])) (removelast (rq_path r))
  || (rq_dots r && existsb (fun x => bool_decide (x = "." \/ x = "..")) (rq_path r)).

(** The multiplexer: it redirects to the cleaned path, but for CONNECT; a GET
    pattern matches GET and HEAD.  The [Location] header is left out. *)
Definition mux (sse_count : Z) (r : Request) (w : World) : outcome * World :=
  if unclean r && negb (bool_decide (rq_Method r = "CONNECT"))
  then (Reply (reply 301 (BText "Moved Permanently")), w)
  else
  match route (rq_path r) with
  | None => (Reply (reply 404 (BText "404 page not found")), w)
  | Some e =>
      if bool_decide (rq_Method r ∈ ["GET"; "HEAD"]%go) then handle e sse_count r w
      else (Reply (reply 405 (BText "Method Not Allowed")), w)
  end.

(** ** [middleware.go] *)
Definition allow (origin : gostring) (o : outcome) : outcome :=
  match o with
  | Reply r => Reply {| rs_Code := rs_Code r; rs_AllowOrigin := Some origin; rs_Body := rs_Body r |}
  | OpenStream id _ => OpenStream id (Some origin)
  end.

Definition corsMiddleware (origin : gostring) (next : Request -> World -> outcome * World)
    (r : Request) (w : World) : outcome * World :=
  let origin := if bool_decide (origin = []) then "*" else origin in
  let '(o, w) := if bool_decide (rq_Method r = "OPTIONS") then (Reply (reply 204 BNone), w)
                 else next r w in
  (allow origin o, w).

Definition unauthorized : Response := reply 401 (BText "unauthorized").

Definition apiKeyMiddleware (key : gostring) (next : Request -> World -> outcome * World)
    (r : Request) (w : World) : outcome * World :=
  if bool_decide (key = []) then next r w
  else let auth := rq_Authorization r in
       if negb (HasPrefix auth "Bearer ") || negb (bool_decide (TrimPrefix auth "Bearer " = key))
       then (Reply unauthorized, w)
       else next r w.

(** The handler that [ListenAndServe] serves. *)
Definition serve (cfg : Config) (sse_count : Z) (r : Request) (w : World) : outcome * World :=
  let h := corsMiddleware (cfg_CORSOrigin cfg) (mux sse_count) in
  if bool_decide (cfg_APIKey cfg = []) then h r w
  else apiKeyMiddleware (cfg_APIKey cfg) h r w.
End Handlers.

(** Paths of identifiers are clean. *)
Lemma unclean_valid r : forallb isValidID (rq_path r) = true -> unclean r = false.
Proof.
  intros H. unfold unclean. rewrite forallb_forall in H. apply orb_false_iff. split.
  - apply not_true_iff_false. intros (x & Hin & Hx)%existsb_exists. bool_facts. subst x.
    assert (In [] (rq_path r)) as Hr.
    { revert Hin. induction (rq_path r) as [|y l IH]; [done|]. cbn. destruct l; [done|]. intros [->|Hin]; [by left|right]. 
      apply IH; [|done]. intros z Hz. apply H. by right. }
    by apply H in Hr.
  - apply andb_false_iff. right. apply not_true_iff_false. intros (x & Hin & Hx)%existsb_exists. bool_facts.
    apply H in Hin. by destruct Hx as [->| ->].
Qed.

(** The address that [NewServer] listens on. *)
Definition listen_addr (cfg : Config) : gostring :=
  if cfg_Port cfg =? 0 then ":0" else ":" ++ Itoa (cfg_Port cfg).

(** The file store behind the handlers. *)
#[export] Instance file_store_reader {jS : JSON Session} {jC : JSON Conversation}
    {jCT : JSON ConversationTurn} {srt : SortSlice} (s : Store) : StoreReader FS := {|
  rd_ListSessions := ListSessions s;
  rd_GetSession := GetSession s;
  rd_ListConversations := ListConversations s;
  rd_GetConversation := GetConversation s;
  rd_PeekConversationTurns := PeekConversationTurns s;
|}.

(** ** Lemmas: what the handlers read *)

Lemma valid_id_safe id : isValidID id = true -> safe_id id.
Proof.
  unfold isValidID. intros H. apply andb_true_iff in H as [_ H]. intros Hin.
  rewrite forallb_forall in H. by apply list_elem_of_In, H in Hin.
Qed.

Section Confined.
Context {jS : JSON Session} {jC : JSON Conversation} {jCT : JSON ConversationTurn} {srt : SortSlice}.
Variable s : Store.
Hypothesis root : st_root s <> [].

(** The files of sessions and conversations, logs included. *)
Definition visible (p : gostring) : Prop :=
  is_Some (entry_of (sessionsDir s) p) \/ is_Some (entry_of (conversationsDir s) p).

(** A path is not both a file and a directory. *)
Definition tree_ok (fs : FS) : Prop := forall p, p ∈ fs_dirs fs -> fs_files fs !! p = None.

(** File systems that differ at most in files the API has no business with. *)
Record agree (fs1 fs2 : FS) : Prop := {
  ag_dirs : fs_dirs fs1 = fs_dirs fs2;
  ag_faults : fs_faults fs1 = fs_faults fs2;
  ag_files : forall p, visible p -> fs_files fs1 !! p = fs_files fs2 !! p;
  ag_tree1 : tree_ok fs1;
  ag_tree2 : tree_ok fs2;
}.

Definition same_tree (fs fs' : FS) : Prop := fs_files fs' = fs_files fs /\ fs_dirs fs' = fs_dirs fs.

(** Programs that write nothing and whose result is the same on both. *)
Definition reads {A} (m : FS -> A * FS) : Prop := forall fs1 fs2, agree fs1 fs2 ->
  exists a fs1' fs2', m fs1 = (a, fs1') /\ m fs2 = (a, fs2') /\ agree fs1' fs2'
  /\ same_tree fs1 fs1' /\ same_tree fs2 fs2'.

Lemma reads_ret {A} (a : A) : reads (fun fs => (a, fs)).
Proof. intros fs1 fs2 H. exists a, fs1, fs2. unfold same_tree. by split_and!. Qed.

Lemma reads_bind {A B} (m : FS -> A * FS) (k : A -> FS -> B * FS) :
  reads m -> (forall a, reads (k a)) -> reads (fun fs => let '(a, fs) := m fs in k a fs).
Proof.
  intros Hm Hk fs1 fs2 H. destruct (Hm fs1 fs2 H) as (a & f1 & f2 & -> & -> & H' & [S1 S2] & [S3 S4]).
  destruct (Hk a f1 f2 H') as (b & g1 & g2 & -> & -> & H'' & [T1 T2] & [T3 T4]).
  exists b, g1, g2. split_and!; try done; split; congruence.
Qed.

Lemma reads_map {A B} (m : FS -> A * FS) (f : A -> B) :
  reads m -> reads (fun fs => let '(a, fs) := m fs in (f a, fs)).
Proof. intros Hm. apply (reads_bind m (fun a fs => (f a, fs)) Hm). intros a. apply reads_ret. Qed.

Lemma reads_ext {A} (m m' : FS -> A * FS) : (forall fs, m fs = m' fs) -> reads m -> reads m'.
Proof. intros E H fs1 fs2 Ha. rewrite <- !E. by apply H. Qed.

Lemma reads_fault : reads next_fault.
Proof.
  intros fs1 fs2 [H1 H2 H3 H4 H5]. unfold next_fault. rewrite H2. eexists _, _, _. split; [done|].
  split; [done|]. split; [|by split]. split; cbn; first [congruence|done].
Qed.

Lemma reads_ReadFile p : visible p -> reads (ReadFile p).
Proof.
  intros Hp. unfold ReadFile. apply (reads_bind next_fault _ reads_fault). intros f fs1 fs2 H.
  destruct f; [|by apply reads_ret..]. pose proof H as [H1 _ H3 _ _]. unfold is_dir.
  rewrite (H3 p Hp), H1. destruct (fs_files fs2 !! p); by apply reads_ret.
Qed.

Lemma reads_OpenScan max p : visible p -> reads (OpenScan max p).
Proof.
  intros Hp. unfold OpenScan. apply (reads_bind next_fault _ reads_fault). intros f fs1 fs2 H.
  pose proof H as [H1 _ H3 _ _]. unfold is_dir. rewrite (H3 p Hp), H1.
  destruct f, (fs_files fs2 !! p); try destruct (Scan _ _); try destruct (_ || _);
    by apply reads_ret.
Qed.

Lemma name_leb_refl a : name_leb a a = true.
Proof. induction a as [|c a IH]; [done|]. cbn. rewrite ceq_refl, IH. apply orb_true_r. Qed.

Lemma name_leb_antisym a b : name_leb a b = true -> name_leb b a = true -> a = b.
Proof.
  revert b. induction a as [|x a IH]; intros [|y b]; cbn; try done.
  intros [H1|[E1 H1]%andb_true_iff]%orb_true_iff [H2|[E2 H2]%andb_true_iff]%orb_true_iff; first [apply Z.ltb_lt in H1|apply ceq_true in E1; subst]; first [apply Z.ltb_lt in H2|apply ceq_true in E2; subst];
    try lia. f_equal. by apply IH.
Qed.

Lemma name_leb_total a b : name_leb a b = true \/ name_leb b a = true.
Proof.
  revert b. induction a as [|x a IH]; intros [|y b]; cbn; [by left..|by right|].
  destruct (Z.lt_trichotomy (ord x) (ord y)) as [H|[H%ord_inj|H]].
  - left. by rewrite (proj2 (Z.ltb_lt _ _) H).
  - subst y. rewrite ceq_refl. destruct (IH b) as [->| ->]; rewrite orb_true_r; auto.
  - right. by rewrite (proj2 (Z.ltb_lt _ _) H).
Qed.

Lemma name_leb_trans a b c : name_leb a b = true -> name_leb b c = true -> name_leb a c = true.
Proof.
  revert b c. induction a as [|x a IH]; intros [|y b] [|z c]; cbn; try done.
  intros [H1|[E1 H1]%andb_true_iff]%orb_true_iff [H2|[E2 H2]%andb_true_iff]%orb_true_iff;
    first [apply Z.ltb_lt in H1|apply ceq_true in E1; subst y]; first [apply Z.ltb_lt in H2|apply ceq_true in E2; subst z].
  1-3: by rewrite (proj2 (Z.ltb_lt _ _)) by lia.
  - rewrite ceq_refl, (IH b c) by done. apply orb_true_r.
Qed.

#[local] Instance entry_le_total : Total entry_le.
Proof. intros x y. apply name_leb_total. Qed.
#[local] Instance entry_le_trans : Transitive entry_le.
Proof. intros x y z. apply name_leb_trans. Qed.

(** The entries of a directory before they are sorted. *)
Definition entries (fs : FS) (d : gostring) : list (gostring * bool) :=
  omap (fun p => (fun n => (n, false)) <$> entry_of d p) (fst <$> map_to_list (fs_files fs))
  ++ omap (fun p => (fun n => (n, true)) <$> entry_of d p) (elements (fs_dirs fs)).

Lemma elem_entries fs d n (b : bool) :
  (n, b) ∈ entries fs d <->
  entry_of d (d ++ "/" ++ n) = Some n
  /\ if b then d ++ "/" ++ n ∈ fs_dirs fs else is_Some (fs_files fs !! (d ++ "/" ++ n)).
Proof.
  unfold entries. rewrite elem_of_app, !list_elem_of_omap. split.
  - intros [(p & Hp & H)|(p & Hp & H)]; destruct (entry_of d p) as [n'|] eqn:E; try done;
      cbn in H; injection H as <- <-; pose proof E as (-> & _)%entry_of_spec; (split; [done|]).
    + apply list_elem_of_fmap in Hp as ([q x] & -> & Hq). apply elem_of_map_to_list in Hq. by eexists.
    + by apply elem_of_elements in Hp.
  - intros [E H]. destruct b; [right|left]; exists (d ++ "/" ++ n); rewrite E; (split; [|done]).
    + by apply elem_of_elements.
    + destruct H as [x Hx]. apply list_elem_of_fmap. exists (d ++ "/" ++ n, x). split; [done|].
      by apply elem_of_map_to_list.
Qed.

Lemma entries_NoDup fs d : NoDup (entries fs d).
Proof.
  assert (forall (b : bool) (l : list gostring), NoDup l ->
    NoDup (omap (fun p => (fun n => (n, b)) <$> entry_of d p) l)) as Hl.
  { intros b l H. apply omap_NoDup; [done|]. intros x y e Hx Hy.
    destruct (entry_of d x) eqn:Ex, (entry_of d y) eqn:Ey; try done. cbn in Hx, Hy.
    injection Hx as <-. injection Hy as ->.
    apply entry_of_spec in Ex as [-> _]. by apply entry_of_spec in Ey as [-> _]. }
  unfold entries. apply NoDup_app. split_and!.
  - apply Hl, NoDup_fst_map_to_list.
  - intros e (p & _ & H1)%list_elem_of_omap (q & _ & H2)%list_elem_of_omap.
    destruct (entry_of d p), (entry_of d q); try done. cbn in H1, H2.
    injection H1 as <-. discriminate.
  - apply Hl, NoDup_elements.
Qed.

(** The same entries sort to the same list. *)
Lemma entries_agree fs1 fs2 d : agree fs1 fs2 -> d ∈ [sessionsDir s; conversationsDir s] ->
  merge_sort entry_le (entries fs1 d) = merge_sort entry_le (entries fs2 d).
Proof.
  intros [H1 _ H3 H4 H5] Hd.
  assert (forall n b, (n, b) ∈ entries fs1 d <-> (n, b) ∈ entries fs2 d) as Hsame.
  { intros n b. rewrite !elem_entries, H1. split; intros [He H]; (split; [done|]);
      (destruct b; [done|]); revert H; rewrite H3; try done; unfold visible;
      (apply elem_of_cons in Hd as [->| ->%list_elem_of_singleton]; [left|right]); by rewrite He. }
  assert (entries fs1 d ≡ₚ entries fs2 d) as Hp.
  { apply NoDup_Permutation; [apply entries_NoDup..|]. intros [n b]. apply Hsame. }
  apply (StronglySorted_unique_strong entry_le).
  - intros [n b] [n' b'] Hx Hy Hl Hg. rewrite merge_sort_Permutation in Hx, Hy.
    pose proof (name_leb_antisym n n' Hl Hg) as <-.
    rewrite Hsame in Hx. rewrite elem_entries in Hx, Hy.
    destruct Hx as [_ Hx], Hy as [_ Hy]. destruct b, b'; try done.
    + apply H5 in Hx. rewrite Hx in Hy. by destruct Hy.
    + apply H5 in Hy. rewrite Hy in Hx. by destruct Hx.
  - apply StronglySorted_merge_sort; apply _.
  - apply StronglySorted_merge_sort; apply _.
  - by rewrite !merge_sort_Permutation.
Qed.
Lemma reads_ReadDir d : d ∈ [sessionsDir s; conversationsDir s] -> reads (ReadDir d).
Proof.
  intros Hd. unfold ReadDir. apply (reads_bind next_fault _ reads_fault). intros f fs1 fs2 H.
  destruct f; [|by apply reads_ret..].
  pose proof (ag_dirs _ _ H) as H1.
  pose proof (entries_agree fs1 fs2 d H Hd) as He. unfold entries in He. unfold is_dir. rewrite H1 in He |- *.
  rewrite He. destruct (_ || _); by apply reads_ret.
Qed.

Lemma entry_visible d name : d ∈ [sessionsDir s; conversationsDir s] -> plain name ->
  visible (JoinPath [d; name]).
Proof.
  intros Hd Hn. pose proof Hn as (H1 & H2 & _).
  assert (entry_of d (d ++ "/" ++ name) = Some name) as He by by apply entry_of_spec.
  unfold visible. apply elem_of_cons in Hd as [->| ->%list_elem_of_singleton]; [left|right];
    unfold sessionsDir, conversationsDir in *; rewrite JoinPath_entry, He; try done;
    split_and!; try done; by apply (bool_decide_unpack _).
Qed.

Lemma plain_id id suf : isValidID id = true -> suffix_ok suf -> plain (id ++ suf).
Proof. intros H Hs. apply plain_file; [by apply valid_id_safe|done]. Qed.

Lemma reads_get {A} `{JSON A} p : visible p -> reads (Store.get (A := A) p).
Proof.
  intros Hp. unfold Store.get.
  apply (reads_ext (fun fs => let '(x, fs) := ReadFile p fs in
    (match x with
     | Err e => if is_not_exist e then Ok None else Err e
     | Ok data => a ← json_Unmarshal data; Ok (Some a)
     end, fs))).
  - intros fs. by destruct (ReadFile p fs) as [[d|e] fs'].
  - by apply reads_map, reads_ReadFile.
Qed.

Lemma reads_peek {A} `{JSON A} index max what p n : visible p -> reads (peek (A := A) index max what p n).
Proof.
  intros Hp. unfold peek.
  apply (reads_ext (fun fs => let '(x, fs) := OpenScan max p fs in
    (match x with
     | Err e => if is_not_exist e then Ok [] else Err (ErrWrapped ("open " ++ what ++ "s: ") e)
     | Ok (ls, err) =>
         turns ← decode_lines ("decode " ++ what ++ ": ") ls;
         match err with
         | Some e => Err (ErrWrapped ("scan " ++ what ++ "s: ") e)
         | None => Ok (last_n n (sort_Slice (fun x y => index x <? index y) turns))
         end
     end, fs))).
  - intros fs. by destruct (OpenScan max p fs) as [[[ls err]|e] fs'].
  - by apply reads_map, reads_OpenScan.
Qed.

Lemma reads_list_entries {A} `{JSON A} (keep : A -> bool) d es :
  d ∈ [sessionsDir s; conversationsDir s] ->
  Forall (fun e : gostring * bool => "/"%char ∉ fst e) es -> reads (list_entries keep d es).
Proof.
  intros Hd Hes. induction Hes as [|[name isdir] es Hn _ IH]; cbn [list_entries]; [apply reads_ret|].
  destruct (isdir || negb (bool_decide (Ext name = ".json"))) eqn:E; [done|].
  apply orb_false_iff in E as [_ E]. bool_facts.
  apply (reads_bind (ReadFile (JoinPath [d; name]))).
  - apply reads_ReadFile, entry_visible; [done|]. by apply json_name_plain.
  - intros r. by apply (reads_bind (list_entries keep d es)); [|intros rest; apply reads_ret].
Qed.

(** The names that [ReadDir] returns have no slash. *)
Lemma ReadDir_names d fs es fs' : ReadDir d fs = (Ok es, fs') ->
  Forall (fun e : gostring * bool => "/"%char ∉ fst e) es.
Proof.
  unfold ReadDir. destruct (next_fault fs) as [f fs1]. destruct f; [|done..].
  destruct (is_dir fs1 d); [|done]. intros [= <- _]. apply Forall_forall. intros [n b].
  change (merge_sort _ _) with (merge_sort entry_le (entries fs1 d)).
  rewrite merge_sort_Permutation, elem_entries. intros [(_ & H & _)%entry_of_spec _]. done.
Qed.

Lemma reads_list_dir {A} `{JSON A} (keep : A -> bool) started limit offset d :
  d ∈ [sessionsDir s; conversationsDir s] -> reads (list_dir keep started limit offset d).
Proof.
  intros Hd fs1 fs2 Hag. unfold list_dir.
  destruct (reads_ReadDir d Hd fs1 fs2 Hag) as (r & g1 & g2 & E1 & E2 & Ha & [S1 S2] & [S3 S4]).
  pose proof (ReadDir_names d fs1) as Hn. rewrite E1 in Hn |- *. rewrite E2.
  destruct r as [es|e].
  2: { eexists _, g1, g2. by split_and!. }
  specialize (Hn _ _ eq_refl).
  destruct (reads_list_entries keep d es Hd Hn g1 g2 Ha)
    as (l & h1 & h2 & -> & -> & Ha' & [T1 T2] & [T3 T4]).
  eexists _, h1, h2. split_and!; try done; split; congruence.
Qed.

(** *** Every handler *)
Lemma reads_call (h : FS -> Response * FS) : reads h -> reads (fun fs => call (h fs)).
Proof. intros H. by apply (reads_map h Reply). Qed.

Lemma reads_handle e n r : reads (handle (rd := file_store_reader s) e n r).
Proof.
  assert (conversationsDir s ∈ [sessionsDir s; conversationsDir s]) as Hc by (right; by left).
  assert (sessionsDir s ∈ [sessionsDir s; conversationsDir s]) as Hs by by left.
  assert (forall suf, suf ∈ [".json"; ".jsonl"]%go -> suffix_ok suf) as Hsuf.
  { intros suf H. apply elem_of_cons in H as [->| ->%list_elem_of_singleton];
      (split; [by apply (bool_decide_unpack _)|cbn; lia]). }
  assert (forall id suf d, isValidID id = true -> suf ∈ [".json"; ".jsonl"]%go ->
    d ∈ [sessionsDir s; conversationsDir s] -> visible (JoinPath [d; id ++ suf])) as Hv.
  { intros id suf d Hid H Hd. by apply entry_visible, plain_id; auto. }
  destruct e; cbn [handle]; try apply reads_ret; try apply reads_call.
  - unfold handleListSessions. destruct (parsePagination r) as [limit offset].
    apply (reads_map (rd_ListSessions _)), reads_list_dir, Hs.
  - unfold handleGetSession. destruct (isValidID id) eqn:E; [|apply reads_ret].
    apply (reads_map (rd_GetSession id)), reads_get, Hv; [done|by left|done].
  - unfold handleListConversations. destruct (parsePagination r) as [limit offset].
    apply (reads_map (rd_ListConversations _)), reads_list_dir, Hc.
  - unfold handleGetConversation. destruct (isValidID id) eqn:E; [|apply reads_ret].
    apply (reads_map (rd_GetConversation id)), reads_get, Hv; [done|by left|done].
  - unfold handleListTurns. destruct (isValidID id) eqn:E; [|apply reads_ret].
    apply (reads_map (rd_PeekConversationTurns id 0)), reads_peek, Hv; [done|right; by left|done].
Qed.

Lemma reads_serve cfg n r : reads (serve (rd := file_store_reader s) cfg n r).
Proof.
  assert (reads (mux (rd := file_store_reader s) n r)) as Hm.
  { unfold mux. destruct (_ && _); [apply reads_ret|]. destruct (route (rq_path r)) as [e|]; [|apply reads_ret].
    destruct (bool_decide _); [apply reads_handle|apply reads_ret]. }
  assert (reads (corsMiddleware (cfg_CORSOrigin cfg) (mux (rd := file_store_reader s) n) r)) as Hcors.
  { unfold corsMiddleware. destruct (bool_decide (rq_Method r = _)).
    - intros fs1 fs2 H. by apply reads_ret.
    - by apply (reads_map (mux (rd := file_store_reader s) n r)). }
  unfold serve. cbv zeta. destruct (bool_decide (cfg_APIKey cfg = [])); [done|].
  unfold apiKeyMiddleware. destruct (bool_decide _); [done|]. cbv zeta.
  destruct (_ || _); [apply reads_ret|done].
Qed.
End Confined.

Lemma parsePagination_bounds r : 1 <= fst (parsePagination r) <= maxLimit /\ 0 <= snd (parsePagination r) <= MaxInt.
Proof.
  unfold parsePagination, maxLimit. cbn [fst snd]. split.
  - destruct (Atoi _) as [n|]; [|lia]. destruct (Z.ltb_spec 0 n); lia.
  - assert (forall v n, Atoi v = Some n -> n <= MaxInt) as Hmax.
    { intros v n. unfold Atoi.
      match goal with |- (let '(_, _) := ?x in _) = _ -> _ => destruct x as [neg ds] end. destruct ds; [done|].
      destruct (digits_val 0 _) as [m|]; cbn [mbind option_bind]; [|done]. cbv zeta.
      destruct ((MinInt <=? _) && (_ <=? MaxInt)) eqn:E; [|done]. intros [= <-]. lia. }
    destruct (Atoi (Query_Get _ "offset")) as [n|] eqn:E; [|by vm_compute].
    apply Hmax in E. destruct (Z.leb_spec 0 n); unfold MaxInt in *; lia.
Qed.

(** ** Properties *)

(** Whether the request carries the server's key. *)
Definition authorized (cfg : Config) (r : Request) : Prop :=
  cfg_APIKey cfg = [] \/ rq_Authorization r = "Bearer " ++ cfg_APIKey cfg.

Lemma serve_authorized {World} {rd : StoreReader World} cfg n r w :
  (authorized cfg r -> serve cfg n r w = corsMiddleware (cfg_CORSOrigin cfg) (mux n) r w)
  /\ (~ authorized cfg r -> serve cfg n r w = (Reply unauthorized, w)).
Proof.
  unfold serve, apiKeyMiddleware, authorized. cbv zeta.
  destruct (bool_decide (cfg_APIKey cfg = [])) eqn:E; bool_facts; [split; [done|]; intros H; by exfalso; auto|].
  destruct (HasPrefix (rq_Authorization r) "Bearer ") eqn:Ep; cbn [negb orb].
  - apply HasPrefix_spec in Ep as [t ->]. unfold TrimPrefix. rewrite (HasPrefix_app "Bearer "), drop_app_length.
    destruct (bool_decide (t = cfg_APIKey cfg)) eqn:Et; bool_facts; cbn [negb].
    + subst t. split; [done|]. intros H. exfalso. auto.
    + split; [|done]. intros [H|H]; [done|]. exfalso. by apply (app_inv_head "Bearer ") in H.
  - split; [|done]. intros [H|H]; [done|]. by rewrite H, (HasPrefix_app "Bearer ") in Ep.
Qed.

(** C35: the API shows the store and nothing else.  Whatever the request - its path
    and ids unescaped, its query, its method - the response depends only on the
    files directly in the session and conversation directories of the store; no
    file is created, changed or deleted; and without the server's key the answer
    is 401 and the store is not even read.  That holds of every route, [/health]
    included, which the design leaves without authentication. *)
Theorem serve_confined {jS : JSON Session} {jC : JSON Conversation} {jCT : JSON ConversationTurn}
    {srt : SortSlice} (s : Store) (cfg : Config) (sse_count : Z) (r : Request) (fs1 fs2 : FS)
    (Hroot : st_root s <> []) (Hagree : agree s fs1 fs2) :
  let run fs := serve (rd := file_store_reader s) cfg sse_count r fs in
  fst (run fs1) = fst (run fs2)
  /\ fs_files (snd (run fs1)) = fs_files fs1 /\ fs_dirs (snd (run fs1)) = fs_dirs fs1
  /\ (~ authorized cfg r -> run fs1 = (Reply unauthorized, fs1)).
Proof.
  intros run. unfold run. split_and!; try (by apply serve_authorized);
    destruct (reads_serve s Hroot cfg sse_count r fs1 fs2 Hagree) as (a & g1 & g2 & E1 & E2 & _ & [S1 S2] & _);
    by rewrite E1, ?E2.
Qed.

(** C36: the conversation list over HTTP.  There is one list - every stored
    conversation that decodes and has the status asked for, once per file, the
    newest first - such that every authorised request for the list, whatever its
    query, is answered with 200, the window of that list that its pagination
    names, at most 500 conversations, and its whole length. *)
Theorem conversations_served {jS : JSON Session} {jC : JSON Conversation} {jCT : JSON ConversationTurn}
    {srt : SortSlice} (s : Store) (fs : FS) (st : option gostring) (Hroot : st_root s <> [])
    (Hfaults : fs_faults fs = []) (Hdir : is_dir fs (conversationsDir s) = true) :
  exists all,
    StronglySorted (fun x y => CreatedAt y <= CreatedAt x) all
    /\ all ≡ₚ omap (kept (has_status st) fs (conversationsDir s)) (json_names fs (conversationsDir s))
    /\ forall cfg sse_count r, authorized cfg r -> rq_Method r = "GET" ->
       rq_path r = ["api"; "v1"; "conversations"]%go -> status_filter r = st ->
       exists limit offset, parsePagination r = (limit, offset) /\ 1 <= limit <= 500 /\ 0 <= offset
       /\ serve (rd := file_store_reader s) cfg sse_count r fs
          = (Reply {| rs_Code := 200;
                      rs_AllowOrigin := Some (if bool_decide (cfg_CORSOrigin cfg = []) then "*" else cfg_CORSOrigin cfg);
                      rs_Body := BConversations (take (Z.to_nat limit) (drop (Z.to_nat offset) all))
                                   (Z.of_nat (length all)) limit offset |}, fs).
Proof.
  destruct (list_dir_spec (has_status st) CreatedAt (conversationsDir s) fs Hfaults Hdir)
    as (all & H1 & H2 & H3).
  { intros name Hn He. apply JoinPath_entry; [done|split_and!; try done; by apply (bool_decide_unpack _)|].
    by apply json_name_plain. }
  exists all. split_and!; [done|done|]. intros cfg n r Ha Hm Hp Hst.
  pose proof (parsePagination_bounds r) as [B1 B2]. destruct (parsePagination r) as [limit offset] eqn:E.
  exists limit, offset. split_and!; [done|apply B1..|apply B2|].
  rewrite (proj1 (serve_authorized cfg n r fs) Ha). unfold corsMiddleware, mux.
  rewrite unclean_valid by (by rewrite Hp). rewrite Hm, Hp.
  replace (route _) with (Some EConversations) by reflexivity.
  rewrite !(bool_decide_false ("GET"%go = "OPTIONS")), (bool_decide_true ("GET" ∈ _)) by (done || by left).
  assert (rd_ListConversations (StoreReader := file_store_reader s)
    {| CF_Status := st; CF_Limit := limit; CF_Offset := offset |} fs
    = (Ok (take (Z.to_nat limit) (drop (Z.to_nat offset) all), Z.of_nat (length all)), fs)) as Hl.
  { apply (H3 limit offset); cbn in *; lia. }
  cbn [handle]. unfold handleListConversations. by rewrite E, Hst, Hl.
Qed.

(** ** The properties at a concrete server *)
Module ApiSim.

Definition conversation (id : gostring) (t : time) : Conversation :=
  {| C_ID := id; SchemaVersion := 0; CreatedAt := t; C_EndedAt := None; C_Status := ConvRunning;
     MaxTurns := 3; PerTurnTimeout := 0; OverallTimeout := 0;
     C_Terminator := {| TS_Kind := "sentinel"; TS_Sentinel := []; TS_JudgeURI := [] |};
     C_Peers := []; Seeds := ∅; OpenerID := []; C_PeerA := zeroPeerSpec; C_PeerB := zeroPeerSpec;
     SeedA := "hi"; SeedB := []; Opener := PeerSlotA; TurnsConsumed := 0; C_ReplyStyle := [] |}.

Definition jC : JSON Conversation :=
  StoreSim.table_json [(conversation "c1" 1, "{1}"); (conversation "c2" 2, "{2}")].

Definition tree (secret : gostring) : FS :=
  {| fs_files := <["logs/conversations/c1.json" := "{1}"]> (<["logs/conversations/c2.json" := "{2}"]>
       (<["logs/secret.json" := secret]> ∅));
     fs_dirs := {["logs"; "logs/conversations"; "logs/sessions"]}; fs_faults := [] |}.

Definition cfg : Config := {| cfg_Port := 8080; cfg_APIKey := "k"; cfg_CORSOrigin := []; cfg_StoreRoot := "./logs" |}.

Definition get (path : list gostring) (q : list (gostring * gostring)) : Request :=
  {| rq_Method := "GET"; rq_path := path; rq_dots := true; rq_query := q; rq_Authorization := "Bearer k" |}.

Definition run (r : Request) (fs : FS) : outcome * FS :=
  serve (rd := file_store_reader (jC := jC) StoreSim.store) cfg 0 r fs.

Definition list_request : Request := get ["api"; "v1"; "conversations"] [("limit"%go, "1"%go)].
Definition traversal : Request := get ["api"; "v1"; "conversations"; "../secret"] [].

Lemma agree_trees a b : agree StoreSim.store (tree a) (tree b).
Proof.
  assert (forall x, tree_ok (tree x)) as Ht.
  { intros x p Hp. cbn [tree fs_dirs fs_files] in *. rewrite !elem_of_union, !elem_of_singleton in Hp.
    by destruct Hp as [[->| ->]| ->]. }
  split; [done|done| |done|done]. intros p Hp. cbn [tree fs_files].
  destruct (decide (p = "logs/secret.json")) as [->|Hne].
  - exfalso. destruct Hp as [H|H]; vm_compute in H; by destruct H.
  - destruct (decide (p = "logs/conversations/c1.json")) as [->|H1]; [done|].
    destruct (decide (p = "logs/conversations/c2.json")) as [->|H2]; [done|].
    by rewrite !lookup_insert_ne by done.
Qed.
End ApiSim.

Lemma serve_confined_witness :
  fst (ApiSim.run ApiSim.traversal (ApiSim.tree "x"))
    = Reply {| rs_Code := 400; rs_AllowOrigin := Some "*"; rs_Body := BError "invalid id" |}
  /\ fst (ApiSim.run ApiSim.list_request (ApiSim.tree "x")) = fst (ApiSim.run ApiSim.list_request (ApiSim.tree "y")).
Proof.
  split; [vm_compute; reflexivity|].
  destruct (serve_confined (jC := ApiSim.jC) StoreSim.store ApiSim.cfg 0 ApiSim.list_request
    (ApiSim.tree "x") (ApiSim.tree "y") ltac:(discriminate) (ApiSim.agree_trees "x" "y")) as [H _].
  exact H.
Defined.

Lemma conversations_served_witness :
  fst (ApiSim.run ApiSim.list_request (ApiSim.tree "x"))
    = Reply {| rs_Code := 200; rs_AllowOrigin := Some "*";
               rs_Body := BConversations [ApiSim.conversation "c2" 2] 2 1 0 |}
  /\ exists all, all ≡ₚ [ApiSim.conversation "c1" 1; ApiSim.conversation "c2" 2]
     /\ exists limit offset, ApiSim.run ApiSim.list_request (ApiSim.tree "x")
        = (Reply {| rs_Code := 200; rs_AllowOrigin := Some "*";
                    rs_Body := BConversations (take (Z.to_nat limit) (drop (Z.to_nat offset) all))
                                 (Z.of_nat (length all)) limit offset |}, ApiSim.tree "x").
Proof.
  split; [vm_compute; reflexivity|].
  destruct (conversations_served (jC := ApiSim.jC) StoreSim.store (ApiSim.tree "x") None ltac:(discriminate)
    ltac:(reflexivity) ltac:(vm_compute; reflexivity)) as (all & _ & Hp & H).
  exists all. split.
  - etrans; [exact Hp|]. vm_compute. first [reflexivity|apply perm_swap].
  - destruct (H ApiSim.cfg 0 ApiSim.list_request) as (limit & offset & _ & _ & _ & E);
      [by right|done|done|vm_compute; reflexivity|]. exists limit, offset. exact E.
Defined.
