(* ===== verification/ApiStream.v ===== *)
(** * Event streams of the API ([internal/api/handlers_sse.go], [watcher.go])

    The slots for streams are taken by concurrent handlers with atomic loads and
    compare-and-swaps: each is one step here, in any interleaving.  A stream is
    the bytes its handler writes for what its select receives; a client reads
    them back as events.  The watcher classifies the file events it is given. *)
From S2P Require Import Prelude GoLib Model FileSys Store StoreList Api.

(** ** Events *)
Inductive WatchEventKind := WatchEventConversationUpdated | WatchEventTurnAdded.

Record WatchEvent := {
  we_Kind : WatchEventKind;
  we_ConversationID : gostring;
  we_FilePath : gostring;
}.

(** What the select of a stream receives. *)
Inductive stream_event :=
| SDone
| STick
| SWatch (e : WatchEvent)
| SWatchClosed.

(** ** Slots *)
Definition maxSSEConnections : Z := 10.

(** Where a handler is in [acquireSSESlot], or after it. *)
Inductive sse_pc :=
| PLoad
| PCompareAndSwap (cur : Z)
| PStreaming
| PRejected
| PClosed.

#[export] Instance sse_pc_eq_dec : EqDecision sse_pc.
Proof. solve_decision. Defined.

(** The counter, the handlers and the clients that have left. *)
Record sse := {
  sseCount : Z;
  handlers : list sse_pc;
  departed : list nat;
}.

Definition sse_init : sse := {| sseCount := 0; handlers := []; departed := [] |}.

(** The next atomic step of a handler that wants a slot: what it does to the
    counter and where it goes. *)
Definition acquireSSESlot (count : Z) (pc : sse_pc) : option (Z * sse_pc) :=
  match pc with
  | PLoad => Some (count, if maxSSEConnections <=? count then PRejected else PCompareAndSwap count)
  | PCompareAndSwap cur =>
      Some (if count =? cur then (cur + 1, PStreaming) else (count, PLoad))
  | PStreaming | PRejected | PClosed => None
  end.

(** A round of the loop of an open stream: whether the handler returns.  The
    context is done only when the client has left. *)
Definition stream_round (gone : bool) (ev : stream_event) : option bool :=
  match ev with
  | SDone => if gone then Some true else None
  | SWatchClosed => Some true
  | STick | SWatch _ => Some false
  end.

(** A handler arrives, its client leaves, it makes a step towards a slot, or the
    select of its open stream receives. *)
Inductive sse_op :=
| Arrive
| Leave (i : nat)
| Step (i : nat)
| Select (i : nat) (ev : stream_event).

(** The handler that an operation moves, with the counter and its new place; a
    handler that returns runs its deferred decrement. *)
Definition sse_move (st : sse) (op : sse_op) : option (nat * (Z * sse_pc)) :=
  match op with
  | Arrive | Leave _ => None
  | Step i => pc ← handlers st !! i; m ← acquireSSESlot (sseCount st) pc; Some (i, m)
  | Select i ev =>
      pc ← handlers st !! i;
      match pc, stream_round (bool_decide (i ∈ departed st)) ev with
      | PStreaming, Some true => Some (i, (sseCount st - 1, PClosed))
      | _, _ => None
      end
  end.

Definition sse_exec (st : sse) (op : sse_op) : sse :=
  match op with
  | Arrive => {| sseCount := sseCount st; handlers := handlers st ++ [PLoad]; departed := departed st |}
  | Leave i => {| sseCount := sseCount st; handlers := handlers st; departed := i :: departed st |}
  | _ =>
      match sse_move st op with
      | Some (i, (n, pc)) => {| sseCount := n; handlers := <[i := pc]> (handlers st); departed := departed st |}
      | None => st
      end
  end.

Definition streaming (st : sse) : nat :=
  length (filter (fun pc => pc = PStreaming) (handlers st)).

(** ** The watcher *)

(** [filepath.Base], [Dir] and [Rel] on Unix. *)
Definition not_slash (c : ascii) : bool := negb (ceq c "/").

Definition Base (path : gostring) : gostring :=
  if bool_decide (path = []) then "."
  else match drop_while_end (fun c => ceq c "/") path with
       | [] => "/"
       | p => drop (length (drop_while_end not_slash p)) p
       end.

Definition Dir (path : gostring) : gostring := Clean (drop_while_end not_slash path).

Definition elems (p : gostring) : list gostring :=
  if bool_decide (p = []) then [] else if bool_decide (p = "/") then [[]] else SplitByte "/" p.

Fixpoint rel_elems (bs ts : list gostring) : option (list gostring) :=
  match bs, ts with
  | [], _ => Some ts
  | b :: bs', [] => if bool_decide (b = "..") then None else Some (replicate (length bs) "..")
  | b :: bs', t :: ts' =>
      if bool_decide (b = t) then rel_elems bs' ts'
      else if bool_decide (b = "..") then None else Some (replicate (length bs) ".." ++ ts)
  end.

Definition Rel (base targ : gostring) : option gostring :=
  let b := Clean base in
  let t := Clean targ in
  if bool_decide (t = b) then Some "."
  else
    let b := if bool_decide (b = ".") then [] else b in
    if negb (eqb (HasPrefix b "/") (HasPrefix t "/")) then None
    else (fun l => Join l "/") <$> rel_elems (elems b) (elems t).

(** The bits of [fsnotify.Op] are the library's. *)
Class Fsnotify := {
  fsnotify_Create : Z;
  fsnotify_Write : Z;
}.

Record FsEvent := {
  fe_Name : gostring;
  fe_Op : Z;
}.

(** The directory that [WatchConversation] adds. *)
Definition WatchConversation (root conversationID : gostring) : gostring :=
  JoinPath [root; "conversations"; conversationID].

Section Watcher.
Context {fsn : Fsnotify}.
Variable root : gostring.

(** The event the loop makes of a file event. *)
Definition classify (event : FsEvent) : option WatchEvent :=
  if Z.land (fe_Op event) (Z.lor fsnotify_Write fsnotify_Create) =? 0 then None
  else
    match Rel (JoinPath [root; "conversations"]) (Dir (fe_Name event)) with
    | None => None
    | Some rel =>
        if Contains rel ".." then None
        else
          let emit kind := Some {| we_Kind := kind; we_ConversationID := rel; we_FilePath := fe_Name event |} in
          if bool_decide (Base (fe_Name event) = "conversation.json") then emit WatchEventConversationUpdated
          else if bool_decide (Base (fe_Name event) = "turns.jsonl") then emit WatchEventTurnAdded
          else None
    end.

(** One round of [loop]: the channel holds 64 events, more are dropped. *)
Definition watch_loop (eventCh : list WatchEvent) (event : FsEvent) : list WatchEvent :=
  match classify event with
  | Some e => if Z.of_nat (length eventCh) <? 64 then eventCh ++ [e] else eventCh
  | None => eventCh
  end.
End Watcher.

(** ** Streams *)
Definition sendSSEComment (comment : gostring) : gostring := ": " ++ comment ++ [LF; LF].

Definition sendSSEEvent (eventType : gostring) (data : result gostring) : gostring :=
  "event: " ++ eventType ++ [LF] ++ "data: " ++ match data with Ok b => b | Err _ => [] end ++ [LF; LF].

Definition sseEventType (e : WatchEvent) : gostring :=
  match we_Kind e with
  | WatchEventConversationUpdated => "conversation_updated"
  | WatchEventTurnAdded => "turn_added"
  end.

Section Stream.
Context {jW : JSON WatchEvent} {jM : JSON (list (gostring * gostring))}.

Fixpoint stream_loop (evs : list stream_event) : gostring :=
  match evs with
  | [] | SDone :: _ | SWatchClosed :: _ => []
  | STick :: evs => sendSSEComment "heartbeat" ++ stream_loop evs
  | SWatch e :: evs => sendSSEEvent (sseEventType e) (json_Marshal e) ++ stream_loop evs
  end.

Definition unwatched (e : stream_event) : bool :=
  match e with SDone | STick => true | SWatch _ | SWatchClosed => false end.

Definition connected (id : option gostring) : list (gostring * gostring) :=
  ("status"%go, "connected"%go) :: match id with Some id => [("conversationId"%go, id)] | None => [] end.

(** What a handler that holds a slot answers: a stream, or an error when the
    connection cannot flush. *)
Inductive stream_response :=
| Streaming (headers : list (gostring * gostring)) (body : gostring)
| Unsupported (code : Z) (text : gostring).

Definition sse_headers : list (gostring * gostring) :=
  [("Content-Type", "text/event-stream"); ("Cache-Control", "no-cache"); ("X-Accel-Buffering", "no")]%go.

Definition open_stream (flusher : bool) (body : gostring) : stream_response :=
  if flusher then Streaming sse_headers body else Unsupported 500 "streaming not supported".

(** [watcher] is the error of [NewWatcher]; without a watcher the channel of
    events is nil, and nothing is received from it. *)
Definition handleConversationStream (storeRoot : gostring) (flusher : bool) (watcher : option goerr)
    (id : gostring) (evs : list stream_event) : stream_response :=
  open_stream flusher (
    sendSSEEvent "connected" (json_Marshal (connected (Some id)))
    ++ stream_loop (if bool_decide (storeRoot <> []) && bool_decide (watcher = None) then evs
                    else filter (fun e => unwatched e = true) evs)).

Definition handleConversationsLifecycleStream (flusher : bool) (evs : list stream_event) : stream_response :=
  open_stream flusher (
    sendSSEEvent "connected" (json_Marshal (connected None))
    ++ stream_loop (filter (fun e => unwatched e = true) evs)).
End Stream.

(** ** What a client of the stream reads

    The parser of the event stream format: fields in lines, a blank line
    dispatches the event if it has data. *)
Record client := {
  cl_type : gostring;
  cl_data : option gostring;
}.

Definition client_init : client := {| cl_type := []; cl_data := None |}.

Definition client_field (cl : client) (name value : gostring) : client :=
  let value := TrimPrefix value " " in
  if bool_decide (name = "event") then {| cl_type := value; cl_data := cl_data cl |}
  else if bool_decide (name = "data") then
    {| cl_type := cl_type cl;
       cl_data := Some (match cl_data cl with None => value | Some d => d ++ [LF] ++ value end) |}
  else cl.

Definition client_line (cl : client) (l : gostring) : client * list (gostring * gostring) :=
  if bool_decide (l = []) then
    (client_init, match cl_data cl with
                  | None | Some [] => []
                  | Some d => [(if bool_decide (cl_type cl = []) then "message" else cl_type cl, d)]
                  end)
  else let '(name, value, _) := Cut l ":" in (client_field cl name value, []).

(** The last piece is not a line yet. *)
Fixpoint client_lines (cl : client) (ls : list gostring) : list (gostring * gostring) :=
  match ls with
  | [] | [_] => []
  | l :: ls => let '(cl, evs) := client_line cl l in evs ++ client_lines cl ls
  end.

Definition client_events (s : gostring) : list (gostring * gostring) :=
  client_lines client_init (SplitByte LF (ReplaceAll (ReplaceAll s [CR; LF] [LF]) [CR] [LF])).

(** ** Lemmas on slots *)

Lemma sum_insert {A} (f : A -> nat) (l : list A) i x y : l !! i = Some x ->
  (sum_list_with f (<[i := y]> l) + f x = sum_list_with f l + f y)%nat.
Proof.
  revert i. induction l as [|z l IH]; intros [|i] H; try done.
  - injection H as ->. change (<[0%nat := y]> (x :: l)) with (y :: l). cbn [sum_list_with]. lia.
  - specialize (IH i H). change (<[S i := y]> (z :: l)) with (z :: <[i := y]> l). cbn [sum_list_with]. lia.
Qed.

Definition is_streaming (pc : sse_pc) : nat := match pc with PStreaming => 1 | _ => 0 end.

Lemma streaming_sum st : streaming st = sum_list_with is_streaming (handlers st).
Proof.
  unfold streaming. induction (handlers st) as [|pc l IH]; [done|]. rewrite filter_cons.
  destruct (decide (pc = PStreaming)) as [->|E]; cbn; rewrite IH; [done|by destruct pc].
Qed.

(** The counter counts the open streams; a handler is about to swap only from a
    count that leaves room. *)
Record slots_ok (st : sse) : Prop := {
  so_count : sseCount st = Z.of_nat (streaming st);
  so_limit : sseCount st <= maxSSEConnections;
  so_swap : Forall (fun pc => match pc with PCompareAndSwap cur => cur < maxSSEConnections | _ => True end)
              (handlers st);
}.

(** What a move is: a step towards a slot, or the end of an open stream. *)
Lemma sse_move_cases st op i n pc' : sse_move st op = Some (i, (n, pc')) ->
  exists pc, handlers st !! i = Some pc
  /\ (op = Step i /\ acquireSSESlot (sseCount st) pc = Some (n, pc')
      \/ pc = PStreaming /\ n = sseCount st - 1 /\ pc' = PClosed
         /\ exists ev, op = Select i ev /\ (ev = SDone /\ i ∈ departed st \/ ev = SWatchClosed)).
Proof.
  destruct op as [|k|k|k ev]; cbn [sse_move]; try done.
  - destruct (handlers st !! k) as [pc|] eqn:E; [|done]. cbn.
    destruct (acquireSSESlot (sseCount st) pc) as [m|] eqn:Ea; [|done]. intros [= <- ->]. exists pc. auto.
  - destruct (handlers st !! k) as [pc|] eqn:E; [|done]. cbn. destruct pc; try done.
    destruct (stream_round _ ev) as [[]|] eqn:Er; try done. intros [= <- <- <-]. exists PStreaming.
    split; [done|]. right. split_and!; try done. exists ev. split; [done|]. destruct ev; cbn in Er; try done; [|by right].
    left. case_bool_decide; [done|discriminate].
Qed.

Lemma sse_exec_move st op i n pc : sse_move st op = Some (i, (n, pc)) ->
  sse_exec st op = {| sseCount := n; handlers := <[i := pc]> (handlers st); departed := departed st |}.
Proof. intros H. destruct op; try discriminate H; cbn [sse_exec]; by rewrite H. Qed.

(** A step towards a slot. *)
Lemma sse_step st i pc : handlers st !! i = Some pc ->
  sse_exec st (Step i) = match acquireSSESlot (sseCount st) pc with
                         | Some (n, pc) => {| sseCount := n; handlers := <[i := pc]> (handlers st); departed := departed st |}
                         | None => st
                         end.
Proof. intros H. cbn [sse_exec sse_move]. rewrite H. cbn. by destruct (acquireSSESlot (sseCount st) pc) as [[n pc']|]. Qed.

Lemma slots_ok_exec st op : slots_ok st -> slots_ok (sse_exec st op).
Proof.
  intros Hok. pose proof Hok as [H1 H2 H3].
  destruct (sse_move st op) as [[i [n pc']]|] eqn:Em.
  2: { destruct op as [|k|k|k ev]; cbn [sse_exec]; try (by rewrite Em).
       - split; cbn [sseCount handlers]; [|done|].
         + rewrite H1, !streaming_sum. cbn [handlers]. rewrite sum_list_with_app. cbn. lia.
         + apply Forall_app. by repeat constructor.
       - by split. }
  rewrite (sse_exec_move _ _ _ _ _ Em). destruct (sse_move_cases _ _ _ _ _ Em) as (pc & Ei & Hpc).
  rewrite streaming_sum in H1. pose proof (sum_insert is_streaming _ i pc pc' Ei) as Hs.
  destruct Hpc as [[_ Ea]|(-> & -> & -> & _)].
  2: { split; cbn [sseCount handlers]; rewrite ?streaming_sum; cbn [handlers]; [cbn in Hs; lia|lia|by apply Forall_insert]. }
  split; cbn [sseCount handlers]; rewrite ?streaming_sum; cbn [handlers].
  - destruct pc as [|cur| | |]; cbn in Ea; try done.
    + injection Ea as <- <-. destruct (maxSSEConnections <=? sseCount st); cbn in *; lia.
    + destruct (Z.eqb_spec (sseCount st) cur); injection Ea as <- <-; cbn in *; lia.
  - destruct pc as [|cur| | |]; cbn in Ea; try done.
    + by injection Ea as <- <-.
    + destruct (Z.eqb_spec (sseCount st) cur) as [E|]; injection Ea as <- <-; [|done].
      rewrite Forall_forall in H3. specialize (H3 _ (list_elem_of_lookup_2 _ _ _ Ei)). cbn in H3. lia.
  - apply Forall_insert; [done|]. destruct pc as [|cur| | |]; cbn in Ea; try done.
    + destruct (Z.leb_spec maxSSEConnections (sseCount st)); by injection Ea as <- <-.
    + destruct (sseCount st =? cur); by injection Ea as <- <-.
Qed.

Lemma slots_ok_reachable ops : slots_ok (foldl sse_exec sse_init ops).
Proof.
  induction ops as [|op ops IH] using rev_ind; [by split|]. rewrite foldl_app. by apply slots_ok_exec.
Qed.

(** *** Progress: a quantity that every move decreases *)
Definition remaining (pc : sse_pc) : nat :=
  match pc with PLoad | PCompareAndSwap _ => 2 | PStreaming => 1 | PRejected | PClosed => 0 end.
Definition weight (count : Z) (pc : sse_pc) : nat :=
  match pc with PLoad => 2 | PCompareAndSwap cur => if cur =? count then 1 else 3 | _ => 0 end.

Definition potential (st : sse) : nat :=
  (2 * length (handlers st) + 1) * sum_list_with remaining (handlers st)
  + sum_list_with (weight (sseCount st)) (handlers st).

Definition can_move (st : sse) (op : sse_op) : Prop := is_Some (sse_move st op).

Lemma weight_change c c' l : (sum_list_with (weight c') l <= sum_list_with (weight c) l + 2 * length l)%nat.
Proof.
  induction l as [|pc l IH]; cbn; [lia|].
  assert (weight c' pc <= weight c pc + 2)%nat by (destruct pc; cbn; repeat case_match; lia). lia.
Qed.

Lemma potential_decreases st op : can_move st op -> (potential (sse_exec st op) < potential st)%nat.
Proof.
  intros [[i [n pc']] Em]. rewrite (sse_exec_move _ _ _ _ _ Em). destruct (sse_move_cases _ _ _ _ _ Em) as (pc & Ei & Hpc).
  unfold potential. cbn [handlers sseCount]. rewrite length_insert.
  pose proof (sum_insert remaining _ i pc pc' Ei) as Hr.
  pose proof (sum_insert (weight (sseCount st)) _ i pc pc' Ei) as Hw.
  pose proof (weight_change (sseCount st) n (<[i := pc']> (handlers st))) as Hc. rewrite length_insert in Hc.
  destruct Hpc as [[_ H]|(-> & -> & -> & _)]; [|cbn in Hr, Hw; nia].
  destruct pc as [|cur| | |]; cbn in H; try done.
  - injection H as <- <-. destruct (maxSSEConnections <=? sseCount st); cbn in Hr, Hw.
    + nia.
    + rewrite Z.eqb_refl in Hw. nia.
  - destruct (Z.eqb_spec (sseCount st) cur) as [E|E]; injection H as <- <-; cbn in Hr, Hw.
    + subst cur. rewrite Z.eqb_refl in Hw. nia.
    + rewrite (proj2 (Z.eqb_neq cur (sseCount st))) in Hw by done. nia.
Qed.

#[export] Instance can_move_dec st op : Decision (can_move st op).
Proof. unfold can_move. apply _. Defined.

Definition run_ops (st : sse) (ops : list sse_op) : sse := foldl sse_exec st ops.
Definition run_steps (st : sse) (js : list nat) : sse := run_ops st (Step <$> js).

(** The operations of a schedule that move a handler. *)
Fixpoint effective (st : sse) (ops : list sse_op) : nat :=
  match ops with
  | [] => 0
  | op :: ops => (if decide (can_move st op) then 1 else 0) + effective (sse_exec st op) ops
  end.

(** An operation that moves no handler, and is not an arrival. *)
Lemma idle_op st op : op <> Arrive -> ~ can_move st op ->
  sseCount (sse_exec st op) = sseCount st /\ handlers (sse_exec st op) = handlers st
  /\ forall i, i ∈ departed st -> i ∈ departed (sse_exec st op).
Proof.
  intros Hne H. assert (sse_move st op = None) as Em by (apply eq_None_not_Some; exact H).
  destruct op as [|k|k|k ev]; cbn [sse_exec]; [done| |by rewrite Em..]. cbn. split_and!; try done.
  intros i Hi. by right.
Qed.

Lemma idle_can_move st op op' : op <> Arrive -> ~ can_move st op -> can_move st op' -> can_move (sse_exec st op) op'.
Proof.
  intros Hne H. destruct (idle_op st op Hne H) as (H1 & H2 & H3). unfold can_move.
  destruct op' as [|k|k|k ev]; cbn [sse_move]; rewrite ?H1, ?H2; try done.
  destruct (handlers st !! k) as [pc|]; [|done]. cbn. destruct pc; try done.
  destruct ev; cbn; try done. case_bool_decide as Hk; [|by intros [? ?]]. by rewrite bool_decide_true by auto.
Qed.

Lemma idle_potential st op : op <> Arrive -> ~ can_move st op -> potential (sse_exec st op) = potential st.
Proof. intros Hne H. unfold potential. by destruct (idle_op st op Hne H) as (-> & -> & _). Qed.

Lemma handlers_length st op : op <> Arrive -> length (handlers (sse_exec st op)) = length (handlers st).
Proof.
  intros Hne. destruct (decide (can_move st op)) as [[[i [n pc]] Em]|H].
  - rewrite (sse_exec_move _ _ _ _ _ Em). apply length_insert.
  - by destruct (idle_op st op Hne H) as (_ & -> & _).
Qed.

Lemma run_ops_cons st op ops : run_ops st (op :: ops) = run_ops (sse_exec st op) ops.
Proof. done. Qed.

Lemma run_ops_app st ops ops' : run_ops st (ops ++ ops') = run_ops (run_ops st ops) ops'.
Proof. apply foldl_app. Qed.

Lemma run_ops_length st ops : Forall (fun op => op <> Arrive) ops ->
  length (handlers (run_ops st ops)) = length (handlers st).
Proof.
  intros H. revert st. induction H as [|op ops Hop _ IH]; intros st; [done|]. by rewrite run_ops_cons, IH, handlers_length.
Qed.

Lemma effective_potential st ops : Forall (fun op => op <> Arrive) ops ->
  (effective st ops + potential (run_ops st ops) <= potential st)%nat.
Proof.
  intros H. revert st. induction H as [|op ops Hop _ IH]; intros st; [cbn; lia|]. rewrite run_ops_cons. cbn [effective].
  specialize (IH (sse_exec st op)). destruct (decide (can_move st op)) as [Hm|Hm].
  - pose proof (potential_decreases st op Hm). lia.
  - rewrite (idle_potential st op) in IH by done. lia.
Qed.

Lemma potential_bound st :
  (potential st <= 4 * length (handlers st) * length (handlers st) + 5 * length (handlers st))%nat.
Proof.
  unfold potential. generalize (sseCount st) as c. intros c.
  assert (sum_list_with remaining (handlers st) <= 2 * length (handlers st))%nat as Hr.
  { induction (handlers st) as [|pc l IH]; cbn; [lia|].
    assert (remaining pc <= 2)%nat by (destruct pc; cbn; lia). lia. }
  assert (sum_list_with (weight c) (handlers st) <= 3 * length (handlers st))%nat.
  { clear Hr. induction (handlers st) as [|pc l IH]; cbn; [lia|].
    assert (weight c pc <= 3)%nat by (destruct pc; cbn; repeat case_match; lia). lia. }
  nia.
Qed.

(** A round with an operation that can move a handler makes progress. *)
Lemma round_decreases st ops op : Forall (fun op => op <> Arrive) ops -> op ∈ ops -> can_move st op ->
  (potential (run_ops st ops) < potential st)%nat.
Proof.
  intros H. revert st. induction H as [|op' ops Hop Hops IH]; intros st Hi Hs; [by apply elem_of_nil in Hi|].
  rewrite run_ops_cons. destruct (decide (can_move st op')) as [Hm|Hm].
  - pose proof (potential_decreases st op' Hm). pose proof (effective_potential (sse_exec st op') ops Hops). lia.
  - rewrite <- (idle_potential st op') by done. apply elem_of_cons in Hi as [->|Hi]; [done|].
    apply IH; [done|by apply idle_can_move].
Qed.

(** Every handler has its answer, and none streams to a client of [gone]. *)
Definition settled (gone : list nat) (st : sse) : Prop :=
  forall i pc, handlers st !! i = Some pc ->
  pc = PStreaming /\ i ∉ gone \/ pc = PRejected \/ pc = PClosed.

Lemma settled_step gone st op : op <> Arrive -> settled gone st -> settled gone (sse_exec st op).
Proof.
  intros Hne H. destruct (decide (can_move st op)) as [[[i [n pc']] Em]|Hm].
  - rewrite (sse_exec_move _ _ _ _ _ Em). destruct (sse_move_cases _ _ _ _ _ Em) as (pc & Ei & Hpc).
    intros k q Hk. cbn in Hk. destruct (decide (i = k)) as [->|Hik].
    + rewrite list_lookup_insert_eq in Hk by (by eapply lookup_lt_Some). injection Hk as <-.
      destruct Hpc as [[_ Ha]|(_ & _ & -> & _)]; [|auto]. by destruct (H k pc Ei) as [[-> _]|[->| ->]].
    + rewrite list_lookup_insert_ne in Hk by done. by apply H.
  - unfold settled. by destruct (idle_op st op Hne Hm) as (_ & -> & _).
Qed.

Lemma settled_ops gone st ops : Forall (fun op => op <> Arrive) ops -> settled gone st -> settled gone (run_ops st ops).
Proof.
  intros H. revert st. induction H as [|op ops Hop _ IH]; intros st Hs; [done|]. by apply IH, settled_step.
Qed.

(** The operations that fairness asks for. *)
Definition due (gone : list nat) (n : nat) (op : sse_op) : Prop :=
  exists i, (i < n)%nat /\ (op = Step i \/ op = Select i SDone /\ i ∈ gone).

Lemma settled_or_due gone st : (forall i, i ∈ gone -> i ∈ departed st) ->
  settled gone st \/ exists op, due gone (length (handlers st)) op /\ can_move st op.
Proof.
  intros Hg. destruct (decide (Exists (fun i => can_move st (Step i) \/ i ∈ gone /\ can_move st (Select i SDone))
    (seq 0 (length (handlers st))))) as [H|H].
  - right. apply Exists_exists in H as (i & Hi%elem_of_seq & [H|[Hin H]]); eexists; (split; [exists i|exact H]); (split; [lia|auto]).
  - left. intros i pc Hi. assert (i ∈ seq 0 (length (handlers st))) as Hs
      by (apply elem_of_seq; apply lookup_lt_Some in Hi; lia).
    rewrite Exists_exists in H. destruct pc; try tauto.
    + destruct H. exists i. split; [done|]. left. unfold can_move. cbn. rewrite Hi. by eexists.
    + destruct H. exists i. split; [done|]. left. unfold can_move. cbn. rewrite Hi. by eexists.
    + left. split; [done|]. intros Hin. destruct H. exists i. split; [done|]. right. split; [done|].
      unfold can_move. cbn. rewrite Hi. cbn. rewrite bool_decide_true by auto. by eexists.
Qed.

Lemma run_ops_departed st ops i : i ∈ departed st -> i ∈ departed (run_ops st ops).
Proof.
  revert st. induction ops as [|op ops IH]; intros st H; [done|]. rewrite run_ops_cons. apply IH.
  destruct op; cbn [sse_exec]; try (by right); try done; by repeat case_match.
Qed.

(** A round that is fair to the handlers and to those whose client has left. *)
Definition fair_round (gone : list nat) (n : nat) (ops : list sse_op) : Prop :=
  Forall (fun op => op <> Arrive) ops /\ forall op, due gone n op -> op ∈ ops.

Lemma rounds_settle gone rounds st : (forall i, i ∈ gone -> i ∈ departed st) ->
  Forall (fair_round gone (length (handlers st))) rounds ->
  (potential st <= length rounds)%nat -> settled gone (run_ops st (concat rounds)).
Proof.
  revert st. induction rounds as [|round rounds IH]; intros st Hg Hf Hp.
  - destruct (settled_or_due gone st Hg) as [H|(op & _ & H)]; [done|]. apply potential_decreases in H. cbn [length] in Hp. lia.
  - apply Forall_cons in Hf as [[Hna Hr] Hf]. cbn [concat]. rewrite run_ops_app.
    destruct (settled_or_due gone st Hg) as [H|(op & Hi & H)].
    + apply settled_ops; [|by apply settled_ops]. apply Forall_concat. eapply Forall_impl; [exact Hf|]. by intros ? [? _].
    + apply (IH (run_ops st round)); [intros i Hin; by apply run_ops_departed, Hg|by rewrite run_ops_length|].
      pose proof (round_decreases st round op Hna (Hr op Hi) H). cbn [length] in Hp. lia.
Qed.

Definition all_ended (st : sse) : Prop := Forall (fun pc => pc ∈ [PRejected; PClosed]) (handlers st).

Lemma run_ops_ok st ops : slots_ok st -> slots_ok (run_ops st ops).
Proof. revert st. induction ops as [|op ops IH]; intros st H; [done|]. by apply IH, slots_ok_exec. Qed.

Lemma ended_count st : slots_ok st -> all_ended st -> sseCount st = 0.
Proof.
  intros [H _ _] Ha. rewrite H, streaming_sum. unfold all_ended in Ha.
  induction Ha as [|pc l Hpc _ IH]; [done|]. cbn.
  apply elem_of_cons in Hpc as [->| ->%list_elem_of_singleton]; exact IH.
Qed.

(** An open stream stays open until its client has left or its watcher ends. *)
Lemma streaming_stays st op i : handlers st !! i = Some PStreaming ->
  handlers (sse_exec st op) !! i = Some PStreaming
  \/ exists ev, op = Select i ev /\ (ev = SDone /\ i ∈ departed st \/ ev = SWatchClosed).
Proof.
  intros Hi. destruct (sse_move st op) as [[k [n pc']]|] eqn:Em.
  - rewrite (sse_exec_move _ _ _ _ _ Em). destruct (sse_move_cases _ _ _ _ _ Em) as (pc & Ei & Hpc). cbn.
    destruct (decide (k = i)) as [->|Hne]; [|left; by rewrite list_lookup_insert_ne].
    destruct Hpc as [[_ Ha]|(_ & _ & _ & H)]; [|by right]. by simplify_eq.
  - left. destruct op; cbn [sse_exec]; rewrite ?Em; try done. cbn. by rewrite lookup_app_l by (by eapply lookup_lt_Some).
Qed.

(** ** Lemmas on streams *)

(** A text that keeps an event on its lines. *)
Definition text_ok (b : gostring) : Prop := b <> [] /\ LF ∉ b /\ CR ∉ b.

Lemma Contains_absent (s p : gostring) c : c ∈ p -> c ∉ s -> Contains s p = false.
Proof.
  intros Hp Hs. unfold Contains. destruct (Index s p) as [i|] eqn:E; [|done].
  apply Index_Some in E as (H & _ & _). apply HasPrefix_spec in H as [t Ht]. exfalso. apply Hs.
  rewrite <- (take_drop i s), Ht. set_solver.
Qed.

Lemma client_events_plain s : CR ∉ s -> client_events s = client_lines client_init (SplitByte LF s).
Proof.
  intros H. unfold client_events.
  rewrite (ReplaceAll_absent s [CR; LF]) by (apply (Contains_absent _ _ CR); [by left|done]).
  rewrite ReplaceAll_absent by (apply (Contains_absent _ _ CR); [by left|done]). done.
Qed.

Lemma SplitByte_line l rest : LF ∉ l -> SplitByte LF (l ++ LF :: rest) = l :: SplitByte LF rest.
Proof. intros H. by rewrite SplitByte_app, (SplitByte_no_sep LF l). Qed.

Lemma client_lines_cons cl l ls : ls <> [] ->
  client_lines cl (l :: ls) = let '(cl, evs) := client_line cl l in evs ++ client_lines cl ls.
Proof. by destruct ls. Qed.

Lemma TrimPrefix_app p t : TrimPrefix (p ++ t) p = t.
Proof. unfold TrimPrefix. by rewrite HasPrefix_app, drop_app_length. Qed.

Lemma client_line_event cl t : client_line cl ("event: " ++ t) = ({| cl_type := t; cl_data := cl_data cl |}, []).
Proof.
  unfold client_line. rewrite bool_decide_false by done.
  change (Cut ("event: " ++ t) ":") with ("event"%go, " " ++ t, true). cbv iota zeta.
  unfold client_field. by rewrite TrimPrefix_app.
Qed.

Lemma client_line_data cl b : cl_data cl = None ->
  client_line cl ("data: " ++ b) = ({| cl_type := cl_type cl; cl_data := Some b |}, []).
Proof.
  intros H. unfold client_line. rewrite bool_decide_false by done.
  change (Cut ("data: " ++ b) ":") with ("data"%go, " " ++ b, true). cbv iota zeta.
  unfold client_field. by rewrite TrimPrefix_app, H.
Qed.

Lemma client_event t b rest : text_ok t -> text_ok b ->
  client_lines client_init (SplitByte LF (sendSSEEvent t (Ok b) ++ rest))
  = (t, b) :: client_lines client_init (SplitByte LF rest).
Proof.
  intros (Ht & Htl & _) (Hb & Hbl & _). unfold sendSSEEvent.
  assert (("event: " ++ t ++ [LF] ++ "data: " ++ b ++ [LF; LF]) ++ rest
    = ("event: " ++ t) ++ LF :: ("data: " ++ b) ++ LF :: [] ++ LF :: rest) as ->
    by by rewrite <- !app_assoc.
  assert (LF ∉ "event: " ++ t /\ LF ∉ "data: " ++ b) as [H1 H2].
  { split; (intros [H|H]%elem_of_app; [revert H; by apply (bool_decide_unpack _)|done]). }
  pose proof (SplitByte_nonnil LF) as Hnn.
  rewrite !SplitByte_line by (done || apply not_elem_of_nil).
  rewrite client_lines_cons, client_line_event by done. cbv iota zeta.
  rewrite app_nil_l, client_lines_cons, client_line_data by done. cbv iota zeta.
  rewrite app_nil_l, client_lines_cons by done.
  unfold client_line. rewrite bool_decide_true by done. destruct b as [|c b]; [done|].
  cbv iota zeta beta delta [cl_data cl_type]. by rewrite bool_decide_false.
Qed.

Lemma client_heartbeat rest :
  client_lines client_init (SplitByte LF (sendSSEComment "heartbeat" ++ rest))
  = client_lines client_init (SplitByte LF rest).
Proof.
  unfold sendSSEComment. change ((": " ++ "heartbeat" ++ [LF; LF]) ++ rest) with (": heartbeat" ++ LF :: [] ++ LF :: rest).
  pose proof (SplitByte_nonnil LF) as Hnn.
  rewrite !SplitByte_line by (by apply (bool_decide_unpack _)).
  rewrite client_lines_cons by done. change (client_line client_init ": heartbeat") with (client_init, @nil (gostring * gostring)).
  cbv iota zeta. by rewrite app_nil_l, client_lines_cons.
Qed.

Lemma sse_type_ok e : text_ok (sseEventType e).
Proof. unfold sseEventType. destruct (we_Kind e); split_and!; try done; by apply (bool_decide_unpack _). Qed.

Section StreamLemmas.
Context {jW : JSON WatchEvent}.

Definition encodes (ev : stream_event) : Prop :=
  match ev with SWatch e => exists b, json_Marshal e = Ok b /\ text_ok b | _ => True end.

(** The events a stream sends before it ends. *)
Fixpoint sent (evs : list stream_event) : list (gostring * gostring) :=
  match evs with
  | [] | SDone :: _ | SWatchClosed :: _ => []
  | STick :: evs => sent evs
  | SWatch e :: evs => (sseEventType e, match json_Marshal e with Ok b => b | Err _ => [] end) :: sent evs
  end.

Lemma send_no_cr t b : CR ∉ t -> CR ∉ b -> CR ∉ sendSSEEvent t (Ok b).
Proof.
  intros Ht Hb. unfold sendSSEEvent. rewrite !elem_of_app.
  intros [H|[H|[H|[H|[H|H]]]]]; try done; revert H; by apply (bool_decide_unpack _).
Qed.

Lemma stream_loop_events evs : Forall encodes evs ->
  CR ∉ stream_loop evs /\ client_lines client_init (SplitByte LF (stream_loop evs)) = sent evs.
Proof.
  induction 1 as [|ev evs Hev _ [IH1 IH2]]; [split; [apply not_elem_of_nil|done]|].
  destruct ev as [| |e|]; cbn [stream_loop sent]; try (split; [apply not_elem_of_nil|done]).
  - split; [|by rewrite client_heartbeat].
    intros [H|H]%elem_of_app; [|done]. revert H. by apply (bool_decide_unpack _).
  - destruct Hev as (b & -> & Hb). rewrite client_event, IH2 by (done || apply sse_type_ok).
    split; [|done]. intros [H|H]%elem_of_app; [|done]. revert H. apply send_no_cr; [apply sse_type_ok|apply Hb].
Qed.
End StreamLemmas.

(** ** Lemmas on paths *)

(** A path as what ends in its last slash, and its last element. *)
Lemma last_element pre f : (pre = [] \/ last pre = Some "/"%char) -> plain f ->
  Base (pre ++ f) = f /\ Dir (pre ++ f) = Clean pre.
Proof.
  intros Hpre (H1 & H2 & _).
  assert (Forall (fun c => not_slash c = true) f) as Hf.
  { apply Forall_forall. intros c Hc. unfold not_slash. apply negb_true_iff, ceq_false. by intros ->. }
  assert (drop_while_end not_slash (pre ++ f) = pre) as Hd.
  { rewrite drop_while_end_app by done. destruct Hpre as [->|Hl]; [done|].
    apply last_Some in Hl as [l ->]. by apply drop_while_end_stop. }
  split; [|unfold Dir; by rewrite Hd].
  destruct f as [|x f _] using rev_ind; [done|].
  assert (drop_while_end (fun c => ceq c "/") (pre ++ f ++ [x]) = pre ++ f ++ [x]) as Hs.
  { rewrite app_assoc. apply drop_while_end_stop, ceq_false. set_solver. }
  unfold Base. rewrite bool_decide_false by by destruct pre, f. rewrite Hs.
  destruct (pre ++ f ++ [x]) as [|c l] eqn:E; [by destruct pre, f|]. rewrite Hd, <- E. apply drop_app_length.
Qed.

Lemma clean_path_slash p : p <> [] -> clean_path (p ++ ["/"%char]) = clean_path p.
Proof.
  intros Hp. unfold clean_path.
  assert (HasPrefix (p ++ ["/"%char]) "/" = HasPrefix p "/") as -> by (by destruct p as [|c p]; [|destruct p]).
  cbv zeta. f_equal. change (p ++ ["/"%char]) with (p ++ "/"%char :: []). rewrite SplitByte_app, foldl_app. done.
Qed.

Lemma render_nonempty r out : render_path (r, out) <> [] \/ (r = false /\ out = [[]]).
Proof.
  destruct r; [by left|]. destruct out as [|x out]; [by left|]. cbn [render_path].
  destruct (Join (rev (x :: out)) "/") eqn:E; [right|by left]. cbn [rev] in E.
  destruct (rev out) as [|y l] eqn:Er; cbn in E.
  - subst x. split; [done|]. f_equal. by rewrite <- (rev_involutive out), Er.
  - destruct (l ++ [x]) eqn:El; [by destruct l|]. by destruct y.
Qed.

(** The elements of a cleaned path that has some. *)
Definition elements_of (r : bool) (out : list gostring) : list gostring :=
  (if r then [[]] else []) ++ rev out.

Lemma elems_render r out : clean_ok r out -> out <> [] ->
  render_path (r, out) <> [] /\ render_path (r, out) <> "." /\ elems (render_path (r, out)) = elements_of r out.
Proof.
  intros Hok Hne. pose proof (clean_path_render r out Hok) as Hc.
  assert (render_path (r, out) <> []) as H1 by (intros E; rewrite E in Hc; by injection Hc as _ <-).
  assert (render_path (r, out) <> ".") as H2 by (intros E; rewrite E in Hc; by injection Hc as _ <-).
  assert (render_path (r, out) <> "/") as H3 by (intros E; rewrite E in Hc; by injection Hc as _ <-).
  split_and!; [done|done|]. unfold elems. rewrite !bool_decide_false by done. unfold elements_of.
  pose proof (split_join_rev r out Hok Hne) as Hs. destruct r.
  - change (render_path (true, out)) with ("/"%char :: Join (rev out) "/"). cbn. by rewrite Hs.
  - destruct out as [|x out]; [done|]. exact Hs.
Qed.

Lemma render_rooted r out : clean_ok r out -> HasPrefix (render_path (r, out)) "/" = r.
Proof. intros Hok. pose proof (clean_path_render r out Hok) as H. unfold clean_path in H. by injection H. Qed.

Lemma rel_elems_app l bs ts : rel_elems (l ++ bs) (l ++ ts) = rel_elems bs ts.
Proof. induction l as [|x l IH]; [done|]. cbn. by rewrite bool_decide_true. Qed.

(** [Rel] between two entries of one directory. *)
Lemma Rel_siblings r out c d : plain c -> plain d -> clean_ok r out ->
  Rel (render_path (r, c :: out)) (render_path (r, d :: out)) = Some (if bool_decide (d = c) then "." else "../" ++ d).
Proof.
  intros Hc Hd Hok. pose proof (plain_clean_ok r out c Hc Hok) as Kc. pose proof (plain_clean_ok r out d Hd Hok) as Kd.
  unfold Rel. rewrite !Clean_render, !clean_path_render by done.
  destruct (bool_decide (d = c)) eqn:E; bool_facts; [subst; by rewrite bool_decide_true|].
  rewrite bool_decide_false by (intros [_ [= ?]]%render_path_inj; done).
  destruct (elems_render r (c :: out) Kc ltac:(done)) as (_ & N & Ec).
  destruct (elems_render r (d :: out) Kd ltac:(done)) as (_ & _ & Ed).
  cbv zeta. rewrite (bool_decide_false (render_path (r, c :: out) = ".")) by done.
  rewrite !render_rooted by done. rewrite eqb_reflx. cbn [negb]. rewrite Ec, Ed. unfold elements_of.
  cbn [rev]. rewrite !app_assoc, rel_elems_app. cbn [rel_elems].
  rewrite !bool_decide_false; [done| |by intros ->]. by destruct Hc as (_ & _ & _ & ?).
Qed.

Lemma entry_parts r out f : plain f -> clean_ok r out ->
  Base (render_path (r, f :: out)) = f /\ Dir (render_path (r, f :: out)) = render_path (r, out).
Proof.
  intros Hf Hok.
  set (pre := match out with [] => if r then "/" else [] | _ => render_path (r, out) ++ "/" end).
  assert (render_path (r, f :: out) = pre ++ f) as ->.
  { unfold pre, render_path. cbn [rev]. destruct out as [|y out]; [by destruct r|].
    rewrite Join_snoc by (cbn [rev]; by destruct (rev out)). destruct r; by rewrite <- ?app_assoc. }
  destruct (last_element pre f) as [-> ->]; [|done|].
  - unfold pre. destruct out; [destruct r; auto|]. right. by rewrite last_snoc.
  - split; [done|]. rewrite Clean_render. unfold pre. destruct out as [|y out]; [by destruct r|].
    rewrite clean_path_slash by (by apply elems_render). by rewrite clean_path_render.
Qed.

Lemma JoinPath_plain3 p d f : p <> [] -> plain d -> plain f ->
  JoinPath [p; d; f] = render_path (fst (clean_path p), f :: d :: snd (clean_path p)).
Proof.
  intros Hp Hd Hf. pose proof Hd as (_ & Hd1 & _). pose proof Hf as (_ & Hf1 & _).
  unfold JoinPath. rewrite !filter_cons, !decide_True by done. rewrite filter_nil.
  change (Join [p; d; f] "/") with (p ++ "/" ++ (d ++ "/" ++ f)).
  rewrite (app_assoc "/"), (app_assoc p), Clean_render, clean_path_app by (done || by destruct p).
  by rewrite clean_path_app.
Qed.

Lemma valid_id_plain id : isValidID id = true -> plain id.
Proof.
  intros H. split; [by apply valid_id_safe|]. split_and!; intros ->; vm_compute in H; discriminate.
Qed.

(** ** Properties *)

(** C37: the slots of event streams.  In every interleaving of the atomic steps of
    any number of handlers, of the departures of their clients and of what their
    streams receive, the counter is the number of open streams and never more than
    ten; a handler that reads the counter is turned away exactly when ten streams
    are open; one that finds room and is not disturbed gets a slot; an open stream
    keeps its slot until its client has left or its watcher has ended; and when all
    handlers have ended no slot is taken. *)
Theorem sse_slots (ops : list sse_op) :
  let st := foldl sse_exec sse_init ops in
  sseCount st = Z.of_nat (streaming st) /\ (streaming st <= 10)%nat
  /\ (forall i, handlers st !! i = Some PLoad ->
      if bool_decide (streaming st = 10%nat)
      then handlers (sse_exec st (Step i)) !! i = Some PRejected
      else handlers (run_steps st [i; i]) !! i = Some PStreaming)
  /\ (forall i op, handlers st !! i = Some PStreaming -> handlers (sse_exec st op) !! i <> Some PStreaming ->
      op = Select i SDone /\ i ∈ departed st \/ op = Select i SWatchClosed)
  /\ (all_ended st -> sseCount st = 0).
Proof.
  intros st. pose proof (slots_ok_reachable ops) as Hok. fold st in Hok. pose proof Hok as [H1 H2 _].
  split_and!; [done|unfold maxSSEConnections in H2; lia| | |by apply ended_count].
  - intros i Hi. pose proof (lookup_lt_Some _ _ _ Hi) as Hlt. unfold run_steps, run_ops. cbn [fmap list_fmap foldl].
    unfold maxSSEConnections in *. pose proof (sse_step st i PLoad Hi) as E1. cbn [acquireSSESlot] in E1. unfold maxSSEConnections in E1.
    case_bool_decide as E.
    + rewrite (proj2 (Z.leb_le 10 (sseCount st))) in E1 by lia. rewrite E1. by apply list_lookup_insert_eq.
    + rewrite (proj2 (Z.leb_gt 10 (sseCount st))) in E1 by lia.
      rewrite E1, (sse_step _ i (PCompareAndSwap (sseCount st))) by (by apply list_lookup_insert_eq).
      cbn [acquireSSESlot sseCount]. rewrite Z.eqb_refl. apply list_lookup_insert_eq. cbn [handlers]. by rewrite length_insert.
  - intros i op Hi Hn. destruct (streaming_stays st op i Hi) as [?|(ev & -> & [[-> ?]| ->])]; [done|by left|by right].
Qed.

(** C38: streams are opened and closed.  Let there be [n] handlers.  Taking a slot is
    lock-free: no schedule, fair or not, holds more than [4 n² + 5 n] steps of
    handlers towards a slot and ends of streams, so the compare-and-swap loop
    cannot go on for ever; what open streams receive meanwhile does not count.
    After that many rounds in which every handler is scheduled, and every stream
    whose client had left sees that its context is done, every handler was turned
    away, has ended, or streams to a client that had not left; and when all clients
    had left, all handlers have ended and no slot is taken. *)
Theorem sse_progress (ops ops' : list sse_op) (rounds : list (list sse_op)) :
  let st := foldl sse_exec sse_init ops in
  let n := length (handlers st) in
  let fin := run_ops st (concat rounds) in
  (Forall (fun op => op <> Arrive) ops' -> (effective st ops' <= 4 * n * n + 5 * n)%nat)
  /\ (Forall (fair_round (departed st) n) rounds -> (4 * n * n + 5 * n <= length rounds)%nat ->
      settled (departed st) fin
      /\ ((forall i, (i < n)%nat -> i ∈ departed st) -> all_ended fin /\ sseCount fin = 0)).
Proof.
  intros st n fin. pose proof (potential_bound st) as Hb. fold n in Hb. split.
  - intros Ho. pose proof (effective_potential st ops' Ho). lia.
  - intros Hr Hl. assert (settled (departed st) fin) as Hs by (apply rounds_settle; [done|done|lia]).
    split; [done|]. intros Hall. assert (length (handlers fin) = n) as Hlen.
    { apply run_ops_length, Forall_concat. eapply Forall_impl; [exact Hr|]. by intros ? [? _]. }
    assert (all_ended fin) as He.
    { apply Forall_lookup. intros i pc Hi. destruct (Hs i pc Hi) as [[_ Hn]|H]; [|set_solver].
      destruct Hn. apply Hall. rewrite <- Hlen. by eapply lookup_lt_Some. }
    split; [done|]. apply ended_count; [|done]. apply run_ops_ok, slots_ok_reachable.
Qed.

Lemma sent_unwatched {jW : JSON WatchEvent} evs : sent (filter (fun e => unwatched e = true) evs) = [].
Proof. induction evs as [|ev evs IH]; [done|]. rewrite filter_cons. by destruct ev; cbn; auto. Qed.

(** C39: what a client of an event stream sees.  If the values encode as JSON of one
    line, the bytes of the stream of a conversation parse back to exactly the
    connection event and then the watched events, in order, each with its type
    and its data, up to the end of the stream; heartbeats add nothing.  A server
    with no store root, or whose watcher cannot be made, and the lifecycle stream
    give the connection event only: the lifecycle events and the event types of the
    design ([conversation_started], [turn], [control], ...) are never sent. *)
Theorem stream_roundtrip {jW : JSON WatchEvent} {jM : JSON (list (gostring * gostring))}
    (id bc bl : gostring) (evs : list stream_event)
    (Hc : json_Marshal (connected (Some id)) = Ok bc) (Hbc : text_ok bc)
    (Hl : json_Marshal (connected None) = Ok bl) (Hbl : text_ok bl) (Hevs : Forall encodes evs) :
  let reads r evs := exists body, r = Streaming sse_headers body /\ client_events body = evs in
  (forall root, root <> [] ->
     reads (handleConversationStream root true None id evs) (("connected"%go, bc) :: sent evs))
  /\ (forall root e, root = [] \/ is_Some e ->
     reads (handleConversationStream root true e id evs) [("connected"%go, bc)])
  /\ reads (handleConversationsLifecycleStream true evs) [("connected"%go, bl)].
Proof.
  assert (text_ok "connected") as Hcon by (split_and!; try done; by apply (bool_decide_unpack _)).
  assert (forall b ks, text_ok b -> Forall encodes ks ->
    client_events (sendSSEEvent "connected" (Ok b) ++ stream_loop ks) = ("connected"%go, b) :: sent ks) as Hs.
  { intros b ks Hb Hk. apply stream_loop_events in Hk as [H1 H2].
    rewrite client_events_plain, client_event, H2; [done|done|done|].
    intros [H|H]%elem_of_app; [|done]. revert H. apply send_no_cr; [apply Hcon|apply Hb]. }
  assert (forall b, text_ok b -> client_events (sendSSEEvent "connected" (Ok b)
    ++ stream_loop (filter (fun e => unwatched e = true) evs)) = [("connected"%go, b)]) as Hu.
  { intros b Hb. rewrite Hs; [f_equal; by apply sent_unwatched|done|].
    apply Forall_forall. intros x [_ Hx]%list_elem_of_filter. rewrite Forall_forall in Hevs. auto. }
  unfold handleConversationStream, handleConversationsLifecycleStream, open_stream. cbv zeta. rewrite Hc, Hl.
  split_and!; [intros root Hr|intros root e Hr|]; (eexists; split; [done|]); [|case_match eqn:E; [|by apply Hu]|by apply Hu].
  - rewrite bool_decide_true by done. by apply Hs.
  - bool_facts. subst e. destruct Hr as [?|[? ?]]; done.
Qed.

(** C40: the watcher does not see the store's conversations.  Of all the files that
    the store writes - records, logs and temporary files - the watcher makes an
    event of at most two, and then with the conversation id [.]: so no event ever
    names a conversation; and none of these files is an entry of the directory
    that a stream asks to be watched. *)
Theorem watcher_blind {fsn : Fsnotify} (s : Store) (f : family) (id suffix watched : gostring) (op : Z)
    (Hroot : st_root s <> []) (Hid : safe_id id) (Hsuffix : suffix ∈ [[]; ".tmp"]%go)
    (Hwatched : isValidID watched = true) :
  let path := path_of s f id ++ suffix in
  match classify (st_root s) {| fe_Name := path; fe_Op := op |} with
  | Some e => we_ConversationID e = "." /\ id ∈ ["conversation"; "turns"]%go
  | None => True
  end
  /\ Dir path <> WatchConversation (st_root s) watched.
Proof.
  intros path. pose proof (clean_path_ok (st_root s)) as Hok.
  set (r := fst (clean_path (st_root s))) in *. set (out := snd (clean_path (st_root s))) in *.
  assert (exists g, plain g /\ g = id ++ family_suffix f ++ suffix /\ path = render_path (r, g :: family_dir f :: out))
    as (g & Hg & Eg & Epath).
  { exists (id ++ family_suffix f ++ suffix). unfold path, path_of. rewrite file_path_render by auto with vitis.
    fold r out. rewrite render_path_suffix, <- app_assoc. split_and!; [|done|done]. apply plain_file; [done|].
    apply elem_of_cons in Hsuffix as [->| ->%list_elem_of_singleton]; rewrite ?app_nil_r; auto with vitis. }
  assert (plain "conversations") as Hconv by (split_and!; try done; by apply (bool_decide_unpack _)).
  assert (plain (family_dir f)) as Hfd by auto with vitis.
  pose proof (plain_clean_ok r out _ Hfd Hok) as Hok'.
  destruct (entry_parts r _ g Hg Hok') as [EB ED]. rewrite <- Epath in EB, ED. split.
  - unfold classify. cbn [fe_Op fe_Name]. destruct (_ =? 0); [done|].
    rewrite ED, JoinPath_plain by done. fold r out. rewrite Rel_siblings by done. rewrite EB.
    destruct (bool_decide (family_dir f = "conversations")) eqn:E; [|done].
    change (Contains "." "..") with false. cbv iota zeta. rewrite Eg.
    destruct (bool_decide (id ++ family_suffix f ++ suffix = "conversation.json")) eqn:E1;
      [|destruct (bool_decide (id ++ family_suffix f ++ suffix = "turns.jsonl")) eqn:E2; [|done]];
      bool_facts; cbn [we_ConversationID]; (split; [done|]);
      (apply elem_of_cons in Hsuffix as [->| ->%list_elem_of_singleton]); rewrite ?app_nil_r in *;
      destruct f; try discriminate E.
    + apply (app_inv_tail ".json" id "conversation") in E1 as ->. by left.
    + exfalso. revert E1. by apply (last_app_ne id []).
    + exfalso. revert E1. by apply (last_app_ne id []).
    + exfalso. revert E1. by apply (last_app_ne id []).
    + exfalso. revert E2. by apply (last_app_ne id []).
    + apply (app_inv_tail ".jsonl" id "turns") in E2 as ->. right. by left.
    + exfalso. revert E2. by apply (last_app_ne id []).
    + exfalso. revert E2. by apply (last_app_ne id []).
  - rewrite ED. unfold WatchConversation. pose proof (valid_id_plain _ Hwatched) as Hw.
    rewrite JoinPath_plain3 by done. fold r out. intros [_ H]%render_path_inj; [|done|].
    + apply (f_equal length) in H. cbn in H. lia.
    + apply (plain_clean_ok r); [done|]. by apply plain_clean_ok.
Qed.

(** ** The properties at concrete streams *)
Module StreamSim.

#[global] Instance fsn : Fsnotify := {| fsnotify_Create := 1; fsnotify_Write := 2 |}.

Definition eleven : list sse_op := replicate 11 Arrive.
Definition crowd : sse := foldl sse_exec sse_init eleven.
Definition round : list nat := seq 0 11.

(** The clients of all eleven leave. *)
Definition leaving : list sse_op := eleven ++ (Leave <$> seq 0 11).
Definition fair : list sse_op := seq 0 11 ≫= fun i => [Step i; Select i STick; Select i SDone].

Lemma fair_round_ok : fair_round (departed (foldl sse_exec sse_init leaving)) 11 fair.
Proof.
  split.
  - apply Forall_forall. intros op (i & Hop & _)%list_elem_of_bind.
    repeat (apply elem_of_cons in Hop as [->|Hop]; [done|]). by apply elem_of_nil in Hop.
  - intros op (i & Hi & Hop). unfold fair. apply list_elem_of_bind. exists i. split; [|apply elem_of_seq; lia].
    destruct Hop as [->|[-> _]]; set_solver.
Qed.

Definition watch_event (n : gostring) : WatchEvent :=
  {| we_Kind := WatchEventTurnAdded; we_ConversationID := "c1"; we_FilePath := n |}.

#[global] Instance event_json : JSON WatchEvent := {|
  json_Marshal e := Ok ("{" ++ we_FilePath e ++ "}");
  json_MarshalIndent e := Ok ("{" ++ we_FilePath e ++ "}");
  json_Unmarshal _ := Err (ErrNew "unused");
|}.
#[global] Instance map_json : JSON (list (gostring * gostring)) := {|
  json_Marshal m := Ok ("{" ++ Join (snd <$> m) "," ++ "}");
  json_MarshalIndent m := Ok ("{" ++ Join (snd <$> m) "," ++ "}");
  json_Unmarshal _ := Err (ErrNew "unused");
|}.

Definition evs : list stream_event := [STick; SWatch (watch_event "t1"); STick; SDone; STick].
End StreamSim.

Lemma sse_slots_witness :
  let st := run_steps StreamSim.crowd (StreamSim.round ++ StreamSim.round) in
  streaming st = 1%nat /\ handlers st !! 0%nat = Some PStreaming
  /\ handlers (run_steps StreamSim.crowd [3; 3]%nat) !! 3%nat = Some PStreaming.
Proof.
  split; [reflexivity|]. split; [reflexivity|].
  destruct (sse_slots StreamSim.eleven) as (_ & _ & H & _). exact (H 3%nat eq_refl).
Defined.

Lemma sse_progress_witness :
  let fin := run_ops (foldl sse_exec sse_init StreamSim.leaving) (concat (replicate 539 StreamSim.fair)) in
  (effective StreamSim.crowd (Step <$> StreamSim.round) <= 539)%nat /\ all_ended fin /\ sseCount fin = 0.
Proof.
  split.
  - refine (proj1 (sse_progress StreamSim.eleven (Step <$> StreamSim.round) []) _).
    apply Forall_fmap, Forall_true. intros i. discriminate.
  - refine (proj2 (proj2 (sse_progress StreamSim.leaving [] (replicate 539 StreamSim.fair)) _ _) _).
    + apply Forall_replicate. exact StreamSim.fair_round_ok.
    + rewrite length_replicate. vm_compute. lia.
    + intros i Hi. change (i < 11)%nat in Hi.
      assert (departed (foldl sse_exec sse_init StreamSim.leaving) = rev (seq 0 11)) as -> by (vm_compute; reflexivity).
      rewrite <- Permutation_rev. apply elem_of_seq. lia.
Defined.

Lemma stream_roundtrip_witness : exists body,
  handleConversationStream "./logs" true None "c1" StreamSim.evs = Streaming sse_headers body
  /\ client_events body = [("connected"%go, "{connected,c1}"%go); ("turn_added"%go, "{t1}"%go)].
Proof.
  refine (proj1 (stream_roundtrip "c1" "{connected,c1}" "{connected}" StreamSim.evs _ _ _ _ _) "./logs"%go _).
  - reflexivity.
  - split_and!; [done|apply (bool_decide_unpack _); reflexivity..].
  - reflexivity.
  - split_and!; [done|apply (bool_decide_unpack _); reflexivity..].
  - repeat constructor. exists "{t1}". split; [reflexivity|].
    split_and!; [done|apply (bool_decide_unpack _); reflexivity..].
  - discriminate.
Defined.

Lemma watcher_blind_witness :
  let path id := path_of StoreSim.store FConversationTurn id in
  classify "./logs" {| fe_Name := path "c1"; fe_Op := 2 |} = None
  /\ we_ConversationID <$> classify "./logs" {| fe_Name := path "turns"; fe_Op := 2 |} = Some "."%go
  /\ Dir (path "c1" ++ []) <> WatchConversation "./logs" "c1".
Proof.
  split; [vm_compute; reflexivity|]. split; [vm_compute; reflexivity|].
  refine (proj2 (watcher_blind StoreSim.store FConversationTurn "c1" [] "c1" 2 _ _ _ _)).
  - discriminate.
  - apply (bool_decide_unpack _). reflexivity.
  - by left.
  - reflexivity.
Defined.
