(* ===== verification/Served.v ===== *)
(** * What the server shows of a finished run

    The writers and the readers of the store together: a conversation that
    [converse] ran, and a session that [run] ran, over the file store, as the
    HTTP API then serves them from the same files. *)
From S2P Require Import Prelude GoLib Model Policy Sentinel Envelope Bus Broker Protocol BrokerRun Turns Adapter Orchestrator FileSys Store System RunDisk Api.

(** ** Identifiers *)

Lemma hex_id_valid prefix raw :
  forallb valid_id_char prefix = true -> (1 <= length prefix)%nat -> (length prefix + 2 * length raw <= 128)%nat ->
  isValidID (prefix ++ EncodeToString raw) = true.
Proof.
  intros Hp Hl Hr. unfold isValidID. rewrite length_app, length_hex, forallb_app, Hp. cbn [andb].
  assert (forallb valid_id_char (EncodeToString raw) = true) as ->.
  { apply forallb_forall. intros c Hc%list_elem_of_In. revert c Hc. apply Forall_forall, Forall_hex. intros n Hn.
    unfold valid_id_char, hex_digit, is_lower, is_digit. rewrite !orb_true_iff. do 2 left.
    destruct (Z.ltb_spec n 10); rewrite ord_chr by lia; [right|left; left]; lia. }
  rewrite andb_true_r. apply andb_true_iff. rewrite !Z.leb_le. lia.
Qed.

(** The identifiers that the program makes are valid ones: the server answers
    for them, and they name a file of their own. *)
Lemma NewID_valid raw id :
  length raw = 8%nat -> NewID "conv_" (Some raw) = Some id -> isValidID id = true.
Proof. intros Hr [= <-]. apply (hex_id_valid "conv_"); [done|cbn; lia|]. rewrite Hr. cbn. lia. Qed.

Lemma NewSessionID_valid raw : length raw = 8%nat -> isValidID (NewSessionID raw) = true.
Proof. intros Hr. apply (hex_id_valid "sess_"); [done|cbn; lia|]. rewrite Hr. cbn. lia. Qed.

(** ** Requests *)
Section Served.
Context {World : Type} {rd : StoreReader World}.

Definition origin_of (cfg : Config) : gostring :=
  if bool_decide (cfg_CORSOrigin cfg = []) then "*" else cfg_CORSOrigin cfg.

Definition ok_response (cfg : Config) (b : Body) : Response :=
  {| rs_Code := 200; rs_AllowOrigin := Some (origin_of cfg); rs_Body := b |}.

Lemma serve_get cfg n r e b (w w' : World) :
  authorized cfg r -> rq_Method r = "GET" -> forallb isValidID (rq_path r) = true -> route (rq_path r) = Some e ->
  handle e n r w = (Reply (reply 200 b), w') -> serve cfg n r w = (Reply (ok_response cfg b), w').
Proof.
  intros Ha Hm Hv Hp Hh. rewrite (proj1 (serve_authorized cfg n r w) Ha). unfold corsMiddleware, mux.
  rewrite (unclean_valid r Hv), Hm, Hp, (bool_decide_false ("GET"%go = "OPTIONS")), (bool_decide_true ("GET" ∈ _)) by (done || by left).
  by rewrite Hh.
Qed.

Lemma route_conversation id : id <> [] -> id <> "stream" ->
  route ["api"; "v1"; "conversations"; id] = Some (EConversation id)
  /\ route ["api"; "v1"; "conversations"; id; "turns"] = Some (ETurns id).
Proof.
  intros H1 H2. unfold route. cbn. rewrite (bool_decide_false (id = [])), (bool_decide_false (id = "stream")) by done.
  split; vm_compute; reflexivity.
Qed.

Lemma route_session id : id <> [] -> route ["api"; "v1"; "sessions"; id] = Some (ESession id).
Proof. intros H. unfold route. cbn. rewrite (bool_decide_false (id = [])) by done. vm_compute. reflexivity. Qed.

Lemma serve_read {A} cfg n r e (rd_op : World -> result A * World) (k : result A -> Response) b (w : World) a :
  authorized cfg r -> rq_Method r = "GET" -> forallb isValidID (rq_path r) = true -> route (rq_path r) = Some e ->
  handle e n r w = call (let '(x, w) := rd_op w in (k x, w)) ->
  fst (rd_op w) = Ok a -> k (Ok a) = reply 200 b ->
  fst (serve cfg n r w) = Reply (ok_response cfg b).
Proof.
  intros Ha Hm Hv Hp Hh Hop Hk. destruct (rd_op w) as [x w'] eqn:E. cbn in Hop. subst x.
  rewrite (serve_get cfg n r e b w w'); [done..|]. by rewrite Hh, Hk.
Qed.
End Served.

Lemma valid_nonempty id : isValidID id = true -> id <> [].
Proof. intros H ->. discriminate. Qed.

(** ** Properties *)
Section Properties.
Context {jS : JSON Session} {jT : JSON Turn} {jC : JSON Conversation} {jCT : JSON ConversationTurn}.
Context {srt : SortSlice} (marshal_event : StoredStreamEvent -> result gostring).
Variable s : Store.
Hypothesis root : st_root s <> [].

#[local] Abbreviation server := (serve (rd := file_store_reader s)).

Lemma session_answer cfg n r id x fs :
  isValidID id = true -> fst (GetSession s id fs) = Ok (Some x) -> authorized cfg r -> rq_Method r = "GET" ->
  rq_path r = ["api"; "v1"; "sessions"; id] -> fst (server cfg n r fs) = Reply (ok_response cfg (BSession x)).
Proof.
  intros Hv Hg Ha Hm Hp. eapply serve_read; [done|done|rewrite Hp; cbn; by rewrite Hv|rewrite Hp; by apply route_session, valid_nonempty| |exact Hg|].
  - cbn [handle]. unfold handleGetSession. rewrite Hv. reflexivity.
  - reflexivity.
Qed.

Lemma conversation_answer cfg n r id c fs :
  isValidID id = true -> id <> "stream" -> fst (GetConversation s id fs) = Ok (Some c) ->
  authorized cfg r -> rq_Method r = "GET" -> rq_path r = ["api"; "v1"; "conversations"; id] ->
  fst (server cfg n r fs) = Reply (ok_response cfg (BConversation c)).
Proof.
  intros Hv Hne Hg Ha Hm Hp.
  eapply serve_read; [done|done|rewrite Hp; cbn; by rewrite Hv|rewrite Hp; by apply route_conversation; [apply valid_nonempty|]| |exact Hg|].
  - cbn [handle]. unfold handleGetConversation. rewrite Hv. reflexivity.
  - reflexivity.
Qed.

Lemma turns_answer cfg n r id ts fs :
  isValidID id = true -> id <> "stream" -> fst (PeekConversationTurns s id 0 fs) = Ok ts ->
  authorized cfg r -> rq_Method r = "GET" -> rq_path r = ["api"; "v1"; "conversations"; id; "turns"] ->
  fst (server cfg n r fs) = Reply (ok_response cfg (BTurns ts (Z.of_nat (length ts)))).
Proof.
  intros Hv Hne Hg Ha Hm Hp.
  eapply serve_read; [done|done|rewrite Hp; cbn; by rewrite Hv|rewrite Hp; by apply route_conversation; [apply valid_nonempty|]| |exact Hg|].
  - cbn [handle]. unfold handleListTurns. rewrite Hv. reflexivity.
  - reflexivity.
Qed.

(** A finished conversation is served.  The broker ran over the file store,
    under an identifier that the program made, and returned without a warning;
    then every authorised GET for the conversation is answered with 200 and the
    conversation of the result, and one for its turns with the turns the run
    appended, in order, and their number. *)
Theorem conversation_served_after_run {World Transport : Type} {env0 : BrokerEnv World Transport}
    (d : BrokerDeps Transport) (fuel : nat) (fs fs' : FS) (w w' : World) (r : FinalResult)
    (log : list (Broker.call Transport)) (raw : gostring) (Hok : deps_ok d)
    (Hrand : @random_ok (FS * World) Transport (store_env marshal_event s))
    (Hfuel : Z.max 1 (MaxTurns (deps_Conversation d)) <= Z.of_nat fuel)
    (HR : Broker.Run (env := store_env marshal_event s) d fuel ((fs, w), []) = (Some r, ((fs', w'), log)))
    (Hhonest : honest log) (Hraw : length raw = 8%nat)
    (Hid : NewID "conv_" (Some raw) = Some (C_ID (deps_Conversation d)))
    (Hempty : log_at s fs FConversationTurn (C_ID (deps_Conversation d)) = [])
    (Hw : FR_Warnings r = []) (Hlines : Forall short_line (appended log))
    (Hj1 : json_faithful (stampSchemaVersion (created_conv d (CreatedAt (FR_Conversation r)))))
    (Hj2 : json_faithful (stampSchemaVersion (FR_Conversation r)))
    (Hfaults : fs_faults fs' = []) :
  forall cfg n rq, authorized cfg rq -> rq_Method rq = "GET" ->
  (rq_path rq = ["api"; "v1"; "conversations"; C_ID (deps_Conversation d)] ->
     fst (server cfg n rq fs') = Reply (ok_response cfg (BConversation (stampSchemaVersion (FR_Conversation r)))))
  /\ (FR_Turns r <> [] -> rq_path rq = ["api"; "v1"; "conversations"; C_ID (deps_Conversation d); "turns"] ->
     fst (server cfg n rq fs') = Reply (ok_response cfg (BTurns (appended log) (Z.of_nat (length (appended log)))))).
Proof.
  pose proof (NewID_valid raw _ Hraw Hid) as Hv.
  assert (C_ID (deps_Conversation d) <> "stream") as Hne by (injection Hid as <-; discriminate).
  destruct (run_reads_back (envW := store_env marshal_event s) marshal_event s d root fst fuel (fs, w) (fs', w') r log 0) as (Hc & Ht & _); try done;
    [by apply valid_id_safe|]. cbn [fst] in Hc, Ht.
  intros cfg n rq Ha Hm. split; [by apply conversation_answer|]. intros Hturns. apply turns_answer; try done.
  by rewrite Ht.
Qed.

(** A finished session is served.  A single-shot run over the file store returned
    a result without an error; then every authorised GET for its session is
    answered with 200 and the session the run created, closed with the status of
    the result. *)
Theorem session_served_after_run {World Process : Type} {env0 : OrchEnv World Process}
    (registry : Registry) (request : RunRequest) (fs fs' : FS) (w w' : World)
    (l : list (run_call Process)) (res : RunResult) (raw : gostring)
    (HR : Orchestrator.Run (env := disk_env marshal_event s) registry request ((fs, w), [])
          = (inr res, ((fs', w'), l)))
    (Hraw : length raw = 8%nat) (Hid : R_SessionID res = NewSessionID raw)
    (Hempty : log_at s fs FTurn (R_SessionID res) = [])
    (Hjson : faithful (created l) (updated l) (stored l)) (Hfaults : fs_faults fs' = [])
    (Herr : R_Error res = None) :
  exists se p, created l = [se] /\ SP_Status p = Some (R_Status res)
  /\ forall cfg n rq, authorized cfg rq -> rq_Method rq = "GET" ->
     rq_path rq = ["api"; "v1"; "sessions"; R_SessionID res] ->
     fst (server cfg n rq fs') = Reply (ok_response cfg (BSession (patch_session p se))).
Proof.
  destruct (run_files_read_back marshal_event s registry request fs fs' w w' l res 0)
    as (se & user & answer & Hc & _ & _ & _ & _ & _ & _ & Hs); [done..|].
  destruct (Hs Herr) as (p & Hst & Hg). exists se, p. split_and!; [done..|].
  intros cfg n rq Ha Hm Hp. eapply session_answer; [|exact Hg|done..]. rewrite Hid. by apply NewSessionID_valid.
Qed.
End Properties.

(** ** The properties at runs over a fresh store *)
Module ServedSim.
Definition raw : gostring := replicate 8 "0"%char.
Definition id : gostring := default [] (NewID "conv_" (Some raw)).

Definition conv : Conversation :=
  {| C_ID := id; SchemaVersion := 0; CreatedAt := 0; C_EndedAt := None; C_Status := [];
     MaxTurns := 2; PerTurnTimeout := 0; OverallTimeout := 0; C_Terminator := C_Terminator Sim.conv;
     C_Peers := []; Seeds := ∅; OpenerID := []; C_PeerA := zeroPeerSpec; C_PeerB := zeroPeerSpec;
     SeedA := "hi"; SeedB := "hello"; Opener := PeerSlotB; TurnsConsumed := 0; C_ReplyStyle := [] |}.

Definition deps : BrokerDeps gostring :=
  {| deps_Conversation := conv; deps_PeerA := Some "A"%go; deps_PeerB := Some "B"%go; deps_DrainWindow := 0;
     deps_Policy := None; deps_PeersByID := ∅; deps_PeerOrder := [] |}.

(** The run without a store tells what the store will write. *)
Definition plain_run : option FinalResult * (Sim.world * list (Broker.call gostring)) :=
  Broker.Run deps 2 (Sim.start, []).
Definition plain_res : FinalResult := default Sim.res (fst plain_run).

#[export] Instance jC : JSON Conversation := StoreSim.table_json
  [(stampSchemaVersion (created_conv deps (CreatedAt (FR_Conversation plain_res))), "{running}"%go);
   (stampSchemaVersion (FR_Conversation plain_res), "{completed}"%go)].
#[export] Instance jCT : JSON ConversationTurn :=
  StoreSim.table_json (zip (appended (snd (snd plain_run))) ["{1}"; "{2}"]%go).
#[export] Instance env : BrokerEnv (FS * Sim.world) gostring :=
  store_env (jS := StoreSim.jS) (jT := StoreSim.jT) StoreSim.event_json StoreSim.store.

Definition run : option FinalResult * ((FS * Sim.world) * list (Broker.call gostring)) :=
  Broker.Run (env := env) deps 2 ((StoreSim.fresh, Sim.start), []).
Definition files : FS := fst (fst (snd run)).
Definition res : FinalResult := default Sim.res (fst run).
Definition log : list (Broker.call gostring) := snd (snd run).

Lemma served_run_eq : Broker.Run (env := env) deps 2 ((StoreSim.fresh, Sim.start), [])
  = (Some res, ((files, snd (fst (snd run))), log)).
Proof.
  etrans; [apply (returned run Sim.res); vm_compute; reflexivity|]. unfold res, files, log.
  by destruct (snd run) as [[fs w] l].
Qed.

Lemma served_deps_ok : deps_ok deps.
Proof. constructor; [done|done|by split; eexists|done]. Qed.
Lemma served_random_ok : random_ok (World := FS * Sim.world) (Transport := gostring) (env := env).
Proof. intros m [fs w]. by eexists. Qed.

Definition turn (i : nat) : ConversationTurn := default (StoreSim.turn 0 []) (appended log !! i).
Lemma served_turns : appended log = [turn 0; turn 1].
Proof. vm_compute. reflexivity. Qed.

Definition request (path : list gostring) : Request :=
  {| rq_Method := "GET"; rq_path := path; rq_dots := true; rq_query := []; rq_Authorization := "Bearer k" |}.
End ServedSim.

#[local] Existing Instance ServedSim.jC.
#[local] Existing Instance ServedSim.jCT.

Lemma short_served : Forall short_line (appended ServedSim.log).
Proof.
  rewrite ServedSim.served_turns.
  apply Forall_cons_2; [exists "{1}"|apply Forall_cons_2; [exists "{2}"|apply Forall_nil_2]].
  all: eval_line.
Qed.

Lemma conversation_served_after_run_witness :
  fst (serve (rd := file_store_reader StoreSim.store) ApiSim.cfg 0
         (ServedSim.request ["api"; "v1"; "conversations"; ServedSim.id; "turns"]) ServedSim.files)
  = Reply (ok_response ApiSim.cfg (BTurns [ServedSim.turn 0; ServedSim.turn 1] 2)).
Proof.
  destruct (conversation_served_after_run StoreSim.event_json StoreSim.store ltac:(discriminate) ServedSim.deps 2
    StoreSim.fresh ServedSim.files Sim.start _ ServedSim.res ServedSim.log ServedSim.raw ServedSim.served_deps_ok
    ServedSim.served_random_ok Sim.fuel_ok ServedSim.served_run_eq
    ltac:(unfold honest; vm_compute; repeat constructor) ltac:(reflexivity) ltac:(reflexivity)
    ltac:(vm_compute; reflexivity) ltac:(vm_compute; reflexivity) short_served
    ltac:(exists "{running}"%go; split; vm_compute; reflexivity)
    ltac:(exists "{completed}"%go; split; vm_compute; reflexivity) ltac:(vm_compute; reflexivity)
    ApiSim.cfg 0 (ServedSim.request ["api"; "v1"; "conversations"; ServedSim.id; "turns"]%go)
    ltac:(by right) ltac:(reflexivity)) as [_ H].
  rewrite ServedSim.served_turns in H. apply H; [vm_compute; discriminate|reflexivity].
Defined.

Lemma session_served_after_run_witness :
  exists se p, created DiskSim.log = [se] /\ SP_Status p = Some RunCompleted
  /\ fst (serve (rd := file_store_reader (jS := DiskSim.jS) StoreSim.store) ApiSim.cfg 0
            (ServedSim.request ["api"; "v1"; "sessions"; R_SessionID (with_peek OrchSim.res (stored DiskSim.log))])
            DiskSim.files)
     = Reply (ok_response ApiSim.cfg (BSession (patch_session p se))).
Proof.
  destruct (session_served_after_run (jS := DiskSim.jS) (jT := DiskSim.jT) (jC := StoreSim.jC) (jCT := StoreSim.jCT)
    StoreSim.event_json StoreSim.store ltac:(discriminate)
    OrchSim.registry OrchSim.request StoreSim.fresh DiskSim.files 0 _ DiskSim.log
    (with_peek OrchSim.res (stored DiskSim.log)) ServedSim.raw DiskSim.run_files_eq ltac:(reflexivity)
    ltac:(vm_compute; reflexivity) ltac:(vm_compute; reflexivity) disk_faithful ltac:(vm_compute; reflexivity)
    ltac:(reflexivity)) as (se & p & H1 & H2 & H3).
  exists se, p. split; [exact H1|]. split; [exact H2|].
  exact (H3 ApiSim.cfg 0 (ServedSim.request _) (or_intror eq_refl) eq_refl eq_refl).
Defined.
