(* ===== verification/RunProcess.v ===== *)
(** * The run command's process and its files together

    [orchestrator.Run] over the pseudo-terminal process of [Process] and the file
    store: what the completion loop receives are the events of an execution of the
    process, in any interleaving; the store's operations run on the files.  The
    answer of a run is then followed from the bytes the child wrote to the
    response, the log and the server. *)
From S2P Require Import Prelude GoLib Model Ansi Adapter Orchestrator FileSys Store System RunDisk Process Api Served.

(** ** The environment *)

(** The steps of a schedule that are enabled, in order. *)
Fixpoint enabled (p : process) (ls : list label) : list label :=
  match ls with
  | [] => []
  | l :: ls => match step p l with Some p' => l :: enabled p' ls | None => enabled p ls end
  end.

Lemma exec_enabled p ls : exists q evs, exec p (enabled p ls) = Some (q, evs).
Proof.
  revert p. induction ls as [|l ls IH]; intros p; [by eexists _, _|]. cbn [enabled].
  destruct (step p l) as [p'|] eqn:E; [|apply IH]. cbn [exec mbind option_bind]. rewrite E. cbn.
  destruct (IH p') as (q & evs & ->). by eexists _, _.
Qed.

(** The system below: what [os/exec] starts, and how the steps of a process are
    scheduled until the context of the completion loop ends.  A process is any
    value that tells its schedule, so what it does is fixed when it is started,
    and is otherwise arbitrary.  The schedule is that of a child which gets the
    prompt: [ChildWrites] are the bytes that the line discipline makes readable,
    the echo of the input and the output of the child after its translation. *)
Class ProcEnv (World Process : Type) := {
  q_environ : list gostring;
  q_order : SpawnSpec -> list (gostring * gostring);
  q_start : start -> World -> result Process * World;
  q_schedule : Process -> Z -> list label;
}.

Section ProcEnv.
Context {World Process : Type} {proc : ProcEnv World Process} {env0 : OrchEnv World Process}.

(** [Runtime.Spawn] *)
Definition spawn (spec : SpawnSpec) (w : World) : result Process * World :=
  match Spawn q_environ spec (q_order spec) with
  | Err e => (Err e, w)
  | Ok st =>
      let '(r, w) := q_start st w in
      (match r with Ok p => Ok p | Err e => Err (ErrWrapped "start pty: " e) end, w)
  end.

Definition loop_events (p : Process) (timeout : Z) (w : World) : list loop_event * World :=
  (match exec newProcess (enabled newProcess (q_schedule p timeout)) with Some (_, evs) => evs | None => [] end, w).

#[export] Instance proc_env : OrchEnv World Process := {|
  o_LoadEnvFile := o_LoadEnvFile;
  o_ReadFile := o_ReadFile;
  o_UserHomeDir := o_UserHomeDir;
  o_random := o_random;
  o_now := o_now;
  o_Spawn := spawn;
  o_Terminate := o_Terminate;
  o_Write := o_Write;
  o_events := loop_events;
  o_CreateSession := o_CreateSession;
  o_UpdateSession := o_UpdateSession;
  o_AppendTurn := o_AppendTurn;
  o_PeekTurns := o_PeekTurns;
  o_AppendStreamEvent := o_AppendStreamEvent;
|}.

Lemma loop_events_executed p timeout w : exists q,
  exec newProcess (enabled newProcess (q_schedule p timeout)) = Some (q, fst (loop_events p timeout w)).
Proof.
  unfold loop_events. destruct (exec_enabled newProcess (q_schedule p timeout)) as (q & evs & E). exists q. by rewrite E.
Qed.
End ProcEnv.

(** ** Properties *)
Section Properties.
Context {jS : JSON Session} {jT : JSON Turn} {jC : JSON Conversation} {jCT : JSON ConversationTurn}.
Context {srt : SortSlice} (marshal_event : StoredStreamEvent -> result gostring).
Context {World Process : Type} {proc : ProcEnv World Process} {env0 : OrchEnv World Process}.
Variable s : Store.

#[local] Abbreviation run_env := (disk_env marshal_event s (env0 := proc_env)).

(** The events of a run are those of the execution of its process. *)
Lemma run_events_executed (p : Process) t (x : FS * World) : exists q,
  exec newProcess (enabled newProcess (q_schedule p t)) = Some (q, fst (o_events (OrchEnv := run_env) p t x)).
Proof.
  destruct x as [fs w]. destruct (loop_events_executed p t w) as (q & E). exists q.
  exact E.
Qed.

(** C4: A single-shot run, whole.  A run over a process and the file store that
    returns a result without an error started one process; in the interleaving of
    that process' child with the goroutines that serve it, whichever it is,
    - the response is what the adapter extracts from the normalised text of a
      prefix of the bytes the child made readable, as long as the bytes reported;
    - an exit code is reported only of a child that ended: its own, or 0;
    - if the records survive JSON and no log was there, the store reads back the
      prompt and that response, all or the last [n], and every authorised GET for
      the session is answered with the session that was created, closed with the
      status of the result. *)
Theorem run_whole (registry : Registry) (request : RunRequest) (fs fs' : FS) (w w' : World)
    (l : list (run_call Process)) (res : RunResult) (raw : gostring) (n : Z) (Hroot : st_root s <> [])
    (HR : Orchestrator.Run (env := run_env) registry request ((fs, w), []) = (inr res, ((fs', w'), l)))
    (Herr : R_Error res = None) (Hraw : length raw = 8%nat) (Hid : R_SessionID res = NewSessionID raw) :
  exists provider p ls q evs out lost,
    Registry_Get registry (RR_Provider (with_defaults request)) = Ok provider /\ spawned l = [p]
    /\ ls = enabled newProcess (q_schedule p (RR_TimeoutSec (with_defaults request)))
    /\ exec newProcess ls = Some (q, evs) /\ written ls = out ++ lost
    /\ R_Response res = X_Response (ad_ExtractResponse provider (NormalizePTYText out))
    /\ M_BytesCaptured (R_Meta res) = Z.of_nat (length out)
    /\ (forall code, M_ExitCode (R_Meta res) = Some code ->
          exists wo, exited q = Some wo /\ (code = X_Code (exit_result wo) \/ code = 0))
    /\ (log_at s fs FTurn (R_SessionID res) = [] -> faithful (created l) (updated l) (stored l) ->
        fs_faults fs' = [] ->
        exists se p user answer, created l = [se] /\ SP_Status p = Some (R_Status res)
        /\ (RR_Prompt request <> [] -> TU_Content user = RR_Prompt request) /\ assistant (R_Response res) answer
        /\ fst (PeekTurns s (R_SessionID res) n fs') = Ok (last_n n (user :: answer))
        /\ forall cfg n rq, authorized cfg rq -> rq_Method rq = "GET" ->
           rq_path rq = ["api"; "v1"; "sessions"; R_SessionID res] ->
           fst (serve (rd := file_store_reader s) cfg n rq fs') = Reply (ok_response cfg (BSession (patch_session p se)))).
Proof.
  destruct (Run_books (env := run_env) registry request (fs, w) (fs', w') l res HR) as (provider & prompt & Hp & _ & [_ _ Hloop]).
  destruct (Hloop Herr) as (p & x & c & acts & Hsp & Hw & _ & _ & Hresp & Hcode & Hbytes).
  destruct (run_events_executed p (RR_TimeoutSec (with_defaults request)) x) as (q & Hexec).
  destruct (loop_on_process provider (RR_DebugRaw (with_defaults request)) _ q _ Hexec)
    as (c' & acts' & Hw' & (lost & Hout) & Hseen & Hexit & _). rewrite Hw in Hw'. injection Hw' as <- <-.
  eexists provider, p, _, q, _, _, lost. split_and!; [exact Hp|exact Hsp|reflexivity|exact Hexec|exact Hout|exact Hresp|congruence| |].
  - intros code Hc. apply Hexit. congruence.
  - intros Hempty Hjson Hfaults.
    destruct (run_files_read_back (env0 := proc_env) marshal_event s registry request fs fs' w w' l res n Hroot HR
      Hempty Hjson Hfaults) as (se & user & answer & Hc & _ & _ & Hprompt & Hans & Hpeek & _ & Hs).
    destruct (Hs Herr) as (pa & Hst & Hg). exists se, pa, user, answer. split_and!; try done.
    intros cfg k rq Ha Hm Hpath. eapply session_answer; [|exact Hg|done..]. rewrite Hid. by apply NewSessionID_valid.
Qed.
End Properties.

(** ** A run over a child that answers and exits *)
Module WholeRunSim.
Definition labels : list label :=
  [ChildWrites "codex
hi
tokens used"%go; ReaderReads 100 5; RecvOutput; ReaderSends; RecvOutput; ChildExits WaitNil; WaiterSteps;
   WaiterSteps; RecvDone; Ticks 9].

(** The receive before the send is not enabled. *)
Definition steps : list label := Eval vm_compute in enabled newProcess labels.

#[export] Instance proc : ProcEnv Z nat := {|
  q_environ := ["HOME=/root"%go];
  q_order spec := [];
  q_start _ w := (Ok 7%nat, w);
  q_schedule _ _ := labels;
|}.

#[export] Instance env : OrchEnv (FS * Z) nat :=
  disk_env (jS := DiskSim.jS) (jT := DiskSim.jT) (jC := StoreSim.jC) (jCT := StoreSim.jCT) StoreSim.event_json
    StoreSim.store (env0 := proc_env (World := Z) (proc := proc) (env0 := OrchSim.env)).

Definition run := Orchestrator.Run (env := env) OrchSim.registry OrchSim.request ((StoreSim.fresh, 0), []).
Definition res : RunResult := match fst run with inr r => r | inl _ => OrchSim.res end.
Definition files : FS := fst (fst (snd run)).
Definition log : list (run_call nat) := snd (snd run).

Lemma whole_run_eq2 : run = (inr res, ((files, snd (fst (snd run))), log)).
Proof.
  assert (match fst run with inr _ => true | inl _ => false end = true) as H by (vm_compute; reflexivity).
  unfold res, files, log. revert H. by destruct run as [[e|r] [[fs w] l]].
Qed.
Lemma same_records : created log = created DiskSim.log /\ updated log = updated DiskSim.log /\ stored log = stored DiskSim.log.
Proof. vm_compute. split_and!; reflexivity. Qed.
End WholeRunSim.

#[local] Existing Instance DiskSim.jS.
#[local] Existing Instance DiskSim.jT.

Lemma run_whole_witness : exists provider q evs out lost se p,
  Registry_Get OrchSim.registry "codex" = Ok provider
  /\ exec newProcess WholeRunSim.steps = Some (q, evs) /\ written WholeRunSim.steps = out ++ lost
  /\ R_Response WholeRunSim.res = X_Response (ad_ExtractResponse provider (NormalizePTYText out))
  /\ fst (serve (rd := file_store_reader StoreSim.store) ApiSim.cfg 0
       (ServedSim.request ["api"; "v1"; "sessions"; R_SessionID WholeRunSim.res]) WholeRunSim.files)
     = Reply (ok_response ApiSim.cfg (BSession (patch_session p se))).
Proof.
  destruct (run_whole (World := Z) (proc := WholeRunSim.proc) (env0 := OrchSim.env) (jC := StoreSim.jC) (jCT := StoreSim.jCT) StoreSim.event_json StoreSim.store OrchSim.registry
    OrchSim.request StoreSim.fresh WholeRunSim.files 0 _ WholeRunSim.log WholeRunSim.res ServedSim.raw 0
    ltac:(discriminate) WholeRunSim.whole_run_eq2 ltac:(vm_compute; reflexivity) ltac:(reflexivity)
    ltac:(vm_compute; reflexivity)) as (provider & pid & ls & q & evs & out & lost & H1 & _ & Els & H2 & H3 & H4 & _ & _ & H).
  assert (ls = WholeRunSim.steps) as -> by (rewrite Els; vm_compute; reflexivity).
  destruct WholeRunSim.same_records as (E1 & E2 & E3). rewrite E1, E2, E3 in H.
  destruct (H ltac:(vm_compute; reflexivity) disk_faithful ltac:(vm_compute; reflexivity))
    as (se & p & user & answer & _ & _ & _ & _ & _ & Hs).
  exists provider, q, evs, out, lost, se, p. split_and!; [exact H1|exact H2|exact H3|exact H4|].
  exact (Hs ApiSim.cfg 0 (ServedSim.request _) (or_intror eq_refl) eq_refl eq_refl).
Defined.

Example the_answer : R_Response WholeRunSim.res = "hi".
Proof. vm_compute. reflexivity. Qed.
