(* ===== verification/ConverseRun.v ===== *)
(** * The converse command over its parts

    The environment that [ConverseCommand] puts together: the in-process bus with
    the sentinel terminator, a provider transport per peer, the file store; only
    the processes behind the terminals, the clock, the context and the random
    source are left open.  Each part is observed by its own steps, so the
    theorems on the parts hold of one and the same run. *)
From S2P Require Import Prelude GoLib Model Policy Sentinel SentinelLoop Envelope Bus Broker Protocol Trace BrokerRun Turns EndToEnd Converse FileSys Store System Persistent TurnWait Ansi Adapter Provider PtyPeers Orchestrator Api Served.

Section ConverseRun.
Context {jS : JSON Session} {jT : JSON Turn} {jC : JSON Conversation} {jCT : JSON ConversationTurn}.
Context {srt : SortSlice} (marshal_event : StoredStreamEvent -> result gostring).
Context {World : Type} {pty : PtyEnv World} {base : BrokerEnv World PeerID}.

(** Where a validated command stands when it calls the broker. *)
Definition whole : Type := parts * (FS * (terminals * World)).

#[export] Instance whole_env (s : Store) (d : BrokerDeps PeerID) : BrokerEnv whole PeerID :=
  bus_env (C_ID (deps_Conversation d)) (env0 := store_env marshal_event s (env0 := pty_env)).

Definition launched (l : launch) (fs : FS) (w : World) : whole :=
  let conv := deps_Conversation (ln_deps l) in
  ((new_terminator (TS_Sentinel (C_Terminator conv)), Bus.New []),
   (fs, (new_transports conv (peerIDs (ln_deps l)), w))).

(** The parts of the state. *)
Definition bus_of (x : whole) : parts := fst x.
Definition files_of (x : whole) : FS := fst (snd x).
Definition peers_of (x : whole) : terminals := fst (snd (snd x)).

Section Observed.
Variables (s : Store) (d : BrokerDeps PeerID).

Lemma whole_bus : Observed (env := whole_env s d) bus_of (bus_step (C_ID (deps_Conversation d))).
Proof. apply bus_observed. Qed.

Lemma whole_files : Observed (env := whole_env s d) files_of (disk_step marshal_event s).
Proof. apply (bus_observed_rest _ fst); [apply store_observed|]. by intros [] z. Qed.

Lemma whole_peers : Observed (env := whole_env s d) peers_of peer_step.
Proof.
  apply (bus_observed_rest _ (fun x => fst (snd x))); [|by intros [] z].
  apply (store_observed_rest marshal_event s fst peer_step); [apply pty_observed|]. by intros [] z.
Qed.

Lemma whole_random : random_ok (env := base) -> random_ok (env := whole_env s d).
Proof.
  intros H. apply bus_random_ok. intros n [fs [ps w]]. specialize (H n w). cbn. unfold on_snd. cbn.
  by destruct (env_random n w).
Qed.
End Observed.

(** ** A validated command *)
Section Launch.
Variables (stat : gostring -> option bool) (f : ConverseFlags) (id : gostring) (now : time) (l : launch).
Hypothesis accepted : ConverseCommand stat f id now = inr l.
Variables (s : Store) (fs0 fs : FS).
Hypothesis opened : Store.New (ln_logPath l) false fs0 = (Ok s, fs).

#[local] Abbreviation d := (ln_deps l).
#[local] Abbreviation conv := (deps_Conversation (ln_deps l)).

Lemma New_root root debugRaw fs1 fs2 s' : Store.New root debugRaw fs1 = (Ok s', fs2) -> st_root s' <> [].
Proof.
  unfold Store.New. case_bool_decide; [done|]. unfold mbind, IO_bind.
  destruct (mkdirs _ fs1) as [[u|e] fs3]; [|done]. by intros [= <- _].
Qed.

Lemma command_id : C_ID conv = id.
Proof. by apply ConverseCommand_conversation in accepted as [H _]. Qed.

(** The run, and what it did to each part. *)
Lemma whole_run w : random_ok (env := base) ->
  exists r tb fs' ps w' log,
    Broker.Run (env := whole_env s d) d 500 (launched l fs w, []) = (Some r, ((tb, (fs', (ps, w'))), log))
    /\ run_log d log r
    /\ trace (bus_step (C_ID conv)) log (bus_of (launched l fs w)) tb
    /\ trace peer_step log (new_transports conv (peerIDs d)) ps
    /\ honest log.
Proof.
  intros Hrand. pose proof (ConverseCommand_ok _ _ _ _ _ accepted) as [Hok Ht Hm _ _ _ _].
  destruct (Run_spec (env := whole_env s d) d 500 (launched l fs w) Hok (whole_random s d Hrand) ltac:(lia))
    as (r & [tb [fs' [ps w']]] & log & HR & Hl).
  destruct (trace_Run (observed := whole_bus s d) _ _ d 500 (launched l fs w) []) as (o1 & k1 & z1 & E1 & T1).
  destruct (trace_Run (observed := whole_peers s d) _ _ d 500 (launched l fs w) []) as (o2 & k2 & z2 & E2 & T2).
  rewrite HR in E1, E2. injection E1 as _ <- ->. injection E2 as _ <- ->. cbn [app] in *.
  exists r, tb, fs', ps, w', k2. split_and!; try done. eapply run_honest; [done|exact T2|apply new_transports_idle].
Qed.
End Launch.

(** C3: The converse command, whole.  A command that [ConverseCommand] accepts, with
    an identifier from eight random bytes, over the in-process bus and its
    terminator, a provider transport per peer and the file store it opened, where
    no log of that identifier was: the broker returns in 500 rounds, with no more
    turns than the flags allow, whatever the spawner, the processes, the disk, the
    clock and the context do;
    - no call on a peer waits for ever, if the writes of the envelopes return and
      the schedules are fair ([turns_end]: the context of a turn ends or its
      deadline comes, and the watcher and then the waiter run), and if the pump of
      a process that was asked to terminate receives its exit or the end of its
      output ([closes_end]);
    - every process that was started was terminated, once, with a grace of one
      second, before the next one of its peer was started, and no transport holds
      a process any more;
    - a turn whose response shows the sentinel of the flags on a line of its own
      is the last one, and the run then ends [completed_sentinel] unless it was
      capped or cancelled at that turn; it ends so for no other reason (the
      terminator's goroutine is taken to run within the drain window);
    - if nothing warned, the line of each stored turn is shorter than 1 MiB, the
      records survive JSON and the disk does not fail on reading, every authorised
      GET for the conversation is answered with the conversation of the result,
      and one for its turns with those the peers gave, in order. *)
Theorem converse_whole (stat : gostring -> option bool) (f : ConverseFlags) (raw id : gostring) (now : time)
    (l : launch) (s : Store) (fs0 fs : FS) (w : World)
    (Hraw : length raw = 8%nat) (Hid : NewID "conv_" (Some raw) = Some id)
    (Hcmd : ConverseCommand stat f id now = inr l) (Hopen : Store.New (ln_logPath l) false fs0 = (Ok s, fs))
    (Hempty : log_at s fs FConversationTurn id = []) (Hrand : random_ok (env := base)) :
  exists r tb fs' ps w' log,
    Broker.Run (env := whole_env s (ln_deps l)) (ln_deps l) 500 (launched l fs w, [])
      = (Some r, ((tb, (fs', (ps, w'))), log))
    /\ Z.of_nat (length (FR_Turns r)) <= maxTurns f
    /\ (turns_end -> closes_end -> unblocked ps)
    /\ (forall i, handled ps i = lives (starts_of log i) /\ ~ live ps i)
    /\ (forall i t, FR_Turns r !! i = Some t -> shows (NewSentinel (sentinelTok f)) t = true ->
          S i = length (FR_Turns r)
          /\ C_Status (FR_Conversation r) ∈ [ConvCompletedSentinel; ConvInterrupted; ConvMaxTurnsHit])
    /\ (C_Status (FR_Conversation r) = ConvCompletedSentinel ->
          exists t, last (FR_Turns r) = Some t /\ shows (NewSentinel (sentinelTok f)) t = true)
    /\ (FR_Warnings r = [] -> Forall short_line (appended log) ->
        json_faithful (stampSchemaVersion (created_conv (ln_deps l) (CreatedAt (FR_Conversation r)))) ->
        json_faithful (stampSchemaVersion (FR_Conversation r)) -> fs_faults fs' = [] ->
        forall cfg n rq, authorized cfg rq -> rq_Method rq = "GET" ->
        (rq_path rq = ["api"; "v1"; "conversations"; id] ->
           fst (serve (rd := file_store_reader s) cfg n rq fs')
           = Reply (ok_response cfg (BConversation (stampSchemaVersion (FR_Conversation r)))))
        /\ (FR_Turns r <> [] -> rq_path rq = ["api"; "v1"; "conversations"; id; "turns"] ->
           fst (serve (rd := file_store_reader s) cfg n rq fs')
           = Reply (ok_response cfg (BTurns (appended log) (Z.of_nat (length (appended log))))))).
Proof.
  destruct (whole_run stat f id now l Hcmd s fs w Hrand) as (r & tb & fs' & ps & w' & log & HR & Hl & T1 & T2 & Hh).
  pose proof (ConverseCommand_ok _ _ _ _ _ Hcmd) as [Hok Ht Hm _ _ _ _].
  destruct (ConverseCommand_conversation _ _ _ _ _ Hcmd) as [Hcid Hterm]. cbv zeta in Hcid, Hterm.
  exists r, tb, fs', ps, w', log. split; [done|]. split.
  { pose proof (run_log_facts _ _ _ Hok Hl) as Hf. apply turns_bound in Hf. lia. }
  split; [intros Hturns Hcloses; by apply (trace_unblocked _ _ _ Hturns Hcloses T2), Forall_nil_2|].
  split; [by eapply run_terminates|].
  destruct (run_log_sentinel (C_ID (deps_Conversation (ln_deps l))) (ln_deps l) (sentinelTok f) log r (Bus.New []) tb)
    as [H1 H2]; try done; [by apply New_ok, Forall_nil_2|unfold bus_of, launched in T1; by rewrite Hterm in T1|].
  split; [done|]. split; [done|].
  intros Hw Hlines Hj1 Hj2 Hfaults cfg n rq Ha Hmeth.
  assert (st_root s <> []) as Hroot by by eapply New_root.
  pose proof (NewID_valid raw _ Hraw Hid) as Hv.
  assert (id <> "stream") as Hne by (injection Hid as <-; discriminate).
  destruct (run_reads_back (envW := whole_env s (ln_deps l)) (observed := whole_files s (ln_deps l)) marshal_event s
    (ln_deps l) Hroot files_of 500 (launched l fs w) (tb, (fs', (ps, w'))) r log 0) as (Hc & Hp & _);
    rewrite ?Hcid; try done; [by apply whole_random|lia|by apply valid_id_safe|].
  rewrite Hcid in Hc, Hp. cbn [files_of fst snd] in *.
  split; [by apply conversation_answer|]. intros Hturns. apply turns_answer; try done. by apply Hp.
Qed.

(** C22: A peer that no adapter serves.  When one of the peers of an accepted command
    has a URI other than the three known ones, and no test has registered an
    adapter for it, the run takes no turn, ends with an error, exits with 1 and
    leaves no process, whatever the other peers do: each process it started was
    terminated, and no call waits for ever when the waits are fair. *)
Theorem unserved_peer_refused (stat : gostring -> option bool) (f : ConverseFlags) (id : gostring) (now : time)
    (l : launch) (s : Store) (fs : FS) (w : World) (p : PeerID)
    (Hcmd : ConverseCommand stat f id now = inr l) (Hrand : random_ok (env := base))
    (Hp : p ∈ peerIDs (ln_deps l)) (spec := peer_spec (ln_deps l) (deps_Conversation (ln_deps l)) p)
    (Huri : URI spec ∉ ["provider:claude-code"; "provider:claudecode"; "provider:codex"]%go)
    (Hfactory : forall name, (URI spec = "provider:" ++ name) -> p_factories !! name = None) :
  exists r st, Broker.Run (env := whole_env s (ln_deps l)) (ln_deps l) 500 (launched l fs w, []) = (Some r, st)
  /\ FR_Turns r = [] /\ C_Status (FR_Conversation r) = ConvError /\ exit_code r = 1
  /\ (forall i, ~ live (peers_of (fst st)) i)
  /\ (forall i, handled (peers_of (fst st)) i = lives (starts_of (snd st) i))
  /\ (turns_end -> closes_end -> unblocked (peers_of (fst st))).
Proof.
  destruct (whole_run stat f id now l Hcmd s fs w Hrand) as (r & tb & fs' & ps & w' & log & HR & Hl & _ & T2 & _).
  pose proof (lo_deps _ _ (ConverseCommand_ok _ _ _ _ _ Hcmd)) as Hok.
  destruct (unserved_command spec Huri Hfactory) as [e He].
  destruct (run_without_command _ _ _ _ _ _ _ Hok Hl T2 Hp He) as [H1 H2].
  eexists r, _. split; [exact HR|]. split_and!; [done..| | | |].
  - unfold exit_code. by rewrite H2.
  - intros i. by eapply run_terminates.
  - intros i. by eapply run_terminates.
  - intros Hturns Hcloses. by apply (trace_unblocked _ _ _ Hturns Hcloses T2), Forall_nil_2.
Qed.
End ConverseRun.

(** ** A conversation of three peers that the second one ends *)
Module WholeSim.
Definition raw : gostring := replicate 8 "0"%char.
Definition id : gostring := default [] (NewID "conv_" (Some raw)).
Definition stat (_ : gostring) : option bool := Some true.

Definition ln : launch := Eval vm_compute in
  match ConverseCommand stat demo_flags id 7 with inr l => l | inl _ => demo_ln end.
Definition s : Store := {| st_root := ln_logPath ln; st_debugRaw := false |}.
Definition fs : FS := snd (Store.New (ln_logPath ln) false StoreSim.empty).

Definition world0 : Sim.world :=
  {| Sim.script := ["hello
<<NEXT: carol>>"; "good bye
<<END>>"]%go; Sim.bus := Bus.New []; Sim.clock := 1 |}.

(** The run without a store tells what the store will write. *)
Definition plain_run : option FinalResult * ((parts * (terminals * Sim.world)) * list (Broker.call PeerID)) :=
  Broker.Run (env := bus_env id (env0 := pty_env (pty := PtySim.pty) (env0 := Sim.env))) (ln_deps ln) 500
    ((fst (launched ln fs world0), snd (snd (launched ln fs world0))), []).
Definition plain_res : FinalResult := Eval vm_compute in default Sim.res (fst plain_run).
Definition plain_turns : list ConversationTurn := Eval vm_compute in appended (snd (snd plain_run)).

#[export] Instance jC : JSON Conversation := StoreSim.table_json
  [(stampSchemaVersion (created_conv (ln_deps ln) (CreatedAt (FR_Conversation plain_res))), "{running}"%go);
   (stampSchemaVersion (FR_Conversation plain_res), "{completed}"%go)].
#[export] Instance jCT : JSON ConversationTurn :=
  StoreSim.table_json (zip plain_turns ["{1}"; "{2}"]%go).

#[export] Instance env : BrokerEnv whole PeerID :=
  whole_env (jS := StoreSim.jS) (jT := StoreSim.jT) StoreSim.event_json (pty := PtySim.pty) (base := Sim.env)
    s (ln_deps ln).

Definition run : option FinalResult * (whole * list (Broker.call PeerID)) :=
  Broker.Run (env := env) (ln_deps ln) 500 (launched ln fs world0, []).
Definition res : FinalResult := default Sim.res (fst run).
Definition turn (i : nat) : ConversationTurn := default (StoreSim.turn 0 []) (appended (snd (snd run)) !! i).

Lemma whole_run_eq : Broker.Run (env := env) (ln_deps ln) 500 (launched ln fs world0, []) = (Some res, snd run).
Proof. apply (returned run Sim.res). vm_compute. reflexivity. Qed.
Lemma whole_turns : appended (snd (snd run)) = [turn 0; turn 1].
Proof. vm_compute. reflexivity. Qed.
Lemma whole_faithful :
  json_faithful (stampSchemaVersion (created_conv (ln_deps ln) (CreatedAt (FR_Conversation res))))
  /\ json_faithful (stampSchemaVersion (FR_Conversation res)).
Proof. split; [exists "{running}"%go|exists "{completed}"%go]; split; vm_compute; reflexivity. Qed.
Lemma whole_warnings : FR_Warnings res = [] /\ FR_Turns res <> [] /\ fs_faults (files_of (fst (snd run))) = [].
Proof. vm_compute. split_and!; done. Qed.
End WholeSim.

#[local] Existing Instance WholeSim.jC.
#[local] Existing Instance WholeSim.jCT.

Lemma whole_short : Forall short_line (appended (snd (snd WholeSim.run))).
Proof.
  rewrite WholeSim.whole_turns.
  apply Forall_cons_2; [exists "{1}"%go|apply Forall_cons_2; [exists "{2}"%go|apply Forall_nil_2]].
  all: eval_line.
Qed.

Lemma whole_ends : C_Status (FR_Conversation WholeSim.res) = ConvCompletedSentinel
  /\ (T_FromID <$> FR_Turns WholeSim.res) = ["bob"; "carol"]%go.
Proof. vm_compute. by split. Qed.

Lemma whole_starts : starts_of (snd (snd WholeSim.run)) "bob" = 1%nat.
Proof. vm_compute. reflexivity. Qed.

#[local] Opaque WholeSim.run WholeSim.res.

Lemma converse_whole_witness :
  unblocked (peers_of (fst (snd WholeSim.run)))
  /\ handled (peers_of (fst (snd WholeSim.run))) "bob" = [Spawned; Terminated 1000]
  /\ fst (serve (rd := file_store_reader (jS := StoreSim.jS) WholeSim.s) ApiSim.cfg 0
            (ServedSim.request ["api"; "v1"; "conversations"; WholeSim.id; "turns"]%go)
            (files_of (fst (snd WholeSim.run))))
     = Reply (ok_response ApiSim.cfg (BTurns [WholeSim.turn 0; WholeSim.turn 1] 2)).
Proof.
  destruct (converse_whole (jS := StoreSim.jS) (jT := StoreSim.jT) StoreSim.event_json (pty := PtySim.pty)
    (base := Sim.env) WholeSim.stat demo_flags WholeSim.raw WholeSim.id 7 WholeSim.ln WholeSim.s StoreSim.empty
    WholeSim.fs WholeSim.world0 ltac:(reflexivity) ltac:(reflexivity) ltac:(vm_compute; reflexivity)
    ltac:(vm_compute; reflexivity) ltac:(vm_compute; reflexivity) Sim.random_ok)
    as (r & tb & fs' & ps & w' & log & HR & _ & Hu & Hl & _ & _ & H).
  pose proof WholeSim.whole_run_eq as E. unfold WholeSim.env in E. rewrite HR in E. apply pair_eq in E as [->%Some_inj E].
  pose proof WholeSim.whole_warnings as (Hw & Hne & Hf). pose proof WholeSim.whole_faithful as [J1 J2].
  pose proof whole_short as Hs. pose proof WholeSim.whole_turns as Ets. pose proof whole_starts as E1. rewrite <- E in *.
  cbn [fst snd peers_of files_of] in *. split; [exact (Hu PtySim.turns_fair PtySim.closes_fair)|].
  split; [destruct (Hl "bob"%go) as [-> _]; by rewrite E1|]. rewrite Ets in Hs, H.
  destruct (H Hw Hs J1 J2 Hf ApiSim.cfg 0 (ServedSim.request ["api"; "v1"; "conversations"; WholeSim.id; "turns"]%go)
    (or_intror eq_refl) eq_refl) as [_ Ht].
  exact (Ht Hne eq_refl).
Defined.

(** With no adapter of a test, the third peer of the command is refused. *)
#[local] Instance production : PtyEnv Sim.world := {|
  p_getenv _ := []; p_getwd := "/srv"; p_factories := ∅; p_spawn := @p_spawn _ PtySim.pty; p_turn := @p_turn _ PtySim.pty;
  p_close := @p_close _ PtySim.pty; p_duration := @p_duration _ PtySim.pty;
|}.

Lemma unserved_peer_refused_witness : exists r st,
  Broker.Run (env := whole_env (jS := StoreSim.jS) (jT := StoreSim.jT) StoreSim.event_json (pty := production)
    (base := Sim.env) WholeSim.s (ln_deps WholeSim.ln)) (ln_deps WholeSim.ln) 500
    (launched WholeSim.ln WholeSim.fs WholeSim.world0, []) = (Some r, st)
  /\ FR_Turns r = [] /\ C_Status (FR_Conversation r) = ConvError /\ exit_code r = 1
  /\ (forall i, ~ live (peers_of (fst st)) i)
  /\ (forall i, handled (peers_of (fst st)) i = lives (starts_of (snd st) i))
  /\ (turns_end (pty := production) -> closes_end (pty := production) -> unblocked (peers_of (fst st))).
Proof.
  apply (unserved_peer_refused StoreSim.event_json (pty := production) WholeSim.stat demo_flags WholeSim.id 7
    WholeSim.ln WholeSim.s WholeSim.fs WholeSim.world0 "carol").
  - vm_compute. reflexivity.
  - apply Sim.random_ok.
  - apply (bool_decide_unpack _). vm_compute. reflexivity.
  - apply (bool_decide_unpack _). vm_compute. reflexivity.
  - intros name _. apply lookup_empty.
Defined.
