(* ===== verification/Commands.v ===== *)
(** * The commands ([cmd/vitis/main.go], [internal/cli])

    [run], [peek], [converse], [doctor] and [serve] from their arguments to their
    exit codes, over an abstract environment: the operating system, the stores'
    constructors, and the environments of the orchestrator and of the broker.
    What a command writes to stdout is a list of documents, each with the
    outcome of writing it; messages on stderr are left out, and the text of a
    flag error is a parameter. *)
From S2P Require Import Prelude GoLib Flags Model Policy Envelope Bus Broker Protocol BrokerRun Turns Stream PeerFlags Converse Adapter Orchestrator Api.

(** ** [render.go] *)
Definition zero_meta : ResultMeta :=
  {| M_DurationMs := 0; M_ExitCode := None; M_ParserConfidence := 0; M_ObservationConfidence := 0;
     M_BytesCaptured := 0; M_BlockedReason := None; M_Warnings := [] |}.

Definition ErrorResult (code : ErrorCode) (message : gostring) : RunResult :=
  {| R_SessionID := []; R_Provider := []; R_Status := RunFailed; R_Response := []; R_Peek := [];
     R_Meta := zero_meta; R_Error := Some {| RE_Code := code; RE_Message := message |} |}.

(** ** The flags *)

(** [run]'s variables, with their defaults. *)
Definition run_defaults : RunRequest :=
  {| RR_Provider := "claude-code"; RR_Prompt := []; RR_PromptFile := []; RR_TimeoutSec := 600; RR_Cwd := [];
     RR_EnvFile := []; RR_LogBackend := "file"; RR_LogPath := "./logs"; RR_DatabaseURL := []; RR_PeekLast := 10;
     RR_DebugRaw := false; RR_TerminalCols := 80; RR_TerminalRows := 24; RR_HomeDir := []; RR_Model := [];
     RR_ReasoningEffort := [] |}.

Definition run_flags : list (flag RunRequest) :=
  [ StringVar "provider" (fun x '(Build_RunRequest _ b c d e f g h i j k l m n o p) => Build_RunRequest x b c d e f g h i j k l m n o p);
    StringVar "prompt" (fun x '(Build_RunRequest a _ c d e f g h i j k l m n o p) => Build_RunRequest a x c d e f g h i j k l m n o p);
    StringVar "prompt-file" (fun x '(Build_RunRequest a b _ d e f g h i j k l m n o p) => Build_RunRequest a b x d e f g h i j k l m n o p);
    IntVar "timeout" (fun x '(Build_RunRequest a b c _ e f g h i j k l m n o p) => Build_RunRequest a b c x e f g h i j k l m n o p);
    IntVar "peek-last" (fun x '(Build_RunRequest a b c d e f g h i _ k l m n o p) => Build_RunRequest a b c d e f g h i x k l m n o p);
    StringVar "working-directory" (fun x '(Build_RunRequest a b c d _ f g h i j k l m n o p) => Build_RunRequest a b c d x f g h i j k l m n o p);
    StringVar "env-file" (fun x '(Build_RunRequest a b c d e _ g h i j k l m n o p) => Build_RunRequest a b c d e x g h i j k l m n o p);
    StringVar "log-backend" (fun x '(Build_RunRequest a b c d e f _ h i j k l m n o p) => Build_RunRequest a b c d e f x h i j k l m n o p);
    StringVar "log-path" (fun x '(Build_RunRequest a b c d e f g _ i j k l m n o p) => Build_RunRequest a b c d e f g x i j k l m n o p);
    StringVar "database-url" (fun x '(Build_RunRequest a b c d e f g h _ j k l m n o p) => Build_RunRequest a b c d e f g h x j k l m n o p);
    BoolVar "debug-raw" (fun x '(Build_RunRequest a b c d e f g h i j _ l m n o p) => Build_RunRequest a b c d e f g h i j x l m n o p);
    IntVar "terminal-cols" (fun x '(Build_RunRequest a b c d e f g h i j k _ m n o p) => Build_RunRequest a b c d e f g h i j k x m n o p);
    IntVar "terminal-rows" (fun x '(Build_RunRequest a b c d e f g h i j k l _ n o p) => Build_RunRequest a b c d e f g h i j k l x n o p);
    StringVar "home-dir" (fun x '(Build_RunRequest a b c d e f g h i j k l m _ o p) => Build_RunRequest a b c d e f g h i j k l m x o p);
    StringVar "model" (fun x '(Build_RunRequest a b c d e f g h i j k l m n _ p) => Build_RunRequest a b c d e f g h i j k l m n x p);
    StringVar "reasoning-effort" (fun x '(Build_RunRequest a b c d e f g h i j k l m n o _) => Build_RunRequest a b c d e f g h i j k l m n o x) ].

(** [converse]'s variables, with their defaults. *)
Definition converse_defaults : ConverseFlags :=
  {| peerA := []; peerB := []; seed := []; seedA := []; seedB := []; opener := "a"; maxTurns := 50;
     terminatorKind := "sentinel"; sentinelTok := "<<END>>"; perTurnTimeout := 300; overallTimeout := 0;
     busKind := "inproc"; logBackend := "file"; logPath := "./logs"; workingDir := []; streamTurns := true;
     replyStyle := "normal"; peerAOpts := ∅; peerBOpts := ∅; nPeers := [] |}.

Definition converse_flags : list (flag ConverseFlags) :=
  [ StringVar "peer-a" (fun x '(Build_ConverseFlags _ b c d e f g h i j k l m n o p q r s t) => Build_ConverseFlags x b c d e f g h i j k l m n o p q r s t);
    StringVar "peer-b" (fun x '(Build_ConverseFlags a _ c d e f g h i j k l m n o p q r s t) => Build_ConverseFlags a x c d e f g h i j k l m n o p q r s t);
    StringVar "seed" (fun x '(Build_ConverseFlags a b _ d e f g h i j k l m n o p q r s t) => Build_ConverseFlags a b x d e f g h i j k l m n o p q r s t);
    StringVar "seed-a" (fun x '(Build_ConverseFlags a b c _ e f g h i j k l m n o p q r s t) => Build_ConverseFlags a b c x e f g h i j k l m n o p q r s t);
    StringVar "seed-b" (fun x '(Build_ConverseFlags a b c d _ f g h i j k l m n o p q r s t) => Build_ConverseFlags a b c d x f g h i j k l m n o p q r s t);
    StringVar "opener" (fun x '(Build_ConverseFlags a b c d e _ g h i j k l m n o p q r s t) => Build_ConverseFlags a b c d e x g h i j k l m n o p q r s t);
    IntVar "max-turns" (fun x '(Build_ConverseFlags a b c d e f _ h i j k l m n o p q r s t) => Build_ConverseFlags a b c d e f x h i j k l m n o p q r s t);
    StringVar "terminator" (fun x '(Build_ConverseFlags a b c d e f g _ i j k l m n o p q r s t) => Build_ConverseFlags a b c d e f g x i j k l m n o p q r s t);
    StringVar "sentinel" (fun x '(Build_ConverseFlags a b c d e f g h _ j k l m n o p q r s t) => Build_ConverseFlags a b c d e f g h x j k l m n o p q r s t);
    IntVar "per-turn-timeout" (fun x '(Build_ConverseFlags a b c d e f g h i _ k l m n o p q r s t) => Build_ConverseFlags a b c d e f g h i x k l m n o p q r s t);
    IntVar "overall-timeout" (fun x '(Build_ConverseFlags a b c d e f g h i j _ l m n o p q r s t) => Build_ConverseFlags a b c d e f g h i j x l m n o p q r s t);
    StringVar "bus" (fun x '(Build_ConverseFlags a b c d e f g h i j k _ m n o p q r s t) => Build_ConverseFlags a b c d e f g h i j k x m n o p q r s t);
    StringVar "log-backend" (fun x '(Build_ConverseFlags a b c d e f g h i j k l _ n o p q r s t) => Build_ConverseFlags a b c d e f g h i j k l x n o p q r s t);
    StringVar "log-path" (fun x '(Build_ConverseFlags a b c d e f g h i j k l m _ o p q r s t) => Build_ConverseFlags a b c d e f g h i j k l m x o p q r s t);
    StringVar "working-directory" (fun x '(Build_ConverseFlags a b c d e f g h i j k l m n _ p q r s t) => Build_ConverseFlags a b c d e f g h i j k l m n x p q r s t);
    BoolVar "stream-turns" (fun x '(Build_ConverseFlags a b c d e f g h i j k l m n o _ q r s t) => Build_ConverseFlags a b c d e f g h i j k l m n o x q r s t);
    StringVar "style" (fun x '(Build_ConverseFlags a b c d e f g h i j k l m n o p _ r s t) => Build_ConverseFlags a b c d e f g h i j k l m n o p x r s t);
    Var "peer-a-opt" (fun x '(Build_ConverseFlags a b c d e f g h i j k l m n o p q r s t) =>
      r ← repeatableFlag_Set r x; Some (Build_ConverseFlags a b c d e f g h i j k l m n o p q r s t));
    Var "peer-b-opt" (fun x '(Build_ConverseFlags a b c d e f g h i j k l m n o p q r s t) =>
      s ← repeatableFlag_Set s x; Some (Build_ConverseFlags a b c d e f g h i j k l m n o p q r s t));
    Var "peer" (fun x '(Build_ConverseFlags a b c d e f g h i j k l m n o p q r s t) =>
      Some (Build_ConverseFlags a b c d e f g h i j k l m n o p q r s (stringSliceFlag_Set t x))) ].

Record PeekFlags := {
  pk_sessionID : gostring;
  pk_last : Z;
  pk_backend : gostring;
  pk_logPath : gostring;
  pk_databaseURL : gostring;
}.

Definition peek_defaults : PeekFlags :=
  {| pk_sessionID := []; pk_last := 10; pk_backend := "file"; pk_logPath := "./logs"; pk_databaseURL := [] |}.

Definition peek_flags : list (flag PeekFlags) :=
  [ StringVar "session-id" (fun x '(Build_PeekFlags _ b c d e) => Build_PeekFlags x b c d e);
    IntVar "last" (fun x '(Build_PeekFlags a _ c d e) => Build_PeekFlags a x c d e);
    StringVar "log-backend" (fun x '(Build_PeekFlags a b _ d e) => Build_PeekFlags a b x d e);
    StringVar "log-path" (fun x '(Build_PeekFlags a b c _ e) => Build_PeekFlags a b c x e);
    StringVar "database-url" (fun x '(Build_PeekFlags a b c d _) => Build_PeekFlags a b c d x) ].

Record ServeFlags := {
  sv_port : Z;
  sv_logPath : gostring;
  sv_apiKey : gostring;
  sv_corsOrigin : gostring;
}.

Definition serve_defaults : ServeFlags :=
  {| sv_port := 8080; sv_logPath := "./logs"; sv_apiKey := []; sv_corsOrigin := [] |}.

Definition serve_flags : list (flag ServeFlags) :=
  [ IntVar "port" (fun x '(Build_ServeFlags _ b c d) => Build_ServeFlags x b c d);
    StringVar "log-path" (fun x '(Build_ServeFlags a _ c d) => Build_ServeFlags a x c d);
    StringVar "api-key" (fun x '(Build_ServeFlags a b _ d) => Build_ServeFlags a b x d);
    StringVar "cors-origin" (fun x '(Build_ServeFlags a b c _) => Build_ServeFlags a b c x) ].

Definition doctor_flags : list (flag gostring) := [StringVar "provider" (fun x _ => x)].

(** ** The environment *)

(** A document on stdout. *)
Record RTKStatus := {
  rtk_Available : bool;
  rtk_Path : gostring;
  rtk_Version : gostring;
  rtk_HookInstalled : bool;
  rtk_HookInstallCommand : gostring;
  rtk_Note : gostring;
}.

Inductive output :=
| OutResult (r : RunResult)
| OutPeek (id : gostring) (turns : list Turn)
| OutMissing (provider detail : gostring) (rtk : RTKStatus)
| OutDoctor (provider path : gostring) (args : list gostring) (detail : gostring) (rtk : RTKStatus)
    (warnings : list gostring)
| OutTurn (t : ConversationTurn)
| OutFinal (r : FinalResult)
| OutListening (addr : Z).

(** [c_Schedule] says how the steps of the streaming goroutine fall among the
    calls of the run, given the messages that the run published. *)
Class CmdEnv (World : Type) := {
  c_filestore_New : gostring -> bool -> World -> option goerr * World;
  c_pgstore_New : gostring -> World -> option goerr * World;
  c_Close : World -> World;
  c_Getwd : World -> result gostring * World;
  c_Stat : gostring -> World -> option bool;
  c_MkdirAll : gostring -> World -> option goerr * World;
  c_Write : output -> World -> option goerr * World;
  c_Schedule : list (gostring * BusMessage) -> World -> list event;
  c_LookPath : gostring -> World -> result gostring * World;
  c_Output : gostring -> list gostring -> World -> (gostring * option goerr) * World;
  c_CombinedOutput : gostring -> list gostring -> World -> (gostring * option goerr) * World;
  c_NewServer : Config -> World -> option goerr * World;
  c_ListenAndServe : Config -> World -> option goerr * World;
}.

Section Commands.
Context {World Process : Type} {cmd : CmdEnv World} {orch : OrchEnv World Process} {broker : BrokerEnv World PeerID}.
Variable getenv : gostring -> gostring.
Variable flag_text : flag_error -> gostring.

(** A command: it writes documents and returns its exit code. *)
Definition outputs : Type := list (output * option goerr).
Definition command : Type := World * outputs -> Z * (World * outputs).

Definition emit (o : output) (s : World * outputs) : option goerr * (World * outputs) :=
  let '(e, w) := c_Write o (fst s) in (e, (w, snd s ++ [(o, e)])).

Definition WriteJSON : output -> World * outputs -> option goerr * (World * outputs) := emit.

(** A document, whatever comes of writing it, and the exit code. *)
Definition report (o : output) (code : Z) : command := fun s =>
  let '(_, s) := WriteJSON o s in (code, s).

Definition config_error (message : gostring) : command := report (OutResult (ErrorResult ErrorConfig message)) 2.

(** A call on the world. *)
Definition call {A} (f : World -> A * World) (s : World * outputs) : A * (World * outputs) :=
  let '(a, w) := f (fst s) in (a, (w, snd s)).

Definition close (r : Z * (World * outputs)) : Z * (World * outputs) :=
  let '(code, (w, out)) := r in (code, (c_Close w, out)).

(** ** [run.go] *)
Definition buildStore (backend logPath dbURL : gostring) (debugRaw : bool) : World -> option goerr * World :=
  if bool_decide (backend = "db") then c_pgstore_New dbURL else c_filestore_New logPath debugRaw.

Definition with_cwd (r : RunRequest) (cwd : gostring) : RunRequest :=
  {| RR_Provider := RR_Provider r; RR_Prompt := RR_Prompt r; RR_PromptFile := RR_PromptFile r;
     RR_TimeoutSec := RR_TimeoutSec r; RR_Cwd := cwd; RR_EnvFile := RR_EnvFile r;
     RR_LogBackend := RR_LogBackend r; RR_LogPath := RR_LogPath r; RR_DatabaseURL := RR_DatabaseURL r;
     RR_PeekLast := RR_PeekLast r; RR_DebugRaw := RR_DebugRaw r; RR_TerminalCols := RR_TerminalCols r;
     RR_TerminalRows := RR_TerminalRows r; RR_HomeDir := RR_HomeDir r; RR_Model := RR_Model r;
     RR_ReasoningEffort := RR_ReasoningEffort r |}.

Definition registry : Registry := NewRegistry [Claude.New getenv; Codex.New getenv].

Definition run_error_of (e : run_error) : RunError :=
  match e with
  | Coded e => e
  | Plain e => {| RE_Code := ErrorInternal; RE_Message := Error e |}
  end.

(** From the open store on. *)
Definition run_opened (req : RunRequest) : command := fun s =>
  let '(req, s) :=
    if bool_decide (RR_Cwd req = []) then
      let '(cwd, s) := call c_Getwd s in (match cwd with Ok d => with_cwd req d | Err _ => req end, s)
    else (req, s) in
  let '(r, s) := call (fun w => let '(r, (w, _)) := Orchestrator.Run registry req (w, []) in (r, w)) s in
  match r with
  | inl e =>
      let e := run_error_of e in report (OutResult (ErrorResult (RE_Code e) (RE_Message e))) 1 s
  | inr result =>
      let '(e, s) := WriteJSON (OutResult result) s in
      (if bool_decide (e = None) && bool_decide (R_Error result = None) then 0 else 1, s)
  end.

Definition RunCommand (args : list gostring) : command := fun s =>
  match Parse run_flags args run_defaults with
  | inl e => config_error (flag_text e) s
  | inr (req, _) =>
      if negb (bool_decide (RR_LogBackend req = "file")) && negb (bool_decide (RR_LogBackend req = "db"))
      then config_error "log-backend must be file or db" s
      else if bool_decide (RR_LogBackend req = "db") && bool_decide (RR_DatabaseURL req = [])
      then config_error "database-url is required when log-backend=db" s
      else
        let '(e, s) := call (buildStore (RR_LogBackend req) (RR_LogPath req) (RR_DatabaseURL req) (RR_DebugRaw req)) s in
        match e with
        | Some e => config_error (Error e) s
        | None => close (run_opened req s)
        end
  end.

(** ** [peek.go] *)
Definition PeekCommand (args : list gostring) : command := fun s =>
  match Parse peek_flags args peek_defaults with
  | inl e => config_error (flag_text e) s
  | inr (f, _) =>
      if bool_decide (pk_sessionID f = []) then config_error "session-id is required" s
      else
        let '(e, s) := call (buildStore (pk_backend f) (pk_logPath f) (pk_databaseURL f) false) s in
        match e with
        | Some e => config_error (Error e) s
        | None =>
            close (let '(ts, s) := call (o_PeekTurns (pk_sessionID f) (pk_last f)) s in
                   match ts with
                   | Err e => report (OutResult (ErrorResult ErrorNotFound (Error e))) 1 s
                   | Ok ts => report (OutPeek (pk_sessionID f) ts) 0 s
                   end)
        end
  end.

(** ** [rtk.go] *)
Definition rtk_markers : list gostring := ["rtk-rewrite"; "rtk rewrite"; "RTK.md"].

Definition rtk_paths (provider home : gostring) : list gostring :=
  if bool_decide (provider ∈ (["claude-code"; "claudecode"] : list gostring)) then
    [JoinPath [home; ".claude"; "settings.json"]; JoinPath [home; ".claude"; "settings.local.json"]]
  else if bool_decide (provider = "codex") then
    [JoinPath [home; ".codex"; "config.toml"]; JoinPath [home; ".codex"; "settings.json"];
     JoinPath [home; ".codex"; "AGENTS.md"]]
  else [].

Fixpoint any_rtk_file (paths : list gostring) (w : World) : bool * World :=
  match paths with
  | [] => (false, w)
  | p :: paths =>
      let '(d, w) := o_ReadFile p w in
      match d with
      | Ok data => if existsb (Contains data) rtk_markers then (true, w) else any_rtk_file paths w
      | Err _ => any_rtk_file paths w
      end
  end.

Definition isRTKHookInstalled (provider home : gostring) (w : World) : bool * World :=
  if bool_decide (home = []) then (false, w) else any_rtk_file (rtk_paths provider home) w.

Definition DetectRTK (provider : gostring) (w : World) : RTKStatus * World :=
  let '(path, w) := c_LookPath "rtk" w in
  match path with
  | Err _ =>
      ({| rtk_Available := false; rtk_Path := []; rtk_Version := []; rtk_HookInstalled := false;
          rtk_HookInstallCommand := [];
          rtk_Note := "rtk binary not found on PATH. Install for 60-90% token savings on agent shell commands: https://github.com/rtk-ai/rtk#installation" |}, w)
  | Ok path =>
      let '((out, verr), w) := c_Output path ["--version"] w in
      let version := if bool_decide (verr = None) then TrimSpace out else [] in
      let '(h, w) := o_UserHomeDir w in
      let home := match h with Ok h => h | Err _ => [] end in
      let '(hook, w) := isRTKHookInstalled provider home w in
      let command : gostring := if bool_decide (provider = "codex") then "rtk init -g --codex" else "rtk init -g" in
      if hook then
        ({| rtk_Available := true; rtk_Path := path; rtk_Version := version; rtk_HookInstalled := true;
            rtk_HookInstallCommand := [];
            rtk_Note := "rtk is active for this provider " ++ chr 226 :: chr 128 :: chr 148 :: " shell commands the agent runs will be auto-compressed" |}, w)
      else
        ({| rtk_Available := true; rtk_Path := path; rtk_Version := version; rtk_HookInstalled := false;
            rtk_HookInstallCommand := command;
            rtk_Note := "rtk is installed but the hook is not active for this provider. Run: " ++ command |}, w)
  end.

(** ** [doctor.go] *)
Definition providerCommand (provider : gostring) : gostring * list gostring :=
  if bool_decide (provider ∈ ([[]; "claude-code"] : list gostring)) then Claude.ResolveCommand getenv ∅
  else if bool_decide (provider = "codex") then Codex.ResolveCommand getenv ∅
  else (provider, []).

Definition DoctorCommand (args : list gostring) : command := fun s =>
  match Parse doctor_flags args "claude-code" with
  | inl e => config_error (flag_text e) s
  | inr (provider, _) =>
      let '(command, args) := providerCommand provider in
      let '(path, s) := call (c_LookPath command) s in
      match path with
      | Err e =>
          let '(rtk, s) := call (DetectRTK provider) s in
          report (OutMissing provider (Error e) rtk) 1 s
      | Ok path =>
          let '((out, runErr), s) := call (c_CombinedOutput path (args ++ ["--version"])) s in
          let detail := TrimSpace out in
          let detail := match runErr with
                        | Some e => if bool_decide (detail = []) then Error e else detail
                        | None => detail end in
          let '(rtk, s) := call (DetectRTK provider) s in
          report (OutDoctor provider path args detail rtk
            ["Vitis is designed for local PTY control, not hosted brokering of consumer Claude accounts."]) 0 s
      end
  end.

(** ** [serve.go] *)
Definition ServeCommand (args : list gostring) : command := fun s =>
  match Parse serve_flags args serve_defaults with
  | inl _ => (2, s)
  | inr (f, _) =>
      if (sv_port f <? 1) || (65535 <? sv_port f) then (2, s)
      else
        let cleanPath := Clean (sv_logPath f) in
        if bool_decide (cleanPath = []) || bool_decide (cleanPath = ".") then (2, s)
        else
          let '(e, s) := call (c_MkdirAll cleanPath) s in
          if negb (bool_decide (e = None)) then (1, s)
          else
            let '(e, s) := call (c_filestore_New cleanPath false) s in
            if negb (bool_decide (e = None)) then (1, s)
            else
              let cfg := {| cfg_Port := sv_port f; cfg_APIKey := sv_apiKey f; cfg_CORSOrigin := sv_corsOrigin f;
                            cfg_StoreRoot := cleanPath |} in
              close (let '(e, s) := call (c_NewServer cfg) s in
                     if negb (bool_decide (e = None)) then (1, s)
                     else
                       let '(_, s) := emit (OutListening (sv_port f)) s in
                       let '(e, s) := call (c_ListenAndServe cfg) s in
                       (if bool_decide (e = None) then 0 else 1, s))
  end.

(** ** [converse.go], from the arguments to the exit code *)

(** The streaming goroutine writes each turn; the outcome is not looked at. *)
Fixpoint emit_turns (ts : list ConversationTurn) (s : World * outputs) : World * outputs :=
  match ts with
  | [] => s
  | t :: ts => emit_turns ts (snd (emit (OutTurn t) s))
  end.

(** What the goroutine has written once the bus is closed and it has returned. *)
Definition streamed (l : launch) (ms : list (gostring * BusMessage)) (w : World) : list ConversationTurn :=
  let id := C_ID (deps_Conversation (ln_deps l)) in
  if ln_stream l
  then sm_out (fst (close_and_wait id (conc_run id (new_streamer, Bus.New []) (c_Schedule ms w))))
  else [].

(** [None] when the broker or [util.NewID] panics, or the rounds run out; the
    broker returns no error of its own. *)
Definition run_converse (fuel : nat) (l : launch) (s : World * outputs) : option Z * (World * outputs) :=
  let '(e, s) := call (c_filestore_New (ln_logPath l) false) s in
  match e with
  | Some _ => (Some 1, s)
  | None =>
      let '((r, ms), s) := call (fun w => let '(r, (w, log)) := Broker.Run (ln_deps l) fuel (w, []) in
                                          ((r, sent log), w)) s in
      match r with
      | None => (None, s)
      | Some r =>
          let s := emit_turns (streamed l ms (fst s)) s in
          let '(e, s) := WriteJSON (OutFinal r) s in
          let code := if bool_decide (e = None) then exit_code r else 1 in
          (Some code, (c_Close (fst s), snd s))
      end
  end.

(** The identifier and the time are taken once the flags are valid. *)
Definition converse_main (fuel : nat) (args : list gostring) (s : World * outputs) : option Z * (World * outputs) :=
  match Parse converse_flags args converse_defaults with
  | inl _ => (Some 2, s)
  | inr (f, _) =>
      let stat p := c_Stat p (fst s) in
      match ConverseCommand stat f [] 0 with
      | inl _ => (Some 2, s)
      | inr _ =>
          let '(raw, s) := call (env_random 8) s in
          match NewID "conv_" raw with
          | None => (None, s)
          | Some id =>
              let '(now, s) := call env_now s in
              match ConverseCommand stat f id now with
              | inl _ => (Some 2, s)
              | inr l => run_converse fuel l s
              end
          end
      end
  end.

(** ** [cmd/vitis/main.go] *)
Definition vitis (fuel : nat) (args : list gostring) (s : World * outputs) : option Z * (World * outputs) :=
  let ended (r : Z * (World * outputs)) := (Some (fst r), snd r) in
  match args with
  | [] => (Some 2, s)
  | c :: args =>
      if bool_decide (c = "run") then ended (RunCommand args s)
      else if bool_decide (c = "peek") then ended (PeekCommand args s)
      else if bool_decide (c = "converse") then converse_main fuel args s
      else if bool_decide (c = "doctor") then ended (DoctorCommand args s)
      else if bool_decide (c = "serve") then ended (ServeCommand args s)
      else (Some 2, s)
  end.
End Commands.

(** ** Lemmas on the flags of [run] *)

(** What the flags of [run] mean: the value of the last setting of each, or its
    default. *)
Section RequestOf.
Variable l : list setting.
Definition text_of (name dflt : gostring) : gostring := default dflt (last_value name l).
Definition number_of (name : gostring) (dflt : Z) : Z := default dflt (last_value name l ≫= ParseInt).
Definition truth_of (name : gostring) (dflt : bool) : bool := default dflt (last_value name l ≫= ParseBool).
Definition request_of : RunRequest :=
  {| RR_Provider := text_of "provider" "claude-code"; RR_Prompt := text_of "prompt" [];
     RR_PromptFile := text_of "prompt-file" []; RR_TimeoutSec := number_of "timeout" 600;
     RR_Cwd := text_of "working-directory" []; RR_EnvFile := text_of "env-file" [];
     RR_LogBackend := text_of "log-backend" "file"; RR_LogPath := text_of "log-path" "./logs";
     RR_DatabaseURL := text_of "database-url" []; RR_PeekLast := number_of "peek-last" 10;
     RR_DebugRaw := truth_of "debug-raw" false; RR_TerminalCols := number_of "terminal-cols" 80;
     RR_TerminalRows := number_of "terminal-rows" 24; RR_HomeDir := text_of "home-dir" [];
     RR_Model := text_of "model" []; RR_ReasoningEffort := text_of "reasoning-effort" [] |}.
End RequestOf.

Lemma run_setting s st st' : apply_setting run_flags s st = Some st' ->
  exists f, f ∈ run_flags /\ set_name s = f_name f /\ f_set f (set_value s) st = Some st'.
Proof.
  unfold apply_setting. destruct (lookup_flag run_flags (set_name s)) as [f|] eqn:Ef; [|done]. cbn. intros H.
  unfold lookup_flag in Ef. apply List.find_some in Ef as [Hin Hn]. bool_facts.
  exists f. split_and!; [by apply list_elem_of_In|done|done].
Qed.

(** One case for each flag of [run]. *)
Ltac run_flags_cases Hin :=
  repeat (apply elem_of_cons in Hin as [->|Hin]); [..|by apply elem_of_nil in Hin].

Lemma apply_run_flag_any s st st' :
  is_Some (apply_setting run_flags s st) -> is_Some (apply_setting run_flags s st').
Proof.
  intros [st1 H]. unfold apply_setting in *.
  destruct (lookup_flag run_flags (set_name s)) as [f|] eqn:Ef; [|done]. cbn [mbind option_bind] in *.
  unfold lookup_flag in Ef. apply List.find_some in Ef as [Hin%list_elem_of_In _].
  run_flags_cases Hin; cbn [f_set StringVar IntVar BoolVar mbind option_bind] in *;
    first [by eexists|by destruct (ParseInt _)|by destruct (ParseBool _)].
Qed.

Lemma apply_run_flags_any l st :
  Forall (fun s => is_Some (apply_setting run_flags s run_defaults)) l <-> is_Some (apply_settings run_flags l st).
Proof.
  revert st. induction l as [|s l IH]; intros st; cbn [apply_settings].
  { split; [by eexists|constructor]. }
  rewrite Forall_cons. split.
  - intros [Hs Hl]. eapply apply_run_flag_any in Hs as [st1 Hs]. rewrite Hs. by apply IH.
  - destruct (apply_setting run_flags s st) as [st1|] eqn:Es; [|by intros [??]]. cbn. intros Hl.
    split; [by apply (apply_run_flag_any s st); rewrite Es|by eapply IH].
Qed.

(** A field that one flag sets. *)
Lemma run_field {A} (get : RunRequest -> A) (parse : gostring -> option A) (name : gostring) (dflt : A) l req :
  (forall f v st st', f ∈ run_flags -> f_set f v st = Some st' ->
     if bool_decide (f_name f = name) then parse v = Some (get st') else get st' = get st) ->
  get run_defaults = dflt ->
  apply_settings run_flags l run_defaults = Some req ->
  get req = default dflt (last_value name l ≫= parse).
Proof.
  intros Hf <- H.
  assert (match last_value name l with Some v => parse v = Some (get req) | None => get req = get run_defaults end) as Hv.
  { eapply settings_value; [|exact H]. intros s st st' (f & Hin & -> & Hs)%run_setting.
    exact (Hf f _ _ _ Hin Hs). }
  destruct (last_value name l) as [v|]; cbn; [by rewrite Hv|done].
Qed.

Lemma apply_run_flags l req :
  apply_settings run_flags l run_defaults = Some req -> req = request_of l.
Proof.
  intros H. transitivity (Build_RunRequest (RR_Provider req) (RR_Prompt req) (RR_PromptFile req) (RR_TimeoutSec req)
    (RR_Cwd req) (RR_EnvFile req) (RR_LogBackend req) (RR_LogPath req) (RR_DatabaseURL req) (RR_PeekLast req)
    (RR_DebugRaw req) (RR_TerminalCols req) (RR_TerminalRows req) (RR_HomeDir req) (RR_Model req)
    (RR_ReasoningEffort req)); [by destruct req|].
  assert (forall name d, default d (last_value name l ≫= Some) = default d (last_value name l)) as Hsome
    by (intros name d; by destruct (last_value name l)).
  unfold request_of, text_of, number_of, truth_of. rewrite <- !Hsome.
  f_equal; (eapply run_field; [|reflexivity|exact H]); intros f v st st' Hin Hs; destruct st;
    run_flags_cases Hin; cbn [f_set f_name StringVar IntVar BoolVar mbind option_bind] in Hs |- *;
    first [destruct (ParseInt v); [|discriminate]; injection Hs as <-; reflexivity
          |destruct (ParseBool v); [|discriminate]; injection Hs as <-; reflexivity
          |injection Hs as <-; reflexivity].
Qed.

(** ** Properties *)

(** C24: what the flags of [run] mean.  The arguments [run] accepts are the
    spellings of settings of its sixteen flags with values of their kinds, up to
    the first argument that is not a flag; the request has for each flag the
    value of its last setting, or the documented default. *)
Theorem run_flags_exact (args rest : list gostring) (req : RunRequest) :
  Parse run_flags args run_defaults = inr (req, rest) <->
  exists l tail, args = concat (render_setting <$> l) ++ tail /\ flags_end tail rest
  /\ Forall (setting_ok run_flags) l /\ Forall (fun s => is_Some (apply_setting run_flags s run_defaults)) l
  /\ req = request_of l.
Proof.
  rewrite Parse_exact. split.
  - intros (l & tail & -> & H1 & H2 & H3). exists l, tail. split_and!; try done; [|by apply apply_run_flags].
    by apply (apply_run_flags_any l run_defaults).
  - intros (l & tail & -> & H3 & H1 & H2 & ->). exists l, tail. split_and!; try done.
    apply (apply_run_flags_any l run_defaults) in H2 as [req Hr]. by rewrite Hr, <- (apply_run_flags _ _ Hr).
Qed.

(** A validated command line of [run]. *)
Definition accepted (args : list gostring) (req : RunRequest) : Prop :=
  (exists rest, Parse run_flags args run_defaults = inr (req, rest))
  /\ (RR_LogBackend req = "file" \/ RR_LogBackend req = "db" /\ RR_DatabaseURL req <> []).

Section Exits.
Context {World Process : Type} {cmd : CmdEnv World} {orch : OrchEnv World Process} {broker : BrokerEnv World PeerID}.
Variable getenv : gostring -> gostring.
Variable flag_text : flag_error -> gostring.
Implicit Types (w : World).

(** The store cannot be opened. *)
Definition store_fails (req : RunRequest) w : Prop :=
  fst (buildStore (RR_LogBackend req) (RR_LogPath req) (RR_DatabaseURL req) (RR_DebugRaw req) w) <> None.

Lemma config_error_spec msg w : exists e w',
  config_error msg (w, []) = (2, (w', [(OutResult (ErrorResult ErrorConfig msg), e)])).
Proof.
  unfold config_error, report, WriteJSON, emit. cbn [fst snd app]. destruct (c_Write _ w) as [e w'].
  by eexists _, _.
Qed.

Lemma run_opened_spec req w code w' outs :
  run_opened getenv req (w, []) = (code, (w', outs)) ->
  exists doc e, outs = [(OutResult doc, e)] /\ (code = 0 \/ code = 1) /\ (code = 0 <-> R_Error doc = None /\ e = None)
  /\ (R_Error doc = None -> exists cwd provider prompt (l : list (run_call Process)),
        Registry_Get (registry getenv) (RR_Provider (with_defaults (with_cwd req cwd))) = Ok provider
        /\ run_ok (with_defaults (with_cwd req cwd)) provider prompt l doc).
Proof.
  intros H. unfold run_opened in H.
  destruct (if bool_decide (RR_Cwd req = []) then _ else _) as [req1 s1] eqn:E1.
  assert (exists cwd w1, req1 = with_cwd req cwd /\ s1 = (w1, [])) as (cwd & w1 & -> & ->).
  { case_bool_decide; [|exists (RR_Cwd req), w; injection E1 as <- <-; split; [by destruct req|done]].
    unfold call in E1. destruct (c_Getwd _) as [[d|] w1]; injection E1 as <- <-;
      [exists d, w1|exists (RR_Cwd req), w1]; (split; [by destruct req|done]). }
  clear E1. unfold call in H. cbn [fst snd] in H.
  destruct (Orchestrator.Run (registry getenv) (with_cwd req cwd) (w1, [])) as [[re|res] [w2 log]] eqn:ER.
  - unfold report, WriteJSON, emit in H. cbn [fst snd app] in H. destruct (c_Write _ w2) as [e w3].
    injection H as <- <- <-. eexists _, e. split_and!; [done|by right| |done]. split; [done|]. by intros [? _].
  - unfold WriteJSON, emit in H. cbn [fst snd app] in H. destruct (c_Write _ w2) as [e w3].
    injection H as <- <- <-. exists res, e. split_and!; [done|destruct (_ && _); auto| |].
    + split; intros HH; [destruct (bool_decide (e = None)) eqn:E1, (bool_decide (R_Error res = None)) eqn:E2; bool_facts; done|].
      destruct HH as [-> ->]. done.
    + intros _. destruct (Run_books _ _ _ _ _ _ ER) as (provider & prompt & Hp & _ & Hok).
      exists cwd, provider, prompt, log. done.
Qed.

(** [run] refuses its flags or its store, or goes on from an open store. *)
Lemma RunCommand_cases args w :
  (exists msg w1, RunCommand getenv flag_text args (w, []) = config_error msg (w1, [])
     /\ forall req, accepted args req -> store_fails req w)
  \/ exists req w1, RunCommand getenv flag_text args (w, []) = close (run_opened getenv req (w1, []))
     /\ accepted args req /\ ~ store_fails req w.
Proof.
  unfold RunCommand. destruct (Parse run_flags args run_defaults) as [fe|[req rest]] eqn:Ep.
  { left. eexists _, w. split; [reflexivity|]. intros req [[rest Hr] _]. congruence. }
  assert (forall req', accepted args req' -> req' = req) as Huniq by (intros req' [[rest' Hr] _]; congruence).
  assert (RR_LogBackend req = "file" \/ RR_LogBackend req = "db" /\ RR_DatabaseURL req <> []
    \/ ~ (RR_LogBackend req = "file" \/ RR_LogBackend req = "db" /\ RR_DatabaseURL req <> [])) as Hd.
  { destruct (decide (RR_LogBackend req = "file")), (decide (RR_LogBackend req = "db")),
      (decide (RR_DatabaseURL req = [])); tauto. }
  destruct (negb _ && negb _) eqn:E1.
  { left. eexists _, w. split; [reflexivity|]. intros req' Ha. pose proof (Huniq _ Ha) as ->.
    destruct Ha as [_ Hb]. bool_facts. destruct Hb as [?|[? _]]; congruence. }
  destruct (bool_decide _ && bool_decide _) eqn:E2.
  { left. eexists _, w. split; [reflexivity|]. intros req' Ha. pose proof (Huniq _ Ha) as ->.
    destruct Ha as [_ Hb]. bool_facts. destruct Hb as [Hb|[_ ?]]; congruence. }
  assert (accepted args req) as Ha.
  { split; [by eexists|]. destruct Hd as [?|[?|Hn]]; [by left|by right|]. exfalso. apply Hn.
    apply andb_false_iff in E1. rewrite !negb_false_iff, !bool_decide_eq_true in E1.
    apply andb_false_iff in E2. rewrite !bool_decide_eq_false in E2. naive_solver. }
  unfold call. cbn [fst snd]. destruct (buildStore _ _ _ _ w) as [[e|] w1] eqn:Es.
  - left. eexists _, w1. split; [reflexivity|]. intros req' Ha'. pose proof (Huniq _ Ha') as ->.
    unfold store_fails. by rewrite Es.
  - right. exists req, w1. split_and!; [done|done|]. unfold store_fails. rewrite Es. cbn. by intros ?.
Qed.


(** Whether the flags are valid depends on neither the identifier nor the time. *)
Lemma ConverseCommand_valid stat f id now l :
  ConverseCommand stat f [] 0 = inr l -> exists l', ConverseCommand stat f id now = inr l'.
Proof using Type.
  unfold ConverseCommand, runNPeerConverse, check.
  repeat (case_match; try discriminate); intros _; by eexists.
Qed.

Lemma emit_turns_spec ts w outs : exists w' es,
  emit_turns ts (w, outs) = (w', outs ++ zip (OutTurn <$> ts) es) /\ length es = length ts.
Proof using Type.
  unfold outputs in *. revert w outs. induction ts as [|t ts IH]; intros w outs;
    [exists w, []; by rewrite app_nil_r|].
  cbn [emit_turns]. assert (exists e w1, emit (OutTurn t) (w, outs) = (e, (w1, outs ++ [(OutTurn t, e)])))
    as (e & w1 & ->) by (unfold emit; cbn [fst snd]; destruct (c_Write (OutTurn t) w) as [e w1]; by exists e, w1).
  cbn [snd]. destruct (IH w1 (outs ++ [(OutTurn t, e)])) as (w' & es & -> & Hl). exists w', (e :: es).
  rewrite <- app_assoc. cbn in *. by rewrite Hl.
Qed.

(** The turns of the stream are those of the run, if the schedule has the bus
    carry what the run published, in that order. *)
Definition stream_follows (l : launch) (ms : list (gostring * BusMessage)) (w : World) : Prop :=
  let id := C_ID (deps_Conversation (ln_deps l)) in
  foreign_all id (new_streamer, Bus.New []) (c_Schedule ms w) = true /\ turn_messages id (c_Schedule ms w) = snd <$> ms.

(** The output of a validated command once its store is open, and its code. *)
Definition writes_result (l : launch) (w : World) (code : Z) (outs : outputs) (r : FinalResult) : Prop :=
  exists w' log es e, Broker.Run (ln_deps l) 500 (w, []) = (Some r, (w', log))
  /\ outs = zip (OutTurn <$> streamed l (sent log) w') es ++ [(OutFinal r, e)]
  /\ length es = length (streamed l (sent log) w')
  /\ (ln_stream l = false -> streamed l (sent log) w' = [])
  /\ (stream_follows l (sent log) w' -> sublist (streamed l (sent log) w') (json_turn <$> appended log))
  /\ code = if bool_decide (e = None) then exit_code r else 1.

(** The run of a validated command, from the open store on. *)
Lemma run_converse_spec l w :
  random_ok (World := World) (Transport := PeerID) -> deps_ok (ln_deps l) ->
  Z.max 1 (MaxTurns (deps_Conversation (ln_deps l))) <= 500 ->
  exists code w' outs, run_converse 500 l (w, []) = (Some code, (w', outs))
  /\ match c_filestore_New (ln_logPath l) false w with
     | (Some _, _) => code = 1 /\ outs = []
     | (None, w1) => exists r, writes_result l w1 code outs r
         /\ Z.of_nat (length (FR_Turns r)) <= Z.max 1 (MaxTurns (deps_Conversation (ln_deps l)))
     end.
Proof using cmd broker.
  intros Hrand Hok Hm. unfold run_converse, call. cbn [fst snd].
  destruct (c_filestore_New (ln_logPath l) false w) as [[e|] w1]; [by exists 1, w1, []|].
  destruct (Run_spec (ln_deps l) 500 w1 Hok Hrand Hm) as (r & w2 & log & HR & Hl).
  cbn [fst snd]. rewrite HR. cbn [fst snd].
  destruct (emit_turns_spec (streamed l (sent log) w2) w2 []) as (w3 & es & -> & Hes).
  unfold WriteJSON, emit. cbn [fst snd app]. destruct (c_Write (OutFinal r) w3) as [e w4].
  do 3 eexists. split; [reflexivity|]. exists r. split.
  - exists w2, log, es, e. split_and!; try done.
    + unfold streamed. by intros ->.
    + intros [Hf Ht]. unfold streamed. destruct (ln_stream l); [|apply sublist_nil_l].
      eapply stream_of_log; try done. apply New_ok, Forall_nil_2.
  - apply (run_log_facts _ _ _ Hok) in Hl. by apply turns_bound in Hl.
Qed.

Lemma ConverseCommand_stream stat f id now l :
  ConverseCommand stat f id now = inr l -> ln_stream l = streamTurns f.
Proof using Type.
  unfold ConverseCommand, runNPeerConverse, check.
  repeat (case_match; try discriminate); by intros [= <-].
Qed.

(** C21: [converse] from its arguments to its exit code.  Whatever the arguments,
    and whatever the peers, the store, the bus and the terminator do, the command
    ends: it does not panic and needs at most 500 rounds.
    - It exits with 2 exactly when the flags are refused, and then writes nothing.
    - Else it opens the store of the launch that the flags, a new identifier and
      the time make.  If that fails it exits with 1 and writes nothing.
    - Else it writes the turns that its goroutine streamed, none unless it was
      asked to, and last the result, and these are the turns and the result of the
      broker's run of that launch; there are at most the turns the flags allow,
      and the code is that of the result, or 1 when it cannot be written. *)
Theorem converse_main_exit (args : list gostring) w (Hrand : random_ok (World := World) (Transport := PeerID)) :
  exists code w' outs, converse_main 500 args (w, []) = (Some code, (w', outs))
  /\ (code = 2 <-> forall f rest, Parse converse_flags args converse_defaults = inr (f, rest) ->
                     exists e, ConverseCommand (fun p => c_Stat p w) f [] 0 = inl e)
  /\ (code = 2 /\ outs = []
      \/ exists f rest raw w1 now w2 l, Parse converse_flags args converse_defaults = inr (f, rest)
         /\ env_random 8 w = (Some raw, w1) /\ env_now w1 = (now, w2)
         /\ ConverseCommand (fun p => c_Stat p w) f ("conv_" ++ EncodeToString raw) now = inr l
         /\ ln_stream l = streamTurns f
         /\ match c_filestore_New (ln_logPath l) false w2 with
            | (Some _, _) => code = 1 /\ outs = []
            | (None, w3) => exists r, writes_result l w3 code outs r
                /\ Z.of_nat (length (FR_Turns r)) <= maxTurns f <= 500
            end).
Proof using cmd broker.
  clear getenv flag_text. unfold converse_main. destruct (Parse _ _ _) as [fe|[f rest]] eqn:Ep.
  { exists 2, w, []. split_and!; auto. split; [|done]. intros _ f rest [=]. }
  cbn [fst]. destruct (ConverseCommand (fun p => c_Stat p w) f [] 0) as [e|l0] eqn:E0.
  { exists 2, w, []. split_and!; auto. split; [|done]. intros _ f' rest' [= <- <-]. by exists e. }
  assert (~ forall f' rest', (inr (f, rest) : flag_error + ConverseFlags * list gostring) = inr (f', rest') ->
      exists e, ConverseCommand (fun p => c_Stat p w) f' [] 0 = inl e) as Hv.
  { intros Hall. destruct (Hall _ _ eq_refl) as [e He]. congruence. }
  unfold call. cbn [fst snd]. destruct (Hrand 8%nat w) as [raw Hraw].
  destruct (env_random 8 w) as [o w1] eqn:Er. cbn in Hraw. subst o.
  cbn [fst snd NewID mbind option_bind]. destruct (env_now w1) as [now w2] eqn:En.
  destruct (ConverseCommand_valid _ _ ("conv_" ++ EncodeToString raw) now _ E0) as [l E1]. rewrite E1.
  pose proof (ConverseCommand_ok _ _ _ _ _ E1) as [Hok Ht Hm _ _ _ _].
  destruct (run_converse_spec l w2 Hrand Hok ltac:(lia)) as (code & w3 & outs & Hr & Hs).
  unfold outputs in *. rewrite Hr. exists code, w3, outs. split; [done|].
  assert (code = 1 \/ code = 0) as Hcode.
  { destruct (c_filestore_New _ _ _) as [[e|] w4]; [left; by destruct Hs|].
    destruct Hs as (r & (w5 & log & es & e & _ & _ & _ & _ & _ & ->) & _).
    pose proof (exit_code_cases r). destruct (bool_decide _); tauto. }
  split; [split; [lia|by intros ?%Hv]|right].
  exists f, rest, raw, w1, now, w2, l. split_and!; try done; [by eapply ConverseCommand_stream|].
  destruct (c_filestore_New _ _ _) as [[e|] w4]; [done|]. destruct Hs as (r & Hr' & Hle). exists r. split; [done|lia].
Qed.

(** A registered provider is one of the two, and what [doctor] probes is what a
    run with no environment of its own spawns. *)
Lemma providerCommand_spawned provider a cwd home cols rows prompt :
  Registry_Get (registry getenv) provider = Ok a ->
  let spec := ad_BuildSpawnSpec a cwd ∅ home cols rows prompt in
  Command spec = fst (providerCommand getenv provider)
  /\ exists more, Args spec = snd (providerCommand getenv provider) ++ more.
Proof.
  unfold Registry_Get, registry, NewRegistry, Register, Adapter.Registry. cbn [foldl].
  destruct (decide (provider = "codex")) as [->|Hx].
  { cbn [ad_ID Claude.New Codex.New]. rewrite lookup_insert_eq. intros [= <-]. cbn zeta. split; [done|].
    cbn. by eexists. }
  destruct (decide (provider = "claude-code")) as [->|Hc].
  { cbn [ad_ID Claude.New Codex.New]. rewrite lookup_insert_ne, lookup_insert_eq by done. intros [= <-].
    cbn zeta. split; [done|]. cbn. exists []. by rewrite app_nil_r. }
  cbn [ad_ID Claude.New Codex.New]. rewrite !lookup_insert_ne, lookup_empty by done. done.
Qed.

(** [doctor] answers for what [run] would do.  For flags it accepts it writes
    one document and exits with 0 exactly when the binary of the provider is on the
    path; and for a registered provider that binary, with the arguments it is
    probed with, is what a run spawns when its environment file sets nothing. *)
Theorem doctor_probes_run (args rest : list gostring) (provider : gostring) w (code : Z) (w' : World)
    (outs : outputs) (Hargs : Parse doctor_flags args "claude-code" = inr (provider, rest))
    (Hrun : DoctorCommand getenv flag_text args (w, []) = (code, (w', outs))) :
  (exists doc e, outs = [(doc, e)])
  /\ (code = 0 \/ code = 1)
  /\ (code = 0 <-> exists path, fst (c_LookPath (fst (providerCommand getenv provider)) w) = Ok path)
  /\ (forall a cwd home cols rows prompt, Registry_Get (registry getenv) provider = Ok a ->
        let spec := ad_BuildSpawnSpec a cwd ∅ home cols rows prompt in
        Command spec = fst (providerCommand getenv provider)
        /\ exists more, Args spec = snd (providerCommand getenv provider) ++ more).
Proof.
  assert (forall a cwd home cols rows prompt, Registry_Get (registry getenv) provider = Ok a ->
    let spec := ad_BuildSpawnSpec a cwd ∅ home cols rows prompt in
    Command spec = fst (providerCommand getenv provider)
    /\ exists more, Args spec = snd (providerCommand getenv provider) ++ more) as Hspec
    by (intros; by apply providerCommand_spawned).
  unfold DoctorCommand in Hrun. rewrite Hargs in Hrun.
  destruct (providerCommand getenv provider) as [command pargs]. unfold call in Hrun. cbn [fst snd] in *.
  destruct (c_LookPath command w) as [[path|e] w1]; cbn [fst snd] in *.
  - destruct (c_CombinedOutput path _ w1) as [[out err] w2]. cbn [fst snd] in Hrun.
    destruct (DetectRTK provider w2) as [rtk w3]. unfold report, WriteJSON, emit in Hrun. cbn [fst snd app] in Hrun.
    destruct (c_Write _ w3) as [e w4]. injection Hrun as <- <- <-.
    split_and!; try done; [by eexists _, e|by left|]. split; [by exists path|done].
  - destruct (DetectRTK provider w1) as [rtk w3]. unfold report, WriteJSON, emit in Hrun. cbn [fst snd app] in Hrun.
    destruct (c_Write _ w3) as [e' w4]. injection Hrun as <- <- <-.
    split_and!; try done; [by eexists _, e'|by right|]. split; [done|]. by intros [path Hp].
Qed.

(** The hook is found exactly when a file of the provider can be read and has a
    marker; reading a file changes nothing. *)
Lemma rtk_hook_found provider home w :
  (forall p v, snd (o_ReadFile p v) = v) ->
  fst (isRTKHookInstalled provider home w) = true <->
  home <> [] /\ exists p data m, p ∈ rtk_paths provider home /\ fst (o_ReadFile p w) = Ok data
    /\ m ∈ rtk_markers /\ Contains data m = true.
Proof.
  intros Hread. unfold isRTKHookInstalled. case_bool_decide as Hh; [split; [done|by intros [? _]]|].
  assert (fst (any_rtk_file (rtk_paths provider home) w) = true <-> exists p data m, p ∈ rtk_paths provider home
    /\ fst (o_ReadFile p w) = Ok data /\ m ∈ rtk_markers /\ Contains data m = true) as ->; [|tauto].
  generalize (rtk_paths provider home) as paths. induction paths as [|p paths IH]; cbn [any_rtk_file].
  { split; [done|]. intros (p & d & m & Hin & _). by apply elem_of_nil in Hin. }
  pose proof (Hread p w) as Hw. destruct (o_ReadFile p w) as [[data|e] w1] eqn:Er; cbn [fst snd] in *; subst w1.
  - destruct (existsb (Contains data) rtk_markers) eqn:Ex.
    + split; [intros _|done]. apply existsb_exists in Ex as (m & Hm%list_elem_of_In & Hc).
      exists p, data, m. split_and!; [by left|by rewrite Er|done|done].
    + rewrite IH. split; intros (p' & d & m & Hin & Hd & Hm & Hc).
      * exists p', d, m. split_and!; try done. by right.
      * apply elem_of_cons in Hin as [->|Hin]; [|by exists p', d, m].
        rewrite Er in Hd. injection Hd as <-. exfalso.
        assert (existsb (Contains data) rtk_markers = true); [|congruence].
        apply existsb_exists. exists m. split; [by apply list_elem_of_In|done].
  - rewrite IH. split; intros (p' & d & m & Hin & Hd & Hm & Hc).
    + exists p', d, m. split_and!; try done. by right.
    + apply elem_of_cons in Hin as [->|Hin]; [|by exists p', d, m]. rewrite Er in Hd. done.
Qed.
End Exits.

(** ** The theorems at concrete command lines *)
Module CmdSim.

(** A system where every call succeeds, and no process ever says anything. *)
#[global] Instance orch : OrchEnv Z nat := {|
  o_LoadEnvFile _ w := (Ok ∅, w);
  o_ReadFile _ w := (Err (ErrNew "no file"), w);
  o_UserHomeDir w := (Ok "/home/me", w);
  o_random n w := (Ok (replicate n "0"%char), w);
  o_now w := (w, w + 1);
  o_Spawn _ w := (Ok 7%nat, w);
  o_Terminate _ _ w := w;
  o_Write _ _ w := (None, w);
  o_events _ _ w := ([], w);
  o_CreateSession _ w := (None, w);
  o_UpdateSession _ _ w := (None, w);
  o_AppendTurn _ w := (None, w);
  o_PeekTurns _ _ w := (Ok [], w);
  o_AppendStreamEvent _ w := (None, w);
|}.

Definition all_ok (World : Type) : CmdEnv World := {|
  c_filestore_New _ _ w := (None, w);
  c_pgstore_New _ w := (None, w);
  c_Close w := w;
  c_Getwd w := (Ok "/work", w);
  c_Stat _ _ := Some true;
  c_MkdirAll _ w := (None, w);
  c_Write _ w := (None, w);
  c_Schedule ms _ := EvStream :: (ms ≫= fun m => [EvBus (OpPublish (fst m) (snd m)); EvStream]);
  c_LookPath f w := (Ok ("/usr/bin/" ++ f), w);
  c_Output _ _ w := (("rtk 1.0", None), w);
  c_CombinedOutput _ _ w := (("1.2.3", None), w);
  c_NewServer _ w := (None, w);
  c_ListenAndServe _ w := (None, w);
|}.

#[global] Instance cmd : CmdEnv Z := all_ok Z.
#[global] Instance cmd_broker : CmdEnv Sim.world := all_ok Sim.world.

Definition env0 (_ : gostring) : gostring := [].
Definition text0 (_ : flag_error) : gostring := "bad flag".

Definition run_args : list gostring := ["--prompt"; "say hi"; "-provider=codex"; "--timeout=0x10"; "more"].
Definition ran : Z * (Z * outputs) := RunCommand env0 text0 run_args (0, []).
Definition probed : Z * (Z * outputs) := DoctorCommand env0 text0 ["-provider"; "codex"] (0, []).
Definition document : RunResult :=
  match snd (snd ran) with (OutResult r, _) :: _ => r | _ => ErrorResult ErrorInternal [] end.

Lemma exits_0 (r : Z * (Z * outputs)) : fst r = 0 -> r = (0, (fst (snd r), snd (snd r))).
Proof. by destruct r as [c [w o]]; intros [= ->]. Qed.
Lemma ran_eq : ran = (0, (fst (snd ran), snd (snd ran))).
Proof. apply exits_0. vm_compute. reflexivity. Qed.
Lemma probed_eq : probed = (0, (fst (snd probed), snd (snd probed))).
Proof. apply exits_0. vm_compute. reflexivity. Qed.
End CmdSim.


(** A command of two peers that streams: it writes its turns and then its result. *)
Definition converse_args : list gostring :=
  ["--peer=id=alice,provider=codex"; "--peer"; "id=bob,provider=mock"; "-seed"; "hello"; "--max-turns=2"].
Definition conversed : option Z * (Sim.world * outputs) := converse_main 500 converse_args (Sim.start, []).

Lemma conversed_outputs : fst conversed = Some 0
  /\ ((fun o => match fst o with OutTurn t => T_Response t | OutFinal r => C_Status (FR_Conversation r) | _ => [] end)
      <$> snd (snd conversed)) = ["one
<<NEXT: a>>"; "two
<<END>>"; "max_turns_hit"]%go.
Proof. vm_compute. by split. Qed.

Lemma conversed_launched : match Parse converse_flags converse_args converse_defaults with
  | inr (f, _) => maxTurns f = 2
  | inl _ => False
  end.
Proof. vm_compute. reflexivity. Qed.

Lemma converse_main_exit_witness :
  fst conversed = Some 0 /\ length (snd (snd conversed)) = 3%nat
  /\ exists l w r, writes_result l w 0 (snd (snd conversed)) r /\ Z.of_nat (length (FR_Turns r)) <= 2.
Proof.
  destruct conversed_outputs as [Hc Ho]. split; [exact Hc|].
  split; [apply (f_equal length) in Ho; by rewrite length_fmap in Ho|].
  destruct (converse_main_exit converse_args Sim.start Sim.random_ok) as (code & w' & outs & H & _ & [[-> _]|Hr]).
  - unfold conversed in Hc. rewrite H in Hc. discriminate Hc.
  - destruct Hr as (f & rest & raw & w1 & now & w2 & l & Hp & _ & _ & _ & _ & r & Hw & Hl).
    pose proof conversed_launched as Hf. rewrite Hp in Hf. rewrite Hf in Hl.
    unfold conversed in *. rewrite H in *. cbn [fst snd] in *. apply Some_inj in Hc as ->. exists l, w2, r. split; [exact Hw|lia].
Defined.

Lemma doctor_probes_run_witness :
  fst CmdSim.probed = 0 /\ exists doc e, snd (snd CmdSim.probed) = [(doc, e)].
Proof.
  split; [vm_compute; reflexivity|].
  destruct (doctor_probes_run CmdSim.env0 CmdSim.text0 ["-provider"; "codex"] [] "codex" 0
    0 (fst (snd CmdSim.probed)) (snd (snd CmdSim.probed))
    ltac:(vm_compute; reflexivity) CmdSim.probed_eq) as [(doc & e & H) _].
  by exists doc, e.
Defined.
